(* ===== verification/_CoqProject ===== *)
-Q . S2P
Prelude.v
Shared.v
TaskModel.v
PlanModel.v
SourceRef.v
RegistryModel.v
Events.v
Gate.v
EventStore.v
Conflict.v
TaskStore.v
RelationStore.v
PlanStore.v
SourceChain.v
SourcePolicy.v
RunStore.v
ActivityStore.v
ClaimStore.v
PlanLogic.v
LeaseStore.v
ArtifactStore.v
DocumentStore.v
RuleStore.v
RuleEngine.v
WorkStore.v
ProjectStore.v
SnapshotStore.v
Outbox.v
Replica.v
Delivery.v
Mirror.v
Convergence.v
Auth.v
Credentials.v
AuthLayer.v
Pairing.v
Idempotency.v
Handler.v
TaskCommands.v
SourceIntake.v
PlanCommands.v
DocumentCommands.v
RunCommands.v
RegistryCommands.v
Reconcile.v
Dispatch.v
ReplicaServer.v
HandlerFacts.v
Projection.v
TaskLifecycle.v
TaskRows.v
TaskCompletion.v
Invariants.v
Outcome.v
Fixtures.v
Readiness.v
ProjectScope.v
ReplicaRuns.v
Runs.v
