(* ===== verification/Prelude.v ===== *)
(** * Daruma: a verification library for the task and plan runtime

    Daruma is an event-sourced tracker that people and agents share.  A client
    sends a command; the command handler reads the projections, builds a batch of
    events, asks a lifecycle gate, appends the batch to an event log and lets
    every projection apply it.  Devices run the same handler on a replica of the
    projections, queue their events and catch up with the log of the server.

    ** Parts and files

    Below, a path is under src/crates/ unless it starts with apps/.

    - Shared data.  [Prelude] (text, results, lists, records) and [Shared]
      (shared/: errors, typed ids, path leases, scope paths).
    - Domain (domain/).  [TaskModel] (tasks, actors, relations, pipeline),
      [PlanModel] (plans, runs, projects, comments, work units, handoffs),
      [SourceRef] (source references), [RegistryModel] (documents, artifacts,
      rules, evidence, leases).
    - Events (events/).  [Events] has the enumeration and the envelope,
      [EventStore] the log of storage/event_store.rs.
    - Projections (storage/).  One file per table or group of tables: [TaskStore],
      [RelationStore] (with core/relation_enforcement.rs), [PlanStore],
      [RunStore], [ActivityStore], [ClaimStore], [LeaseStore], [ArtifactStore],
      [DocumentStore], [RuleStore], [WorkStore], [ProjectStore].
    - Decisions (core/).  [Gate] (lifecycle_gate.rs), [RuleEngine], [PlanLogic]
      (plan_concurrency.rs, plan_readiness.rs), [SourceChain], [SourcePolicy] and
      [SourceIntake] (plan_source.rs), [Conflict].
    - The command handler (core/handler.rs).  [Handler] has its state and monad,
      [TaskCommands], [PlanCommands], [DocumentCommands], [RunCommands] and
      [RegistryCommands] one definition per arm, [Reconcile] the closing of plans,
      [Dispatch] the path of one command from its arm to the projections.
    - Replication.  [SnapshotStore] (storage/snapshot_repo.rs), [Outbox] and
      [Replica] (apps/desktop/), [ReplicaServer] (the endpoints of
      apps/server/src/routes/mod.rs and the client of apps/desktop/src/remote.rs).
    - Access.  [Auth] (auth/), [Credentials] (storage/token_repo.rs,
      device_repo.rs), [AuthLayer] (apps/server/src/middleware/auth.rs, the latches
      of sync/src/hub.rs), [Pairing] (discovery/src/pairing.rs and its route),
      [Idempotency] (storage/idempotency_repo.rs, the command keys of routes/mod.rs
      and ws.rs), [ProjectScope] (routes/project_scope.rs and the command
      endpoint).
    - Proofs about several parts.  [HandlerFacts] and [Projection] (what a batch
      does to a task), [TaskLifecycle], [TaskCompletion], [Invariants], [Outcome]
      (guarantees of a dispatch), [Readiness] (can_start of plan_readiness.rs and the
      advice of routes/mod.rs, against a dispatch), [TaskRows] (the rows a dispatch
      may write); [Delivery], [Mirror], [Convergence] (guarantees
      of replication).  [Fixtures], [Runs] and [ReplicaRuns] evaluate concrete
      systems and discharge the hypotheses of those theorems there.

    ** How code becomes definitions

    A struct is a Module that holds its record, so fields keep their names
    ([Task.status]); an enum is an inductive type with the constructors of the
    source.  A table is a finite map from its primary key, or a list of rows where
    the order of insertion is observable; UNIQUE, CHECK and foreign keys are part
    of the operations that could break them.  A repository method is a function
    from the table, an [async fn] of the handler a computation of
    [Handler.M A := St -> Result CoreError A * St], in which a write made before an
    error stays made, as in the code.  Clients of a server use [Outbox.Client.M],
    which adds [None] for a loop that ran out of fuel.  A transaction is one
    definition that changes nothing when it fails.  Clocks and drawn ids are
    arguments; [Env] collects them for the handler.  A message is the literal that
    starts it, codes are exact.  An integer column is [Z], a bit mask [N] of 32
    bits; text is a list of code points.

    Code outside the repository is a parameter: regular expressions, UUID and JSON
    text, Argon2, SHA-256, HMAC, the Bloom filter.  A theorem that relies on such code names
    the assumption (a parser undoes a printer, a MAC is injective).

    Interfaces are type classes: [PlanRepository] and [LifecycleGate] of core/,
    [TokenStore] of auth/, [ReplicaSource] and [RemoteEventSink] of apps/desktop/,
    each with the instance the program wires.  [DeliveryLaws] and [MirrorLaws] are
    what replication relies on of a server; [ReplicaServer] proves them of the
    endpoints over a lossy wire.  [Delivery.Logged] puts the answers given so far
    next to any such server ([AnswerRecord]), so that a theorem can say what the
    server answered.

    ** What is proved

    - Commands: a completed task has no open blocker, but for an update whose patch
      sets its own status to done ([TaskCompletion]); blocking stays acyclic
      ([Invariants]); a refused command records nothing but what is named, an
      accepted one exactly its events ([Outcome]); nothing passes the gate
      ([Outcome]); a pipeline gives a task its status ([TaskLifecycle]); only a plan
      that the events of its batch finish is closed, and none stays behind
      ([Reconcile], against a reading of the events that does not use the overlay of
      the code); a run completes exactly when its contract is met ([RunCommands]);
      what the server foretells of a start and of plans that stay open is what
      happens ([Readiness]).
    - Exclusion: claims ([ClaimStore]), leases with fencing ([LeaseStore]), work
      units ([WorkStore]), artifacts ([ArtifactStore]) under any interleaving of
      their transactions.
    - Decisions: the next task, waves and parents of plans ([PlanLogic]); cycles
      and blockers ([RelationStore]); the gate's decision and its limits
      ([RuleEngine]), effective rules and evidence ([RuleStore]); merging
      ([Conflict]); credentials never reach a stored reference ([SourceRef]).
    - Log and read models: append-only, paging, telemetry purge ([EventStore]); the
      feed's backfill ([ActivityStore]); snapshots equal a replay
      ([SnapshotStore]).
    - Replication: no local event is lost, a flush settles the head of the queue as
      the server answered ([Delivery]); a batch is taken once and projected event by
      event, against the list of projectors in [ReplicaServer.ReplicaSpec]; after a sync a task
      row is the server's, with the waiting local events in their place
      ([Convergence]).
    - Access: a bearer is accepted exactly when a usable row matches ([Auth]);
      revocation is final ([Credentials]) and immediate in the presence of the
      cache and of requests in flight ([AuthLayer]); a ticket pairs one device
      ([Pairing]); a repeated request runs its command once ([Idempotency]); a token
      restricted to projects leaves other tasks alone ([ProjectScope]).

    ** Bounds and fuel

    Loops over data are structural or take fuel that a theorem shows to suffice:
    the number of edges for the graph searches, the number of plans for walks up
    parents, the runs plus one for the parents of a run, the rows of the log
    plus one for paging ([fold_log], [feed_from], [overtaken_from], the
    backfill), the nodes offered for source chains, the open members for waves.
    Loops over the pages of a server end because each page moves the cursor of a
    finite log; the laws of the server say so. Constants of the source (depths,
    caps, page sizes, lifetimes) are kept.

    ** Not modelled

    Rendering, routing and decoding of HTTP requests beyond the endpoints named
    above; the MCP server, the command line, the desktop shell, prompts and calls
    to language models, webhooks and live fan-out: they translate between a wire
    and the operations modelled here and keep no state these rely on.  Full-text
    search, embeddings, capability profiles and the rate limiter rest on SQLite's
    tokenizer or floating point.  Rows of [entity_versions] other than the ledger
    numbers of documents, and the read model of the workspace graph, are read by
    no modelled operation.  Two convergence theorems are missing because they would
    be false: one about tasks a split created (the order check of a device compares
    the subjects of events, and a split names its parent only), and one about a
    first sync over local work ([ReplicaRuns] shows the run). *)

From Stdlib Require Export ZArith NArith Lia List.
From Stdlib Require Export Strings.Ascii Strings.String.
From stdpp Require Export base decidable countable gmap list strings sorting.
Export ListNotations.

Declare Scope daruma_scope.
Delimit Scope daruma_scope with daruma.
Open Scope daruma_scope.

(** ** Text

    A Rust [String] is a sequence of Unicode scalar values; [Str] keeps them as
    code points.  [lit] embeds the literals of the source, which a Rocq string
    holds as UTF-8. *)

Abbreviation Str := (list N).

Fixpoint utf8_decode (bytes : list N) : Str :=
  match bytes with
  | [] => []
  | b :: bytes =>
      if (b <? 192)%N then b :: utf8_decode bytes
      else match bytes with
           | c :: bytes =>
               if (b <? 224)%N then ((b - 192) * 64 + (c - 128))%N :: utf8_decode bytes
               else match bytes with
                    | d :: bytes =>
                        if (b <? 240)%N
                        then (((b - 224) * 64 + (c - 128)) * 64 + (d - 128))%N :: utf8_decode bytes
                        else match bytes with
                             | e :: bytes =>
                                 ((((b - 240) * 64 + (c - 128)) * 64 + (d - 128)) * 64 + (e - 128))%N
                                 :: utf8_decode bytes
                             | [] => []
                             end
                    | [] => []
                    end
           | [] => []
           end
  end.
Definition lit (s : string) : Str :=
  utf8_decode (map N_of_ascii (list_ascii_of_string s)).
Example lit_arrow : lit "→—a" = [8594%N; 8212%N; 97%N].
Proof. reflexivity. Qed.

(** [char::is_whitespace]: the Unicode [White_Space] property. *)
Definition is_whitespace (c : N) : bool :=
  ((9 <=? c) && (c <=? 13) || (c =? 32) || (c =? 133) || (c =? 160)
   || (c =? 5760) || ((8192 <=? c) && (c <=? 8202)) || (c =? 8232)
   || (c =? 8233) || (c =? 8239) || (c =? 8287) || (c =? 12288))%N.

Fixpoint drop_while {A} (f : A -> bool) (l : list A) : list A :=
  match l with
  | [] => []
  | x :: l' => if f x then drop_while f l' else l
  end.

(** [str::trim_start], [str::trim_end], [str::trim]. *)
Definition trim_start_by (f : N -> bool) (s : Str) : Str := drop_while f s.
Definition trim_end_by (f : N -> bool) (s : Str) : Str :=
  rev (drop_while f (rev s)).
Definition trim (s : Str) : Str :=
  trim_end_by is_whitespace (trim_start_by is_whitespace s).

(** [str::len]: the length in UTF-8 bytes. *)
Definition utf8_len (c : N) : Z :=
  if (c <? 128)%N then 1 else if (c <? 2048)%N then 2
  else if (c <? 65536)%N then 3 else 4.
Definition byte_len (s : Str) : Z := foldr (fun c n => (utf8_len c + n)%Z) 0%Z s.

Definition str_is_empty (s : Str) : bool :=
  match s with [] => true | _ => false end.

(** [str::replace] of one character by another, [str::split] on a character and
    [[_]::join]. *)
Definition replace_char (a b : N) (s : Str) : Str :=
  map (fun c => if (c =? a)%N then b else c) s.

Fixpoint split_on (c : N) (s : Str) : list Str :=
  match s with
  | [] => [[]]
  | x :: s' =>
      if (x =? c)%N then [] :: split_on c s'
      else match split_on c s' with
           | [] => [[x]]
           | w :: ws => (x :: w) :: ws
           end
  end.

Fixpoint join_on (c : N) (ws : list Str) : Str :=
  match ws with
  | [] => []
  | [w] => w
  | w :: ws' => w ++ c :: join_on c ws'
  end.

Fixpoint strip_prefix (p s : Str) : option Str :=
  match p, s with
  | [], _ => Some s
  | a :: p', b :: s' => if (a =? b)%N then strip_prefix p' s' else None
  | _ :: _, [] => None
  end.
Definition starts_with (p s : Str) : bool :=
  match strip_prefix p s with Some _ => true | None => false end.

Definition is_ascii_upper (c : N) : bool := ((65 <=? c) && (c <=? 90))%N.
Definition is_ascii_lower (c : N) : bool := ((97 <=? c) && (c <=? 122))%N.
Definition is_ascii_digit (c : N) : bool := ((48 <=? c) && (c <=? 57))%N.
Definition is_ascii_alphabetic (c : N) : bool := is_ascii_upper c || is_ascii_lower c.
Definition is_ascii_alphanumeric (c : N) : bool :=
  is_ascii_alphabetic c || is_ascii_digit c.
Definition to_ascii_uppercase (s : Str) : Str :=
  map (fun c => if is_ascii_lower c then (c - 32)%N else c) s.
Definition to_ascii_lowercase (s : Str) : Str :=
  map (fun c => if is_ascii_upper c then (c + 32)%N else c) s.

(** The order of [String]: UTF-8 keeps the order of code points, so comparing
    bytes is comparing code points. *)
Fixpoint str_le (a b : Str) : bool :=
  match a, b with
  | [], _ => true
  | _ :: _, [] => false
  | x :: a', y :: b' => (x <? y)%N || ((x =? y)%N && str_le a' b')
  end.

(** ** Optional values and ordered rows *)

(** [Option::or]. *)
Definition or_else {A} (a b : option A) : option A :=
  match a with Some x => Some x | None => b end.

(** SQL's [MAX]: nothing for no rows. *)
Definition max_of (l : list Z) : option Z :=
  foldr (fun n m => Some (match m with Some m => Z.max n m | None => n end)) None l.

(** A stable insertion sort: the order [ORDER BY key] gives to rows that are
    stored in insertion order, and the order of [sort_by_key]. *)
Section SortBy.
Context {A : Type} (le : A -> A -> bool).

Fixpoint insert_by (x : A) (l : list A) : list A :=
  match l with
  | [] => [x]
  | y :: l' => if le x y then x :: l else y :: insert_by x l'
  end.

Fixpoint sort_by (l : list A) : list A :=
  match l with
  | [] => []
  | x :: l' => insert_by x (sort_by l')
  end.

Lemma insert_by_perm x l : insert_by x l ≡ₚ x :: l.
Proof.
  induction l as [|y l IH]; simpl; [done|].
  destruct (le x y); [done|]. rewrite IH. apply Permutation_swap.
Qed.

Lemma sort_by_perm l : sort_by l ≡ₚ l.
Proof. induction l as [|x l IH]; simpl; [done|]. by rewrite insert_by_perm, IH. Qed.

Lemma elem_of_sort_by x l : x ∈ sort_by l <-> x ∈ l.
Proof. by rewrite sort_by_perm. Qed.

Lemma length_sort_by l : length (sort_by l) = length l.
Proof. by rewrite sort_by_perm. Qed.

Context (le_total : forall x y, le x y = true \/ le y x = true).
Context (le_trans : forall x y z, le x y = true -> le y z = true -> le x z = true).

Lemma insert_by_sorted x l :
  StronglySorted (fun a b => le a b = true) l ->
  StronglySorted (fun a b => le a b = true) (insert_by x l).
Proof.
  induction l as [|y l IH]; intros Hs; simpl; [repeat constructor|].
  apply StronglySorted_inv in Hs as [Hl Hy].
  destruct (le x y) eqn:E.
  - constructor; [by constructor|]. constructor; [done|].
    eapply Forall_impl; [exact Hy|]. intros z Hz; simpl in *. eauto.
  - constructor; [by apply IH|]. rewrite insert_by_perm. constructor; [|done].
    destruct (le_total x y); congruence.
Qed.

Lemma sort_by_sorted l : StronglySorted (fun a b => le a b = true) (sort_by l).
Proof. induction l; simpl; [constructor|by apply insert_by_sorted]. Qed.
End SortBy.

(** [Vec::dedup]: equal neighbours become one. *)
Fixpoint dedup {A} `{EqDecision A} (l : list A) : list A :=
  match l with
  | [] => []
  | x :: l' =>
      match dedup l' with
      | y :: l'' => if bool_decide (x = y) then y :: l'' else x :: y :: l''
      | [] => [x]
      end
  end.

(** ** Results

    [Res A] is Rust's [Result<A, E>]; the error type is a parameter here and is
    fixed to [CoreError] in [Shared]. *)

Inductive Result (E A : Type) : Type :=
| Ok (a : A)
| Err (e : E).
Arguments Ok {E A} a.
Arguments Err {E A} e.

Definition rbind {E A B} (m : Result E A) (f : A -> Result E B) : Result E B :=
  match m with Ok a => f a | Err e => Err e end.

Definition is_ok {E A} (m : Result E A) : bool :=
  match m with Ok _ => true | Err _ => false end.

Lemma rbind_ok {E A B} (m : Result E A) (f : A -> Result E B) b :
  rbind m f = Ok b <-> exists a, m = Ok a /\ f a = Ok b.
Proof.
  destruct m; simpl; split; [eauto|by intros (? & [= <-] & ?)|done|by intros (? & ? & ?)].
Qed.

(** ** Record update

    [r <| field := v |>] is Rust's [r.field = v].  A record declares once how it
    is rebuilt from its projections ([Rebuild]); the setter of a field is found
    by instance resolution. *)
Class Rebuild (R : Type) := rebuild : R -> R.
Class Setter {R T : Type} (proj : R -> T) := set_field : (T -> T) -> R -> R.
Arguments set_field {R T} proj {_} _ _.

Ltac solve_setter :=
  match goal with
  | |- @Setter ?R ?T ?proj =>
      let f := fresh "f" in
      let r := fresh "r" in
      intros f r;
      let c := eval hnf in (@rebuild R _ r) in
      let p := eval pattern (proj r) in c in
      match p with ?F _ => let v := eval cbv beta in (F (f (proj r))) in exact v end
  end.
#[export] Hint Extern 1 (Setter _) => solve_setter : typeclass_instances.

Notation "r <| proj := v |>" := (set_field proj (fun _ => v) r)
  (at level 12, left associativity, proj at next level, v at level 99,
   format "r  <| proj  :=  v |>") : daruma_scope.

(** ** Automation

    [bsplit] splits the boolean conditions of the context into propositions. *)

Ltac bsplit :=
  repeat match goal with
  | H : andb _ _ = true |- _ => apply andb_prop in H as [? ?]
  | H : orb _ _ = false |- _ => apply orb_false_iff in H as [? ?]
  | H : negb _ = true |- _ => apply negb_true_iff in H
  | H : negb _ = false |- _ => apply negb_false_iff in H
  | H : bool_decide _ = true |- _ => apply bool_decide_eq_true in H
  | H : bool_decide _ = false |- _ => apply bool_decide_eq_false in H
  | H : N.eqb _ _ = true |- _ => apply N.eqb_eq in H
  | H : N.eqb _ _ = false |- _ => apply N.eqb_neq in H
  | H : Z.eqb _ _ = true |- _ => apply Z.eqb_eq in H
  | H : Z.eqb _ _ = false |- _ => apply Z.eqb_neq in H
  end.

(** ** Lemmas on text *)

Create HintDb daruma.
Create Rewrite HintDb daruma.

Lemma drop_while_none {A} (f : A -> bool) l :
  Forall (fun x => f x = false) l -> drop_while f l = l.
Proof. destruct 1 as [|x l Hx Hl]; simpl; [done|by rewrite Hx]. Qed.

Lemma Forall_drop_while {A} (P : A -> Prop) (f : A -> bool) l :
  Forall P l -> Forall P (drop_while f l).
Proof. induction 1; simpl; [done|]. case_match; auto. Qed.

Lemma Forall_list_filter {A} (P : A -> Prop) (f : A -> bool) l :
  Forall P l -> Forall P (List.filter f l).
Proof. induction 1; simpl; [done|]. case_match; auto. Qed.

Lemma drop_while_idemp {A} (f : A -> bool) l :
  drop_while f (drop_while f l) = drop_while f l.
Proof. induction l as [|x l IH]; simpl; [done|]. destruct (f x) eqn:E; simpl; [done|by rewrite E]. Qed.

Lemma drop_while_head {A} (f : A -> bool) l x l' :
  drop_while f l = x :: l' -> f x = false.
Proof. induction l as [|y l IH]; simpl; [done|]. destruct (f y) eqn:E; [auto|by intros [= -> ->]]. Qed.

Lemma drop_while_noop {A} (f : A -> bool) l :
  match l with [] => True | x :: _ => f x = false end -> drop_while f l = l.
Proof. destruct l; simpl; [done|by intros ->]. Qed.

(** A string whose ends are not white space is its own trim. *)
Lemma trim_noop (s : Str) :
  (forall x, head s = Some x -> is_whitespace x = false) ->
  (forall x, last s = Some x -> is_whitespace x = false) ->
  trim s = s.
Proof.
  intros Hh Hl. unfold trim, trim_end_by, trim_start_by.
  rewrite (drop_while_noop is_whitespace s); [|destruct s; simpl in *; auto].
  rewrite drop_while_noop; [apply rev_involutive|].
  destruct (rev s) as [|x r] eqn:E; [done|]. apply Hl.
  rewrite <- (rev_involutive s), E. simpl. by rewrite last_snoc.
Qed.

Lemma split_on_nonnil c s : split_on c s <> [].
Proof. destruct s; simpl; [done|]. repeat case_match; done. Qed.

Lemma split_on_free c w :
  Forall (fun x => x <> c) w -> split_on c w = [w].
Proof.
  induction 1 as [|x w Hx _ IH]; simpl; [done|].
  apply N.eqb_neq in Hx. by rewrite Hx, IH.
Qed.

Lemma split_on_app c w s :
  Forall (fun x => x <> c) w -> split_on c (w ++ c :: s) = w :: split_on c s.
Proof.
  induction 1 as [|x w Hx _ IH]; simpl; [by rewrite N.eqb_refl|].
  apply N.eqb_neq in Hx. by rewrite Hx, IH.
Qed.

Lemma split_join c ws :
  ws <> [] -> Forall (Forall (fun x => x <> c)) ws ->
  split_on c (join_on c ws) = ws.
Proof.
  induction ws as [|w ws IH]; intros Hn Hf; [done|].
  apply Forall_cons in Hf as [Hw Hf]. destruct ws as [|w' ws]; simpl.
  - by apply split_on_free.
  - rewrite split_on_app by done. f_equal. by apply IH.
Qed.

Lemma split_on_pieces c s : Forall (Forall (fun x => x <> c)) (split_on c s).
Proof.
  induction s as [|x s IH]; simpl; [by repeat constructor|].
  destruct (x =? c)%N eqn:E; [by repeat constructor|].
  apply N.eqb_neq in E. destruct (split_on c s) as [|w ws]; [by repeat constructor|].
  apply Forall_cons in IH as [? ?]. by repeat constructor.
Qed.

Lemma join_split c s : join_on c (split_on c s) = s.
Proof.
  induction s as [|x s IH]; simpl; [done|].
  destruct (x =? c)%N eqn:E.
  - apply N.eqb_eq in E as ->. pose proof (split_on_nonnil c s).
    destruct (split_on c s); [done|]. simpl in *. by rewrite IH.
  - pose proof (split_on_nonnil c s). destruct (split_on c s) as [|w ws]; [done|].
    destruct ws; simpl in *; by rewrite IH.
Qed.

(** ** Lemmas on lists *)

Lemma filter_none {A} (p : A -> bool) l : (forall x, x ∈ l -> p x = false) -> List.filter p l = [].
Proof.
  induction l as [|x l IH]; intros H; cbn; [done|]. rewrite H by apply list_elem_of_here.
  apply IH. intros y Hy. apply H. by apply list_elem_of_further.
Qed.
Lemma filter_all {A} (p : A -> bool) l : (forall x, x ∈ l -> p x = true) -> List.filter p l = l.
Proof.
  induction l as [|x l IH]; intros H; cbn; [done|]. rewrite H by apply list_elem_of_here. f_equal.
  apply IH. intros y Hy. apply H. by apply list_elem_of_further.
Qed.

Lemma StronglySorted_list_filter {A} (R : A -> A -> Prop) (p : A -> bool) l :
  StronglySorted R l -> StronglySorted R (List.filter p l).
Proof.
  induction 1 as [|a l _ IH Ha]; cbn; [constructor|]. destruct (p a); [|done].
  constructor; [done|by apply Forall_list_filter].
Qed.

Lemma NoDup_snoc {A} (l : list A) x : NoDup l -> x ∉ l -> NoDup (l ++ [x]).
Proof.
  intros Hl Hx. apply NoDup_app. split; [done|]. split; [|apply NoDup_singleton].
  intros y Hy ->%list_elem_of_singleton. done.
Qed.

Lemma NoDup_map_filter {A B} (f : A -> B) (p : A -> bool) l :
  NoDup (map f l) -> NoDup (map f (List.filter p l)).
Proof.
  induction l as [|x l IH]; cbn; [done|]. intros [Hx Hl]%NoDup_cons.
  destruct (p x); cbn; [|by apply IH]. apply NoDup_cons. split; [|by apply IH].
  intros (y & Hy & [Hin _]%list_elem_of_In%filter_In)%list_elem_of_fmap. apply Hx.
  rewrite Hy. by apply list_elem_of_fmap_2, list_elem_of_In.
Qed.

Lemma NoDup_list_filter {A} (p : A -> bool) (l : list A) :
  NoDup l -> NoDup (List.filter p l).
Proof. intros H. rewrite <- (map_id (List.filter p l)). apply NoDup_map_filter. by rewrite map_id. Qed.

Lemma Forall2_impl_elem {A B} (P Q : A -> B -> Prop) l k :
  (forall x y, x ∈ l -> P x y -> Q x y) -> Forall2 P l k -> Forall2 Q l k.
Proof.
  intros H. induction 1 as [|x y l k Hxy _ IH]; constructor.
  - apply H; [apply list_elem_of_here|done].
  - apply IH. intros. apply H; [by apply list_elem_of_further|done].
Qed.

Lemma max_of_ge l n m : max_of l = Some m -> n ∈ l -> (n <= m)%Z.
Proof.
  revert m. induction l as [|x l IH]; intros m; [by intros _ ?%elem_of_nil|]. unfold max_of in *. cbn.
  intros [= <-] [->|Hn]%elem_of_cons; destruct (foldr _ None l) as [y|] eqn:E; try lia.
  - specialize (IH y eq_refl Hn). lia.
  - destruct l; [by apply elem_of_nil in Hn|done].
Qed.

Lemma max_of_elem l m : max_of l = Some m -> m ∈ l.
Proof.
  revert m. induction l as [|x l IH]; intros m; unfold max_of in *; cbn; [done|].
  destruct (foldr _ None l) as [y|]; intros [= <-]; [|by left].
  destruct (Z.max_spec x y) as [[_ ->]|[_ ->]]; [right; by apply IH|by left].
Qed.

(** ** Lemmas on sorted lists *)
Lemma str_le_total a b : str_le a b = true \/ str_le b a = true.
Proof.
  revert b. induction a as [|x a IH]; intros [|y b]; cbn; auto.
  destruct (N.lt_total x y) as [H|[->|H]].
  - left. by rewrite (proj2 (N.ltb_lt _ _) H).
  - rewrite N.ltb_irrefl, N.eqb_refl. apply IH.
  - right. by rewrite (proj2 (N.ltb_lt _ _) H).
Qed.

Lemma str_le_trans a b c : str_le a b = true -> str_le b c = true -> str_le a c = true.
Proof.
  revert b c. induction a as [|x a IH]; intros [|y b] [|z c]; cbn; try done.
  rewrite !orb_true_iff, !andb_true_iff, !N.ltb_lt, !N.eqb_eq.
  intros [H1|[-> H1]] [H2|[-> H2]]; [left; lia|by left|by left|right; split; [done|by eapply IH]].
Qed.

Lemma str_le_antisym a b : str_le a b = true -> str_le b a = true -> a = b.
Proof.
  revert b. induction a as [|x a IH]; intros [|y b]; cbn; try done.
  rewrite !orb_true_iff, !andb_true_iff, !N.ltb_lt, !N.eqb_eq.
  intros [H1|[-> H1]] [H2|[E H2]]; [lia..|]. f_equal. by apply IH.
Qed.

Lemma elem_of_dedup {A} `{EqDecision A} (l : list A) x : x ∈ dedup l <-> x ∈ l.
Proof.
  induction l as [|y l IH]; cbn; [done|]. rewrite elem_of_cons, <- IH.
  destruct (dedup l) as [|z l']; [set_solver|]. case_bool_decide; set_solver.
Qed.

Lemma NoDup_dedup {A} `{EqDecision A} (le : A -> A -> bool) (l : list A) :
  (forall x y, le x y = true -> le y x = true -> x = y) ->
  StronglySorted (fun a b => le a b = true) l -> NoDup (dedup l).
Proof.
  intros Hanti. induction 1 as [|x l Hl IH Hx]; cbn; [constructor|].
  destruct (dedup l) as [|y l'] eqn:E; [apply NoDup_singleton|].
  case_bool_decide as Hxy; [done|]. apply NoDup_cons. split; [|done]. rewrite <- E in *.
  assert (Hs : StronglySorted (fun a b => le a b = true) (dedup l)).
  { clear -Hl. induction Hl as [|z l Hl IH Hz]; cbn; [constructor|].
    assert (Hz' : Forall (fun b => le z b = true) (dedup l)).
    { rewrite Forall_forall in *. intros b Hb. apply Hz. by apply elem_of_dedup. }
    destruct (dedup l); [repeat constructor|]. case_bool_decide; [done|]. by constructor. }
  intros Hin. rewrite E in Hs, Hin. apply elem_of_cons in Hin as [|Hin]; [done|].
  apply StronglySorted_inv in Hs as [_ Hy]. rewrite Forall_forall in Hy, Hx.
  apply Hxy, Hanti; [|by apply Hy]. apply Hx, elem_of_dedup. rewrite E. apply list_elem_of_here.
Qed.

(** ** Lemmas on relations *)

Lemma tc_mono {A} (R R' : A -> A -> Prop) a b :
  (forall x y, R' x y -> R x y) -> tc R' a b -> tc R a b.
Proof. intros H. induction 1; [apply tc_once; auto|eapply tc_l; eauto]. Qed.

(** A relation with one more edge [u -> v] stays acyclic when [v] does not
    reach [u]: the step shared by task relations and plan parents. *)
Section AddEdge.
Context {A : Type} (R R' : A -> A -> Prop) (u v : A).
Context (Hsub : forall a b, R' a b -> R a b \/ (a = u /\ b = v)).

Lemma tc_add_edge a b : tc R' a b -> tc R a b \/ (rtc R a u /\ rtc R' v b).
Proof.
  induction 1 as [a b Hab|a c b Hac Hcb IH].
  - destruct (Hsub _ _ Hab) as [?|[-> ->]]; [left; by apply tc_once|by right].
  - destruct (Hsub _ _ Hac) as [?|[-> ->]].
    + destruct IH as [?|[? ?]]; [left; by eapply tc_l|right; split; [by eapply rtc_l|done]].
    + right. split; [done|by apply tc_rtc].
Qed.

Lemma rtc_add_edge a b : rtc R' a b -> rtc R a b \/ rtc R a u.
Proof.
  intros [->|H]%rtc_tc; [by left|].
  destruct (tc_add_edge _ _ H) as [?|[? _]]; [left; by apply tc_rtc|by right].
Qed.

Lemma acyclic_add_edge :
  (forall a, ~ tc R a a) -> ~ rtc R v u -> forall a, ~ tc R' a a.
Proof.
  intros Hac Hvu a Ha. destruct (tc_add_edge _ _ Ha) as [Ht|[H1 H2]]; [by eapply Hac|].
  apply Hvu. destruct (rtc_add_edge _ _ H2) as [H3|H3]; [by etrans|done].
Qed.
End AddEdge.

#[export] Hint Resolve split_on_nonnil split_on_pieces : daruma.
#[export] Hint Rewrite @drop_while_idemp @join_split : daruma.
