(* ===== verification/Shared.v ===== *)
(** * crates/shared: errors, typed ids, lease paths and scope paths

    [CoreError] with its codes ([error.rs]), the identifiers of the
    [newtype_id!] macro ([ids.rs]), the overlap test of path leases
    ([path_lease.rs]) with the set of paths a lease reserves as its
    specification, and the canonical key of a repository path
    ([scope_path.rs]). *)

From S2P Require Import Prelude.

(** ** JSON values (serde_json)

    The [details] of coded errors, the outcome of a run step and similar fields
    are JSON documents the program only stores and forwards. *)
Inductive Json : Type :=
| JNull
| JBool (b : bool)
| JNum (z : Z)
| JStr (s : Str)
| JArr (l : list Json)
| JObj (l : list (string * Json)).

(** ** Errors

    Messages are kept as the format string of the source: the arguments
    spliced into a message are not part of the model. *)
Inductive CoreError : Type :=
| NotFound (msg : string)
| Validation (msg : string)
| Conflict (msg : string)
| Storage (msg : string)
| Sync (msg : string)
| Ai (msg : string)
| Serde (msg : string)
| Io (msg : string)
| Unauthorized (msg : string)
| Forbidden (msg : string)
| QuotaExceeded (resource : string) (limit current : Z)
| CodedConflict (code message : string) (details : Json)
| Unprocessable (code message : string) (details : Json).

Definition code (e : CoreError) : string :=
  match e with
  | NotFound _ => "not_found"
  | Validation _ => "validation"
  | Conflict _ => "conflict"
  | Storage _ => "storage_error"
  | Sync _ => "sync_error"
  | Ai _ => "ai_unavailable"
  | Serde _ => "serialization_error"
  | Io _ => "io_error"
  | Unauthorized _ => "unauthorized"
  | Forbidden _ => "forbidden"
  | QuotaExceeded _ _ _ => "quota_exceeded"
  | CodedConflict c _ _ => c
  | Unprocessable c _ _ => c
  end.

Definition coded_conflict (code message : string) : CoreError :=
  CodedConflict code message JNull.

(** ** Identifiers ([newtype_id!])

    The macro makes one newtype over [Uuid] per line; here the line is the
    index of one record, so ids of different kinds have different types. *)
Inductive IdKind : Set :=
| KTask | KAiOp | KWorkUnit | KProject | KEvent | KAgent | KClaim | KDevice
| KActivity | KComment | KToken | KWebhook | KWebhookDelivery | KPlan | KRun
| KRunNote | KAgentSession | KSessionArtifact | KRelation | KDocument | KVersion
| KWorkLease | KArtifact | KArtifactRelation | KRule | KEvidence | KAuditFinding
| KHandoff.

Definition prefix (k : IdKind) : string :=
  match k with
  | KTask => "tsk" | KAiOp => "aiop" | KWorkUnit => "wu" | KProject => "prj"
  | KEvent => "evt" | KAgent => "agt" | KClaim => "clm" | KDevice => "dev"
  | KActivity => "act" | KComment => "cmt" | KToken => "tok" | KWebhook => "wh"
  | KWebhookDelivery => "whd" | KPlan => "pln" | KRun => "run"
  | KRunNote => "rnt" | KAgentSession => "ags" | KSessionArtifact => "saf"
  | KRelation => "rel" | KDocument => "doc" | KVersion => "ver"
  | KWorkLease => "wls" | KArtifact => "art" | KArtifactRelation => "artrel"
  | KRule => "rule" | KEvidence => "ev" | KAuditFinding => "find"
  | KHandoff => "hof"
  end.

(** A [Uuid] is its 128-bit value. *)
Record Id (k : IdKind) : Type := mkId { as_uuid : N }.
Arguments mkId {k} as_uuid.
Arguments as_uuid {k} i.

#[export] Instance Id_eq_dec k : EqDecision (Id k).
Proof. solve_decision. Defined.
#[export] Instance Id_countable k : Countable (Id k).
Proof. by apply (inj_countable' as_uuid mkId); intros []. Defined.

Abbreviation TaskId := (Id KTask).
Abbreviation ProjectId := (Id KProject).
Abbreviation EventId := (Id KEvent).
Abbreviation AgentId := (Id KAgent).
Abbreviation ClaimId := (Id KClaim).
Abbreviation CommentId := (Id KComment).
Abbreviation PlanId := (Id KPlan).
Abbreviation RunId := (Id KRun).
Abbreviation RunNoteId := (Id KRunNote).
Abbreviation AgentSessionId := (Id KAgentSession).
Abbreviation SessionArtifactId := (Id KSessionArtifact).
Abbreviation RelationId := (Id KRelation).
Abbreviation DocumentId := (Id KDocument).
Abbreviation VersionId := (Id KVersion).
Abbreviation WorkLeaseId := (Id KWorkLease).
Abbreviation WorkUnitId := (Id KWorkUnit).
Abbreviation ArtifactId := (Id KArtifact).
Abbreviation ArtifactRelationId := (Id KArtifactRelation).
Abbreviation RuleId := (Id KRule).
Abbreviation EvidenceId := (Id KEvidence).
Abbreviation HandoffId := (Id KHandoff).
Abbreviation TokenId := (Id KToken).
Abbreviation DeviceId := (Id KDevice).

Module Ids.
Section Text.
(** The textual form of a [Uuid] belongs to the [uuid] crate. *)
Context (uuid_display : N -> Str) (uuid_parse : Str -> option N).

(** [Display]: [<prefix>_<uuid>]. *)
Definition display {k} (i : Id k) : Str :=
  lit (prefix k) ++ lit "_" ++ uuid_display (as_uuid i).

(** [FromStr]: the prefix is optional. *)
Definition from_str k (s : Str) : option (Id k) :=
  let trimmed := match strip_prefix (lit (prefix k ++ "_")) s with
                 | Some t => t
                 | None => s
                 end in
  match uuid_parse trimmed with
  | Some u => Some (mkId u)
  | None => None
  end.
End Text.
End Ids.

(** ** Lease paths *)
Module PathLease.
Definition slash : N := 47.
Definition backslash : N := 92.

(** The [filter] closure of [normalize_lease_path]. *)
Definition keep_segment (seg : Str) : bool :=
  negb (str_is_empty seg) && negb (bool_decide (seg = lit ".")).

Definition normalize_lease_path (p : Str) : Str :=
  let unified := replace_char backslash slash (trim p) in
  join_on slash (List.filter keep_segment (split_on slash unified)).

Definition segment_match (x y : Str) : bool :=
  bool_decide (x = y) || bool_decide (x = lit "*") || bool_decide (y = lit "*").

Fixpoint overlap_segments (a b : list Str) : bool :=
  match a, b with
  | [], _ => true
  | _, [] => true
  | ha :: ta, hb :: tb =>
      if bool_decide (ha = lit "**") || bool_decide (hb = lit "**") then true
      else if negb (segment_match ha hb) then false
      else overlap_segments ta tb
  end.

Definition paths_overlap (a b : Str) : bool :=
  let na := normalize_lease_path a in
  let nb := normalize_lease_path b in
  if str_is_empty na || str_is_empty nb then true
  else overlap_segments (split_on slash na) (split_on slash nb).
(** Specification: a lease glob is the list of its segments, and reserves a
    set of concrete paths: every path below it, with [*] standing for one
    segment and [**] for all that remain. *)
Definition lease_pattern (p : Str) : list Str :=
  List.filter keep_segment
    (split_on slash (replace_char backslash slash (trim p))).

Inductive reserves : list Str -> list Str -> Prop :=
| reserves_below path : reserves [] path
| reserves_rest pat path : reserves (lit "**" :: pat) path
| reserves_one pat seg path :
    reserves pat path -> reserves (lit "*" :: pat) (seg :: path)
| reserves_same seg pat path :
    reserves pat path -> reserves (seg :: pat) (seg :: path).
End PathLease.

(** ** Scope paths *)
Module ScopePath.
  Import PathLease.
Definition colon : N := 58.

Definition is_drive (seg : Str) : bool :=
  match seg with
  | [d; c] => is_ascii_alphabetic d && (c =? colon)%N
  | _ => false
  end.

Definition is_absolute_scope_path (path : Str) : bool :=
  let p := trim path in
  starts_with [slash] p || starts_with [backslash; backslash] p
  || match p with
     | d :: c :: s :: _ =>
         is_ascii_alphabetic d && (c =? colon)%N
         && ((s =? slash)%N || (s =? backslash)%N)
     | _ => false
     end.

Definition ends_with_char (c : N) (s : Str) : bool := bool_decide (last s = Some c).

Definition normalize_scope_path (path : Str) : Str :=
  let unified := replace_char backslash slash (trim path) in
  let '(pre, rest) := match strip_prefix [slash; slash] unified with
                      | Some rest => ([slash; slash], rest)
                      | None => ([], unified)
                      end in
  let leading_slash := str_is_empty pre && starts_with [slash] rest in
  let out := pre ++ (if leading_slash then [slash] else []) in
  let segments := List.filter (fun s => negb (str_is_empty s)) (split_on slash rest) in
  let '(out, segments) :=
    match segments with
    | first :: more =>
        if is_drive first
        then (out ++ to_ascii_uppercase first
                  ++ match more with [] => [] | _ => [slash] end, more)
        else (out, segments)
    | [] => (out, segments)
    end in
  let out := out ++ join_on slash segments in
  if str_is_empty out then [slash]
  else if ends_with_char colon out && is_drive out then out ++ [slash]
  else out.
End ScopePath.

(** ** Theorems: identifiers *)
Lemma strip_prefix_app p s : strip_prefix p (p ++ s) = Some s.
Proof. induction p as [|c p IH]; simpl; [done|]. by rewrite N.eqb_refl. Qed.

Lemma strip_prefix_some p s t : strip_prefix p s = Some t -> s = p ++ t.
Proof.
  revert s. induction p as [|a p IH]; intros s H; simpl in *; [by injection H as ->|].
  destruct s as [|b s]; [done|]. case_match eqn:E; [|done].
  apply N.eqb_eq in E as ->. by rewrite (IH _ H).
Qed.

Lemma lit_prefix k : lit (prefix k ++ "_")%string = lit (prefix k) ++ lit "_".
Proof. by destruct k. Qed.

(** ** Theorems: lease paths *)
Module PathLeaseFacts.
  Import PathLease.

Lemma reserves_self pat : reserves pat pat.
Proof. induction pat; constructor; done. Qed.

Lemma segment_match_sym x y : segment_match x y = segment_match y x.
Proof.
  unfold segment_match. rewrite (bool_decide_ext (x = y) (y = x)) by done.
  by rewrite <- !orb_assoc, (orb_comm (bool_decide (x = lit "*"))).
Qed.

Lemma segment_match_true x y :
  segment_match x y = true <-> x = y \/ x = lit "*" \/ y = lit "*".
Proof. unfold segment_match. rewrite !orb_true_iff, !bool_decide_eq_true. tauto. Qed.

Lemma overlap_segments_common a b :
  overlap_segments a b = true -> exists path, reserves a path /\ reserves b path.
Proof.
  revert b. induction a as [|ha ta IH]; intros b H.
  { exists b. split; [constructor|apply reserves_self]. }
  destruct b as [|hb tb].
  { exists (ha :: ta). split; [apply reserves_self|constructor]. }
  simpl in H. destruct (bool_decide (ha = lit "**") || bool_decide (hb = lit "**")) eqn:E.
  - apply orb_true_iff in E as [E|E]; apply bool_decide_eq_true in E as ->.
    + exists (hb :: tb). split; [constructor|apply reserves_self].
    + exists (ha :: ta). split; [apply reserves_self|constructor].
  - destruct (segment_match ha hb) eqn:M; simpl in H; [|done].
    destruct (IH _ H) as (path & Ha & Hb).
    apply segment_match_true in M as [->|[-> | ->]].
    + exists (hb :: path). split; by constructor.
    + exists (hb :: path). split; by constructor.
    + exists (ha :: path). split; by constructor.
Qed.

Lemma overlap_rest_r a pat : overlap_segments a (lit "**" :: pat) = true.
Proof. destruct a; [done|]. simpl. by rewrite orb_true_r. Qed.

Lemma overlap_cons ha ta hb tb :
  ha = hb \/ ha = lit "*" \/ hb = lit "*" -> overlap_segments ta tb = true ->
  overlap_segments (ha :: ta) (hb :: tb) = true.
Proof.
  intros M%segment_match_true IH. cbn [overlap_segments]. rewrite M, IH. by case_match.
Qed.

Lemma common_overlap_segments a b path :
  reserves a path -> reserves b path -> overlap_segments a b = true.
Proof.
  intros Ha. revert b. induction Ha as [|pat path|pat seg path _ IH|seg pat path _ IH];
    intros b Hb; [done|by destruct b| |];
    (inversion Hb; subst; [done|apply overlap_rest_r|..];
     apply overlap_cons; auto).
Qed.

Lemma lease_pattern_pieces p :
  Forall (fun w => Forall (fun x => x <> slash) w /\ keep_segment w = true) (lease_pattern p).
Proof.
  unfold lease_pattern. rewrite List.Forall_forall. intros w Hw.
  apply List.filter_In in Hw as [Hin Hk]. split; [|done].
  pose proof (split_on_pieces slash (replace_char backslash slash (trim p))) as H.
  rewrite List.Forall_forall in H. by apply H.
Qed.

Lemma split_join_pattern ws :
  Forall (fun w => Forall (fun x => x <> slash) w /\ keep_segment w = true) ws ->
  ws <> [] -> split_on slash (join_on slash ws) = ws.
Proof. intros H Hn. apply split_join; [done|]. eapply Forall_impl; [exact H|]. by intros ? []. Qed.

Lemma join_nil_pattern ws :
  Forall (fun w => Forall (fun x => x <> slash) w /\ keep_segment w = true) ws ->
  str_is_empty (join_on slash ws) = true <-> ws = [].
Proof.
  intros H. split; [|by intros ->]. destruct H as [|w ws [_ Hk] _]; [done|].
  destruct w; [by vm_compute in Hk|]. by destruct ws.
Qed.

Lemma paths_overlap_pattern a b :
  paths_overlap a b = overlap_segments (lease_pattern a) (lease_pattern b).
Proof.
  unfold paths_overlap, normalize_lease_path. fold (lease_pattern a) (lease_pattern b).
  pose proof (lease_pattern_pieces a) as Ha. pose proof (lease_pattern_pieces b) as Hb.
  destruct (str_is_empty (join_on _ (lease_pattern a))) eqn:Ea; simpl.
  { apply join_nil_pattern in Ea; [|done]. by rewrite Ea. }
  destruct (str_is_empty (join_on _ (lease_pattern b))) eqn:Eb; simpl.
  { apply join_nil_pattern in Eb; [|done]. rewrite Eb. by destruct (lease_pattern a). }
  rewrite !split_join_pattern; try done;
    intros E; [rewrite E in Eb|rewrite E in Ea]; done.
Qed.

(** The overlap test decides exactly whether two leases share a path. *)
Lemma paths_overlap_iff a b :
  paths_overlap a b = true <->
  exists path, reserves (lease_pattern a) path /\ reserves (lease_pattern b) path.
Proof.
  rewrite paths_overlap_pattern. split; [apply overlap_segments_common|].
  intros (path & Ha & Hb). by eapply common_overlap_segments.
Qed.

Lemma paths_overlap_sym a b : paths_overlap a b = paths_overlap b a.
Proof.
  apply eq_iff_eq_true. rewrite !paths_overlap_iff.
  split; intros (p & ? & ?); exists p; done.
Qed.

Lemma paths_overlap_refl a : paths_overlap a a = true.
Proof. apply paths_overlap_iff. eexists; split; apply reserves_self. Qed.
End PathLeaseFacts.

(** ** Theorems: scope paths *)
Module ScopePathFacts.
  Import PathLease ScopePath.

(** The pieces [normalize_scope_path] reads from a unified path, and how it
      puts them back. *)
Definition lead (u : Str) : Str :=
  match strip_prefix [slash; slash] u with
  | Some _ => [slash; slash]
  | None => if starts_with [slash] u then [slash] else []
  end.
Definition segments_of (u : Str) : list Str :=
  List.filter (fun s => negb (str_is_empty s))
    (split_on slash (match strip_prefix [slash; slash] u with
                     | Some rest => rest | None => u end)).
Definition canon (segs : list Str) : list Str :=
  match segs with
  | first :: more => (if is_drive first then to_ascii_uppercase first else first) :: more
  | [] => []
  end.
Definition finish (out : Str) : Str :=
  if str_is_empty out then [slash]
  else if ends_with_char colon out && is_drive out then out ++ [slash] else out.

Lemma normalize_shape p :
  normalize_scope_path p =
  let u := replace_char backslash slash (trim p) in
  finish (lead u ++ join_on slash (canon (segments_of u))).
Proof.
  unfold normalize_scope_path, lead, segments_of, finish. cbv zeta.
  set (u := replace_char _ _ _). destruct (strip_prefix [slash; slash] u) as [rest|];
    simpl; [|destruct (starts_with [slash] u)];
    (destruct (List.filter _ _) as [|first more]; simpl; [done|];
     destruct (is_drive first); simpl; [|done];
     by destruct more; simpl; rewrite ?app_nil_r, <- ?app_assoc).
Qed.

Definition good_segment (w : Str) : Prop :=
  w <> [] /\ Forall (fun x => x <> slash) w.

Lemma good_nonempty ws : Forall good_segment ws ->
  List.filter (fun s => negb (str_is_empty s)) ws = ws.
Proof.
  induction 1 as [|w ws [Hw _] _ IH]; simpl; [done|]. destruct w; simpl; [done|by rewrite IH].
Qed.

Lemma segments_of_join l ws :
  Forall good_segment ws -> l = [] \/ l = [slash] \/ l = [slash; slash] ->
  (l = [] -> ws <> []) ->
  lead (l ++ join_on slash ws) = l /\ segments_of (l ++ join_on slash ws) = ws.
Proof.
  intros Hg Hl Hn. unfold lead, segments_of.
  assert (Hj : join_on slash ws = [] /\ ws = [] \/
               exists c r, join_on slash ws = c :: r /\ c <> slash /\ ws <> []).
  { destruct Hg as [|w ws [Hw Hs] _]; [by left|]. right. destruct w as [|c w]; [done|].
    apply Forall_cons in Hs as [Hc _]. by destruct ws; simpl; eauto. }
  assert (Hsp : ws <> [] -> split_on slash (join_on slash ws) = ws).
  { intros. apply split_join; [done|]. eapply Forall_impl; [exact Hg|]. by intros ? []. }
  pose proof (good_nonempty ws Hg) as Hf.
  destruct Hj as [[-> ->]|(c & r & E & Hc & Hws)].
  - destruct Hl as [-> |[-> | ->]]; [by destruct Hn|done|done].
  - apply N.eqb_neq in Hc. specialize (Hsp Hws). rewrite E in *.
    assert (Hc' : (slash =? c)%N = false) by (by rewrite N.eqb_sym).
    destruct Hl as [-> |[-> | ->]]; cbn [app strip_prefix]; unfold starts_with;
      cbn [strip_prefix]; rewrite ?N.eqb_refl, ?Hc'; cbv beta iota; (split; [done|]).
    + by rewrite Hsp.
    + change (List.filter (fun s => negb (str_is_empty s)) ([] :: split_on slash (c :: r)) = ws).
      by rewrite Hsp.
    + by rewrite Hsp.
Qed.

Lemma segments_of_good u : Forall good_segment (segments_of u).
Proof.
  unfold segments_of. set (r := match _ with Some _ => _ | None => _ end).
  rewrite List.Forall_forall. intros w [Hin Hk]%List.filter_In.
  pose proof (split_on_pieces slash r) as H. rewrite List.Forall_forall in H.
  split; [by destruct w|by apply H].
Qed.

Lemma upper_char P c :
  (forall d, (d < 26)%N -> P (65 + d)%N) -> P c ->
  P (if is_ascii_lower c then (c - 32)%N else c).
Proof.
  intros HU Hc. unfold is_ascii_lower. destruct (_ && _)%N eqn:E; [|done]. bsplit.
  rewrite N.leb_le in *. replace (c - 32)%N with (65 + (c - 97))%N by lia. apply HU. lia.
Qed.

Lemma upper_forall (P : N -> Prop) w :
  (forall d, (d < 26)%N -> P (65 + d)%N) -> Forall P w -> Forall P (to_ascii_uppercase w).
Proof. intros HU. induction 1; simpl; constructor; auto. by apply (upper_char P). Qed.

Lemma canon_good ws : Forall good_segment ws -> Forall good_segment (canon ws).
Proof.
  destruct 1 as [|w ws [Hw Hs] Hg]; simpl; [done|]. constructor; [|done].
  case_match; [|done]. split; [by destruct w|]. apply upper_forall; [|done].
  unfold slash. lia.
Qed.

Lemma drive_upper w :
  is_drive w = true ->
  is_drive (to_ascii_uppercase w) = true /\
  to_ascii_uppercase (to_ascii_uppercase w) = to_ascii_uppercase w.
Proof.
  destruct w as [|d [|c [|]]]; simpl; try done. intros. bsplit. subst c.
  unfold is_ascii_alphabetic, is_ascii_lower, is_ascii_upper in *.
  destruct ((97 <=? d) && (d <=? 122))%N eqn:L; simpl.
  - bsplit. rewrite N.leb_le in *.
    replace ((97 <=? d - 32) && (d - 32 <=? 122))%N with false
      by (symmetry; apply andb_false_iff; left; apply N.leb_gt; lia).
    replace ((65 <=? d - 32) && (d - 32 <=? 90))%N with true
      by (symmetry; apply andb_true_iff; rewrite !N.leb_le; lia). done.
  - rewrite L. by rewrite orb_false_r in *; split; [apply andb_true_iff|].
Qed.

Lemma canon_idemp ws : canon (canon ws) = canon ws.
Proof.
  destruct ws as [|w ws]; simpl; [done|]. destruct (is_drive w) eqn:E; simpl; [|by rewrite E].
  destruct (drive_upper w E) as [-> ->]. done.
Qed.

Lemma lead_cases u : lead u = [] \/ lead u = [slash] \/ lead u = [slash; slash].
Proof. unfold lead. repeat case_match; auto. Qed.

(** Reading back a finished path gives the path again. *)
Lemma finish_reparse l ws :
  Forall good_segment ws -> canon ws = ws ->
  l = [] \/ l = [slash] \/ l = [slash; slash] ->
  let x := finish (l ++ join_on slash ws) in
  finish (lead x ++ join_on slash (canon (segments_of x))) = x.
Proof.
  intros Hg Hc Hl. cbv zeta. unfold finish at 2 3 4.
  destruct (str_is_empty (l ++ join_on slash ws)) eqn:E; [done|].
  assert (Hn : l = [] -> ws <> []) by (intros -> ->; done).
  destruct (segments_of_join l ws Hg Hl Hn) as [H1 H2].
  destruct (ends_with_char colon (l ++ join_on slash ws) && is_drive (l ++ join_on slash ws)) eqn:D.
  - (* a bare drive *)
    bsplit. destruct Hl as [-> |[-> | ->]]; simpl in *.
    + destruct (join_on slash ws) as [|d [|c [|]]] eqn:Ej; try done. clear E.
      cbn [is_drive] in *. bsplit. subst c.
      destruct ws as [|w ws]; [done|].
      assert (Hd : (d =? slash)%N = false).
      { apply N.eqb_neq. intros ->. by vm_compute in H0. }
      assert (Hss : (slash =? d)%N = false) by (by rewrite N.eqb_sym).
      assert (w = [d; colon] /\ ws = []) as [-> ->].
      { destruct ws as [|w' ws]; [by rewrite <- Ej|]. exfalso.
        apply Forall_cons in Hg as [[Hw _] _].
        destruct w as [|a [|b w]]; [done|discriminate Ej|].
        injection Ej as _ _ Ej. by destruct w. }
      unfold lead, segments_of, starts_with. cbn [strip_prefix app].
      rewrite Hss. cbn [split_on]. rewrite Hd.
      change (colon =? slash)%N with false. rewrite N.eqb_refl. simpl in Hc |- *.
      injection Hc as Hc. unfold is_ascii_alphabetic in *. simpl.
      destruct (is_ascii_upper d || is_ascii_lower d) eqn:F; [|done].
      simpl. simpl in Hc. rewrite Hc. unfold finish. simpl.
      unfold is_ascii_alphabetic. rewrite F. done.
    + destruct (join_on slash ws) as [|c [|]]; done.
    + destruct (join_on slash ws) as [|]; done.
  - rewrite H1, H2, Hc. unfold finish. by rewrite E, D.
Qed.

Definition no_backslash (s : Str) : Prop := Forall (fun c => c <> backslash) s.

Lemma replace_no_backslash s : no_backslash (replace_char backslash slash s).
Proof.
  induction s as [|c s IH]; simpl; constructor; [|done].
  destruct (c =? backslash)%N eqn:E; [done|by apply N.eqb_neq].
Qed.

Lemma replace_noop s : no_backslash s -> replace_char backslash slash s = s.
Proof. induction 1 as [|c s Hc _ IH]; simpl; [done|]. apply N.eqb_neq in Hc. by rewrite Hc, IH. Qed.

Lemma strip_no_backslash p u r : strip_prefix p u = Some r -> no_backslash u -> no_backslash r.
Proof. intros ->%strip_prefix_some. by intros [_ ?]%Forall_app. Qed.

Lemma split_forall (P : N -> Prop) c s : Forall P s -> Forall (Forall P) (split_on c s).
Proof.
  induction 1 as [|x s Hx _ IH]; simpl; [by repeat constructor|].
  case_match; [by constructor|]. destruct (split_on c s); [by repeat constructor|].
  apply Forall_cons in IH as [? ?]. by repeat constructor.
Qed.

Lemma join_forall (P : N -> Prop) c ws : P c -> Forall (Forall P) ws -> Forall P (join_on c ws).
Proof.
  intros Hc. induction 1 as [|w ws Hw Hws IH]; [done|].
  destruct ws as [|w' ws]; [done|]. cbn [join_on] in *. apply Forall_app. split; [done|].
  by constructor.
Qed.

Lemma normalize_no_backslash p : no_backslash (normalize_scope_path p).
Proof.
  rewrite normalize_shape. cbv zeta. set (u := replace_char _ _ _).
  assert (Hu : no_backslash u) by apply replace_no_backslash.
  assert (Hs : Forall no_backslash (canon (segments_of u))).
  { assert (Forall no_backslash (segments_of u)) as H.
    { apply Forall_list_filter. apply split_forall. case_match eqn:E; [|done].
      by eapply strip_no_backslash. }
    destruct H; simpl; [done|]. constructor; [|done]. case_match; [|done].
    apply upper_forall; [|done]. unfold backslash. lia. }
  assert (Ho : no_backslash (lead u ++ join_on slash (canon (segments_of u)))).
  { apply Forall_app. split; [|by apply join_forall].
    destruct (lead_cases u) as [-> |[-> | ->]]; by repeat constructor. }
  unfold finish. repeat case_match; [by repeat constructor| |done].
  apply Forall_app. by repeat constructor.
Qed.

Lemma normalize_scope_path_idemp p :
  trim (normalize_scope_path p) = normalize_scope_path p ->
  normalize_scope_path (normalize_scope_path p) = normalize_scope_path p.
Proof.
  intros Ht. rewrite (normalize_shape (normalize_scope_path p)), Ht. cbv zeta.
  rewrite replace_noop by apply normalize_no_backslash. rewrite (normalize_shape p). cbv zeta.
  apply finish_reparse; [apply canon_good, segments_of_good|apply canon_idemp|apply lead_cases].
Qed.
End ScopePathFacts.

Module IdFacts.
Import Ids.
Definition underscore : N := 95.
Lemma prefix_plain k : underscore ∉ lit (prefix k).
Proof. destruct k; vm_compute; intros H; repeat (apply elem_of_cons in H as [H|H]; [discriminate|]); by apply elem_of_nil in H. Qed.
Lemma prefix_inj k k' : lit (prefix k) = lit (prefix k') -> k = k'.
Proof. destruct k, k'; vm_compute; congruence. Qed.
(** A word ends at its first separator. *)
Lemma strip_word (w v rest : Str) c : c ∉ w -> c ∉ v -> forall r, strip_prefix (w ++ [c]) (v ++ c :: rest) = Some r -> w = v.
Proof.
  revert v. induction w as [|x w IH]; intros [|y v] Hw Hv r; cbn; try done.
  - destruct (N.eqb_spec c y) as [->|]; [|done]. exfalso. apply Hv. left.
  - destruct (N.eqb_spec x c) as [->|]; [|done]. exfalso. apply Hw. left.
  - destruct (N.eqb_spec x y) as [->|]; [|done]. intros Hr. f_equal.
    eapply (IH v); [| |exact Hr]; [intros ?; apply Hw; by right|intros ?; apply Hv; by right].
Qed.
End IdFacts.

Section IdText.
Import Ids IdFacts.

(** Identifiers survive their text.  An id printed with the prefix of its kind
    is read back, and the bare uuid of older clients too; the text of an id of
    another kind is refused, so a task id is never taken for a plan id. *)
Theorem id_text_roundtrip uuid_display uuid_parse k (i : Id k) :
  (forall u, uuid_parse (uuid_display u) = Some u) ->
  (forall s u, uuid_parse s = Some u -> underscore ∉ s) ->
  from_str uuid_parse k (display uuid_display i) = Some i /\
  from_str uuid_parse k (uuid_display (as_uuid i)) = Some i /\
  forall k', k' <> k -> from_str uuid_parse k' (display uuid_display i) = None.
Proof.
  intros Hround Hplain. unfold from_str, display. split; [|split].
  - rewrite lit_prefix, (app_assoc (lit (prefix k))). change (lit "_") with [underscore].
    rewrite strip_prefix_app, Hround. by destruct i.
  - rewrite lit_prefix. change (lit "_") with [underscore].
    destruct (strip_prefix _ _) as [r|] eqn:E; [|rewrite Hround; by destruct i].
    exfalso. apply (Hplain (uuid_display (as_uuid i)) (as_uuid i)); [done|]. apply strip_prefix_some in E as ->.
    rewrite <- app_assoc. apply elem_of_app. right. left.
  - intros k' Hk. rewrite lit_prefix. change (lit "_") with [underscore]. cbn [app].
    destruct (strip_prefix _ _) as [r|] eqn:E.
    + exfalso. apply Hk, prefix_inj. eapply strip_word; [apply prefix_plain| |exact E]. apply prefix_plain.
    + destruct (uuid_parse _) as [u|] eqn:P; [|done]. exfalso. apply (Hplain _ _ P). apply elem_of_app. right. left.
Qed.
End IdText.

(** A uuid printed as one character outside ASCII. *)
Definition demo_show (u : N) : Str := [(u + 1000)%N].
Definition demo_read (s : Str) : option N :=
  match s with
  | [c] => if (1000 <=? c)%N then Some (c - 1000)%N else None
  | _ => None
  end.
Lemma id_text_roundtrip_witness :
  Ids.from_str demo_read KTask (Ids.display demo_show (mkId 5 : TaskId)) = Some (mkId 5) /\
  Ids.from_str demo_read KTask (demo_show 5) = Some (mkId 5) /\
  forall k', k' <> KTask -> Ids.from_str demo_read k' (Ids.display demo_show (mkId 5 : TaskId)) = None.
Proof.
  apply (id_text_roundtrip demo_show demo_read KTask (mkId 5)).
  - intros u. unfold demo_show, demo_read. rewrite (proj2 (N.leb_le 1000 (u + 1000))) by lia. f_equal. lia.
  - intros [|c [|d s]] u; cbn; try done. destruct (N.leb_spec 1000 c); [|done]. intros _ Hin%list_elem_of_singleton.
    unfold IdFacts.underscore in Hin. lia.
Defined.
