(* ===== verification/TaskModel.v ===== *)
(** * crates/domain: actors, tasks, relations and the pipeline position

    The data of [agent.rs], [task.rs], [relation.rs] and [pipeline.rs] with
    their pure operations.  Each struct is a Module that holds its record, so a
    field keeps the name it has in the source ([Task.status], ...).
    [time::now()] is an argument [now] of the operations that read the clock. *)

From S2P Require Import Prelude Shared.

(** ** Actors (agent.rs) *)
Inductive Actor : Type :=
| User (id : option AgentId) (name client : option Str)
| Agent (id : AgentId) (name : Str) (client : option Str).

#[export] Instance Actor_eq_dec : EqDecision Actor.
Proof. solve_decision. Defined.

Module ActorOps.
Definition user : Actor := User None None None.
Definition user_with_id (id : AgentId) : Actor := User (Some id) None None.
Definition principal_id (a : Actor) : option AgentId :=
  match a with User id _ _ => id | Agent id _ _ => Some id end.
Definition client (a : Actor) : option Str :=
  match a with User _ _ c => c | Agent _ _ c => c end.
Definition or_client (a : Actor) (fallback : option Str) : Actor :=
  match a with
  | User id name c => User id name (or_else c fallback)
  | Agent id name c => Agent id name (or_else c fallback)
  end.
Definition is_agent (a : Actor) : bool :=
  match a with Agent _ _ _ => true | User _ _ _ => false end.
End ActorOps.

(** ** Task status, priority and triage (task.rs) *)
Inductive Status : Set := Inbox | Todo | InProgress | InReview | Done | Cancelled.
Inductive Priority : Set := P0 | P1 | P2 | P3.
Inductive TriageState : Set := Pending | Accepted | Rejected.

#[export] Instance Status_eq_dec : EqDecision Status.
Proof. solve_decision. Defined.
#[export] Instance Priority_eq_dec : EqDecision Priority.
Proof. solve_decision. Defined.
#[export] Instance TriageState_eq_dec : EqDecision TriageState.
Proof. solve_decision. Defined.

Definition is_terminal (s : Status) : bool :=
  match s with Done | Cancelled => true | _ => false end.

Definition status_as_str (s : Status) : string :=
  match s with
  | Inbox => "inbox"
  | Todo => "todo"
  | InProgress => "in_progress"
  | InReview => "in_review"
  | Done => "done"
  | Cancelled => "cancelled"
  end.

Definition status_parse_str (s : string) : option Status :=
  if String.eqb s "inbox" then Some Inbox
  else if String.eqb s "todo" then Some Todo
  else if String.eqb s "in_progress" then Some InProgress
  else if String.eqb s "in_review" then Some InReview
  else if String.eqb s "done" then Some Done
  else if String.eqb s "cancelled" then Some Cancelled
  else None.

(** [#[default]] variants. *)
Definition status_default : Status := Inbox.
Definition priority_default : Priority := P2.

(** ** Git context (task.rs) *)
Module GitContext.
Record GitContext : Type := mk {
  repo : option Str;
  branch : option Str;
  head_sha : option Str;
  mr_url : option Str }.
#[global] Instance GitContext_eq_dec : EqDecision GitContext.
Proof. solve_decision. Defined.

(** [char::is_control]: the general category Cc. *)
Definition is_control (c : N) : bool :=
  ((c <? 32) || ((127 <=? c) && (c <=? 159)))%N.
Definition is_ascii_hexdigit (c : N) : bool :=
  is_ascii_digit c || ((65 <=? c) && (c <=? 70))%N || ((97 <=? c) && (c <=? 102))%N.

Definition clean (value : option Str) (max : nat) : Result string (option Str) :=
  match value with
  | None => Ok None
  | Some value =>
      let value := trim value in
      if str_is_empty value then Ok None
      else if (max <? length value)%nat
      then Err "git_context.{name} is longer than {max} characters"%string
      else if existsb is_control value
      then Err "git_context.{name} contains control characters"%string
      else Ok (Some value)
  end.

Definition check_sha (sha : Str) : Result string Str :=
  if (byte_len sha <? 7)%Z || negb (forallb is_ascii_hexdigit sha)
  then Err "git_context.head_sha must be 7-64 hex characters"%string
  else Ok (to_ascii_lowercase sha).

Definition check_url (url : Str) : Result string Str :=
  if (starts_with (lit "https://") url || starts_with (lit "http://") url)
     && negb (existsb is_whitespace url)
  then Ok url
  else Err "git_context.mr_url must be an absolute http(s) URL"%string.

Definition on_some {A} (f : A -> Result string A) (o : option A)
  : Result string (option A) :=
  match o with None => Ok None | Some a => rbind (f a) (fun b => Ok (Some b)) end.

Definition normalized (g : GitContext) : Result string GitContext :=
  rbind (clean (repo g) 512) (fun repo =>
  rbind (clean (branch g) 256) (fun branch =>
  rbind (clean (head_sha g) 64) (fun head_sha =>
  rbind (clean (mr_url g) 2048) (fun mr_url =>
  rbind (on_some check_sha head_sha) (fun head_sha =>
  rbind (on_some check_url mr_url) (fun mr_url =>
  match repo, branch, head_sha, mr_url with
  | None, None, None, None =>
      Err "git_context must set at least one of repo, branch, head_sha, mr_url"%string
  | _, _, _, _ => Ok (mk repo branch head_sha mr_url)
  end)))))).
End GitContext.

(** ** Pipeline position (pipeline.rs) *)
Module Pipeline.
Record PipelinePosition : Type := mk {
  stage_index : Z;
  role : Str;
  complete : bool;
  fanout : Z;
  required : bool;
  closed : list Str }.
#[global] Instance PipelinePosition_rebuild : Rebuild PipelinePosition := fun p =>
  mk (stage_index p) (role p) (complete p) (fanout p) (required p) (closed p).
#[global] Instance PipelinePosition_eq_dec : EqDecision PipelinePosition.
Proof. solve_decision. Defined.

Definition REVIEW_ROLES : list Str := [lit "reviewer"; lit "reconciler"].
Definition MAX_STAGE_FANOUT : Z := 16.

Inductive FanIn : Type :=
| Repeat
| FanInPending (closed fanout : Z)
| Closed.

Definition at_ (stage_index : Z) (role : Str) : PipelinePosition :=
  mk stage_index role false 1 true [].
Definition with_fanout (p : PipelinePosition) (n : Z) : PipelinePosition :=
  p <| fanout := n |>.
Definition optional (p : PipelinePosition) : PipelinePosition :=
  p <| required := false |>.
Definition completed (stage_index : Z) (role : Str) : PipelinePosition :=
  at_ stage_index role <| complete := true |>.

Definition validate (p : PipelinePosition) : Result string unit :=
  let role := trim (role p) in
  if str_is_empty role then Err "pipeline_position.role must not be empty"%string
  else if (64 <? byte_len role)%Z
  then Err "pipeline_position.role must not exceed 64 bytes"%string
  else if (fanout p =? 0)%Z || (MAX_STAGE_FANOUT <? fanout p)%Z
  then Err "pipeline_position.fanout must be 1..={MAX_STAGE_FANOUT}"%string
  else Ok tt.

(** [closed.len() as u32]: the cast wraps at 2^32. *)
Definition closed_len (p : PipelinePosition) : Z :=
  (Z.of_nat (length (closed p)) mod 2 ^ 32)%Z.

Definition fan_in_closed (p : PipelinePosition) : bool := (fanout p <=? closed_len p)%Z.

(** [&mut self]: the updated position is returned with the answer. *)
Definition close_instance (p : PipelinePosition) (instance : Str)
  : Result string FanIn * PipelinePosition :=
  let instance := trim instance in
  if str_is_empty instance || (128 <? byte_len instance)%Z
  then (Err "instance must be 1..=128 bytes"%string, p)
  else if complete p
  then (Err "pipeline_complete: the pipeline has no open stage"%string, p)
  else if existsb (fun c => bool_decide (c = instance)) (closed p) then (Ok Repeat, p)
  else if fan_in_closed p
  then (Err "fan_in_full: stage {} ({}) already has all {} instances closed"%string, p)
  else
    let p := p <| closed := closed p ++ [instance] |> in
    (Ok (if fan_in_closed p then Closed
         else FanInPending (closed_len p) (fanout p)), p).

Definition fan_in_blocks (current : PipelinePosition) : option string :=
  if complete current || negb (required current) || (fanout current <=? 1)%Z
     || fan_in_closed current
  then None
  else Some "fan_in_pending: stage {} ({}) closed {} of {} required instances"%string.

Definition canonical_status (position : PipelinePosition) : Status :=
  if complete position then Done
  else if existsb (fun r => bool_decide (r = trim (role position))) REVIEW_ROLES
  then InReview
  else InProgress.

Definition direct_status_write_allowed (position : option PipelinePosition)
    (to : Status) : bool :=
  match position with None => true | Some _ => bool_decide (to = Cancelled) end.
End Pipeline.
Abbreviation PipelinePosition := Pipeline.PipelinePosition.
Abbreviation GitContextT := GitContext.GitContext.

(** ** Tasks (task.rs) *)
Module Task.
Record Task : Type := mk {
  id : TaskId;
  project_id : option ProjectId;
  title : Str;
  description : Str;
  status : Status;
  priority : Priority;
  triage_state : option TriageState;
  due_at : option Z;
  created_at : Z;
  updated_at : Z;
  started_at : option Z;
  completed_at : option Z;
  created_by : option Actor;
  completed_by : option Actor;
  updated_by : option Actor;
  updated_event_id : option EventId;
  updated_event_seq : option Z;
  source_event_id : option EventId;
  external_key : option Str;
  git_context : option GitContextT }.
#[global] Instance Task_rebuild : Rebuild Task := fun t =>
  mk (id t) (project_id t) (title t) (description t) (status t) (priority t)
     (triage_state t) (due_at t) (created_at t) (updated_at t) (started_at t)
     (completed_at t) (created_by t) (completed_by t) (updated_by t)
     (updated_event_id t) (updated_event_seq t) (source_event_id t)
     (external_key t) (git_context t).
#[global] Instance Task_eq_dec : EqDecision Task.
Proof. solve_decision. Defined.
End Task.
Abbreviation Task := Task.Task.

Module NewTask.
Record NewTask : Type := mk {
  id : option TaskId;
  project_id : option ProjectId;
  title : Str;
  description : option Str;
  status : option Status;
  priority : option Priority;
  triage_state : option TriageState;
  due_at : option Z;
  external_key : option Str;
  source_event_id : option EventId }.
#[global] Instance NewTask_rebuild : Rebuild NewTask := fun t =>
  mk (id t) (project_id t) (title t) (description t) (status t) (priority t)
     (triage_state t) (due_at t) (external_key t) (source_event_id t).
#[global] Instance NewTask_eq_dec : EqDecision NewTask.
Proof. solve_decision. Defined.

Definition new (title : Str) : NewTask :=
  mk None None title None None None None None None None.
End NewTask.
Abbreviation NewTask := NewTask.NewTask.

(** [Task::from_new]; [fresh] is the id drawn when the input has none. *)
Definition from_new (fresh : TaskId) (now : Z) (input : NewTask) : Task :=
  {| Task.id := default fresh (NewTask.id input);
     Task.project_id := NewTask.project_id input;
     Task.title := NewTask.title input;
     Task.description := default [] (NewTask.description input);
     Task.status := default status_default (NewTask.status input);
     Task.priority := default priority_default (NewTask.priority input);
     Task.triage_state := NewTask.triage_state input;
     Task.due_at := NewTask.due_at input;
     Task.created_at := now;
     Task.updated_at := now;
     Task.started_at := None;
     Task.completed_at := None;
     Task.created_by := None;
     Task.completed_by := None;
     Task.updated_by := None;
     Task.updated_event_id := None;
     Task.updated_event_seq := None;
     Task.source_event_id := NewTask.source_event_id input;
     Task.external_key := NewTask.external_key input;
     Task.git_context := None |}.

Module TaskPatch.
Record TaskPatch : Type := mk {
  title : option Str;
  description : option Str;
  status : option Status;
  priority : option Priority;
  triage_state : option (option TriageState);
  due_at : option (option Z);
  project_id : option (option ProjectId);
  git_context : option (option GitContextT);
  pipeline_position : option PipelinePosition }.
#[global] Instance TaskPatch_rebuild : Rebuild TaskPatch := fun p =>
  mk (title p) (description p) (status p) (priority p) (triage_state p)
     (due_at p) (project_id p) (git_context p) (pipeline_position p).
#[global] Instance TaskPatch_eq_dec : EqDecision TaskPatch.
Proof. solve_decision. Defined.

(** [TaskPatch::default()]. *)
Definition empty : TaskPatch := mk None None None None None None None None None.

Definition is_empty (p : TaskPatch) : bool :=
  match p with
  | mk None None None None None None None None None => true
  | _ => false
  end.

Definition apply (now : Z) (p : TaskPatch) (t : Task) : Task :=
  let t := match title p with Some v => t <| Task.title := v |> | None => t end in
  let t := match description p with Some v => t <| Task.description := v |> | None => t end in
  let t := match status p with Some v => t <| Task.status := v |> | None => t end in
  let t := match priority p with Some v => t <| Task.priority := v |> | None => t end in
  let t := match triage_state p with Some v => t <| Task.triage_state := v |> | None => t end in
  let t := match due_at p with Some v => t <| Task.due_at := v |> | None => t end in
  let t := match project_id p with Some v => t <| Task.project_id := v |> | None => t end in
  let t := match git_context p with Some v => t <| Task.git_context := v |> | None => t end in
  t <| Task.updated_at := now |>.
End TaskPatch.
Abbreviation TaskPatch := TaskPatch.TaskPatch.

(** ** Field ownership (field_ownership.rs) *)
Module FieldOwnership.
Inductive FieldOwner : Set := OwnerPlan | OwnerExecution.
#[global] Instance FieldOwner_eq_dec : EqDecision FieldOwner.
Proof. solve_decision. Defined.

Inductive TaskField : Set :=
| FTitle | FDescription | FProjectId | FMembership | FSourceEventId
| FStatus | FTriageState | FPriority | FDueAt | FStartedAt | FCompletedAt
| FUpdatedBy | FComments | FClaimsRuns.

Definition owner (f : TaskField) : FieldOwner :=
  match f with
  | FTitle | FDescription | FProjectId | FMembership | FSourceEventId => OwnerPlan
  | FStatus | FTriageState | FPriority | FDueAt | FStartedAt | FCompletedAt
  | FUpdatedBy | FComments | FClaimsRuns => OwnerExecution
  end.
Definition is_plan_owned (f : TaskField) : bool := bool_decide (owner f = OwnerPlan).

Definition set_in {A} (o : option A) (name : string) : list string :=
  match o with Some _ => [name] | None => [] end.

Definition plan_owned_patch_fields (p : TaskPatch) : list string :=
  set_in (TaskPatch.title p) "title" ++ set_in (TaskPatch.description p) "description"
  ++ set_in (TaskPatch.project_id p) "project_id".
End FieldOwnership.

(** The stored actor triple ([evidence.rs]). *)
Record ActorRef : Type := mkActorRef {
  ref_kind : string;
  ref_id : option AgentId;
  ref_name : option Str }.
#[export] Instance ActorRef_eq_dec : EqDecision ActorRef.
Proof. solve_decision. Defined.

Definition from_actor (a : Actor) : ActorRef :=
  match a with
  | User id name _ => mkActorRef "user" id name
  | Agent id name _ => mkActorRef "agent" (Some id) (Some name)
  end.

Module CompletionNote.
Record CompletionNote : Type := mk {
  actor : option ActorRef;
  reason : option Str;
  result_summary : option Str;
  acceptance_criteria_status : option Str;
  related_artifacts : list Str }.
#[global] Instance CompletionNote_rebuild : Rebuild CompletionNote := fun n =>
  mk (actor n) (reason n) (result_summary n) (acceptance_criteria_status n)
     (related_artifacts n).
#[global] Instance CompletionNote_eq_dec : EqDecision CompletionNote.
Proof. solve_decision. Defined.

Definition is_some {A} (o : option A) : bool := match o with Some _ => true | None => false end.

Definition is_substantive (n : CompletionNote) : bool :=
  is_some (reason n) || is_some (result_summary n)
  || is_some (acceptance_criteria_status n)
  || negb (match related_artifacts n with [] => true | _ => false end).
End CompletionNote.
Abbreviation CompletionNote := CompletionNote.CompletionNote.

(** ** Relations (relation.rs) *)
Inductive RelationKind : Set := Blocks | RelatesTo | Duplicates | WasBlocking.
#[export] Instance RelationKind_eq_dec : EqDecision RelationKind.
Proof. solve_decision. Defined.

Module Relation.
Record Relation : Type := mk {
  id : RelationId;
  from : TaskId;
  to : TaskId;
  kind : RelationKind;
  created_at : Z;
  created_by : Actor }.
#[global] Instance Relation_rebuild : Rebuild Relation := fun r =>
  mk (id r) (from r) (to r) (kind r) (created_at r) (created_by r).
#[global] Instance Relation_eq_dec : EqDecision Relation.
Proof. solve_decision. Defined.
End Relation.
Abbreviation Relation := Relation.Relation.

(** ** Agent actions (agent.rs) *)
Inductive AgentActionKind : Type :=
| SuggestTask (title reason : Str)
| SuggestSplit (parent : TaskId) (subtasks : list Str)
| SuggestPriority (task : TaskId) (suggested : Priority) (reason : Str)
| SummarizeProject (project_id : ProjectId) (summary : Str)
| SuggestNextAction (text : Str).

Record AgentAction : Type := mkAgentAction {
  aa_agent_name : Str;
  aa_kind : AgentActionKind;
  aa_created_at : Z }.
