(* ===== verification/PlanModel.v ===== *)
(** * crates/domain: plans, runs, comments, projects, work units and handoffs

    The data of [plan.rs], [run.rs], [signal.rs], [session.rs], [comment.rs],
    [project.rs], [project_settings.rs], [work_unit.rs] and [handoff.rs] with
    their constructors and pure operations. *)

From S2P Require Import Prelude Shared TaskModel.

(** ** Plan source nodes (source.rs) *)
Inductive SourceInput : Type := mkSourceInput {
  si_source_ref : option Str;
  si_label : option Str;
  si_occurred_at : option Str;
  si_note : option Str;
  si_upstream : list SourceInput }.

Module SourceNode.
Record SourceNode : Type := mk {
  source_ref : Str;
  label : option Str;
  occurred_at : option Str;
  note : option Str;
  upstream_ref : option Str;
  created_at : Z;
  created_by : option Actor }.
#[global] Instance SourceNode_rebuild : Rebuild SourceNode := fun n =>
  mk (source_ref n) (label n) (occurred_at n) (note n) (upstream_ref n)
     (created_at n) (created_by n).
#[global] Instance SourceNode_eq_dec : EqDecision SourceNode.
Proof. solve_decision. Defined.

(** The error is the upstream the stored node already has. *)
Definition fill_from (self incoming : SourceNode) : Result Str SourceNode :=
  let merged :=
    self <| label := or_else (label self) (label incoming) |>
         <| occurred_at := or_else (occurred_at self) (occurred_at incoming) |>
         <| note := or_else (note self) (note incoming) |>
         <| upstream_ref := or_else (upstream_ref self) (upstream_ref incoming) |> in
  match upstream_ref self, upstream_ref incoming with
  | Some have, Some new => if bool_decide (have = new) then Ok merged else Err have
  | _, _ => Ok merged
  end.
End SourceNode.
Abbreviation SourceNode := SourceNode.SourceNode.

(** ** Plans (plan.rs) *)
Inductive PlanStatus : Set := Draft | Active | Completed | Abandoned.
#[export] Instance PlanStatus_eq_dec : EqDecision PlanStatus.
Proof. solve_decision. Defined.

Module Plan.
Record Plan : Type := mk {
  id : PlanId;
  project_id : ProjectId;
  parent_plan_id : option PlanId;
  title : Str;
  description : Str;
  goal : Str;
  success_criteria : list Str;
  status : PlanStatus;
  owner : Actor;
  created_at : Z;
  updated_at : Z;
  archived_at : option Z;
  source_brief : option Str;
  source_ref : option Str }.
#[global] Instance Plan_rebuild : Rebuild Plan := fun p =>
  mk (id p) (project_id p) (parent_plan_id p) (title p) (description p) (goal p)
     (success_criteria p) (status p) (owner p) (created_at p) (updated_at p)
     (archived_at p) (source_brief p) (source_ref p).
#[global] Instance Plan_eq_dec : EqDecision Plan.
Proof. solve_decision. Defined.
End Plan.
Abbreviation Plan := Plan.Plan.

Module PlanTask.
Record PlanTask : Type := mk {
  plan_id : PlanId;
  task_id : TaskId;
  position : Z;
  depends_on : list TaskId }.
#[global] Instance PlanTask_rebuild : Rebuild PlanTask := fun p =>
  mk (plan_id p) (task_id p) (position p) (depends_on p).
#[global] Instance PlanTask_eq_dec : EqDecision PlanTask.
Proof. solve_decision. Defined.
End PlanTask.
Abbreviation PlanTask := PlanTask.PlanTask.

Module PlanPatch.
Record PlanPatch : Type := mk {
  title : option Str;
  description : option Str;
  goal : option Str;
  success_criteria : option (list Str);
  parent_plan_id : option (option PlanId) }.
#[global] Instance PlanPatch_rebuild : Rebuild PlanPatch := fun p =>
  mk (title p) (description p) (goal p) (success_criteria p) (parent_plan_id p).
#[global] Instance PlanPatch_eq_dec : EqDecision PlanPatch.
Proof. solve_decision. Defined.

(** [PlanPatch::default()]. *)
Definition empty : PlanPatch := mk None None None None None.

Definition is_empty (p : PlanPatch) : bool :=
  match p with mk None None None None None => true | _ => false end.

Definition apply (now : Z) (p : PlanPatch) (plan : Plan) : Plan :=
  let plan := match title p with Some v => plan <| Plan.title := v |> | None => plan end in
  let plan := match description p with Some v => plan <| Plan.description := v |> | None => plan end in
  let plan := match goal p with Some v => plan <| Plan.goal := v |> | None => plan end in
  let plan := match success_criteria p with
              | Some v => plan <| Plan.success_criteria := v |> | None => plan end in
  let plan := match parent_plan_id p with
              | Some v => plan <| Plan.parent_plan_id := v |> | None => plan end in
  plan <| Plan.updated_at := now |>.
End PlanPatch.
Abbreviation PlanPatch := PlanPatch.PlanPatch.

Module NewPlan.
Record NewPlan : Type := mk {
  project_id : ProjectId;
  title : Str;
  owner : Actor;
  description : option Str;
  goal : option Str;
  success_criteria : option (list Str);
  parent_plan_id : option PlanId;
  source_brief : option Str;
  source_ref : option Str;
  git_context : option GitContextT;
  source : option SourceInput;
  separate : bool }.
#[global] Instance NewPlan_rebuild : Rebuild NewPlan := fun p =>
  mk (project_id p) (title p) (owner p) (description p) (goal p)
     (success_criteria p) (parent_plan_id p) (source_brief p) (source_ref p)
     (git_context p) (source p) (separate p).

Definition new (title : Str) (project_id : ProjectId) (owner : Actor) : NewPlan :=
  mk project_id title owner None None None None None None None None false.

Definition into_plan (self : NewPlan) (id : PlanId) (now : Z) : Plan :=
  {| Plan.id := id;
     Plan.project_id := project_id self;
     Plan.parent_plan_id := parent_plan_id self;
     Plan.title := title self;
     Plan.description := default [] (description self);
     Plan.goal := default [] (goal self);
     Plan.success_criteria := default [] (success_criteria self);
     Plan.status := Draft;
     Plan.owner := owner self;
     Plan.created_at := now;
     Plan.updated_at := now;
     Plan.archived_at := None;
     Plan.source_brief := source_brief self;
     Plan.source_ref := source_ref self |}.
End NewPlan.
Abbreviation NewPlan := NewPlan.NewPlan.

(** ** Runs (run.rs, signal.rs) *)
Inductive RunStatus : Set := RunActive | RunCompleted | RunFailed | RunAborted.
#[export] Instance RunStatus_eq_dec : EqDecision RunStatus.
Proof. solve_decision. Defined.

Inductive RunOutcome : Type :=
| OutcomeDone
| Superseded
| HumanCompleted
| Skipped
| OutcomeFailed (reason : Str).
#[export] Instance RunOutcome_eq_dec : EqDecision RunOutcome.
Proof. solve_decision. Defined.

(** [Run.outcome] is a free string: [done] or the reason of a failure. *)
Module Run.
Record Run : Type := mk {
  id : RunId;
  plan_id : PlanId;
  agent_id : AgentId;
  parent_run_id : option RunId;
  started_at : Z;
  ended_at : option Z;
  status : RunStatus;
  outcome : option Str;
  last_activity_at : option Z;
  unresponsive_at : option Z;
  stale_at : option Z }.
#[global] Instance Run_rebuild : Rebuild Run := fun r =>
  mk (id r) (plan_id r) (agent_id r) (parent_run_id r) (started_at r) (ended_at r)
     (status r) (outcome r) (last_activity_at r) (unresponsive_at r) (stale_at r).
#[global] Instance Run_eq_dec : EqDecision Run.
Proof. solve_decision. Defined.
End Run.
Abbreviation Run := Run.Run.

Module RunStep.
Record RunStep : Type := mk {
  task_id : TaskId;
  started_at : Z;
  finished_at : option Z;
  outcome : option RunOutcome }.
#[global] Instance RunStep_rebuild : Rebuild RunStep := fun r =>
  mk (task_id r) (started_at r) (finished_at r) (outcome r).
#[global] Instance RunStep_eq_dec : EqDecision RunStep.
Proof. solve_decision. Defined.
End RunStep.
Abbreviation RunStep := RunStep.RunStep.

Record RunNote : Type := mkRunNote {
  rn_id : RunNoteId;
  rn_run_id : RunId;
  rn_body : Str;
  rn_author : Actor;
  rn_created_at : Z }.

Inductive SignalKind : Type :=
| Stop (reason : option Str)
| Elicit (prompt : Str) (choices : list Str)
| AuthRequired (scope : Str)
| InterventionAccepted (choice : Str).

(** ** Agent sessions (session.rs) *)
Inductive SessionStepStatus : Set :=
  StepPending | StepInProgress | StepCompleted | StepCanceled.

Record AgentSessionPlanStep : Type := mkStep {
  step_content : Str;
  step_status : SessionStepStatus }.

Record AgentSession : Type := mkAgentSession {
  as_id : AgentSessionId;
  as_agent_id : AgentId;
  as_parent_agent_id : option AgentId;
  as_started_at : Z;
  as_ended_at : option Z;
  as_plan_steps : list AgentSessionPlanStep;
  as_metadata : Json }.

Inductive SessionArtifactKind : Set := ArtifactFile | ArtifactUrl | ArtifactDiff.

Record SessionArtifact : Type := mkSessionArtifact {
  sa_id : SessionArtifactId;
  sa_session_id : AgentSessionId;
  sa_kind : SessionArtifactKind;
  sa_reference : Str;
  sa_metadata : Json;
  sa_created_at : Z }.

(** ** Comments (comment.rs) *)
Inductive CommentKind : Set := Intent | Progress | Outcome | Blocker | Research.
#[export] Instance CommentKind_eq_dec : EqDecision CommentKind.
Proof. solve_decision. Defined.

Module Comment.
Record Comment : Type := mk {
  id : CommentId;
  task_id : TaskId;
  author : Actor;
  body : Str;
  parent_id : option CommentId;
  kind : option CommentKind;
  created_at : Z;
  edited_at : option Z;
  deleted_at : option Z }.
#[global] Instance Comment_rebuild : Rebuild Comment := fun c =>
  mk (id c) (task_id c) (author c) (body c) (parent_id c) (kind c) (created_at c)
     (edited_at c) (deleted_at c).
#[global] Instance Comment_eq_dec : EqDecision Comment.
Proof. solve_decision. Defined.
End Comment.
Abbreviation Comment := Comment.Comment.

Record NewComment : Type := mkNewComment {
  nc_id : option CommentId;
  nc_task_id : TaskId;
  nc_body : Str;
  nc_parent_id : option CommentId;
  nc_kind : option CommentKind }.

Definition comment_from_new (fresh : CommentId) (input : NewComment) (actor : Actor)
    (now : Z) : Comment :=
  Comment.mk (default fresh (nc_id input)) (nc_task_id input) actor (nc_body input)
    (nc_parent_id input) (nc_kind input) now None None.

Record TransitionComment : Type := mkTransitionComment {
  tc_body : Str;
  tc_kind : option CommentKind }.
Definition MAX_BODY_BYTES : Z := 4 * 1024.

(** ** Projects (project.rs, project_settings.rs) *)
Module Project.
Record Project : Type := mk {
  id : ProjectId;
  tenant_id : option Str;
  slug : Str;
  title : Str;
  description : option Str;
  triage_enabled : bool;
  created_at : Z;
  updated_at : Z }.
#[global] Instance Project_rebuild : Rebuild Project := fun p =>
  mk (id p) (tenant_id p) (slug p) (title p) (description p) (triage_enabled p)
     (created_at p) (updated_at p).
#[global] Instance Project_eq_dec : EqDecision Project.
Proof. solve_decision. Defined.

Definition DEFAULT_TENANT_ID : Str := lit "self-hosted".
Definition hyphen : N := 45.

Definition slug_char (c : N) : N :=
  if is_ascii_alphanumeric c then (if is_ascii_upper c then c + 32 else c)%N else hyphen.

(** [while slug.contains("--") { slug = slug.replace("--", "-") }]: one pass
    of [replace], then the loop; every pass that changes the slug shortens
    it, so as many passes as characters are enough. *)
Fixpoint replace_double (s : Str) : Str :=
  match s with
  | a :: ((b :: s') as t) =>
      if ((a =? hyphen) && (b =? hyphen))%N then hyphen :: replace_double s'
      else a :: replace_double t
  | _ => s
  end.
Fixpoint has_double (s : Str) : bool :=
  match s with
  | a :: ((b :: _) as t) => ((a =? hyphen) && (b =? hyphen))%N || has_double t
  | _ => false
  end.
Fixpoint collapse (fuel : nat) (s : Str) : Str :=
  match fuel with
  | O => s
  | S n => if has_double s then collapse n (replace_double s) else s
  end.

Definition is_hyphen (c : N) : bool := (c =? hyphen)%N.

Definition slugify_title (title : Str) : Str :=
  let slug := map slug_char title in
  let slug := collapse (length slug) slug in
  let slug := trim_end_by is_hyphen (trim_start_by is_hyphen slug) in
  let slug := if str_is_empty slug then lit "project" else slug in
  if (64 <? byte_len slug)%Z then trim_end_by is_hyphen (take 64 slug) else slug.

(** [Project::new_with_slug] and [Project::new]. *)
Definition new_with_slug (fresh : ProjectId) (now : Z) (title slug : Str)
    (description : option Str) : Project :=
  mk fresh (Some DEFAULT_TENANT_ID) slug title description false now now.
Definition new (fresh : ProjectId) (now : Z) (title : Str) (description : option Str)
  : Project :=
  new_with_slug fresh now title (slugify_title title) description.
End Project.
Abbreviation Project := Project.Project.

Record AutoAppendSettings : Type := mkAutoAppend { aa_interview : bool; aa_human_log : bool }.
Definition auto_append_default : AutoAppendSettings := mkAutoAppend true true.
Record AutoAppendPatch : Type := mkAutoAppendPatch {
  ap_interview : option bool;
  ap_human_log : option bool }.
Definition auto_append_apply (s : AutoAppendSettings) (p : AutoAppendPatch)
  : AutoAppendSettings :=
  mkAutoAppend (default (aa_interview s) (ap_interview p))
               (default (aa_human_log s) (ap_human_log p)).

Inductive IntakeSourceMode : Set := SourceOff | SourceWarn | SourceEnforce.
#[export] Instance IntakeSourceMode_eq_dec : EqDecision IntakeSourceMode.
Proof. solve_decision. Defined.

Record SourceDeriveRule : Type := mkDeriveRule {
  dr_from : Str;
  dr_pattern : Str;
  dr_ref_template : Str }.

Record SourceChannel : Type := mkSourceChannel {
  ch_scheme : Str;
  ch_pattern : option Str;
  ch_label : option Str;
  ch_note_required : bool }.

Record IntakeSourcePolicy : Type := mkIntakePolicy {
  ip_mode : IntakeSourceMode;
  ip_default_ref : option Str;
  ip_derive : list SourceDeriveRule;
  ip_channels : list SourceChannel }.

(** [IntakeSourcePolicy::default()]: [warn] with no channels. *)
Definition intake_policy_default : IntakeSourcePolicy := mkIntakePolicy SourceWarn None [] [].

(** ** Work units (work_unit.rs) *)
Inductive WorkUnitStatus : Set :=
  WuTodo | WuReady | WuInProgress | WuBlocked | WuReview | WuDone | WuCancelled.
#[export] Instance WorkUnitStatus_eq_dec : EqDecision WorkUnitStatus.
Proof. solve_decision. Defined.

Module WorkUnit.
Definition is_terminal (s : WorkUnitStatus) : bool :=
  match s with WuDone | WuCancelled => true | _ => false end.
Definition is_dispatchable (s : WorkUnitStatus) : bool :=
  match s with WuTodo | WuReady => true | _ => false end.

Record WorkUnit : Type := mk {
  id : WorkUnitId;
  task_id : TaskId;
  stage_plan_id : option PlanId;
  title : Str;
  description : Str;
  status : WorkUnitStatus;
  priority : Priority;
  capability_tags : list Str;
  owner_agent_id : option AgentId;
  claim_expires_at : option Z;
  artifact_refs : list Str;
  acceptance : list Str;
  created_at : Z;
  updated_at : Z }.
#[global] Instance WorkUnit_rebuild : Rebuild WorkUnit := fun w =>
  mk (id w) (task_id w) (stage_plan_id w) (title w) (description w) (status w)
     (priority w) (capability_tags w) (owner_agent_id w) (claim_expires_at w)
     (artifact_refs w) (acceptance w) (created_at w) (updated_at w).
#[global] Instance WorkUnit_eq_dec : EqDecision WorkUnit.
Proof. solve_decision. Defined.
End WorkUnit.
Abbreviation WorkUnit := WorkUnit.WorkUnit.

Record NewWorkUnit : Type := mkNewWorkUnit {
  nw_id : option WorkUnitId;
  nw_task_id : TaskId;
  nw_stage_plan_id : option PlanId;
  nw_title : Str;
  nw_description : option Str;
  nw_status : option WorkUnitStatus;
  nw_priority : option Priority;
  nw_capability_tags : list Str;
  nw_artifact_refs : list Str;
  nw_acceptance : list Str }.

Definition into_work_unit (fresh : WorkUnitId) (self : NewWorkUnit) (now : Z) : WorkUnit :=
  {| WorkUnit.id := default fresh (nw_id self);
     WorkUnit.task_id := nw_task_id self;
     WorkUnit.stage_plan_id := nw_stage_plan_id self;
     WorkUnit.title := nw_title self;
     WorkUnit.description := default [] (nw_description self);
     WorkUnit.status := default WuTodo (nw_status self);
     WorkUnit.priority := default priority_default (nw_priority self);
     WorkUnit.capability_tags := nw_capability_tags self;
     WorkUnit.owner_agent_id := None;
     WorkUnit.claim_expires_at := None;
     WorkUnit.artifact_refs := nw_artifact_refs self;
     WorkUnit.acceptance := nw_acceptance self;
     WorkUnit.created_at := now;
     WorkUnit.updated_at := now |}.

(** ** Handoff contracts (handoff.rs) *)
Inductive HandoffStatus : Set :=
  HoOpen | HoReady | HoAccepted | HoRejected | HoExpired.
#[export] Instance HandoffStatus_eq_dec : EqDecision HandoffStatus.
Proof. solve_decision. Defined.

Module Handoff.
Definition blocks_dispatch (s : HandoffStatus) : bool :=
  match s with HoAccepted => false | _ => true end.

Record HandoffContract : Type := mk {
  id : HandoffId;
  from_work_unit_id : WorkUnitId;
  to_work_unit_id : WorkUnitId;
  required_artifact_ids : list Str;
  required_state : option Str;
  checklist : list Str;
  owner_agent_id : option AgentId;
  accepted_by_agent_id : option AgentId;
  status : HandoffStatus;
  notes : option Str;
  required_changes : list Str;
  created_at : Z;
  updated_at : Z }.
#[global] Instance HandoffContract_rebuild : Rebuild HandoffContract := fun h =>
  mk (id h) (from_work_unit_id h) (to_work_unit_id h) (required_artifact_ids h)
     (required_state h) (checklist h) (owner_agent_id h) (accepted_by_agent_id h)
     (status h) (notes h) (required_changes h) (created_at h) (updated_at h).
#[global] Instance HandoffContract_eq_dec : EqDecision HandoffContract.
Proof. solve_decision. Defined.

Record NewHandoffContract : Type := mkNew {
  nh_from : WorkUnitId;
  nh_to : WorkUnitId;
  nh_required_artifact_ids : list Str;
  nh_required_state : option Str;
  nh_checklist : list Str;
  nh_owner_agent_id : option AgentId }.

Definition into_contract (self : NewHandoffContract) (id : HandoffId) (now : Z)
  : HandoffContract :=
  mk id (nh_from self) (nh_to self) (nh_required_artifact_ids self)
     (nh_required_state self) (nh_checklist self) (nh_owner_agent_id self) None
     HoOpen None [] now now.
End Handoff.
Abbreviation HandoffContract := Handoff.HandoffContract.
