(* ===== verification/SourceRef.v ===== *)
(** * crates/domain: source references (plan.rs)

    A plan source is named by a URI.  [normalize_source_ref] is what intake
    stores: the scheme is lower-cased, an [http(s)] reference loses userinfo,
    the default port, trailing slashes and secret parameters. *)

From S2P Require Import Prelude Shared TaskModel PlanModel.

Module SourceRef.

(** ** str::split_once, rsplit_once, strip_suffix *)
Fixpoint split_once (c : N) (s : Str) : option (Str * Str) :=
  match s with
  | [] => None
  | x :: s =>
      if (x =? c)%N then Some ([], s)
      else (fun '(a, b) => (x :: a, b)) <$> split_once c s
  end.
Definition rsplit_once (c : N) (s : Str) : option (Str * Str) :=
  (fun '(a, b) => (rev b, rev a)) <$> split_once c (rev s).
Definition strip_suffix (p s : Str) : option Str := @rev N <$> strip_prefix (rev p) (rev s).
Definition contains (c : N) (s : Str) : bool := existsb (N.eqb c) s.

(** [str::find] of a set of characters, and [split_at] there. *)
Fixpoint split_at_any (cs : list N) (s : Str) : Str * Str :=
  match s with
  | [] => ([], [])
  | x :: rest =>
      if existsb (N.eqb x) cs then ([], s)
      else let '(a, b) := split_at_any cs rest in (x :: a, b)
  end.

Definition is_control (c : N) : bool := ((c <=? 31) || (127 <=? c) && (c <=? 159))%N.

(** ** Secret parameters *)
Definition SOURCE_REF_MAX_LEN : nat := 2048.

Definition SECRET_QUERY_PARAMS : list Str :=
  map lit ["token"; "private_token"; "access_token"; "api_key"; "apikey"; "sig"; "signature";
           "password"; "secret"]%string.

Definition utf8_encode (c : N) : list N :=
  if (c <? 128)%N then [c]
  else if (c <? 2048)%N then [192 + c / 64; 128 + c mod 64]%N
  else if (c <? 65536)%N then [224 + c / 4096; 128 + c / 64 mod 64; 128 + c mod 64]%N
  else [240 + c / 262144; 128 + c / 4096 mod 64; 128 + c / 64 mod 64; 128 + c mod 64]%N.

Definition hex_digit (b : N) : option N :=
  if is_ascii_digit b then Some (b - 48)%N
  else if ((97 <=? b) && (b <=? 102))%N then Some (b - 87)%N
  else if ((65 <=? b) && (b <=? 70))%N then Some (b - 55)%N
  else None.
(** [u8::from_str_radix(_, 16)] of two characters: a leading [+] is a sign. *)
Definition hex_pair (a b : N) : option N :=
  if (a =? 43)%N then hex_digit b
  else h ← hex_digit a; l ← hex_digit b; Some (16 * h + l)%N.

(** The decoded bytes.  The source goes on to [String::from_utf8_lossy]; only
    emptiness and equality with an ASCII name are asked of the result, and
    decoding keeps both. *)
Fixpoint percent_decode (bytes : list N) : list N :=
  match bytes with
  | [] => []
  | x :: rest =>
      match rest with
      | a :: b :: rest' =>
          match (if (x =? 37)%N then hex_pair a b else None) with
          | Some byte => byte :: percent_decode rest'
          | None => x :: percent_decode rest
          end
      | _ => x :: percent_decode rest
      end
  end.

(** [param.split('=').next()] decoded. *)
Definition param_name (param : Str) : list N :=
  percent_decode (flat_map utf8_encode (default [] (head (split_on 61 param)))).
Definition is_secret (param : Str) : bool :=
  let name := param_name param in
  str_is_empty name
  || existsb (fun secret => bool_decide (to_ascii_lowercase name = to_ascii_lowercase secret))
       SECRET_QUERY_PARAMS.

Definition strip_secret_params (params : Str) : option Str :=
  match List.filter (fun p => negb (is_secret p)) (split_on 38 params) with
  | [] => None
  | kept => Some (join_on 38 kept)
  end.

(** ** Normalisation *)
Definition valid_scheme (scheme : Str) : bool :=
  match scheme with
  | c :: _ => is_ascii_alphabetic c
  | [] => false
  end
  && forallb (fun c => is_ascii_alphanumeric c || (c =? 43)%N || (c =? 46)%N || (c =? 45)%N) scheme.

Definition valid_host (host_port : Str) : bool :=
  let bracketed := match host_port with c :: _ => (c =? 91)%N | [] => false end in
  let bare_ipv6 := negb bracketed
                   && (1 <? length (List.filter (N.eqb 58) host_port))%nat in
  let closes := match last host_port with Some c => (c =? 93)%N | None => false end in
  negb bare_ipv6 &&
  match rsplit_once 58 host_port with
  | Some (host, port) =>
      if closes then negb (str_is_empty host_port)
      else negb (str_is_empty host) && negb (str_is_empty port) && forallb is_ascii_digit port
  | None => negb (str_is_empty host_port)
  end.

(** The filter of one part of a fragment. *)
Definition filter_part (part : Str) : Str :=
  if contains 61 part then default [] (strip_secret_params part) else part.

Definition clean_fragment (f : Str) : Str :=
  match split_once 63 f with
  | Some (route, params) =>
      match strip_secret_params params with
      | Some params => filter_part route ++ 63%N :: params
      | None => filter_part route
      end
  | None => filter_part f
  end.

(** The part of an [http(s)] reference after [//]. *)
Definition normalize_http (lower after : Str) : option Str :=
  let '(authority, tail) := split_at_any [47; 63; 35]%N after in
  let '(before_fragment, fragment) :=
    match split_once 35 tail with Some (b, f) => (b, Some f) | None => (tail, None) end in
  let '(path, query) :=
    match split_once 63 before_fragment with
    | Some (p, q) => (p, Some q)
    | None => (before_fragment, None)
    end in
  let host_port := match rsplit_once 64 authority with Some (_, h) => h | None => authority end in
  let default_port := if bool_decide (lower = lit "http") then lit ":80" else lit ":443" in
  let host_port := default host_port (strip_suffix default_port host_port) in
  if valid_host host_port then
    let out := lower ++ lit "://" ++ to_ascii_lowercase host_port
               ++ trim_end_by (fun c => (c =? 47)%N) path in
    let out := out ++ match query ≫= strip_secret_params with
                      | Some q => 63%N :: q
                      | None => []
                      end in
    Some (out ++ match clean_fragment <$> fragment with
                 | Some (c :: f) => 35%N :: c :: f
                 | _ => []
                 end)
  else None.

Definition normalize_source_ref (raw : Str) : Result string Str :=
  let s := trim raw in
  if str_is_empty s then Err "source_ref must not be empty"%string
  else if existsb (fun c => is_whitespace c || is_control c) s
  then Err "source_ref must not contain whitespace or control characters"%string
  else
    match split_once 58 s with
    | Some (scheme, rest) =>
        if valid_scheme scheme then
          let lower := to_ascii_lowercase scheme in
          let out :=
            if bool_decide (lower = lit "http") || bool_decide (lower = lit "https") then
              match strip_prefix (lit "//") rest with
              | None => Err "source_ref must be an absolute URL"%string
              | Some after =>
                  match normalize_http lower after with
                  | Some out => Ok out
                  | None => Err "source_ref has no valid host"%string
                  end
              end
            else Ok (lower ++ 58%N :: rest) in
          match out with
          | Ok out =>
              if (SOURCE_REF_MAX_LEN <? length out)%nat
              then Err "source_ref is longer than {SOURCE_REF_MAX_LEN} characters"%string
              else Ok out
          | Err e => Err e
          end
        else Err "source_ref must be a URI with a scheme"%string
    | None => Err "source_ref must be a URI with a scheme"%string
    end.

(** ** Nodes (source.rs) *)
Definition SOURCE_CHAIN_MAX : nat := 32.
Definition LABEL_MAX_LEN : nat := 512.
Definition NOTE_MAX_LEN : nat := 4096.

Definition trimmed (value : option Str) (max : nat) (msg : string) : Result string (option Str) :=
  match value with
  | None => Ok None
  | Some v =>
      let v := trim v in
      if str_is_empty v then Ok None
      else if (max <? length v)%nat then Err msg else Ok (Some v)
  end.

(** [SourceInput::to_node]; [synthetic] is the reference a node without one
    gets, and [valid_date] accepts RFC 3339 and [YYYY-MM-DD] (chrono). *)
Definition to_node (valid_date : Str -> bool) (synthetic : Str) (created_at : Z)
    (created_by : Actor) (i : SourceInput) : Result string SourceNode :=
  rbind (trimmed (si_label i) LABEL_MAX_LEN "source label is longer than {max} characters") (fun label =>
  rbind (match si_source_ref i, label with
         | Some raw, _ => normalize_source_ref raw
         | None, Some _ => Ok synthetic
         | None, None => Err "a source node needs `ref` or `label`"%string
         end) (fun source_ref =>
  rbind (trimmed (si_occurred_at i) 64 "source occurred_at is longer than {max} characters") (fun occurred_at =>
  rbind (match occurred_at with
         | Some at_ => if valid_date at_ then Ok tt
                       else Err "source occurred_at must be RFC 3339 or YYYY-MM-DD"%string
         | None => Ok tt
         end) (fun _ =>
  rbind (trimmed (si_note i) NOTE_MAX_LEN "source note is longer than {max} characters") (fun note =>
  Ok (SourceNode.mk source_ref label occurred_at note None created_at (Some created_by))))))).
End SourceRef.

Example source_ref_demo :
  SourceRef.normalize_source_ref (lit " HTTPS://bob:pw@Example.org:443/a/b//?id=7&Token=x#/cb?k=1&sig=2 ")
  = Ok (lit "https://example.org/a/b?id=7#/cb?k=1").
Proof. vm_compute. reflexivity. Qed.

(** ** Specification *)
Module SourceRefSpec.
  Import SourceRef.

(** No parameter of [params] is a secret. *)
Definition clean (params : Str) : Prop := Forall (fun p => is_secret p = false) (split_on 38 params).
Definition clean_part (part : Str) : Prop := contains 61 part = true -> clean part.

Definition clean_fragment_of (f : Str) : Prop :=
  match split_once 63 f with
  | Some (route, params) => clean_part route /\ clean params
  | None => clean_part f
  end.

(** A reference as a reader of URIs takes it apart. *)
Record Parts : Type := mkParts {
  authority : Str;
  path : Str;
  query : option Str;
  fragment : option Str }.
Definition parts_of (after : Str) : Parts :=
  let '(authority, tail) := split_at_any [47; 63; 35]%N after in
  let '(before, fragment) :=
    match split_once 35 tail with Some (b, f) => (b, Some f) | None => (tail, None) end in
  let '(path, query) :=
    match split_once 63 before with Some (p, q) => (p, Some q) | None => (before, None) end in
  mkParts authority path query fragment.
Definition assemble (p : Parts) : Str :=
  authority p ++ path p ++ match query p with Some q => 63%N :: q | None => [] end
  ++ match fragment p with Some f => 35%N :: f | None => [] end.

(** Nothing in the reference identifies a user. *)
Definition no_credentials (p : Parts) : Prop :=
  (64%N ∉ authority p) /\ authority p <> [] /\
  (forall q, query p = Some q -> clean q) /\
  (forall f, fragment p = Some f -> clean_fragment_of f).
End SourceRefSpec.

Module SourceRefFacts.
  Import SourceRef SourceRefSpec.

Lemma split_once_some c s a b : split_once c s = Some (a, b) -> s = a ++ c :: b /\ c ∉ a.
Proof.
  revert a. induction s as [|x s IH]; intros a; cbn; [done|].
  destruct (N.eqb_spec x c) as [->|Hx].
  - intros [= <- <-]. split; [done|set_solver].
  - destruct (split_once c s) as [[u v]|]; [|done]. intros [= <- <-].
    destruct (IH u eq_refl) as [-> Hu]. split; [done|set_solver].
Qed.
Lemma split_once_none c s : split_once c s = None <-> c ∉ s.
Proof.
  induction s as [|x s IH]; cbn; [set_solver|].
  destruct (N.eqb_spec x c) as [->|Hx]; [set_solver|].
  destruct (split_once c s) as [[u v]|]; cbn; set_solver.
Qed.
Lemma split_once_app c a b : c ∉ a -> split_once c (a ++ c :: b) = Some (a, b).
Proof.
  induction a as [|x a IH]; intros Ha; cbn; [by rewrite N.eqb_refl|].
  apply not_elem_of_cons in Ha as [Hx Ha]. apply not_eq_sym, N.eqb_neq in Hx.
  by rewrite Hx, IH.
Qed.
Lemma rsplit_once_some c s a b : rsplit_once c s = Some (a, b) -> c ∉ b /\ s = a ++ c :: b.
Proof.
  unfold rsplit_once. destruct (split_once c (rev s)) as [[u v]|] eqn:E; [|done].
  intros [= <- <-]. apply split_once_some in E as [E Hu]. split.
  - by rewrite list_elem_of_In, <- in_rev, <- list_elem_of_In.
  - rewrite <- (rev_involutive s), E, rev_app_distr. cbn. by rewrite <- app_assoc.
Qed.
Lemma rsplit_once_none c s : rsplit_once c s = None -> c ∉ s.
Proof.
  unfold rsplit_once. destruct (split_once c (rev s)) as [[u v]|] eqn:E; [done|]. intros _.
  apply split_once_none in E. by rewrite list_elem_of_In, in_rev, <- list_elem_of_In.
Qed.

Lemma split_at_any_spec cs s a b :
  split_at_any cs s = (a, b) ->
  s = a ++ b /\ (forall x, x ∈ a -> x ∉ cs) /\ (forall x l, b = x :: l -> x ∈ cs).
Proof.
  revert a. induction s as [|x s IH]; intros a; cbn.
  { intros [= <- <-]. split; [done|]. split; [set_solver|done]. }
  destruct (existsb (N.eqb x) cs) eqn:E.
  - intros [= <- <-]. split; [done|]. split; [set_solver|]. intros y l [= <- _].
    apply existsb_exists in E as (z & Hz & ->%N.eqb_eq). by apply list_elem_of_In.
  - destruct (split_at_any cs s) as [u v]. intros [= <- <-].
    destruct (IH u eq_refl) as (-> & Hu & Hv). split; [done|]. split; [|done].
    intros y [->|Hy]%elem_of_cons; [|by apply Hu]. intros Hin. apply not_true_iff_false in E.
    apply E, existsb_exists. exists x. split; [by apply list_elem_of_In|apply N.eqb_refl].
Qed.
Lemma split_at_any_app cs a b :
  (forall x, x ∈ a -> x ∉ cs) -> (forall x l, b = x :: l -> x ∈ cs) ->
  split_at_any cs (a ++ b) = (a, b).
Proof.
  induction a as [|x a IH]; intros Ha Hb; cbn.
  - destruct b as [|y b]; cbn; [done|]. specialize (Hb y b eq_refl).
    replace (existsb (N.eqb y) cs) with true; [done|]. symmetry. apply existsb_exists.
    exists y. split; [by apply list_elem_of_In|apply N.eqb_refl].
  - replace (existsb (N.eqb x) cs) with false.
    + rewrite IH; [done| |done]. intros y Hy. apply Ha. by apply list_elem_of_further.
    + symmetry. apply not_true_iff_false. intros (z & Hz & ->%N.eqb_eq)%existsb_exists.
      apply (Ha z); [apply list_elem_of_here|by apply list_elem_of_In].
Qed.

(** Taking an assembled reference apart gives its parts back. *)
Lemma parts_assemble p :
  (forall x, x ∈ authority p -> x ∉ [47; 63; 35]%N) ->
  (path p = [] \/ head (path p) = Some 47%N) -> 63%N ∉ path p -> 35%N ∉ path p ->
  (forall q, query p = Some q -> 35%N ∉ q) -> parts_of (assemble p) = p.
Proof.
  destruct p as [au pa qu fr]. cbn. intros Hau Hpa Hq Hf Hqf. unfold parts_of, assemble. cbn.
  rewrite split_at_any_app; [|done|].
  - set (q := match qu with Some q => 63%N :: q | None => [] end).
    assert (Hpq : 35%N ∉ pa ++ q).
    { apply not_elem_of_app. split; [done|]. subst q. destruct qu as [q|]; [|set_solver].
      specialize (Hqf q eq_refl). set_solver. }
    assert (Hs : split_once 63 (pa ++ q) = match qu with Some q => Some (pa, q) | None => None end).
    { subst q. destruct qu as [q|]; [by apply split_once_app|]. rewrite app_nil_r.
      by apply split_once_none. }
    destruct fr as [f|].
    + rewrite app_assoc, split_once_app by done. rewrite Hs. subst q.
      by destruct qu; [|rewrite app_nil_r].
    + rewrite app_nil_r. rewrite (proj2 (split_once_none 35 (pa ++ q)) Hpq), Hs. subst q.
      destruct qu; cbn; [done|by rewrite app_nil_r].
  - assert (Hin : forall y, y ∈ [47; 63; 35]%N <-> y = 47%N \/ y = 63%N \/ y = 35%N) by (intros; set_solver).
    intros x l H. apply Hin. destruct pa as [|y pa]; cbn in *.
    + destruct qu; cbn in H; [injection H as <- _; auto|].
      destruct fr; cbn in H; [injection H as <- _; auto|done].
    + injection H as <- _. destruct Hpa as [?|[= ->]]; [done|auto].
Qed.

(** *** Filtering secrets *)
Lemma strip_some params out :
  strip_secret_params params = Some out ->
  out = join_on 38 (List.filter (fun p => negb (is_secret p)) (split_on 38 params)) /\
  List.filter (fun p => negb (is_secret p)) (split_on 38 params) <> [].
Proof.
  unfold strip_secret_params. destruct (List.filter _ _); [done|]. intros H.
  split; [congruence|done].
Qed.

Lemma strip_clean params out : strip_secret_params params = Some out -> clean out.
Proof.
  intros [-> Hn]%strip_some. unfold clean. rewrite split_join; [|done|].
  - apply Forall_forall. intros x Hx. apply list_elem_of_In, filter_In in Hx as [_ Hx].
    by apply negb_true_iff.
  - apply Forall_list_filter, split_on_pieces.
Qed.

Lemma elem_of_join c x ws : x ∈ join_on c ws -> x = c \/ exists w, w ∈ ws /\ x ∈ w.
Proof.
  induction ws as [|w ws IH]; cbn; [set_solver|]. destruct ws as [|w' ws]; [set_solver|].
  intros [?|[->|H]%elem_of_cons]%elem_of_app; [set_solver|by left|].
  destruct (IH H) as [?|(u & Hu & Hx)]; [by left|]. right. exists u. set_solver.
Qed.
Lemma elem_of_split c x w s : w ∈ split_on c s -> x ∈ w -> x ∈ s.
Proof.
  revert w. induction s as [|y s IH]; intros w; cbn.
  - intros ->%list_elem_of_singleton. set_solver.
  - destruct (y =? c)%N.
    + intros [->|H]%elem_of_cons Hx; [set_solver|]. apply list_elem_of_further. by eapply IH.
    + destruct (split_on c s) as [|u us] eqn:E.
      * intros ->%list_elem_of_singleton. set_solver.
      * intros [->|H]%elem_of_cons Hx.
        -- apply elem_of_cons in Hx as [->|Hx]; [apply list_elem_of_here|].
           apply list_elem_of_further. by apply (IH u (list_elem_of_here _ _)).
        -- apply list_elem_of_further. eapply IH; [|done]. by apply list_elem_of_further.
Qed.

(** Filtering brings in no character but the separator. *)
Lemma strip_chars params out x : strip_secret_params params = Some out -> x ∈ out -> x = 38%N \/ x ∈ params.
Proof.
  intros [-> _]%strip_some [?|(w & Hw & Hx)]%elem_of_join; [by left|]. right.
  apply list_elem_of_In, filter_In in Hw as [Hw _].
  eapply elem_of_split; [by apply list_elem_of_In|done].
Qed.

Lemma filter_part_clean p : clean_part (filter_part p).
Proof.
  unfold clean_part, filter_part. destruct (contains 61 p) eqn:E; [|congruence].
  destruct (strip_secret_params p) as [q|] eqn:F; cbn; [|done]. intros _. by eapply strip_clean.
Qed.
Lemma filter_part_chars p x : x ∈ filter_part p -> x = 38%N \/ x ∈ p.
Proof.
  unfold filter_part. destruct (contains 61 p); [|by right].
  destruct (strip_secret_params p) eqn:F; cbn; [by eapply strip_chars|set_solver].
Qed.

Lemma clean_fragment_ok f : clean_fragment_of (clean_fragment f).
Proof.
  unfold clean_fragment. destruct (split_once 63 f) as [[route params]|] eqn:E.
  - apply split_once_some in E as [_ Hr].
    assert (Hn : 63%N ∉ filter_part route).
    { intros [?|?]%filter_part_chars; done. }
    destruct (strip_secret_params params) as [ps|] eqn:P; unfold clean_fragment_of.
    + rewrite split_once_app by done. split; [apply filter_part_clean|by eapply strip_clean].
    + rewrite (proj2 (split_once_none _ _) Hn). apply filter_part_clean.
  - assert (Hn : 63%N ∉ filter_part f).
    { apply split_once_none in E. intros [?|?]%filter_part_chars; done. }
    unfold clean_fragment_of. rewrite (proj2 (split_once_none _ _) Hn). apply filter_part_clean.
Qed.

(** *** The authority *)
Lemma elem_of_lower x s : is_ascii_lower x = false -> x ∈ to_ascii_lowercase s -> x ∈ s.
Proof.
  intros Hx (y & Hy & Hin)%list_elem_of_fmap. destruct (is_ascii_upper y) eqn:E; [|by subst].
  exfalso. revert Hx. subst x. unfold is_ascii_lower. unfold is_ascii_upper in E.
  apply andb_true_iff in E as [H1%N.leb_le H2%N.leb_le]. rewrite !(proj2 (N.leb_le _ _)); [done|lia|lia].
Qed.
Lemma elem_of_strip_suffix p s out x : strip_suffix p s = Some out -> x ∈ out -> x ∈ s.
Proof.
  unfold strip_suffix. intros (u & Hu & ->)%fmap_Some.
  apply strip_prefix_some in Hu. intros Hx.
  rewrite <- (rev_involutive s), list_elem_of_In, <- in_rev, <- list_elem_of_In, Hu.
  apply elem_of_app. right. by rewrite list_elem_of_In, in_rev, <- list_elem_of_In.
Qed.
Lemma host_chars au dp x :
  x ∈ default (match rsplit_once 64 au with Some (_, h) => h | None => au end)
        (strip_suffix dp (match rsplit_once 64 au with Some (_, h) => h | None => au end)) ->
  x <> 64%N /\ x ∈ au.
Proof.
  set (h := match rsplit_once 64 au with Some (_, h) => h | None => au end).
  assert (Hh : forall y, y ∈ h -> y <> 64%N /\ y ∈ au).
  { intros y Hy. subst h. destruct (rsplit_once 64 au) as [[u v]|] eqn:E.
    - apply rsplit_once_some in E as [Hn ->]. split; [set_solver|]. apply elem_of_app. right.
      by apply list_elem_of_further.
    - apply rsplit_once_none in E. set_solver. }
  intros Hx. apply Hh. destruct (strip_suffix dp h) eqn:E; cbn in Hx; [|done].
  by eapply elem_of_strip_suffix.
Qed.
Lemma valid_host_nonempty h : valid_host h = true -> h <> [].
Proof. by intros H ->. Qed.

(** *** The path *)
Lemma trim_end_chars f s x : x ∈ trim_end_by f s -> x ∈ s.
Proof.
  unfold trim_end_by. rewrite list_elem_of_In, <- in_rev, <- list_elem_of_In.
  intros H. rewrite list_elem_of_In, in_rev, <- list_elem_of_In. revert H.
  induction (rev s) as [|y l IH]; cbn; [done|]. destruct (f y); [|done]. set_solver.
Qed.
Lemma trim_end_head f s c : head s = Some c -> trim_end_by f s = [] \/ head (trim_end_by f s) = Some c.
Proof.
  destruct s as [|y s]; [done|]. intros [= ->]. unfold trim_end_by. cbn [rev].
  induction (rev s) as [|z l IH]; cbn [drop_while app].
  - destruct (f c); cbn; auto.
  - destruct (f z); [done|]. right. cbn [rev]. by rewrite rev_app_distr.
Qed.

(** *** The reference as a whole *)
Lemma split_at_any_tail cs s a b : split_at_any cs s = (a, b) -> b = [] \/ exists x l, b = x :: l /\ x ∈ cs.
Proof.
  intros (_ & _ & H)%split_at_any_spec. destruct b as [|x l]; [by left|]. right. eauto.
Qed.

(** The parts the code computes before it assembles the result. *)
Lemma raw_parts after au pa qu fr :
  parts_of after = mkParts au pa qu fr ->
  (forall x, x ∈ au -> x ∉ [47; 63; 35]%N) /\ (pa = [] \/ head pa = Some 47%N) /\
  63%N ∉ pa /\ 35%N ∉ pa /\ (forall q, qu = Some q -> 35%N ∉ q).
Proof.
  unfold parts_of. destruct (split_at_any _ after) as [a tail] eqn:E.
  destruct (split_at_any_spec _ _ _ _ E) as (_ & Ha & Ht).
  set (bf := match split_once 35 tail with Some (b, f) => (b, Some f) | None => (tail, None) end).
  assert (Hb : 35%N ∉ bf.1 /\ (bf.1 = [] \/ exists l, bf.1 = 47%N :: l \/ bf.1 = 63%N :: l)).
  { subst bf. destruct (split_once 35 tail) as [[b f]|] eqn:F; cbn.
    - apply split_once_some in F as [-> Hn]. split; [done|]. destruct b as [|x b]; [by left|right].
      pose proof (Ht x _ eq_refl) as Hx. exists b. set_solver.
    - apply split_once_none in F. split; [done|]. destruct tail as [|x t]; [by left|right].
      pose proof (Ht x _ eq_refl) as Hx. exists t. set_solver. }
  destruct bf as [b f]. cbn in Hb. destruct Hb as [Hb35 Hbh].
  destruct (split_once 63 b) as [[p q]|] eqn:Q; intros [= <- <- <- <-]; (split; [done|]).
  - apply split_once_some in Q as [-> Hn]. split; [|repeat split; [done| |]].
    + destruct p as [|y p]; [by left|right]. destruct Hbh as [?|(l & [H|H])]; [done| |];
        injection H as -> _; [done|set_solver].
    + set_solver.
    + intros r [= <-]. set_solver.
  - apply split_once_none in Q. split; [|by repeat split].
    destruct b as [|y p]; [by left|right]. destruct Hbh as [?|(l & [H|H])]; [done| |];
      injection H as -> _; [done|set_solver].
Qed.

Lemma normalize_http_parts lower after out :
  normalize_http lower after = Some out ->
  exists p, out = lower ++ lit "://" ++ assemble p /\ parts_of (assemble p) = p /\ no_credentials p.
Proof.
  unfold normalize_http. intros H. destruct (parts_of after) as [au pa qu fr] eqn:P.
  destruct (raw_parts _ _ _ _ _ P) as (Hau & Hpa & Hq & Hf & Hqf). unfold parts_of in P.
  destruct (split_at_any _ after) as [a tail]. destruct (match split_once 35 tail with Some _ => _ | None => _ end) as [b f].
  destruct (match split_once 63 b with Some _ => _ | None => _ end) as [p q].
  injection P as -> -> -> ->. set (dp := if bool_decide _ then _ else _) in H.
  set (h := default _ _) in H. destruct (valid_host h) eqn:V; [|done]. apply (inj Some) in H as <-.
  set (pa' := trim_end_by _ pa). set (qu' := qu ≫= strip_secret_params).
  set (fr' := match clean_fragment <$> fr with Some (c :: f) => Some (c :: f) | _ => None end).
  exists (mkParts (to_ascii_lowercase h) pa' qu' fr'). split; [|split].
  - unfold assemble. cbn [authority path query fragment]. rewrite <- !app_assoc. subst fr'.
    by destruct (clean_fragment <$> fr) as [[|]|]; rewrite <- ?app_assoc.
  - apply parts_assemble; cbn.
    + intros x Hx Hin. assert (Hl : is_ascii_lower x = false).
      { clear -Hin. repeat (apply elem_of_cons in Hin as [->|Hin]; [reflexivity|]).
        by apply not_elem_of_nil in Hin. }
      apply (elem_of_lower _ _ Hl), host_chars in Hx as [_ Hx]. by apply (Hau x).
    + destruct Hpa as [->|Hpa]; [by left|]. by apply trim_end_head.
    + intros Hx%trim_end_chars. done.
    + intros Hx%trim_end_chars. done.
    + subst qu'. intros q'. destruct qu as [q|]; [|done]. cbn. intros Hs Hx.
      destruct (strip_chars _ _ _ Hs Hx) as [?|?]; [done|]. by apply (Hqf q).
  - split; [|split; [|split]]; cbn.
    + intros Hx%elem_of_lower%host_chars; [|done]. by destruct Hx.
    + apply valid_host_nonempty in V. by destruct h.
    + subst qu'. intros q'. destruct qu as [q|]; [|done]. cbn. apply strip_clean.
    + subst fr'. intros g. destruct fr as [f'|]; [|done]. cbn.
      pose proof (clean_fragment_ok f') as Hc. destruct (clean_fragment f'); [done|]. by intros [= <-].
Qed.
End SourceRefFacts.

Section Property.
  Import SourceRef SourceRefSpec SourceRefFacts.

(** C35: an accepted source reference has a lower-case scheme and at most 2048
    characters; and if it is an [http] or [https] reference, it reads back as a
    host without user name or password, a query and a fragment in which no
    parameter has the name of a credential, whatever the input was: percent
    escapes, upper case, nested routes and repeated parameters included. *)
Theorem source_ref_carries_no_credentials raw out :
  normalize_source_ref raw = Ok out ->
  (length out <= SOURCE_REF_MAX_LEN)%nat /\
  exists scheme rest, out = to_ascii_lowercase scheme ++ 58%N :: rest /\ valid_scheme scheme = true /\
    ((to_ascii_lowercase scheme = lit "http" \/ to_ascii_lowercase scheme = lit "https") ->
     exists after, rest = lit "//" ++ after /\ no_credentials (parts_of after)).
Proof.
  unfold normalize_source_ref. destruct (str_is_empty _); [done|]. destruct (existsb _ _); [done|].
  destruct (split_once 58 (trim raw)) as [[scheme rest]|]; [|done].
  destruct (valid_scheme scheme) eqn:V; [|done].
  set (res := if _ || _ then _ else _). destruct res as [o|] eqn:R; [|done].
  destruct (_ <? _)%nat eqn:L; [done|]. intros [= <-]. apply Nat.ltb_ge in L. split; [exact L|].
  subst res. destruct (bool_decide (to_ascii_lowercase scheme = lit "http")
                       || bool_decide (to_ascii_lowercase scheme = lit "https")) eqn:B.
  - destruct (strip_prefix (lit "//") rest) as [after|]; [|done].
    destruct (normalize_http (to_ascii_lowercase scheme) after) as [o'|] eqn:N; [|done].
    injection R as <-. apply normalize_http_parts in N as (p & -> & Hp & Hc).
    exists scheme, (lit "//" ++ assemble p). split; [done|]. split; [done|]. intros _.
    exists (assemble p). by rewrite Hp.
  - injection R as <-. exists scheme, rest. split; [done|]. split; [done|]. intros H.
    apply orb_false_iff in B as [B1 B2]. bsplit. by destruct H.
Qed.
End Property.

Lemma source_ref_carries_no_credentials_witness :
  SourceRef.normalize_source_ref (lit "https://bob:pw@Example.org/a?x=1&%74oken=9#k=1&Sig=2")
    = Ok (lit "https://example.org/a?x=1#k=1") /\
  exists scheme rest, lit "https://example.org/a?x=1#k=1" = to_ascii_lowercase scheme ++ 58%N :: rest.
Proof.
  split; [vm_compute; reflexivity|].
  destruct (source_ref_carries_no_credentials
    (lit "https://bob:pw@Example.org/a?x=1&%74oken=9#k=1&Sig=2") (lit "https://example.org/a?x=1#k=1"))
    as (_ & scheme & rest & H & _); [vm_compute; reflexivity|].
  exists scheme, rest. exact H.
Defined.
