(* ===== verification/RegistryModel.v ===== *)
(** * crates/domain: documents, artifacts, lifecycle rules, evidence and leases

    The data of [document.rs], [artifact.rs], [rule.rs], [evidence.rs] and
    [work_lease.rs] with their pure operations. *)

From S2P Require Import Prelude Shared TaskModel PlanModel.

(** ** Documents (document.rs) *)
Inductive DocumentKind : Set := Interview | HumanLog.
#[export] Instance DocumentKind_eq_dec : EqDecision DocumentKind.
Proof. solve_decision. Defined.

Inductive DocumentStatus : Set :=
  DocDraft | DocActive | DocOutdated | DocArchived | DocFrozen | DocReplaced.
#[export] Instance DocumentStatus_eq_dec : EqDecision DocumentStatus.
Proof. solve_decision. Defined.

Module Document.
Record Document : Type := mk {
  id : DocumentId;
  project_id : ProjectId;
  kind : DocumentKind;
  title : Str;
  content : Str;
  status : DocumentStatus;
  task_id : option TaskId;
  trigger_kind : option Str;
  consumer : option Str;
  created_at : Z;
  updated_at : Z;
  archived_at : option Z;
  last_read_at : option Z;
  last_read_by : option Str;
  read_count : Z }.
#[global] Instance Document_rebuild : Rebuild Document := fun d =>
  mk (id d) (project_id d) (kind d) (title d) (content d) (status d) (task_id d)
     (trigger_kind d) (consumer d) (created_at d) (updated_at d) (archived_at d)
     (last_read_at d) (last_read_by d) (read_count d).
#[global] Instance Document_eq_dec : EqDecision Document.
Proof. solve_decision. Defined.

Record NewDocument : Type := mkNew {
  nd_id : option DocumentId;
  nd_project_id : ProjectId;
  nd_kind : DocumentKind;
  nd_title : Str;
  nd_content : option Str;
  nd_status : option DocumentStatus;
  nd_task_id : option TaskId;
  nd_trigger_kind : option Str;
  nd_consumer : option Str }.
#[global] Instance NewDocument_rebuild : Rebuild NewDocument := fun d =>
  mkNew (nd_id d) (nd_project_id d) (nd_kind d) (nd_title d) (nd_content d) (nd_status d)
        (nd_task_id d) (nd_trigger_kind d) (nd_consumer d).

Definition into_document (self : NewDocument) (id : DocumentId) (now : Z) : Document :=
  mk id (nd_project_id self) (nd_kind self) (nd_title self)
     (default [] (nd_content self)) (default DocActive (nd_status self))
     (nd_task_id self) (nd_trigger_kind self) (nd_consumer self) now now None None None 0.
End Document.
Abbreviation Document := Document.Document.

(** ** Artifacts (artifact.rs) *)
Inductive ArtifactStatus : Set := ArtPending | ArtActive | ArtCommitted | ArtDeprecated.
#[export] Instance ArtifactStatus_eq_dec : EqDecision ArtifactStatus.
Proof. solve_decision. Defined.

Inductive RoleArtifactStatus : Set := Proposed | RoleSuperseded | Applied | RoleRejected.
#[export] Instance RoleArtifactStatus_eq_dec : EqDecision RoleArtifactStatus.
Proof. solve_decision. Defined.

Inductive ArtifactRelationKind : Set :=
  DependsOn | Implements | Tests | Documents | Supersedes | ConflictsWith.
#[export] Instance ArtifactRelationKind_eq_dec : EqDecision ArtifactRelationKind.
Proof. solve_decision. Defined.

Module Artifact.
Definition can_transition_to (self to : RoleArtifactStatus) : bool :=
  bool_decide (self = Proposed) && negb (bool_decide (to = Proposed)).

Record RoleArtifact : Type := mkRole {
  role : Str;
  role_kind : Str;
  generation : Z;
  role_status : RoleArtifactStatus;
  payload : Json }.

Record Artifact : Type := mk {
  id : ArtifactId;
  uri : Str;
  title : Str;
  description : Str;
  status : ArtifactStatus;
  owner_agent_id : option AgentId;
  task_id : option TaskId;
  project_id : option ProjectId;
  version : option Str;
  last_write_token : option Z;
  role_artifact : option RoleArtifact;
  created_at : Z;
  updated_at : Z }.
#[global] Instance Artifact_rebuild : Rebuild Artifact := fun a =>
  mk (id a) (uri a) (title a) (description a) (status a) (owner_agent_id a)
     (task_id a) (project_id a) (version a) (last_write_token a) (role_artifact a)
     (created_at a) (updated_at a).

Record NewArtifact : Type := mkNew {
  na_id : option ArtifactId;
  na_uri : Str;
  na_title : Str;
  na_description : option Str;
  na_task_id : option TaskId;
  na_project_id : option ProjectId }.

Definition into_artifact (fresh : ArtifactId) (self : NewArtifact) (now : Z) : Artifact :=
  mk (default fresh (na_id self)) (na_uri self) (na_title self)
     (default [] (na_description self)) ArtPending None (na_task_id self)
     (na_project_id self) None None None now now.

Record ArtifactRelation : Type := mkRel {
  rel_id : ArtifactRelationId;
  from_id : ArtifactId;
  to_id : ArtifactId;
  rel_kind : ArtifactRelationKind;
  rel_created_at : Z }.
End Artifact.
Abbreviation Artifact := Artifact.Artifact.
Abbreviation ArtifactRelation := Artifact.ArtifactRelation.

(** ** Lifecycle rules (rule.rs) *)
Inductive RuleMode : Set := Off | Recommendation | Required.
#[export] Instance RuleMode_eq_dec : EqDecision RuleMode.
Proof. solve_decision. Defined.

Definition strictness (m : RuleMode) : Z :=
  match m with Off => 0 | Recommendation => 1 | Required => 2 end.

Inductive RuleScope : Type :=
| ScopeTenant
| ScopeProject (id : ProjectId)
| ScopePlan (id : PlanId)
| ScopeTask (id : TaskId).
#[export] Instance RuleScope_eq_dec : EqDecision RuleScope.
Proof. solve_decision. Defined.

Definition scope_kind (s : RuleScope) : string :=
  match s with
  | ScopeTenant => "tenant"
  | ScopeProject _ => "project"
  | ScopePlan _ => "plan"
  | ScopeTask _ => "task"
  end.

(** The triggers of [rule.rs] and [TriggerEvent] of [lifecycle_gate.rs] are the
    same enumeration with the same wire strings. *)
Inductive RuleTrigger : Set :=
| TrProjectCreated
| TrPlanCreated
| TrPlanBeforeApprove
| TrTaskCreated
| TrTaskBeforeStart
| TrTaskBeforeComplete
| TrRunBeforeExecute
| TrRunBeforeComplete
| TrDocumentCreated
| TrTaskHandoff.
#[export] Instance RuleTrigger_eq_dec : EqDecision RuleTrigger.
Proof. solve_decision. Defined.

Record Condition : Type := mkCondition {
  status_from : option (list Status);
  status_to : option (list Status);
  title_prefix : option (list Str) }.

Definition condition_is_empty (c : Condition) : bool :=
  match c with mkCondition None None None => true | _ => false end.

Inductive Requirement : Type :=
| ReadArtifact (doc_ref min_version : Str)
| CreateArtifact (artifact_kind : Str)
| ImpactCheck (target : Str) (required_fields : list Str)
| DecisionRecord (required_fields : list Str)
| ReqCompletionNote (required_fields : list Str)
| OwnerRequired
| AcceptanceCriteriaRequired
| IndependentTestVerification (executor_id : AgentId) (source_revision : Str)
| DocumentLinked
| RiskCheck (target : Str) (required_fields : list Str)
| WipLimit (max_in_progress : Z).

Definition type_str (r : Requirement) : string :=
  match r with
  | ReadArtifact _ _ => "read_artifact"
  | CreateArtifact _ => "create_artifact"
  | ImpactCheck _ _ => "impact_check"
  | DecisionRecord _ => "decision_record"
  | ReqCompletionNote _ => "completion_note"
  | OwnerRequired => "owner_required"
  | AcceptanceCriteriaRequired => "acceptance_criteria_required"
  | RiskCheck _ _ => "risk_check"
  | DocumentLinked => "document_linked"
  | IndependentTestVerification _ _ => "independent_test_verification"
  | WipLimit _ => "wip_limit"
  end.

Definition placement_error (r : Requirement) (scope : RuleScope) (trigger : RuleTrigger)
  : option string :=
  match r with
  | WipLimit max_in_progress =>
      if negb (bool_decide (trigger = TrTaskBeforeStart))
      then Some "wip_limit is only valid on trigger task.before_start"%string
      else match scope with
           | ScopeTask _ =>
               Some "wip_limit needs a tenant, project or plan scope; a task scope holds one task"%string
           | _ => if (max_in_progress =? 0)%Z
                  then Some "wip_limit max_in_progress must be at least 1"%string
                  else None
           end
  | _ => None
  end.

Module Rule.
Record Rule : Type := mk {
  id : RuleId;
  rule_key : Str;
  title : Str;
  scope : RuleScope;
  trigger : RuleTrigger;
  condition : option Condition;
  requirement : Requirement;
  mode : RuleMode;
  message : Str;
  override_allowed : bool;
  enabled : bool;
  created_at : Z;
  updated_at : Z }.
#[global] Instance Rule_rebuild : Rebuild Rule := fun r =>
  mk (id r) (rule_key r) (title r) (scope r) (trigger r) (condition r)
     (requirement r) (mode r) (message r) (override_allowed r) (enabled r)
     (created_at r) (updated_at r).

Record NewRule : Type := mkNew {
  nr_id : option RuleId;
  nr_rule_key : Str;
  nr_title : Str;
  nr_scope : RuleScope;
  nr_trigger : RuleTrigger;
  nr_condition : option Condition;
  nr_requirement : Requirement;
  nr_mode : RuleMode;
  nr_message : Str;
  nr_override_allowed : bool;
  nr_enabled : bool }.

Definition into_rule (fresh : RuleId) (self : NewRule) (now : Z) : Rule :=
  mk (default fresh (nr_id self)) (nr_rule_key self) (nr_title self) (nr_scope self)
     (nr_trigger self) (nr_condition self) (nr_requirement self) (nr_mode self)
     (nr_message self) (nr_override_allowed self) (nr_enabled self) now now.
End Rule.
Abbreviation Rule := Rule.Rule.

Module RulePatch.
Record RulePatch : Type := mk {
  title : option Str;
  condition : option (option Condition);
  requirement : option Requirement;
  mode : option RuleMode;
  message : option Str;
  override_allowed : option bool;
  enabled : option bool }.

Definition is_empty (p : RulePatch) : bool :=
  match p with mk None None None None None None None => true | _ => false end.

Definition apply (p : RulePatch) (rule : Rule) (now : Z) : Rule :=
  rule <| Rule.title := default (Rule.title rule) (title p) |>
       <| Rule.condition := default (Rule.condition rule) (condition p) |>
       <| Rule.requirement := default (Rule.requirement rule) (requirement p) |>
       <| Rule.mode := default (Rule.mode rule) (mode p) |>
       <| Rule.message := default (Rule.message rule) (message p) |>
       <| Rule.override_allowed := default (Rule.override_allowed rule) (override_allowed p) |>
       <| Rule.enabled := default (Rule.enabled rule) (enabled p) |>
       <| Rule.updated_at := now |>.
End RulePatch.
Abbreviation RulePatch := RulePatch.RulePatch.

(** ** Evidence (evidence.rs) *)
Inductive EvidenceKind : Set :=
| DocumentReadAck
| ImpactAssessment
| EvDecisionRecord
| EvCompletionNote
| ArtifactCreated
| OwnerAssigned
| AcceptanceCriteriaDefined
| RiskCheckCompleted.
#[export] Instance EvidenceKind_eq_dec : EqDecision EvidenceKind.
Proof. solve_decision. Defined.

Inductive EvidenceReach : Set := ReachSelfOnly | ReachPlan | ReachProject | ReachTenant.

Definition reach (k : EvidenceKind) : EvidenceReach :=
  match k with
  | DocumentReadAck => ReachTenant
  | EvDecisionRecord => ReachProject
  | ArtifactCreated => ReachProject
  | ImpactAssessment => ReachPlan
  | RiskCheckCompleted => ReachPlan
  | OwnerAssigned => ReachSelfOnly
  | AcceptanceCriteriaDefined => ReachSelfOnly
  | EvCompletionNote => ReachSelfOnly
  end.

Definition evidence_kind_as_str (k : EvidenceKind) : string :=
  match k with
  | DocumentReadAck => "document_read_ack"
  | ImpactAssessment => "impact_assessment"
  | EvDecisionRecord => "decision_record"
  | EvCompletionNote => "completion_note"
  | ArtifactCreated => "artifact_created"
  | OwnerAssigned => "owner_assigned"
  | AcceptanceCriteriaDefined => "acceptance_criteria_defined"
  | RiskCheckCompleted => "risk_check_completed"
  end.

Definition evidence_kind_parse_str (s : string) : option EvidenceKind :=
  if String.eqb s "document_read_ack" then Some DocumentReadAck
  else if String.eqb s "impact_assessment" then Some ImpactAssessment
  else if String.eqb s "decision_record" then Some EvDecisionRecord
  else if String.eqb s "completion_note" then Some EvCompletionNote
  else if String.eqb s "artifact_created" then Some ArtifactCreated
  else if String.eqb s "owner_assigned" then Some OwnerAssigned
  else if String.eqb s "acceptance_criteria_defined" then Some AcceptanceCriteriaDefined
  else if String.eqb s "risk_check_completed" then Some RiskCheckCompleted
  else None.

Module Evidence.
Record Evidence : Type := mk {
  id : EvidenceId;
  kind : EvidenceKind;
  scope : RuleScope;
  target : option Str;
  doc_version : option Str;
  actor : ActorRef;
  authenticated_actor_id : option AgentId;
  reason : Str;
  payload : Json;
  project_id : option ProjectId;
  plan_id : option PlanId;
  task_id : option TaskId;
  run_id : option RunId;
  artifact_id : option ArtifactId;
  rule_id : option RuleId;
  recorded_at : Z;
  superseded_by : option EvidenceId }.
#[global] Instance Evidence_rebuild : Rebuild Evidence := fun e =>
  mk (id e) (kind e) (scope e) (target e) (doc_version e) (actor e)
     (authenticated_actor_id e) (reason e) (payload e) (project_id e) (plan_id e)
     (task_id e) (run_id e) (artifact_id e) (rule_id e) (recorded_at e)
     (superseded_by e).

Record NewEvidence : Type := mkNew {
  ne_id : option EvidenceId;
  ne_kind : EvidenceKind;
  ne_scope : RuleScope;
  ne_target : option Str;
  ne_doc_version : option Str;
  ne_reason : Str;
  ne_payload : Json;
  ne_project_id : option ProjectId;
  ne_plan_id : option PlanId;
  ne_task_id : option TaskId;
  ne_run_id : option RunId;
  ne_artifact_id : option ArtifactId;
  ne_rule_id : option RuleId;
  ne_supersedes : option EvidenceId }.

Definition into_evidence (fresh : EvidenceId) (self : NewEvidence) (actor : ActorRef)
    (now : Z) : Evidence :=
  mk (default fresh (ne_id self)) (ne_kind self) (ne_scope self) (ne_target self)
     (ne_doc_version self) actor None (ne_reason self) (ne_payload self)
     (ne_project_id self) (ne_plan_id self) (ne_task_id self) (ne_run_id self)
     (ne_artifact_id self) (ne_rule_id self) now None.
End Evidence.
Abbreviation Evidence := Evidence.Evidence.

(** ** Work leases (work_lease.rs) *)
Inductive LeaseMode : Set := Exclusive | SharedRead | Review | LeaseIntent.
#[export] Instance LeaseMode_eq_dec : EqDecision LeaseMode.
Proof. solve_decision. Defined.

Module Lease.
Definition as_str (m : LeaseMode) : string :=
  match m with
  | Exclusive => "exclusive"
  | SharedRead => "shared_read"
  | Review => "review"
  | LeaseIntent => "intent"
  end.

Definition parse (s : Str) : option LeaseMode :=
  let s := to_ascii_lowercase (trim s) in
  if bool_decide (s = lit "exclusive") then Some Exclusive
  else if bool_decide (s = lit "shared_read") then Some SharedRead
  else if bool_decide (s = lit "review") then Some Review
  else if bool_decide (s = lit "intent") then Some LeaseIntent
  else None.

Definition conflicts_with (self other : LeaseMode) : bool :=
  if bool_decide (self = LeaseIntent) || bool_decide (other = LeaseIntent) then false
  else bool_decide (self = Exclusive) || bool_decide (other = Exclusive).

(** [str::split_once] on a literal separator: the first occurrence. *)
Fixpoint split_once (sep s : Str) : option (Str * Str) :=
  match strip_prefix sep s with
  | Some rest => Some ([], rest)
  | None =>
      match s with
      | [] => None
      | c :: s' =>
          match split_once sep s' with
          | Some (a, b) => Some (c :: a, b)
          | None => None
          end
      end
  end.

Definition eq_ignore_ascii_case (a b : Str) : bool :=
  bool_decide (to_ascii_lowercase a = to_ascii_lowercase b).

Definition canonical_target_uri (raw : Str) : Str :=
  let raw := trim raw in
  match split_once (lit "://") raw with
  | None => lit "file://" ++ PathLease.normalize_lease_path raw
  | Some (scheme, rest) =>
      if eq_ignore_ascii_case scheme (lit "file")
      then lit "file://" ++ PathLease.normalize_lease_path rest
      else
        let scheme := to_ascii_lowercase scheme in
        let rest := trim_end_by (fun c => (c =? PathLease.slash)%N) (trim rest) in
        scheme ++ lit "://" ++ rest
  end.

Definition targets_overlap (a b : Str) : bool :=
  match strip_prefix (lit "file://") a, strip_prefix (lit "file://") b with
  | Some pa, Some pb => PathLease.paths_overlap pa pb
  | None, None => bool_decide (a = b)
  | _, _ => false
  end.

Record WorkLease : Type := mk {
  id : WorkLeaseId;
  agent_id : AgentId;
  task_id : TaskId;
  project_id : option ProjectId;
  path_glob : Str;
  target_uri : option Str;
  mode : LeaseMode;
  fencing_token : option Z;
  acquired_at : Z;
  expires_at : Z }.
#[global] Instance WorkLease_rebuild : Rebuild WorkLease := fun l =>
  mk (id l) (agent_id l) (task_id l) (project_id l) (path_glob l) (target_uri l)
     (mode l) (fencing_token l) (acquired_at l) (expires_at l).
#[global] Instance WorkLease_eq_dec : EqDecision WorkLease.
Proof. solve_decision. Defined.

Definition resource_key (self : WorkLease) : Str :=
  match target_uri self with
  | Some u => u
  | None => canonical_target_uri (path_glob self)
  end.
End Lease.
Abbreviation WorkLease := Lease.WorkLease.
