(* ===== verification/Events.v ===== *)
(** * crates/events: the event enumeration

    [Event] has one constructor per variant of [event.rs] (the payload of a
    struct variant becomes the constructor's arguments in the same order), with
    its retention class, kind string, targets and channel. *)

From S2P Require Import Prelude Shared TaskModel PlanModel RegistryModel.

Inductive ObsolescenceKind : Set := PlanWasArchived | TaskRemoved | GoalChanged.
#[export] Instance ObsolescenceKind_eq_dec : EqDecision ObsolescenceKind.
Proof. solve_decision. Defined.

Inductive RuleDecision : Set := DecisionWarning | DecisionBlocked | DecisionOverridden.
#[export] Instance RuleDecision_eq_dec : EqDecision RuleDecision.
Proof. solve_decision. Defined.

(** Operational metrics are telemetry: only their run and layer are read here. *)
Inductive OperationalEventType : Set := MetricStep | MetricTransition | MetricError.
Inductive OperationalOutcome : Set :=
  OutcomeOk | OutcomeRetry | OutcomeBlocked | OutcomeError.
Record OperationalMetric : Type := mkMetric {
  om_ts : Z;
  om_event_type : OperationalEventType;
  om_run_id : Str;
  om_node_id : option Str;
  om_layer : Str;
  om_name : Str;
  om_outcome : OperationalOutcome;
  om_latency_ms : Z;
  om_tokens : option Json;
  om_retry_count : Z;
  om_error_class : option Str;
  om_stuck_reason : option Str;
  om_attrs : Json }.

Record GraphEdgeSpec : Type := mkGraphEdge {
  ge_from_id : Str;
  ge_to_id : Str;
  ge_kind : Str }.

Inductive EventClass : Set := Domain | Telemetry.
#[export] Instance EventClass_eq_dec : EqDecision EventClass.
Proof. solve_decision. Defined.

Inductive Channel : Set :=
  Tasks | Comments | AgentStatus | Presence | Webhooks | Plans | Runs | DocumentsCh
| AiOps | WorkUnits | ArtifactsCh | Rules.
#[export] Instance Channel_eq_dec : EqDecision Channel.
Proof. solve_decision. Defined.

Module Event.
Inductive Event : Type :=
| OperationalMetricRecorded (metric : OperationalMetric)
| GraphNodeUpserted (node_id node_kind source_id : Str) (project_id : option Str)
  (title text : Str) (metadata_json : Json) (edges : list GraphEdgeSpec) (at_ : Z)
| TaskCreated (task : NewTask)
| TaskUpdated (task_id : TaskId) (patch : TaskPatch)
| TaskStatusChanged (task_id : TaskId) (from to : Status)
| TaskPriorityChanged (task_id : TaskId) (from to : Priority)
| TaskCompleted (task_id : TaskId) (completed_at : Z) (completion_note : option
  CompletionNote)
| TaskDeleted (task_id : TaskId)
| TaskSplitGenerated (parent : TaskId) (subtasks : list NewTask)
| ConflictResolved (winner_event_id loser_event_id : EventId) (reason : Str)
  (loser_diff : Json)
| ProjectCreated (project : Project)
| ProjectUpdated (project_id : ProjectId) (title : option Str) (description : option
  (option Str))
| ProjectDeleted (project_id : ProjectId)
| AgentActionRecorded (action : AgentAction)
| CommentAdded (comment : Comment)
| CommentEdited (comment_id : CommentId) (task_id : TaskId) (body : option Str)
  (edited_at : Z)
| CommentDeleted (comment_id : CommentId) (task_id : TaskId) (deleted_at : Z)
| TaskReopened (task_id : TaskId) (by_ : Actor) (at_ : Z)
| TaskClosed (task_id : TaskId) (by_ : Actor) (at_ : Z)
| TaskCommented (task_id : TaskId) (comment_id : CommentId) (author : Actor) (preview
  : Str)
| PlanCreated (plan : Plan)
| PlanUpdated (plan_id : PlanId) (patch : PlanPatch)
| PlanStatusChanged (plan_id : PlanId) (from to : PlanStatus)
| PlanGoalChanged (plan_id : PlanId) (from to : Str)
| PlanTaskAdded (plan_id : PlanId) (task_id : TaskId) (position : Z) (depends_on :
  list TaskId)
| PlanTaskRemoved (plan_id : PlanId) (task_id : TaskId)
| PlanTaskAmended (plan_id : PlanId) (task_id : TaskId) (patch : TaskPatch)
| PlanReordered (plan_id : PlanId) (order : list TaskId)
| PlanArchived (plan_id : PlanId) (at_ : Z)
| PlanDeleted (plan_id : PlanId) (at_ : Z)
| SourceUpserted (source : SourceNode)
| PlanSourceSet (plan_id : PlanId) (source_ref : Str) (at_ : Z)
| RunStarted (run : Run)
| RunStepStarted (run_id : RunId) (task_id : TaskId) (at_ : Z)
| RunStepFinished (run_id : RunId) (task_id : TaskId) (outcome : RunOutcome) (at_ : Z)
| RunCompleted (run_id : RunId) (at_ : Z)
| RunFailed (run_id : RunId) (reason : Str) (at_ : Z)
| RunAborted (run_id : RunId) (reason : Str) (at_ : Z)
| RunUnresponsive (run_id : RunId) (at_ : Z)
| RunStale (run_id : RunId) (at_ : Z)
| RunNoteAppended (run_id : RunId) (note_id : RunNoteId) (body : Str) (by_actor :
  Actor) (at_ : Z)
| AgentSessionStarted (session : AgentSession)
| AgentSessionEnded (session_id : AgentSessionId) (at_ : Z)
| AgentSessionPlanUpdated (session_id : AgentSessionId) (steps : list
  AgentSessionPlanStep)
| SessionArtifactAttached (artifact : SessionArtifact)
| AgentClaimed (agent_id : AgentId) (task_id : TaskId) (claim_id : option ClaimId)
  (expires_at : Z)
| AgentReleased (agent_id : AgentId) (task_id : TaskId) (claim_id : option ClaimId)
| FilesReserved (leases : list WorkLease)
| FilesReleased (agent_id : AgentId) (task_id : TaskId) (lease_ids : option (list
  WorkLeaseId))
| PlanModifiedByHuman (plan_id : PlanId) (during_run_id : option RunId)
| TaskContested (task_id : TaskId) (actors : list Actor) (field : option Str)
| RunObsolescedByPlanEdit (run_id : RunId) (plan_id : PlanId) (obsolescence :
  ObsolescenceKind)
| RunStopRequested (run_id : RunId) (reason : option Str) (by_ : Actor)
| RunElicitationRequested (run_id : RunId) (prompt : Str) (choices : list Str)
| RunAuthRequired (run_id : RunId) (scope : Str)
| RunInterventionAccepted (run_id : RunId) (choice : Str) (by_ : Actor)
| TaskLinked (relation_id : RelationId) (from to : TaskId) (rel_kind : RelationKind)
  (actor : Actor) (occurred_at : Z)
| TaskUnlinked (relation_id : RelationId) (from to : TaskId) (rel_kind : RelationKind)
  (occurred_at : Z)
| TaskUnblocked (task_id unblocked_by : TaskId) (occurred_at : Z)
| TaskDueElapsed (task_id : TaskId) (due_at at_ : Z)
| TaskRelationKindChanged (relation_id : RelationId) (from to : TaskId) (from_kind
  to_kind : RelationKind) (occurred_at : Z)
| ProjectSettingsChanged (project_id : ProjectId) (auto_append : AutoAppendSettings)
  (at_ : Z) (intake_source : option (option IntakeSourcePolicy)) (audit : option
  (option Json))
| AiOperationStarted (op_id : Id KAiOp) (op_kind target_id : Str) (at_ : Z)
| AiOperationPhaseChanged (op_id : Id KAiOp) (phase : Str) (detail : option Str) (at_
  : Z)
| AiOperationCompleted (op_id : Id KAiOp) (outcome : Str) (at_ : Z)
| WorkUnitCreated (work_unit : WorkUnit)
| WorkUnitClaimed (work_unit_id : WorkUnitId) (agent_id : AgentId) (expires_at : Z)
| WorkUnitStarted (work_unit_id : WorkUnitId) (at_ : Z)
| WorkUnitBlocked (work_unit_id : WorkUnitId) (reason : Str) (at_ : Z)
| WorkUnitCompleted (work_unit_id : WorkUnitId) (outcome : Str) (produced_artifacts :
  list Str) (next_suggested_units : list WorkUnitId) (completed_by : option AgentId)
  (elapsed_ms : option Z) (at_ : Z)
| WorkUnitReleased (work_unit_id : WorkUnitId) (at_ : Z)
| HandoffRequested (handoff : HandoffContract)
| HandoffAccepted (handoff_id : HandoffId) (by_ : option AgentId) (notes : option Str)
  (latency_ms : option Z) (at_ : Z)
| HandoffRejected (handoff_id : HandoffId) (reason : Str) (required_changes : list
  Str) (latency_ms : option Z) (at_ : Z)
| DocumentCreated (document : Document)
| DocumentContentReplaced (document_id : DocumentId) (content : Str) (at_ : Z)
| DocumentContentAppended (document_id : DocumentId) (append : Str) (at_ : Z)
| DocumentRenamed (document_id : DocumentId) (title : Str) (at_ : Z)
| DocumentArchived (document_id : DocumentId) (at_ : Z)
| DocumentStatusChanged (document_id : DocumentId) (from to : DocumentStatus) (at_ :
  Z)
| DocumentTaskLinkChanged (document_id : DocumentId) (task_id : option TaskId) (at_ :
  Z)
| ArtifactRegistered (artifact : Artifact)
| ArtifactOwnerAssigned (artifact_id : ArtifactId) (owner_agent_id : AgentId) (at_ :
  Z)
| ArtifactStatusChanged (artifact_id : ArtifactId) (from to : ArtifactStatus) (at_ :
  Z)
| ArtifactChanged (artifact_id : ArtifactId) (title description : option Str) (at_ :
  Z)
| ArtifactWriteCommitted (artifact_id : ArtifactId) (agent_id : AgentId)
  (fencing_token : Z) (version : option Str) (at_ : Z)
| ArtifactDeprecated (artifact_id : ArtifactId) (reason : option Str) (at_ : Z)
| ArtifactRelationAdded (relation : ArtifactRelation)
| ArtifactRelationRemoved (art_relation_id : ArtifactRelationId) (from_id to_id :
  ArtifactId) (rel_kind : ArtifactRelationKind) (at_ : Z)
| RoleArtifactStatusChanged (artifact_id : ArtifactId) (from to : RoleArtifactStatus)
  (at_ : Z)
| RuleCreated (rule : Rule)
| RuleUpdated (rule : Rule)
| RuleDisabled (rule_id : RuleId) (at_ : Z)
| RuleDeleted (rule_id : RuleId)
| EvidenceRecorded (evidence : Evidence)
| EvidenceSuperseded (evidence_id superseded_by : EvidenceId) (at_ : Z)
| RuleFired (rule_id : RuleId) (rule_key : Str) (decision : RuleDecision) (trigger :
  Str) (actor : Actor) (project_id : option ProjectId) (plan_id : option
  PlanId) (task_id : option TaskId) (message : Str) (override_reason : option Str)
  (at_ : Z)
| DeviceConnected (device_id : DeviceId) (connected_at : Z)
| DeviceDisconnected (device_id : DeviceId) (disconnected_at : Z).

Definition class_ (e : Event) : EventClass :=
  match e with
  | OperationalMetricRecorded _ => Telemetry
  | _ => Domain
  end.

Definition kind (e : Event) : string :=
  match e with
  | OperationalMetricRecorded _ => "operational_metric_recorded"
  | GraphNodeUpserted _ _ _ _ _ _ _ _ _ => "graph_node_upserted"
  | TaskCreated _ => "task_created"
  | TaskUpdated _ _ => "task_updated"
  | TaskStatusChanged _ _ _ => "task_status_changed"
  | TaskPriorityChanged _ _ _ => "task_priority_changed"
  | TaskCompleted _ _ _ => "task_completed"
  | TaskDeleted _ => "task_deleted"
  | TaskSplitGenerated _ _ => "task_split_generated"
  | ConflictResolved _ _ _ _ => "conflict_resolved"
  | ProjectCreated _ => "project_created"
  | ProjectUpdated _ _ _ => "project_updated"
  | ProjectDeleted _ => "project_deleted"
  | AgentActionRecorded _ => "agent_action_recorded"
  | CommentAdded _ => "comment_added"
  | CommentEdited _ _ _ _ => "comment_edited"
  | CommentDeleted _ _ _ => "comment_deleted"
  | TaskReopened _ _ _ => "task_reopened"
  | TaskClosed _ _ _ => "task_closed"
  | TaskCommented _ _ _ _ => "task_commented"
  | PlanCreated _ => "plan_created"
  | PlanUpdated _ _ => "plan_updated"
  | PlanStatusChanged _ _ _ => "plan_status_changed"
  | PlanGoalChanged _ _ _ => "plan_goal_changed"
  | PlanTaskAdded _ _ _ _ => "plan_task_added"
  | PlanTaskRemoved _ _ => "plan_task_removed"
  | PlanTaskAmended _ _ _ => "plan_task_amended"
  | PlanReordered _ _ => "plan_reordered"
  | PlanArchived _ _ => "plan_archived"
  | PlanDeleted _ _ => "plan_deleted"
  | SourceUpserted _ => "source_upserted"
  | PlanSourceSet _ _ _ => "plan_source_set"
  | RunStarted _ => "run_started"
  | RunStepStarted _ _ _ => "run_step_started"
  | RunStepFinished _ _ _ _ => "run_step_finished"
  | RunCompleted _ _ => "run_completed"
  | RunFailed _ _ _ => "run_failed"
  | RunAborted _ _ _ => "run_aborted"
  | RunUnresponsive _ _ => "run_unresponsive"
  | RunStale _ _ => "run_stale"
  | RunNoteAppended _ _ _ _ _ => "run_note_appended"
  | AgentSessionStarted _ => "agent_session_started"
  | AgentSessionEnded _ _ => "agent_session_ended"
  | AgentSessionPlanUpdated _ _ => "agent_session_plan_updated"
  | SessionArtifactAttached _ => "session_artifact_attached"
  | AgentClaimed _ _ _ _ => "agent_claimed"
  | AgentReleased _ _ _ => "agent_released"
  | FilesReserved _ => "files_reserved"
  | FilesReleased _ _ _ => "files_released"
  | PlanModifiedByHuman _ _ => "plan_modified_by_human"
  | TaskContested _ _ _ => "task_contested"
  | RunObsolescedByPlanEdit _ _ _ => "run_obsolesced_by_plan_edit"
  | RunStopRequested _ _ _ => "run_stop_requested"
  | RunElicitationRequested _ _ _ => "run_elicitation_requested"
  | RunAuthRequired _ _ => "run_auth_required"
  | RunInterventionAccepted _ _ _ => "run_intervention_accepted"
  | TaskLinked _ _ _ _ _ _ => "task.linked"
  | TaskUnlinked _ _ _ _ _ => "task.unlinked"
  | TaskUnblocked _ _ _ => "task.unblocked"
  | TaskDueElapsed _ _ _ => "task.due"
  | TaskRelationKindChanged _ _ _ _ _ _ => "task.relation_kind_changed"
  | ProjectSettingsChanged _ _ _ _ _ => "project_settings_changed"
  | AiOperationStarted _ _ _ _ => "ai_operation_started"
  | AiOperationPhaseChanged _ _ _ _ => "ai_operation_phase_changed"
  | AiOperationCompleted _ _ _ => "ai_operation_completed"
  | WorkUnitCreated _ => "work_unit_created"
  | WorkUnitClaimed _ _ _ => "work_unit_claimed"
  | WorkUnitStarted _ _ => "work_unit_started"
  | WorkUnitBlocked _ _ _ => "work_unit_blocked"
  | WorkUnitCompleted _ _ _ _ _ _ _ => "work_unit_completed"
  | WorkUnitReleased _ _ => "work_unit_released"
  | HandoffRequested _ => "handoff_requested"
  | HandoffAccepted _ _ _ _ _ => "handoff_accepted"
  | HandoffRejected _ _ _ _ _ => "handoff_rejected"
  | DocumentCreated _ => "document_created"
  | DocumentContentReplaced _ _ _ => "document_content_replaced"
  | DocumentContentAppended _ _ _ => "document_content_appended"
  | DocumentRenamed _ _ _ => "document_renamed"
  | DocumentArchived _ _ => "document_archived"
  | DocumentStatusChanged _ _ _ _ => "document_status_changed"
  | DocumentTaskLinkChanged _ _ _ => "document_task_link_changed"
  | ArtifactRegistered _ => "artifact_registered"
  | ArtifactOwnerAssigned _ _ _ => "artifact_owner_assigned"
  | ArtifactStatusChanged _ _ _ _ => "artifact_status_changed"
  | ArtifactChanged _ _ _ _ => "artifact_changed"
  | ArtifactWriteCommitted _ _ _ _ _ => "artifact_write_committed"
  | ArtifactDeprecated _ _ _ => "artifact_deprecated"
  | ArtifactRelationAdded _ => "artifact_relation_added"
  | ArtifactRelationRemoved _ _ _ _ _ => "artifact_relation_removed"
  | RoleArtifactStatusChanged _ _ _ _ => "role_artifact_status_changed"
  | RuleCreated _ => "rule_created"
  | RuleUpdated _ => "rule_updated"
  | RuleDisabled _ _ => "rule_disabled"
  | RuleDeleted _ => "rule_deleted"
  | EvidenceRecorded _ => "evidence_recorded"
  | EvidenceSuperseded _ _ _ => "evidence_superseded"
  | RuleFired _ _ _ _ _ _ _ _ _ _ _ => "rule_fired"
  | DeviceConnected _ _ => "device_connected"
  | DeviceDisconnected _ _ => "device_disconnected"
  end.

Definition target_task (e : Event) : option TaskId :=
  match e with
  | TaskCreated task => NewTask.id task
  | TaskUpdated task_id _ => Some task_id
  | TaskStatusChanged task_id _ _ => Some task_id
  | TaskPriorityChanged task_id _ _ => Some task_id
  | TaskCompleted task_id _ _ => Some task_id
  | TaskDeleted task_id => Some task_id
  | TaskSplitGenerated parent _ => Some parent
  | ConflictResolved _ _ _ _ => None
  | CommentAdded comment => Some (Comment.task_id comment)
  | CommentEdited _ task_id _ _ => Some task_id
  | CommentDeleted _ task_id _ => Some task_id
  | TaskReopened task_id _ _ => Some task_id
  | TaskClosed task_id _ _ => Some task_id
  | TaskCommented task_id _ _ _ => Some task_id
  | PlanTaskAdded _ task_id _ _ => Some task_id
  | PlanTaskRemoved _ task_id => Some task_id
  | PlanTaskAmended _ task_id _ => Some task_id
  | RunStepStarted _ task_id _ => Some task_id
  | RunStepFinished _ task_id _ _ => Some task_id
  | AgentClaimed _ task_id _ _ => Some task_id
  | AgentReleased _ task_id _ => Some task_id
  | FilesReleased _ task_id _ => Some task_id
  | FilesReserved leases => option_map Lease.task_id (head leases)
  | TaskContested task_id _ _ => Some task_id
  | TaskLinked _ from _ _ _ _ => Some from
  | TaskUnlinked _ from _ _ _ => Some from
  | TaskRelationKindChanged _ from _ _ _ _ => Some from
  | TaskUnblocked task_id _ _ => Some task_id
  | TaskDueElapsed task_id _ _ => Some task_id
  | RuleFired _ _ _ _ _ _ _ task_id _ _ _ => task_id
  | _ => None
  end.

Definition target_project (e : Event) : option ProjectId :=
  match e with
  | TaskCreated task => NewTask.project_id task
  | ConflictResolved _ _ _ _ => None
  | ProjectCreated project => Some (Project.id project)
  | ProjectUpdated project_id _ _ => Some project_id
  | ProjectSettingsChanged project_id _ _ _ _ => Some project_id
  | ProjectDeleted project_id => Some project_id
  | PlanCreated plan => Some (Plan.project_id plan)
  | DocumentCreated document => Some (Document.project_id document)
  | _ => None
  end.

Definition channel (e : Event) : Channel :=
  match e with
  | OperationalMetricRecorded _ => Runs
  | GraphNodeUpserted _ _ _ _ _ _ _ _ _ => Runs
  | TaskCreated _ => Tasks
  | TaskUpdated _ _ => Tasks
  | TaskStatusChanged _ _ _ => Tasks
  | TaskPriorityChanged _ _ _ => Tasks
  | TaskCompleted _ _ _ => Tasks
  | TaskDeleted _ => Tasks
  | TaskSplitGenerated _ _ => Tasks
  | ConflictResolved _ _ _ _ => Tasks
  | ProjectCreated _ => Tasks
  | ProjectUpdated _ _ _ => Tasks
  | ProjectDeleted _ => Tasks
  | AgentActionRecorded _ => AgentStatus
  | CommentAdded _ => Comments
  | CommentEdited _ _ _ _ => Comments
  | CommentDeleted _ _ _ => Comments
  | TaskReopened _ _ _ => Tasks
  | TaskClosed _ _ _ => Tasks
  | TaskCommented _ _ _ _ => Comments
  | PlanCreated _ => Plans
  | PlanUpdated _ _ => Plans
  | PlanStatusChanged _ _ _ => Plans
  | PlanGoalChanged _ _ _ => Plans
  | PlanTaskAdded _ _ _ _ => Plans
  | PlanTaskRemoved _ _ => Plans
  | PlanTaskAmended _ _ _ => Plans
  | PlanReordered _ _ => Plans
  | PlanArchived _ _ => Plans
  | PlanDeleted _ _ => Plans
  | SourceUpserted _ => Plans
  | PlanSourceSet _ _ _ => Plans
  | RunStarted _ => Runs
  | RunStepStarted _ _ _ => Runs
  | RunStepFinished _ _ _ _ => Runs
  | RunCompleted _ _ => Runs
  | RunFailed _ _ _ => Runs
  | RunAborted _ _ _ => Runs
  | RunUnresponsive _ _ => Runs
  | RunStale _ _ => Runs
  | RunNoteAppended _ _ _ _ _ => Runs
  | AgentSessionStarted _ => Runs
  | AgentSessionEnded _ _ => Runs
  | AgentSessionPlanUpdated _ _ => Runs
  | SessionArtifactAttached _ => Runs
  | AgentClaimed _ _ _ _ => Runs
  | AgentReleased _ _ _ => Runs
  | FilesReserved _ => Runs
  | FilesReleased _ _ _ => Runs
  | PlanModifiedByHuman _ _ => Runs
  | TaskContested _ _ _ => Runs
  | RunObsolescedByPlanEdit _ _ _ => Runs
  | RunStopRequested _ _ _ => Runs
  | RunElicitationRequested _ _ _ => Runs
  | RunAuthRequired _ _ => Runs
  | RunInterventionAccepted _ _ _ => Runs
  | TaskLinked _ _ _ _ _ _ => Tasks
  | TaskUnlinked _ _ _ _ _ => Tasks
  | TaskUnblocked _ _ _ => Tasks
  | TaskDueElapsed _ _ _ => Tasks
  | TaskRelationKindChanged _ _ _ _ _ _ => Tasks
  | ProjectSettingsChanged _ _ _ _ _ => Tasks
  | AiOperationStarted _ _ _ _ => AiOps
  | AiOperationPhaseChanged _ _ _ _ => AiOps
  | AiOperationCompleted _ _ _ => AiOps
  | WorkUnitCreated _ => WorkUnits
  | WorkUnitClaimed _ _ _ => WorkUnits
  | WorkUnitStarted _ _ => WorkUnits
  | WorkUnitBlocked _ _ _ => WorkUnits
  | WorkUnitCompleted _ _ _ _ _ _ _ => WorkUnits
  | WorkUnitReleased _ _ => WorkUnits
  | HandoffRequested _ => WorkUnits
  | HandoffAccepted _ _ _ _ _ => WorkUnits
  | HandoffRejected _ _ _ _ _ => WorkUnits
  | DocumentCreated _ => DocumentsCh
  | DocumentContentReplaced _ _ _ => DocumentsCh
  | DocumentContentAppended _ _ _ => DocumentsCh
  | DocumentRenamed _ _ _ => DocumentsCh
  | DocumentArchived _ _ => DocumentsCh
  | DocumentStatusChanged _ _ _ _ => DocumentsCh
  | DocumentTaskLinkChanged _ _ _ => DocumentsCh
  | ArtifactRegistered _ => ArtifactsCh
  | ArtifactOwnerAssigned _ _ _ => ArtifactsCh
  | ArtifactStatusChanged _ _ _ _ => ArtifactsCh
  | ArtifactChanged _ _ _ _ => ArtifactsCh
  | ArtifactWriteCommitted _ _ _ _ _ => ArtifactsCh
  | ArtifactDeprecated _ _ _ => ArtifactsCh
  | ArtifactRelationAdded _ => ArtifactsCh
  | ArtifactRelationRemoved _ _ _ _ _ => ArtifactsCh
  | RoleArtifactStatusChanged _ _ _ _ => ArtifactsCh
  | RuleCreated _ => Rules
  | RuleUpdated _ => Rules
  | RuleDisabled _ _ => Rules
  | RuleDeleted _ => Rules
  | EvidenceRecorded _ => Rules
  | EvidenceSuperseded _ _ _ => Rules
  | RuleFired _ _ _ _ _ _ _ _ _ _ _ => Rules
  | DeviceConnected _ _ => Presence
  | DeviceDisconnected _ _ => Presence
  end.
End Event.
Abbreviation Event := Event.Event.

(** ** Envelopes (envelope.rs) *)
Module Envelope.
Record EventEnvelope : Type := mk {
  id : EventId;
  seq : Z;
  occurred_at : Z;
  actor : Actor;
  origin_device_id : option DeviceId;
  origin_seq : Z;
  payload : Event }.
#[global] Instance EventEnvelope_rebuild : Rebuild EventEnvelope := fun e =>
  mk (id e) (seq e) (occurred_at e) (actor e) (origin_device_id e) (origin_seq e)
     (payload e).

Definition new (fresh : EventId) (now : Z) (actor : Actor) (payload : Event)
  : EventEnvelope :=
  mk fresh 0 now actor None 0 payload.
End Envelope.
Abbreviation EventEnvelope := Envelope.EventEnvelope.
