(* ===== verification/Gate.v ===== *)
(** * core/lifecycle_gate.rs: the check points of a batch

    A lifecycle gate is asked, before a batch of events is persisted, about
    every check point the batch contains.  [derive_gate_checks] computes the
    check points from the events alone, so every path to a transition is
    covered; [LifecycleGate] is the trait a gate implements. *)

From S2P Require Import Prelude Shared TaskModel PlanModel RegistryModel Events.

Module LifecycleGate.
Inductive TriggerEvent : Set :=
  ProjectCreated | PlanCreated | PlanBeforeApprove | TaskCreated | TaskBeforeStart
| TaskBeforeComplete | RunBeforeExecute | RunBeforeComplete | DocumentCreated | TaskHandoff.
#[global] Instance TriggerEvent_eq_dec : EqDecision TriggerEvent.
Proof. solve_decision. Defined.

Definition as_str (t : TriggerEvent) : string :=
  match t with
  | ProjectCreated => "project.created"
  | PlanCreated => "plan.created"
  | PlanBeforeApprove => "plan.before_approve"
  | TaskCreated => "task.created"
  | TaskBeforeStart => "task.before_start"
  | TaskBeforeComplete => "task.before_complete"
  | RunBeforeExecute => "run.before_execute"
  | RunBeforeComplete => "run.before_complete"
  | DocumentCreated => "document.created"
  | TaskHandoff => "task.handoff"
  end.

Record GateCheck : Type := mkCheck {
  trigger : TriggerEvent;
  project_id : option ProjectId;
  task_id : option TaskId;
  plan_id : option PlanId;
  run_id : option RunId;
  document_id : option DocumentId;
  handoff_id : option HandoffId;
  status_from : option Status;
  status_to : option Status;
  plan_status_from : option PlanStatus;
  plan_status_to : option PlanStatus;
  task_title : option Str;
  pending_plan_ids : list PlanId;
  pending_plans : list (PlanId * option PlanId);
  pending_statuses : list (TaskId * Status) }.
#[global] Instance GateCheck_rebuild : Rebuild GateCheck := fun c =>
  mkCheck (trigger c) (project_id c) (task_id c) (plan_id c) (run_id c) (document_id c)
          (handoff_id c) (status_from c) (status_to c) (plan_status_from c)
          (plan_status_to c) (task_title c) (pending_plan_ids c) (pending_plans c)
          (pending_statuses c).

Definition new (t : TriggerEvent) : GateCheck :=
  mkCheck t None None None None None None None None None None None [] [] [].

Record GateOverride : Type := mkOverride {
  force : bool;
  override_reason : option Str }.
Definition no_override : GateOverride := mkOverride false None.

(** api-dto's [MutationWarning]. *)
Record MutationWarning : Type := mkWarning {
  w_code : Str;
  w_message : Str;
  w_details : Json }.

Inductive GateDecision : Type :=
| Allowed
| Warning (ws : list MutationWarning)
| Overridden (overridden ws : list MutationWarning) (reason : Str)
| Blocked (message : Str) (details : Json).

Record RuleObservation : Type := mkObservation {
  o_rule_id : RuleId;
  o_rule_key : Str;
  o_rule_revision : Z;
  o_triggered : bool }.
#[global] Instance RuleObservation_rebuild : Rebuild RuleObservation := fun o =>
  mkObservation (o_rule_id o) (o_rule_key o) (o_rule_revision o) (o_triggered o).

(** The trait: a gate reads the projections [W] and decides. *)
Class LifecycleGate (W : Type) : Type := {
  check : W -> Actor -> GateCheck -> GateOverride -> Result CoreError GateDecision;
  check_observed : W -> Actor -> GateCheck -> GateOverride ->
                   Result CoreError (GateDecision * list RuleObservation) }.

(** ** Derivation *)
Definition derive_check (e : Event) : option GateCheck :=
  match e with
  | Event.ProjectCreated project =>
      Some (new ProjectCreated <| project_id := Some (Project.id project) |>)
  | Event.PlanCreated plan =>
      Some (new PlanCreated <| plan_id := Some (Plan.id plan) |>
                            <| project_id := Some (Plan.project_id plan) |>)
  | Event.PlanStatusChanged plan from to =>
      if bool_decide (from = Draft) && bool_decide (to = Active)
      then Some (new PlanBeforeApprove <| plan_id := Some plan |>
                   <| plan_status_from := Some from |> <| plan_status_to := Some to |>)
      else None
  | Event.TaskCreated task =>
      Some (new TaskCreated <| task_id := NewTask.id task |>
              <| project_id := NewTask.project_id task |>
              <| task_title := Some (NewTask.title task) |>)
  | Event.TaskStatusChanged task from to =>
      if bool_decide (to = InProgress) || bool_decide (to = Done) then
        Some (new (if bool_decide (to = InProgress) then TaskBeforeStart else TaskBeforeComplete)
              <| task_id := Some task |>
              <| status_from := Some from |> <| status_to := Some to |>)
      else None
  | Event.RunStarted run =>
      Some (new RunBeforeExecute <| run_id := Some (Run.id run) |>
                                 <| plan_id := Some (Run.plan_id run) |>)
  | Event.RunCompleted run _ => Some (new RunBeforeComplete <| run_id := Some run |>)
  | Event.DocumentCreated document =>
      Some (new DocumentCreated <| document_id := Some (Document.id document) |>
              <| project_id := Some (Document.project_id document) |>)
  | Event.HandoffAccepted handoff _ _ _ _ => Some (new TaskHandoff <| handoff_id := Some handoff |>)
  | _ => None
  end.
Definition derive_checks (events : list Event) : list GateCheck := omap derive_check events.

Definition staged_plans (events : list Event) : list (PlanId * option PlanId) :=
  omap (fun e => match e with
                 | Event.PlanCreated plan => Some (Plan.id plan, Plan.parent_plan_id plan)
                 | _ => None
                 end) events.
Definition staged_memberships (events : list Event) : list (TaskId * PlanId) :=
  omap (fun e => match e with
                 | Event.PlanTaskAdded plan task _ _ => Some (task, plan)
                 | _ => None
                 end) events.

(** [retain] then [push]: the last transition of a task wins. *)
Definition stage_status (staged : list (TaskId * Status)) (e : Event) : list (TaskId * Status) :=
  match e with
  | Event.TaskStatusChanged task _ to =>
      List.filter (fun p => negb (bool_decide (p.1 = task))) staged ++ [(task, to)]
  | _ => staged
  end.
Definition staged_statuses (events : list Event) : list (TaskId * Status) :=
  foldl stage_status [] events.

Definition derive_gate_checks (events : list Event) : list GateCheck :=
  map (fun c =>
         let c := match task_id c with
                  | Some task => c <| pending_plan_ids :=
                      map snd (List.filter (fun p => bool_decide (p.1 = task))
                                           (staged_memberships events)) |>
                  | None => c
                  end in
         c <| pending_plans := staged_plans events |>
           <| pending_statuses := staged_statuses events |>)
      (derive_checks events).

(** ** What dispatch does with a decision *)
Fixpoint jget (l : list (string * Json)) (key : string) : option Json :=
  match l with
  | [] => None
  | (k, v) :: l => if String.eqb k key then Some v else jget l key
  end.
Definition json_get (j : Json) (key : string) : option Json :=
  match j with JObj l => jget l key | _ => None end.
Definition as_text (j : Json) : option Str := match j with JStr s => Some s | _ => None end.
Definition as_array (j : Json) : option (list Json) :=
  match j with JArr l => Some l | _ => None end.

Section Audit.
Context (uuid_parse : Str -> option N).

(** One [RuleFired] per acting rule; a rule without a parseable id is skipped. *)
Definition rule_fired_events (now : Z) (c : GateCheck)
    (actor : Actor) (decision : RuleDecision) (reason : option Str)
    (outcomes : list (Json * Str)) : list Event :=
  omap (fun o : Json * Str =>
    match (json_get o.1 "rule_id" ≫= as_text) ≫= Ids.from_str uuid_parse KRule with
    | Some rule =>
        Some (Event.RuleFired rule (default [] (json_get o.1 "rule_key" ≫= as_text)) decision
                (lit (as_str (trigger c))) actor (project_id c) (plan_id c) (task_id c)
                o.2 reason now)
    | None => None
    end) outcomes.

Definition blocked_outcomes (details : Json) (message : Str) : list (Json * Str) :=
  let fallback := [(details, message)] in
  match json_get details "outcomes" ≫= as_array with
  | None => fallback
  | Some outcomes =>
      let blocked :=
        map (fun o => (o, default message (json_get o "message" ≫= as_text)))
            (List.filter (fun o =>
               bool_decide (json_get o "decision" ≫= as_text = Some (lit "blocked"))) outcomes) in
      match blocked with [] => fallback | _ => blocked end
  end.
End Audit.
End LifecycleGate.

(** ** Specification

    What the gate must be told about a batch: the last status each task gets,
    and one check per gated event. *)
Module GateSpec.
  Import LifecycleGate.

(** The status a batch leaves a task in. *)
Fixpoint final_status (events : list Event) (task : TaskId) : option Status :=
  match events with
  | [] => None
  | e :: events =>
      match final_status events task with
      | Some st => Some st
      | None => match e with
                | Event.TaskStatusChanged t _ to => if bool_decide (t = task) then Some to else None
                | _ => None
                end
      end
  end.

Definition gated (e : Event) : Prop := is_Some (derive_check e).
End GateSpec.

Module GateFacts.
  Import LifecycleGate GateSpec.

Lemma elem_of_stage staged e p :
  p ∈ stage_status staged e <->
  match e with
  | Event.TaskStatusChanged task _ to => (p ∈ staged /\ p.1 <> task) \/ p = (task, to)
  | _ => p ∈ staged
  end.
Proof.
  destruct e; try done. cbn. rewrite elem_of_app, list_elem_of_singleton, list_elem_of_In, filter_In,
    <- list_elem_of_In, negb_true_iff, bool_decide_eq_false. done.
Qed.

Lemma elem_of_staged_from events staged task st :
  (task, st) ∈ foldl stage_status staged events <->
  final_status events task = Some st \/ (final_status events task = None /\ (task, st) ∈ staged).
Proof.
  revert staged. induction events as [|e events IH]; intros staged; cbn; [naive_solver|].
  rewrite IH, elem_of_stage. destruct (final_status events task) as [st'|]; [naive_solver|].
  destruct e; try naive_solver. cbn. case_bool_decide as Hd.
  - subst. split; [|naive_solver]. intros [?|[_ [[_ Hne]|[= ->]]]]; [done|by destruct Hne|by left].
  - split; [|naive_solver]. intros [?|[_ [[Hin _]|[= -> ->]]]]; [done|by right|done].
Qed.

Lemma elem_of_staged_statuses events task st :
  (task, st) ∈ staged_statuses events <-> final_status events task = Some st.
Proof.
  unfold staged_statuses. rewrite elem_of_staged_from. split; [|by left].
  intros [?|[_ Hin]]; [done|by apply elem_of_nil in Hin].
Qed.

Lemma NoDup_staged events : NoDup (map fst (staged_statuses events)).
Proof.
  unfold staged_statuses. assert (H : NoDup (map fst ([] : list (TaskId * Status)))) by constructor.
  revert H. generalize ([] : list (TaskId * Status)).
  induction events as [|e events IH]; intros staged H; [done|]. cbn. apply IH.
  destruct e; try done. cbn. rewrite map_app. apply NoDup_app. split; [|split].
  - by apply NoDup_map_filter.
  - intros x (p & Hx & Hp)%list_elem_of_fmap Hy%list_elem_of_singleton. cbn in *.
    rewrite list_elem_of_In, filter_In in Hp. destruct Hp as [_ Hp]. bsplit. congruence.
  - cbn. apply NoDup_singleton.
Qed.

Lemma transition_check e c :
  derive_check e = Some c -> trigger c = TaskBeforeStart \/ trigger c = TaskBeforeComplete ->
  exists task from to, e = Event.TaskStatusChanged task from to /\
    task_id c = Some task /\ status_to c = Some to /\
    to = (if bool_decide (trigger c = TaskBeforeStart) then InProgress else Done).
Proof.
  destruct e; try done; cbn.
  all: try (intros [= <-]; cbn; by intros []).
  - intros Hc _. destruct (_ || _) eqn:E; [|done]. injection Hc as <-. exists task_id0, from, to.
    split; [done|]. split; [done|]. split; [done|]. cbn.
    apply orb_true_iff in E as [E|E]; bsplit; subst; done.
  - destruct (_ && _); [|done]. intros [= <-]. cbn. by intros [].
Qed.
End GateFacts.

Section Property.
  Import LifecycleGate GateSpec GateFacts.

(** The checks of a batch miss no transition and see the batch as a whole:
    every change of a task to in-progress or done is checked, a check of such a
    trigger comes from such a change, and every check carries exactly the final
    status of each task the batch moves and the plans the batch adds its task
    to. *)
Theorem gate_checks_cover_batch events :
  (forall task from to, Event.TaskStatusChanged task from to ∈ events ->
     to = InProgress \/ to = Done ->
     exists c, c ∈ derive_gate_checks events /\ task_id c = Some task /\
       status_from c = Some from /\ status_to c = Some to /\
       trigger c = (if bool_decide (to = InProgress) then TaskBeforeStart else TaskBeforeComplete)) /\
  (forall c, c ∈ derive_gate_checks events ->
     trigger c = TaskBeforeStart \/ trigger c = TaskBeforeComplete ->
     exists task from to, Event.TaskStatusChanged task from to ∈ events /\
       task_id c = Some task /\ status_to c = Some to /\
       to = (if bool_decide (trigger c = TaskBeforeStart) then InProgress else Done)) /\
  (forall c, c ∈ derive_gate_checks events ->
     NoDup (map fst (pending_statuses c)) /\
     (forall task st, (task, st) ∈ pending_statuses c <-> final_status events task = Some st) /\
     (forall task, task_id c = Some task -> forall plan, plan ∈ pending_plan_ids c <->
        exists position deps, Event.PlanTaskAdded plan task position deps ∈ events)).
Proof.
  unfold derive_gate_checks, derive_checks. split; [|split].
  - intros task from to Hin Hto. eexists. split.
    + apply list_elem_of_fmap_2, list_elem_of_omap. eexists. split; [exact Hin|]. cbn.
      by destruct Hto; subst to.
    + done.
  - intros c (c0 & -> & (e & He & Hc)%list_elem_of_omap)%list_elem_of_fmap Htr.
    assert (Htr0 : trigger c0 = TaskBeforeStart \/ trigger c0 = TaskBeforeComplete)
      by (by destruct (task_id c0)).
    destruct (transition_check _ _ Hc Htr0) as (task & from & to & -> & H1 & H2 & H3).
    exists task, from, to. rewrite H1. auto.
  - intros c (c0 & -> & _)%list_elem_of_fmap. split; [|split].
    + destruct (task_id c0); apply NoDup_staged.
    + intros task st. rewrite <- elem_of_staged_statuses. by destruct (task_id c0).
    + intros task Htask plan. assert (H0 : task_id c0 = Some task).
      { destruct (task_id c0) eqn:E; cbn in Htask; congruence. }
      rewrite H0. cbn. rewrite list_elem_of_fmap. unfold staged_memberships. split.
      * intros ([t p] & -> & Hp). rewrite list_elem_of_In, filter_In, <- list_elem_of_In in Hp.
        destruct Hp as [(e & He & Hs)%list_elem_of_omap Ht]. bsplit.
        destruct e; try done. injection Hs as -> ->. cbn in *. subst. eauto.
      * intros (position & deps & Hin). exists (task, plan). split; [done|].
        rewrite list_elem_of_In, filter_In, <- list_elem_of_In. split; [|by apply bool_decide_eq_true].
        apply list_elem_of_omap. eexists. by split; [exact Hin|].
Qed.
End Property.

(** A status written through a patch is not a transition: no check point is
    derived for it. *)
Example patched_status_is_unchecked id :
  LifecycleGate.derive_gate_checks
    [Event.TaskUpdated id (TaskPatch.empty <| TaskPatch.status := Some Done |>)] = [].
Proof. reflexivity. Qed.
