(* ===== verification/EventStore.v ===== *)
(** * storage/event_store.rs: the event log

    Table [events]: rows in [seq] order with the [AUTOINCREMENT] high-water
    mark, unique event ids and unique [(origin_device_id, origin_seq)] pairs of
    device events.  The JSON columns are the envelope itself. *)

From S2P Require Import Prelude Shared TaskModel PlanModel RegistryModel Events.

Module EventStore.
Record EventLog : Type := mk {
  rows : list EventEnvelope;
  high_water : Z }.
#[global] Instance EventLog_rebuild : Rebuild EventLog := fun l => mk (rows l) (high_water l).

Definition empty : EventLog := mk [] 0.

Definition same_origin (a b : EventEnvelope) : bool :=
  match Envelope.origin_device_id a, Envelope.origin_device_id b with
  | Some x, Some y =>
      bool_decide (x = y) && (Envelope.origin_seq a =? Envelope.origin_seq b)%Z
  | _, _ => false
  end.

Definition violates (l : list EventEnvelope) (e : EventEnvelope) : bool :=
  existsb (fun r => bool_decide (Envelope.id r = Envelope.id e) || same_origin r e) l.

(** [append_on]: the [INSERT] and the row id it was given. *)
Definition append (l : EventLog) (e : EventEnvelope) : Result CoreError (EventEnvelope * EventLog) :=
  if violates (rows l) e then Err (Storage "UNIQUE constraint failed: events")
  else
    let seq := (high_water l + 1)%Z in
    let e := e <| Envelope.seq := seq |> in
    Ok (e, mk (rows l ++ [e]) seq).

(** [append_batch]: one transaction; the chunks of the multi-row [INSERT] get
    consecutive row ids, so they are the rows one by one. *)
Fixpoint append_all (l : EventLog) (es : list EventEnvelope)
  : Result CoreError (list EventEnvelope * EventLog) :=
  match es with
  | [] => Ok ([], l)
  | e :: es =>
      rbind (append l e) (fun r =>
      rbind (append_all r.2 es) (fun rs => Ok (r.1 :: rs.1, rs.2)))
  end.
Definition append_batch (l : EventLog) (es : list EventEnvelope)
  : Result CoreError (list EventEnvelope) * EventLog :=
  match append_all l es with
  | Ok (out, l') => (Ok out, l')
  | Err e => (Err e, l)
  end.

Definition load_since (l : EventLog) (since_seq : Z) (limit : nat) : list EventEnvelope :=
  take limit (List.filter (fun e => since_seq <? Envelope.seq e)%Z (rows l)).
Definition load_by_id (l : EventLog) (id : EventId) : option EventEnvelope :=
  head (List.filter (fun e => bool_decide (Envelope.id e = id)) (rows l)).
Definition latest_seq (l : EventLog) : Z := high_water l.

Definition purged (cutoff : Z) (e : EventEnvelope) : bool :=
  bool_decide (Event.class_ (Envelope.payload e) = Telemetry)
  && (Envelope.occurred_at e <? cutoff)%Z.
Definition purge_telemetry_before (l : EventLog) (cutoff : Z) : nat * EventLog :=
  (length (List.filter (purged cutoff) (rows l)),
   l <| rows := List.filter (fun e => negb (purged cutoff e)) (rows l) |>).
End EventStore.
Abbreviation EventLog := EventStore.EventLog.

(** ** Specification *)
Module EventLogSpec.
  Import EventStore.

(** Rows are in increasing [seq] order below the high-water mark, and the
    unique indexes hold. *)
Record wf (l : EventLog) : Prop := mkWf {
  wf_sorted : StronglySorted (fun a b => Envelope.seq a < Envelope.seq b)%Z (rows l);
  wf_low : Forall (fun e => 0 < Envelope.seq e <= high_water l)%Z (rows l);
  wf_high : (0 <= high_water l)%Z;
  wf_ids : NoDup (map Envelope.id (rows l)) }.

(** A reader that pages through the log, resuming after the last [seq] seen. *)
Fixpoint replay (fuel : nat) (l : EventLog) (since : Z) (limit : nat) : list EventEnvelope :=
  match fuel with
  | O => []
  | S fuel =>
      match load_since l since limit with
      | [] => []
      | page =>
          page ++ replay fuel l (match last page with Some e => Envelope.seq e | None => since end)
                         limit
      end
  end.

(** What changes the log. *)
Inductive step (l : EventLog) : EventLog -> Prop :=
| step_append es out l' : append_batch l es = (Ok out, l') -> step l l'
| step_purge cutoff : step l (purge_telemetry_before l cutoff).2.

(** Envelopes with consecutive sequence numbers from [n] on. *)
Fixpoint numbered (n : Z) (es : list EventEnvelope) : list EventEnvelope :=
  match es with
  | [] => []
  | e :: es => (e <| Envelope.seq := n |>) :: numbered (n + 1) es
  end.
End EventLogSpec.

Module EventLogFacts.
  Import EventStore EventLogSpec.

Lemma append_ok l e out l' :
  append l e = Ok (out, l') ->
  violates (rows l) e = false /\ out = e <| Envelope.seq := (high_water l + 1)%Z |> /\
  l' = mk (rows l ++ [out]) (high_water l + 1).
Proof. unfold append. destruct (violates _ _); [done|]. by intros [= <- <-]. Qed.

Lemma load_by_id_some l i e : load_by_id l i = Some e -> e ∈ rows l /\ Envelope.id e = i.
Proof.
  unfold load_by_id. intros Hh%head_Some_elem_of. rewrite list_elem_of_In, filter_In, <- list_elem_of_In in Hh.
  destruct Hh as [He Hi]. split; [done|]. by apply bool_decide_eq_true in Hi.
Qed.
Lemma load_by_id_none l i : load_by_id l i = None -> i ∉ map Envelope.id (rows l).
Proof.
  unfold load_by_id. intros Hn (e & -> & He)%list_elem_of_fmap.
  assert (Hf : e ∈ List.filter (fun x => bool_decide (Envelope.id x = Envelope.id e)) (rows l)).
  { rewrite list_elem_of_In, filter_In, <- list_elem_of_In. split; [done|]. by apply bool_decide_eq_true. }
  destruct (List.filter _ _); [by apply elem_of_nil in Hf|done].
Qed.

Lemma append_wf l e out l' : wf l -> append l e = Ok (out, l') -> wf l'.
Proof.
  intros [Hs Hl Hh Hi] (Hv & -> & ->)%append_ok. constructor; cbn.
  - apply StronglySorted_app. split; [|split; [done|by repeat constructor]].
    intros a b Ha ->%list_elem_of_singleton. cbn. rewrite Forall_forall in Hl.
    specialize (Hl a Ha). lia.
  - apply Forall_app. split.
    + eapply Forall_impl; [exact Hl|]. intros. cbn in *. lia.
    + constructor; [cbn; lia|constructor].
  - lia.
  - rewrite map_app. apply NoDup_app. split; [done|]. split; [|apply NoDup_singleton].
    intros i (a & -> & Ha)%list_elem_of_fmap Hb%list_elem_of_singleton. cbn in Hb.
    apply not_true_iff_false in Hv. apply Hv, existsb_exists. exists a.
    split; [by apply list_elem_of_In|]. by rewrite bool_decide_eq_true_2.
Qed.

Lemma append_all_ok l es out l' :
  append_all l es = Ok (out, l') ->
  out = numbered (high_water l + 1) es /\
  l' = mk (rows l ++ out) (high_water l + Z.of_nat (length es)).
Proof.
  revert l out l'. induction es as [|e es IH]; intros l out l'; cbn [append_all].
  - intros [= <- <-]. destruct l. rewrite app_nil_r. split; [done|]. f_equal. cbn. lia.
  - destruct (append l e) as [[e1 l1]|] eqn:A; [|done]. cbn.
    destruct (append_all l1 es) as [[o1 l2]|] eqn:B; [|done]. cbn. intros [= <- <-].
    destruct (IH _ _ _ B) as [-> ->]. apply append_ok in A as (_ & -> & ->). cbn.
    rewrite <- app_assoc. split; [done|]. f_equal. lia.
Qed.

Lemma append_all_wf l es out l' : wf l -> append_all l es = Ok (out, l') -> wf l'.
Proof.
  revert l out l'. induction es as [|e es IH]; intros l out l' Hwf; cbn; [by intros [= <- <-]|].
  destruct (append l e) as [[e1 l1]|] eqn:A; [|done]. cbn.
  destruct (append_all l1 es) as [[o1 l2]|] eqn:B; [|done]. cbn. intros [= <- <-].
  eapply IH; [|exact B]. by eapply append_wf.
Qed.

Lemma purge_wf l cutoff : wf l -> wf (purge_telemetry_before l cutoff).2.
Proof.
  intros [Hs Hl Hh Hi]. constructor; cbn; [by apply StronglySorted_list_filter
    |by apply Forall_list_filter|done|by apply NoDup_map_filter].
Qed.

Lemma append_batch_inv l es r l' :
  append_batch l es = (r, l') ->
  (exists out, r = Ok out /\ append_all l es = Ok (out, l')) \/
  (exists e, r = Err e /\ l' = l /\ append_all l es = Err e).
Proof.
  unfold append_batch. destruct (append_all l es) as [[out l1]|e]; intros [= <- <-]; eauto.
Qed.

Lemma violates_numbered n l es e : violates (l ++ numbered n es) e = violates (l ++ es) e.
Proof.
  unfold violates. rewrite !existsb_app. f_equal. revert n.
  induction es as [|x es IH]; intros n; cbn; [done|]. by rewrite IH.
Qed.

Lemma append_all_decides l es :
  (exists pre e post, es = pre ++ e :: post /\ violates (rows l ++ pre) e = true) <->
  exists err, append_all l es = Err err.
Proof.
  revert l. induction es as [|x es IH]; intros l; cbn [append_all].
  { split; [intros (pre & e & post & H & _); by destruct pre|by intros [? ?]]. }
  unfold append. destruct (violates (rows l) x) eqn:V; cbn.
  { split; [eauto|]. intros _. exists [], x, es. by rewrite app_nil_r. }
  set (l1 := mk _ _). assert (H1 : forall pre e,
    violates (rows l1 ++ pre) e = violates (rows l ++ x :: pre) e).
  { intros pre e. unfold l1. cbn. rewrite <- app_assoc. unfold violates. rewrite !existsb_app. f_equal. cbn [existsb]. by rewrite orb_false_r. }
  split.
  - intros (pre & e & post & H & Hv). destruct pre as [|y pre]; injection H as -> ->.
    { by rewrite app_nil_r, V in Hv. }
    destruct (proj1 (IH l1)) as [err Herr].
    { exists pre, e, post. by rewrite H1. }
    rewrite Herr. eauto.
  - intros [err Herr]. destruct (append_all l1 es) as [r|e0] eqn:B; [done|].
    destruct (proj2 (IH l1)) as (pre & e & post & -> & Hv); [eauto|].
    exists (x :: pre), e, post. by rewrite <- H1.
Qed.

Lemma numbered_seqs n es e : e ∈ numbered n es -> (n <= Envelope.seq e)%Z.
Proof.
  revert n. induction es as [|x es IH]; intros n; cbn; [by intros ?%elem_of_nil|].
  intros [->|H]%elem_of_cons; [cbn; lia|]. apply IH in H. lia.
Qed.

Lemma step_history l l' :
  wf l -> step l l' ->
  wf l' /\ (high_water l <= high_water l')%Z /\
  (forall e, e ∈ rows l -> Event.class_ (Envelope.payload e) = Domain -> e ∈ rows l') /\
  (forall e, e ∈ rows l' -> e ∈ rows l \/ (high_water l < Envelope.seq e)%Z).
Proof.
  intros Hwf [es out l1 H|cutoff].
  - apply append_batch_inv in H as [(o & [= ->] & Ha)|(? & ? & _)]; [|done].
    split; [by eapply append_all_wf|]. apply append_all_ok in Ha as [-> ->]. cbn. split; [lia|].
    split; intros e He.
    + intros _. apply elem_of_app. by left.
    + apply elem_of_app in He as [?|He]; [by left|right]. apply numbered_seqs in He. lia.
  - split; [by apply purge_wf|]. cbn. split; [lia|]. split; intros e.
    + intros He Hd. rewrite list_elem_of_In, filter_In, <- list_elem_of_In. split; [done|].
      unfold purged. by rewrite Hd.
    + rewrite list_elem_of_In, filter_In, <- list_elem_of_In. intros [? _]. by left.
Qed.

(** Resuming after a page skips exactly the page. *)
Lemma resume (m : list EventEnvelope) n e since :
  StronglySorted (fun a b => Envelope.seq a < Envelope.seq b)%Z m ->
  Forall (fun x => since < Envelope.seq x)%Z m ->
  last (take n m) = Some e ->
  (since < Envelope.seq e)%Z /\ List.filter (fun x => Envelope.seq e <? Envelope.seq x)%Z m = drop n m.
Proof.
  intros Hs Hf Hl. assert (Hin : e ∈ take n m) by (by apply last_Some_elem_of).
  rewrite <- (take_drop n m) in Hs, Hf. apply StronglySorted_app in Hs as (Hc & Hs1 & _).
  split.
  { rewrite Forall_forall in Hf. apply Hf, elem_of_app. by left. }
  rewrite <- (take_drop n m) at 1. rewrite List.filter_app, (filter_none _ (take n m)), (filter_all _ (drop n m)).
  - done.
  - intros x Hx. apply Z.ltb_lt. by apply Hc.
  - intros x Hx. apply Z.ltb_ge. apply last_Some in Hl as [k Hk]. rewrite Hk in *.
    apply elem_of_app in Hx as [Hx|Hx]; [|apply list_elem_of_singleton in Hx as ->; lia].
    apply StronglySorted_app in Hs1 as (Hs1 & _). specialize (Hs1 x e Hx (list_elem_of_here _ _)). lia.
Qed.

(** A page and what comes after its last event are what is left to read. *)
Lemma page_rest l since limit e :
  wf l -> last (load_since l since limit) = Some e ->
  List.filter (fun x => since <? Envelope.seq x)%Z (rows l) =
  load_since l since limit ++ List.filter (fun x => Envelope.seq e <? Envelope.seq x)%Z (rows l).
Proof.
  intros Hwf. unfold load_since. set (m := List.filter _ _). intros L.
  assert (Hm : StronglySorted (fun a b => Envelope.seq a < Envelope.seq b)%Z m).
  { by apply StronglySorted_list_filter, wf_sorted. }
  assert (Hlow : Forall (fun x => since < Envelope.seq x)%Z m).
  { apply Forall_forall. intros x Hx. unfold m in Hx.
    rewrite list_elem_of_In, filter_In in Hx. destruct Hx as [_ Hx]. by apply Z.ltb_lt. }
  destruct (resume _ _ _ _ Hm Hlow L) as [Hse Hd].
  rewrite <- (take_drop limit m) at 1. f_equal. rewrite <- Hd. unfold m. clear -Hse.
  induction (rows l) as [|x r IHr]; cbn; [done|].
  destruct (Z.ltb_spec (Envelope.seq e) (Envelope.seq x)), (Z.ltb_spec since (Envelope.seq x));
    cbn; try lia; try done.
  - rewrite (proj2 (Z.ltb_lt _ _)) by done. by f_equal.
  - rewrite (proj2 (Z.ltb_ge _ _)) by done. done.
Qed.
Lemma page_empty l since limit :
  (0 < limit)%nat -> load_since l since limit = [] ->
  List.filter (fun x => since <? Envelope.seq x)%Z (rows l) = [].
Proof. unfold load_since. intros Hl. destruct (List.filter _ _), limit; by try lia. Qed.

Lemma replay_from fuel l since limit :
  wf l -> (0 < limit)%nat ->
  (length (List.filter (fun e => since <? Envelope.seq e)%Z (rows l)) < fuel)%nat ->
  replay fuel l since limit = List.filter (fun e => since <? Envelope.seq e)%Z (rows l).
Proof.
  intros Hwf Hlim. revert since. induction fuel as [|fuel IH]; intros since Hf; [lia|]. cbn [replay].
  destruct (load_since l since limit) as [|e0 page] eqn:P; [by rewrite (page_empty _ _ _ Hlim P)|].
  destruct (last (e0 :: page)) as [e|] eqn:L; [|by apply last_None in L].
  rewrite <- P in L |- *. rewrite (page_rest _ _ _ _ Hwf L) in Hf |- *. f_equal. apply IH.
  rewrite P, length_app in Hf. cbn in Hf. lia.
Qed.
End EventLogFacts.

Section Property.
  Import EventStore EventLogSpec EventLogFacts.

(** C34: The log is an append-only history: whatever batches and telemetry
    purges follow, every domain event stays as it was written, sequence numbers
    are never reused, even those of purged rows, and later rows come after
    earlier ones. *)
Theorem event_log_is_append_only l l' :
  wf l -> rtc step l l' ->
  wf l' /\ (latest_seq l <= latest_seq l')%Z /\
  (forall e, e ∈ rows l -> Event.class_ (Envelope.payload e) = Domain -> e ∈ rows l') /\
  (forall e, e ∈ rows l' -> e ∈ rows l \/ (latest_seq l < Envelope.seq e)%Z).
Proof.
  intros Hwf Hsteps. unfold latest_seq. revert Hwf.
  induction Hsteps as [l|l l1 l2 Hstep _ IH]; intros Hwf; [split; [done|]; split; [lia|auto]|].
  destruct (step_history _ _ Hwf Hstep) as (Hwf1 & Hh1 & Hd1 & Hn1).
  destruct (IH Hwf1) as (Hwf2 & Hh2 & Hd2 & Hn2). split; [done|]. split; [lia|]. split; [auto|].
  intros e [He|He]%Hn2; [|right; lia]. by apply Hn1.
Qed.

(** A batch is appended whole or not at all: it fails exactly when one of
    its events repeats an id or a device origin of the log or of the batch, the
    log then being unchanged, and otherwise its rows follow the log with
    consecutive numbers. *)
Theorem append_batch_is_atomic l es :
  match append_batch l es with
  | (Ok out, l') =>
      rows l' = rows l ++ out /\ out = numbered (latest_seq l + 1) es /\
      latest_seq l' = (latest_seq l + Z.of_nat (length es))%Z /\
      forall pre e post, es = pre ++ e :: post -> violates (rows l ++ pre) e = false
  | (Err _, l') =>
      l' = l /\
      exists pre e post, es = pre ++ e :: post /\ violates (rows l ++ pre) e = true
  end.
Proof.
  destruct (append_batch l es) as [r l'] eqn:H.
  apply append_batch_inv in H as [(out & -> & Ha)|(e & -> & -> & Ha)].
  - pose proof (proj1 (append_all_decides l es)) as Hdec. rewrite Ha in Hdec.
    apply append_all_ok in Ha as [-> ->]. split; [done|]. split; [done|]. split; [done|].
    intros pre e post ->. destruct (violates _ _) eqn:V; [|done].
    destruct Hdec as [err ?]; [by exists pre, e, post|done].
  - split; [done|]. apply append_all_decides. eauto.
Qed.

(** Paging through the log from any point returns every later row once, in
    order, and stops, whatever the page size. *)
Theorem replay_in_pages_is_complete l since limit :
  wf l -> (0 < limit)%nat ->
  replay (S (length (rows l))) l since limit
  = List.filter (fun e => since <? Envelope.seq e)%Z (rows l).
Proof.
  intros Hwf Hlim. apply replay_from; [done|done|].
  pose proof (List.filter_length_le (fun e => since <? Envelope.seq e)%Z (rows l)). lia.
Qed.
End Property.

(** A domain event between two telemetry rows; the telemetry is purged and a
    later event gets a fresh number. *)
Definition demo_metric (at_ : Z) : Event :=
  Event.OperationalMetricRecorded
    (mkMetric at_ MetricStep [] None [] [] OutcomeOk 0 None 0 None None JNull).
Definition demo_env (i : N) (at_ : Z) (e : Event) : EventEnvelope :=
  Envelope.new (mkId i) at_ ActorOps.user e.
Definition demo_batch : list EventEnvelope :=
  [demo_env 1 10 (demo_metric 10); demo_env 2 20 (Event.TaskDeleted (mkId 9));
   demo_env 3 30 (demo_metric 30)].
Definition demo_log : EventLog := (EventStore.append_batch EventStore.empty demo_batch).2.
Definition purged_log : EventLog := (EventStore.purge_telemetry_before demo_log 40).2.

Lemma wf_empty_log : EventLogSpec.wf EventStore.empty.
Proof. constructor; cbn; [constructor|constructor|lia|constructor]. Qed.

Lemma demo_log_wf : EventLogSpec.wf demo_log.
Proof.
  refine (EventLogFacts.append_all_wf EventStore.empty demo_batch _ _ wf_empty_log _).
  vm_compute. reflexivity.
Qed.

Lemma event_log_is_append_only_witness :
  EventStore.latest_seq purged_log = 3%Z /\
  (forall e, e ∈ EventStore.rows demo_log ->
     Event.class_ (Envelope.payload e) = Domain -> e ∈ EventStore.rows purged_log).
Proof.
  destruct (event_log_is_append_only demo_log purged_log demo_log_wf) as (_ & _ & H & _).
  - eapply rtc_once, EventLogSpec.step_purge.
  - split; [reflexivity|exact H].
Defined.

Lemma replay_in_pages_is_complete_witness :
  length (EventLogSpec.replay 4 demo_log 0 2) = 3%nat.
Proof.
  change 4%nat with (S (length (EventStore.rows demo_log))).
  rewrite (replay_in_pages_is_complete demo_log 0 2 demo_log_wf) by lia. reflexivity.
Defined.
