(* ===== verification/Conflict.v ===== *)
(** * core/conflict.rs: merging concurrent edits of several devices

    [resolve_conflict] decides between two conflicting records.  Its contract
    is that every device picks the same winner, in whatever order it sees the
    records: [Facts] proves it from the rank the rules define. *)

From S2P Require Import Prelude Shared TaskModel PlanModel RegistryModel Events.

Inductive ConflictOp : Type :=
| OpCreate
| OpUpdate
| OpDelete
| OpStatus (s : Status).

Record ConflictRecord : Type := mkConflictRecord {
  cr_event_id : EventId;
  cr_occurred_at : Z;
  cr_op : ConflictOp;
  cr_diff : Json }.

Inductive ConflictReason : Set := DeleteWins | DoneMonotone | LastWriteWins.

Definition reason_as_str (r : ConflictReason) : string :=
  match r with
  | DeleteWins => "delete_wins"
  | DoneMonotone => "done_monotone"
  | LastWriteWins => "last_write_wins"
  end.

Record ConflictDecision : Type := mkConflictDecision {
  cd_winner_event_id : EventId;
  cd_loser_event_id : EventId;
  cd_reason : ConflictReason;
  cd_resolved_event : Event }.

Definition is_delete (op : ConflictOp) : bool :=
  match op with OpDelete => true | _ => false end.
Definition is_done_status (op : ConflictOp) : bool :=
  match op with OpStatus Done => true | _ => false end.

(** [Ord] of [EventId] is the order of its uuid. *)
Definition compare_lww (a b : ConflictRecord) : comparison :=
  match Z.compare (cr_occurred_at a) (cr_occurred_at b) with
  | Eq => N.compare (as_uuid (cr_event_id a)) (as_uuid (cr_event_id b))
  | ord => ord
  end.

(** The [(winner, loser, reason)] tuple. *)
Definition pick (a b : ConflictRecord) : ConflictRecord * ConflictRecord * ConflictReason :=
  if negb (eqb (is_delete (cr_op a)) (is_delete (cr_op b))) then
    if is_delete (cr_op a) then (a, b, DeleteWins) else (b, a, DeleteWins)
  else if negb (eqb (is_done_status (cr_op a)) (is_done_status (cr_op b))) then
    if is_done_status (cr_op a) then (a, b, DoneMonotone) else (b, a, DoneMonotone)
  else match compare_lww a b with
       | Lt => (b, a, LastWriteWins)
       | _ => (a, b, LastWriteWins)
       end.

Definition resolve_conflict (a b : ConflictRecord) : ConflictDecision :=
  let '(winner, loser, reason) := pick a b in
  {| cd_winner_event_id := cr_event_id winner;
     cd_loser_event_id := cr_event_id loser;
     cd_reason := reason;
     cd_resolved_event :=
       Event.ConflictResolved (cr_event_id winner) (cr_event_id loser)
         (lit (reason_as_str reason)) (cr_diff loser) |}.

(** ** Specification

    The rank the three rules give a record, compared lexicographically: deletes
    first, then a done status, then time, then event id. *)
Definition rank (r : ConflictRecord) : bool * bool * Z * N :=
  (is_delete (cr_op r), is_done_status (cr_op r), cr_occurred_at r,
   as_uuid (cr_event_id r)).

Definition rank_le (a b : ConflictRecord) : Prop :=
  let '(da, na, ta, ia) := rank a in
  let '(db, nb, tb, ib) := rank b in
  (da = false /\ db = true) \/
  (da = db /\ ((na = false /\ nb = true) \/
    (na = nb /\ (ta < tb \/ (ta = tb /\ (ia <= ib)%N))%Z))).

Definition winner (a b : ConflictRecord) : ConflictRecord := (pick a b).1.1.

(** A device that merges the records it has received, in the order it received
    them. *)
Definition merge_all (r : ConflictRecord) (l : list ConflictRecord) : ConflictRecord :=
  foldl winner r l.

(** ** Theorems *)
Module ConflictFacts.
Lemma pick_cases a b :
  (winner a b = a /\ (pick a b).1.2 = b /\ rank_le b a) \/
  (winner a b = b /\ (pick a b).1.2 = a /\ rank_le a b).
Proof.
  unfold winner, pick, rank_le, rank, compare_lww.
  destruct (is_delete (cr_op a)) eqn:Da, (is_delete (cr_op b)) eqn:Db; simpl; auto 10;
  destruct (is_done_status (cr_op a)) eqn:Na, (is_done_status (cr_op b)) eqn:Nb; simpl; auto 10;
  (destruct (Z.compare_spec (cr_occurred_at a) (cr_occurred_at b)) as [E|E|E]; simpl;
    [destruct (N.compare_spec (as_uuid (cr_event_id a)) (as_uuid (cr_event_id b))) as [E2|E2|E2];
     simpl|..]);
  first [left; split; [done|]; split; [done|]; right; split; [done|]; right; split; [done|]; lia
        |right; split; [done|]; split; [done|]; right; split; [done|]; right; split; [done|]; lia].
Qed.

Lemma rank_le_refl a : rank_le a a.
Proof. unfold rank_le, rank. right. split; [done|]. right. split; [done|]. lia. Qed.

Lemma rank_le_trans a b c : rank_le a b -> rank_le b c -> rank_le a c.
Proof.
  unfold rank_le, rank.
  destruct (is_delete (cr_op a)), (is_delete (cr_op b)), (is_delete (cr_op c)),
    (is_done_status (cr_op a)), (is_done_status (cr_op b)), (is_done_status (cr_op c));
    intuition (try congruence; try lia).
Qed.

Lemma rank_le_antisym a b :
  rank_le a b -> rank_le b a -> cr_event_id a = cr_event_id b.
Proof.
  unfold rank_le, rank. intros Ha Hb.
  assert (as_uuid (cr_event_id a) = as_uuid (cr_event_id b)).
  { destruct (is_delete (cr_op a)), (is_delete (cr_op b)),
      (is_done_status (cr_op a)), (is_done_status (cr_op b));
      intuition (try congruence; try lia). }
  destruct (cr_event_id a), (cr_event_id b); simpl in *; congruence.
Qed.

Lemma winner_in a b : winner a b = a \/ winner a b = b.
Proof. destruct (pick_cases a b) as [(-> & _)|(-> & _)]; auto. Qed.

Lemma winner_upper a b : rank_le a (winner a b) /\ rank_le b (winner a b).
Proof.
  destruct (pick_cases a b) as [(-> & _ & H)|(-> & _ & H)]; auto using rank_le_refl.
Qed.

Lemma merge_all_in r l : merge_all r l ∈ r :: l.
Proof.
  revert r. induction l as [|x l IH]; intros r; simpl; [apply list_elem_of_here|].
  specialize (IH (winner r x)). unfold merge_all in *; simpl.
  destruct (winner_in r x) as [E|E]; rewrite E in *; set_solver.
Qed.

Lemma merge_all_upper r l x : x ∈ r :: l -> rank_le x (merge_all r l).
Proof.
  revert r x. induction l as [|y l IH]; intros r x Hx.
  - apply list_elem_of_singleton in Hx as ->. apply rank_le_refl.
  - unfold merge_all in *; simpl. destruct (winner_upper r y) as [Hr Hy].
    assert (Hw : rank_le (winner r y) (foldl winner (winner r y) l)) by (apply IH; set_solver).
    apply elem_of_cons in Hx as [->|Hx]; [by eapply rank_le_trans|].
    apply elem_of_cons in Hx as [->|Hx]; [by eapply rank_le_trans|].
    apply IH. set_solver.
Qed.
End ConflictFacts.

Section ConflictProperties.
  Import ConflictFacts.

(** C31: whichever device merges the conflicting records, and in whatever
      order they reach it, the record that survives is the same: two merge
      orders of the same records (distinct event ids) keep the same record, and
      it is one that no other record outranks. *)
Theorem merge_is_order_independent r l r' l' :
  r :: l ≡ₚ r' :: l' ->
  NoDup (map cr_event_id (r :: l)) ->
  merge_all r l = merge_all r' l' /\
  Forall (fun x => rank_le x (merge_all r l)) (r :: l).
Proof.
  intros HP Hnd. split; [|apply Forall_forall; auto using merge_all_upper].
  pose proof (merge_all_in r l) as H1. pose proof (merge_all_in r' l') as H2.
  rewrite <- HP in H2.
  assert (Hid : cr_event_id (merge_all r l) = cr_event_id (merge_all r' l')).
  { apply rank_le_antisym; [apply merge_all_upper; by rewrite <- HP|by apply merge_all_upper]. }
  apply list_elem_of_lookup in H1 as [i Hi]. apply list_elem_of_lookup in H2 as [j Hj].
  assert (i = j) as ->; [|congruence].
  eapply NoDup_lookup; [exact Hnd| |]; rewrite list_lookup_fmap.
  - by rewrite Hi.
  - rewrite Hj. simpl. by rewrite Hid.
Qed.

(** The decision the code returns is symmetric in its arguments (reason
    and recorded event included), a delete beats every edit, and a done
    status beats every edit that is neither a delete nor a done status. *)
Theorem resolve_conflict_rules a b :
  cr_event_id a <> cr_event_id b ->
  resolve_conflict a b = resolve_conflict b a /\
  (is_delete (cr_op a) = true -> is_delete (cr_op b) = false ->
   cd_winner_event_id (resolve_conflict a b) = cr_event_id a /\
   cd_reason (resolve_conflict a b) = DeleteWins) /\
  (is_done_status (cr_op a) = true -> is_delete (cr_op b) = false ->
   is_done_status (cr_op b) = false ->
   cd_winner_event_id (resolve_conflict a b) = cr_event_id a /\
   cd_reason (resolve_conflict a b) = DoneMonotone).
Proof.
  intros Hne. assert (Hid : as_uuid (cr_event_id a) <> as_uuid (cr_event_id b)).
  { intros E. apply Hne. destruct (cr_event_id a), (cr_event_id b); simpl in *; congruence. }
  assert (Hda : is_done_status (cr_op a) = true -> is_delete (cr_op a) = false)
    by (by destruct (cr_op a)).
  split; [|split].
  - unfold resolve_conflict, pick, compare_lww.
    destruct (is_delete (cr_op a)), (is_delete (cr_op b)); simpl; try done;
    destruct (is_done_status (cr_op a)), (is_done_status (cr_op b)); simpl; try done;
    rewrite (Z.compare_antisym (cr_occurred_at b)), (N.compare_antisym (as_uuid (cr_event_id b)));
    (destruct (cr_occurred_at b ?= cr_occurred_at a)%Z; simpl; try done;
     destruct (N.compare_spec (as_uuid (cr_event_id b)) (as_uuid (cr_event_id a)));
     simpl; by try congruence).
  - intros Ha Hb. unfold resolve_conflict, pick. by rewrite Ha, Hb.
  - intros Ha Hb Hn. unfold resolve_conflict, pick. by rewrite (Hda Ha), Hb, Ha, Hn.
Qed.
End ConflictProperties.

Definition demo_record (i : N) (t : Z) (op : ConflictOp) : ConflictRecord :=
  mkConflictRecord (mkId i) t op JNull.

Lemma merge_is_order_independent_witness :
  merge_all (demo_record 1 5 OpUpdate) [demo_record 2 1 OpDelete; demo_record 3 9 (OpStatus Done)]
  = merge_all (demo_record 3 9 (OpStatus Done)) [demo_record 1 5 OpUpdate; demo_record 2 1 OpDelete].
Proof.
  refine (proj1 (merge_is_order_independent _ _ _ _ _ _)).
  - symmetry. apply (Permutation_middle [_; _] []).
  - repeat constructor; set_solver.
Defined.

Lemma resolve_conflict_rules_witness :
  resolve_conflict (demo_record 1 5 OpUpdate) (demo_record 2 1 OpDelete)
  = resolve_conflict (demo_record 2 1 OpDelete) (demo_record 1 5 OpUpdate).
Proof. apply resolve_conflict_rules. done. Defined.
