(* ===== verification/TaskStore.v ===== *)
(** * crates/storage/task_repo.rs: the [tasks] projection

    The [tasks] table with the columns the domain struct does not carry
    ([metadata_json.pipeline_position], [status_changed_at]) and the due-date
    notifications; the queries the core uses and [apply_event_tx], the fold of
    the event log into the table.  The [entity_versions] audit rows written next
    to each change are not modelled: nothing in the core reads them back. *)

From S2P Require Import Prelude Shared TaskModel PlanModel RegistryModel Events.

Module TaskRow.
Record TaskRow : Type := mk {
  task : Task;
  position : option PipelinePosition;
  status_changed_at : option Z }.
#[global] Instance TaskRow_rebuild : Rebuild TaskRow := fun r =>
  mk (task r) (position r) (status_changed_at r).
#[global] Instance TaskRow_eq_dec : EqDecision TaskRow.
Proof. solve_decision. Defined.
End TaskRow.
Abbreviation TaskRow := TaskRow.TaskRow.

Module TaskRepo.
(** [notified]: table [task_due_notifications], primary key [task_id]. *)
Record TaskTable : Type := mk {
  rows : gmap TaskId TaskRow;
  notified : gmap TaskId (Z * Z) }.
#[global] Instance TaskTable_rebuild : Rebuild TaskTable := fun t =>
  mk (rows t) (notified t).

Definition empty : TaskTable := mk ∅ ∅.

(** ** Queries *)
Definition get (t : TaskTable) (id : TaskId) : option Task :=
  TaskRow.task <$> rows t !! id.

Definition pipeline_position (t : TaskTable) (id : TaskId) : option PipelinePosition :=
  rows t !! id ≫= TaskRow.position.

Definition all_rows (t : TaskTable) : list TaskRow := (map_to_list (rows t)).*2.

(** [ORDER BY created_at ASC]; SQL leaves the order of equal keys open. *)
Definition by_created (a b : Task) : bool := (Task.created_at a <=? Task.created_at b)%Z.

Definition select (t : TaskTable) (where_ : Task -> bool) : list Task :=
  sort_by by_created (List.filter where_ (map TaskRow.task (all_rows t))).

Definition status_in (statuses : list Status) (x : Task) : bool :=
  match statuses with
  | [] => true
  | _ => existsb (fun s => bool_decide (s = Task.status x)) statuses
  end.

Definition list_all_filtered (t : TaskTable) (statuses : list Status) : list Task :=
  select t (status_in statuses).
Definition list_all (t : TaskTable) : list Task := list_all_filtered t [].
Definition list_by_project_filtered (t : TaskTable) (project_id : option ProjectId)
    (statuses : list Status) : list Task :=
  select t (fun x => bool_decide (Task.project_id x = project_id) && status_in statuses x).
Definition list_by_status (t : TaskTable) (s : Status) : list Task :=
  select t (fun x => bool_decide (Task.status x = s)).

Definition find_by_external_key (t : TaskTable) (key : Str) : option Task :=
  head (List.filter (fun x => bool_decide (Task.external_key x = Some key))
                    (map TaskRow.task (all_rows t))).

Definition list_triage_queue (t : TaskTable) (project_id : ProjectId) : list Task :=
  select t (fun x => bool_decide (Task.project_id x = Some project_id)
                     && bool_decide (Task.triage_state x = Some Pending)).

Definition get_many (t : TaskTable) (ids : list TaskId) : list Task :=
  List.filter (fun x => bool_decide (Task.id x ∈ ids)) (map TaskRow.task (all_rows t)).

Definition list_stuck_in_status (t : TaskTable) (project_id : option ProjectId)
    (status : Status) (cutoff : Z) : list (Task * Z) :=
  sort_by (fun a b => (a.2 <=? b.2)%Z)
    (omap (fun r =>
       match TaskRow.status_changed_at r with
       | Some c =>
           if bool_decide (Task.status (TaskRow.task r) = status) && (c <? cutoff)%Z
              && match project_id with
                 | Some p => bool_decide (Task.project_id (TaskRow.task r) = Some p)
                 | None => true
                 end
           then Some (TaskRow.task r, c) else None
       | None => None
       end) (all_rows t)).

Definition list_due_unnotified (t : TaskTable) (now : Z) (limit : nat) : list (TaskId * Z) :=
  take limit (sort_by (fun a b => (a.2 <=? b.2)%Z)
    (omap (fun x =>
       match Task.due_at x with
       | Some due =>
           if (due <? now)%Z && negb (is_terminal (Task.status x))
              && negb (match notified t !! Task.id x with
                       | Some (d, _) => (d =? due)%Z
                       | None => false
                       end)
           then Some (Task.id x, due) else None
       | None => None
       end) (map TaskRow.task (all_rows t)))).

(** ** Mutations *)

(** [external_key] is unique among the rows that have one (migration index);
    the upsert fails when another row holds the key. *)
Definition key_taken (t : TaskTable) (x : Task) : bool :=
  match Task.external_key x with
  | None => false
  | Some k =>
      existsb (fun y => bool_decide (Task.external_key y = Some k)
                        && negb (bool_decide (Task.id y = Task.id x)))
              (map TaskRow.task (all_rows t))
  end.

(** [INSERT ... ON CONFLICT(id) DO UPDATE]: the columns outside the struct
    keep their value on an update and are NULL on an insert. *)
Definition upsert_task_tx (t : TaskTable) (x : Task) : Result CoreError TaskTable :=
  if key_taken t x then Err (Storage "UNIQUE constraint failed: tasks.external_key")
  else
    let row := match rows t !! Task.id x with
               | Some r => r <| TaskRow.task := x |>
               | None => TaskRow.mk x None None
               end in
    Ok (t <| rows := <[Task.id x := row]> (rows t) |>).

Definition update_row (t : TaskTable) (id : TaskId) (f : TaskRow -> TaskRow) : TaskTable :=
  t <| rows := alter f id (rows t) |>.

Definition stamp_status_changed_at (t : TaskTable) (id : TaskId) (at_ : Z) : TaskTable :=
  update_row t id (fun r => r <| TaskRow.status_changed_at := Some at_ |>).

Definition stamp_pipeline_position (t : TaskTable) (id : TaskId) (p : PipelinePosition)
  : TaskTable :=
  update_row t id (fun r => r <| TaskRow.position := Some p |>).

Definition stamp_last_change (x : Task) (e : EventEnvelope) : Task :=
  x <| Task.updated_by := Some (Envelope.actor e) |>
    <| Task.updated_event_id := Some (Envelope.id e) |>
    <| Task.updated_event_seq := Some (Envelope.seq e) |>.

(** The row a [NewTask] becomes; [id] has been assigned by the handler, and
    [fresh] is the id drawn here when it has not. *)
Definition created_task (e : EventEnvelope) (fresh : TaskId) (source : option EventId)
    (n : NewTask) : Task :=
  {| Task.id := default fresh (NewTask.id n);
     Task.project_id := NewTask.project_id n;
     Task.title := NewTask.title n;
     Task.description := default [] (NewTask.description n);
     Task.status := default status_default (NewTask.status n);
     Task.priority := default priority_default (NewTask.priority n);
     Task.triage_state := NewTask.triage_state n;
     Task.due_at := NewTask.due_at n;
     Task.created_at := Envelope.occurred_at e;
     Task.updated_at := Envelope.occurred_at e;
     Task.started_at := None;
     Task.completed_at := None;
     Task.created_by := Some (Envelope.actor e);
     Task.completed_by := None;
     Task.updated_by := Some (Envelope.actor e);
     Task.updated_event_id := Some (Envelope.id e);
     Task.updated_event_seq := Some (Envelope.seq e);
     Task.source_event_id := source;
     Task.external_key := NewTask.external_key n;
     Task.git_context := None |}.

(** The edits of one event to an existing row. *)
Definition set_started (x : Task) (at_ : Z) : Task :=
  x <| Task.started_at := or_else (Task.started_at x) (Some at_) |>.

Definition on_status_changed (e : EventEnvelope) (to : Status) (x : Task) : Task :=
  let x := x <| Task.status := to |> <| Task.updated_at := Envelope.occurred_at e |> in
  let x := if bool_decide (to = InProgress) || bool_decide (to = Done)
           then set_started x (Envelope.occurred_at e) else x in
  let x := if bool_decide (to = Done)
           then x <| Task.completed_by := Some (Envelope.actor e) |> else x in
  stamp_last_change x e.

Definition on_completed (e : EventEnvelope) (completed_at : Z) (x : Task) : Task :=
  let x := x <| Task.status := Done |>
             <| Task.updated_at := Envelope.occurred_at e |>
             <| Task.completed_at := Some completed_at |> in
  let x := set_started x completed_at in
  stamp_last_change (x <| Task.completed_by := Some (Envelope.actor e) |>) e.

Definition on_reopened (e : EventEnvelope) (at_ : Z) (x : Task) : Task :=
  stamp_last_change (x <| Task.completed_at := None |> <| Task.updated_at := at_ |>) e.

Definition on_closed (e : EventEnvelope) (at_ : Z) (x : Task) : Task :=
  let x := x <| Task.completed_at := Some at_ |> <| Task.updated_at := at_ |> in
  stamp_last_change (set_started x at_) e.

Definition on_updated (e : EventEnvelope) (now : Z) (patch : TaskPatch) (x : Task) : Task :=
  stamp_last_change
    (TaskPatch.apply now patch x <| Task.updated_at := Envelope.occurred_at e |>) e.

Definition on_priority_changed (e : EventEnvelope) (to : Priority) (x : Task) : Task :=
  stamp_last_change
    (x <| Task.priority := to |> <| Task.updated_at := Envelope.occurred_at e |>) e.

(** Read the row, edit it and write it back; a missing row is skipped. *)
Definition with_task (t : TaskTable) (id : TaskId) (f : Task -> Task)
  : Result CoreError TaskTable :=
  match get t id with
  | Some x => upsert_task_tx t (f x)
  | None => Ok t
  end.

(** [fresh] supplies ids for a created task that carries none, [now] the
    clock [TaskPatch::apply] reads. *)
Fixpoint create_split (t : TaskTable) (e : EventEnvelope) (fresh : TaskId)
    (subtasks : list NewTask) : Result CoreError TaskTable :=
  match subtasks with
  | [] => Ok t
  | n :: ns =>
      rbind (upsert_task_tx t (created_task e fresh (Some (Envelope.id e)) n))
            (fun t => create_split t e fresh ns)
  end.

Definition apply_event_tx (fresh : TaskId) (now : Z) (t : TaskTable) (e : EventEnvelope)
  : Result CoreError TaskTable :=
  match Envelope.payload e with
  | Event.TaskCreated n =>
      let x := created_task e fresh (NewTask.source_event_id n) n in
      rbind (upsert_task_tx t x) (fun t =>
      Ok (stamp_status_changed_at t (Task.id x) (Envelope.occurred_at e)))
  | Event.TaskDueElapsed task_id due_at at_ =>
      Ok (t <| notified := <[task_id := (due_at, at_)]> (notified t) |>)
  | Event.TaskUpdated task_id patch =>
      rbind (with_task t task_id (on_updated e now patch)) (fun t =>
      Ok (match TaskPatch.pipeline_position patch with
          | Some p => stamp_pipeline_position t task_id p
          | None => t
          end))
  | Event.TaskStatusChanged task_id _ to =>
      rbind (with_task t task_id (on_status_changed e to)) (fun t =>
      Ok (stamp_status_changed_at t task_id (Envelope.occurred_at e)))
  | Event.TaskPriorityChanged task_id _ to =>
      with_task t task_id (on_priority_changed e to)
  | Event.TaskCompleted task_id completed_at _ =>
      let entered_done := match get t task_id with
                          | Some x => negb (bool_decide (Task.status x = Done))
                          | None => false
                          end in
      rbind (with_task t task_id (on_completed e completed_at)) (fun t =>
      Ok (if entered_done then stamp_status_changed_at t task_id (Envelope.occurred_at e)
          else t))
  | Event.TaskDeleted task_id =>
      Ok (mk (delete task_id (rows t)) (delete task_id (notified t)))
  | Event.TaskSplitGenerated _ subtasks => create_split t e fresh subtasks
  | Event.TaskReopened task_id _ at_ => with_task t task_id (on_reopened e at_)
  | Event.TaskClosed task_id _ at_ => with_task t task_id (on_closed e at_)
  | _ => Ok t
  end.
End TaskRepo.
Abbreviation TaskTable := TaskRepo.TaskTable.

(** ** Specification: what the table always satisfies *)
Module TaskTableSpec.
  Import TaskRepo.

(** Rows are stored under their own id, and an external key names one row. *)
Definition keyed (t : TaskTable) : Prop :=
  forall id x, get t id = Some x -> Task.id x = id.
Definition key_unique (t : TaskTable) : Prop :=
  forall i j x y k, get t i = Some x -> get t j = Some y ->
    Task.external_key x = Some k -> Task.external_key y = Some k -> i = j.
Definition wf (t : TaskTable) : Prop := keyed t /\ key_unique t.

(** The ids whose row an event may write. *)
Definition written (fresh : TaskId) (e : Event) : list TaskId :=
  match e with
  | Event.TaskCreated n => [default fresh (NewTask.id n)]
  | Event.TaskSplitGenerated _ ns => map (fun n => default fresh (NewTask.id n)) ns
  | Event.TaskUpdated id _ | Event.TaskStatusChanged id _ _
  | Event.TaskPriorityChanged id _ _ | Event.TaskCompleted id _ _
  | Event.TaskDeleted id | Event.TaskReopened id _ _ | Event.TaskClosed id _ _ => [id]
  | _ => []
  end.

(** The events that replace or remove a row instead of editing it. *)
Definition replaces (fresh : TaskId) (e : Event) (id : TaskId) : bool :=
  match e with
  | Event.TaskCreated _ | Event.TaskSplitGenerated _ _ | Event.TaskDeleted _ =>
      bool_decide (id ∈ written fresh e)
  | _ => false
  end.
End TaskTableSpec.

(** ** Lemmas: one row at a time *)
Module TaskTableFacts.
  Import TaskRepo TaskTableSpec.

Lemma get_update_row t id f j :
  (forall r, TaskRow.task (f r) = TaskRow.task r) ->
  get (update_row t id f) j = get t j.
Proof.
  intros Hf. unfold get, update_row. cbn.
  destruct (decide (j = id)) as [->|Hne].
  - rewrite lookup_alter_eq. destruct (rows t !! id); cbn; [by rewrite Hf|done].
  - by rewrite lookup_alter_ne.
Qed.

Lemma get_stamp_status t id a j : get (stamp_status_changed_at t id a) j = get t j.
Proof. by apply get_update_row. Qed.
Lemma get_stamp_position t id p j : get (stamp_pipeline_position t id p) j = get t j.
Proof. by apply get_update_row. Qed.

Lemma upsert_get t x t' j :
  upsert_task_tx t x = Ok t' ->
  get t' j = if bool_decide (j = Task.id x) then Some x else get t j.
Proof.
  unfold upsert_task_tx. destruct (key_taken t x); [done|]. intros [= <-].
  unfold get. cbn. destruct (decide (j = Task.id x)) as [->|Hne].
  - rewrite bool_decide_eq_true_2 by done. rewrite lookup_insert_eq.
    by destruct (rows t !! Task.id x).
  - rewrite bool_decide_eq_false_2 by done. by rewrite lookup_insert_ne.
Qed.

Lemma elem_of_tasks t x :
  List.In x (map TaskRow.task (all_rows t)) <-> exists id, get t id = Some x.
Proof.
  unfold all_rows, get. rewrite in_map_iff. split.
  - intros (r & <- & Hr%list_elem_of_In). apply list_elem_of_fmap in Hr as ([i r'] & -> & Hr).
    apply elem_of_map_to_list in Hr. exists i. cbn. by rewrite Hr.
  - intros [id (r & Hr & ->)%fmap_Some]. exists r. split; [done|]. apply list_elem_of_In.
    apply list_elem_of_fmap. exists (id, r). split; [done|]. by apply elem_of_map_to_list.
Qed.

Lemma key_free t x k y i :
  key_taken t x = false -> Task.external_key x = Some k ->
  get t i = Some y -> Task.external_key y = Some k -> Task.id y = Task.id x.
Proof.
  unfold key_taken. intros Hf Hk Hg Hy. rewrite Hk in Hf.
  destruct (decide (Task.id y = Task.id x)) as [|Hne]; [done|]. exfalso.
  apply not_true_iff_false in Hf. apply Hf. apply existsb_exists.
  exists y. split; [apply elem_of_tasks; eauto|].
  by rewrite bool_decide_eq_true_2, bool_decide_eq_false_2.
Qed.

Lemma upsert_wf t x t' : wf t -> upsert_task_tx t x = Ok t' -> wf t'.
Proof.
  intros [Hk Hu] Hup. pose proof (fun j => upsert_get t x t' j Hup) as Hg.
  assert (Hf : key_taken t x = false).
  { unfold upsert_task_tx in Hup. by destruct (key_taken t x). }
  split.
  - intros id y. rewrite Hg. case_bool_decide; [by intros [= <-]|apply Hk].
  - intros i j a b k. rewrite !Hg. repeat case_bool_decide; subst; try done.
    + intros [= <-] Hb Hka Hkb. symmetry. rewrite <- (Hk _ _ Hb). by eapply key_free.
    + intros Ha [= <-] Hka Hkb. rewrite <- (Hk _ _ Ha). by eapply key_free.
    + apply Hu.
Qed.

Lemma wf_same_get t t' : (forall j, get t' j = get t j) -> wf t -> wf t'.
Proof.
  intros Hg [Hk Hu]. split; [intros ? ?; rewrite Hg; apply Hk|].
  intros ? ? ? ? ?. rewrite !Hg. apply Hu.
Qed.

(** Edits keep the id, and either keep or set [started_at]. *)
Definition keeps_id (f : Task -> Task) : Prop := forall x, Task.id (f x) = Task.id x.
Definition keeps_started (f : Task -> Task) : Prop :=
  forall x s, Task.started_at x = Some s -> Task.started_at (f x) = Some s.

Lemma with_task_get t id f t' j :
  wf t -> keeps_id f -> with_task t id f = Ok t' ->
  get t' j = if bool_decide (j = id) then f <$> get t id else get t j.
Proof.
  unfold with_task. intros [Hk _] Hf. destruct (get t id) as [x|] eqn:E.
  - intros Hup. rewrite (upsert_get _ _ _ _ Hup), Hf, (Hk _ _ E). done.
  - intros [= <-]. case_bool_decide; [by subst|done].
Qed.

Lemma with_task_wf t id f t' : wf t -> with_task t id f = Ok t' -> wf t'.
Proof.
  unfold with_task. intros Hw. destruct (get t id); [by apply upsert_wf|by intros [= <-]].
Qed.

Lemma keeps_id_patch now p : keeps_id (TaskPatch.apply now p).
Proof. intros x. unfold TaskPatch.apply. repeat case_match; done. Qed.
Lemma started_patch now p x :
  Task.started_at (TaskPatch.apply now p x) = Task.started_at x.
Proof. unfold TaskPatch.apply. repeat case_match; done. Qed.

Lemma keeps_id_updated e now p : keeps_id (on_updated e now p).
Proof. intros x. exact (keeps_id_patch now p x). Qed.
Lemma keeps_started_updated e now p : keeps_started (on_updated e now p).
Proof. intros x s Hs. etransitivity; [exact (started_patch now p x)|done]. Qed.
Lemma keeps_id_status e to : keeps_id (on_status_changed e to).
Proof. intros x. unfold on_status_changed. by repeat case_match. Qed.
Lemma keeps_started_status e to : keeps_started (on_status_changed e to).
Proof. intros x s Hs. unfold on_status_changed. repeat case_match; cbn; by rewrite Hs. Qed.
Lemma keeps_id_completed e a : keeps_id (on_completed e a).
Proof. done. Qed.
Lemma keeps_started_completed e a : keeps_started (on_completed e a).
Proof. intros x s Hs. unfold on_completed. cbn. by rewrite Hs. Qed.
Lemma keeps_id_closed e a : keeps_id (on_closed e a).
Proof. done. Qed.
Lemma keeps_started_closed e a : keeps_started (on_closed e a).
Proof. intros x s Hs. unfold on_closed. cbn. by rewrite Hs. Qed.
Lemma keeps_id_reopened e a : keeps_id (on_reopened e a).
Proof. done. Qed.
Lemma keeps_started_reopened e a : keeps_started (on_reopened e a).
Proof. by intros x s Hs. Qed.
Lemma keeps_id_priority e p : keeps_id (on_priority_changed e p).
Proof. done. Qed.
Lemma keeps_started_priority e p : keeps_started (on_priority_changed e p).
Proof. by intros x s Hs. Qed.

#[export] Hint Resolve keeps_id_updated keeps_started_updated keeps_id_status
  keeps_started_status keeps_id_completed keeps_started_completed keeps_id_closed
  keeps_started_closed keeps_id_reopened keeps_started_reopened keeps_id_priority
  keeps_started_priority : daruma.

Lemma create_split_wf t e fresh ns t' :
  wf t -> create_split t e fresh ns = Ok t' -> wf t'.
Proof.
  revert t. induction ns as [|n ns IH]; cbn; intros t Hw; [by intros [= <-]|].
  intros (t1 & Hup & Hr)%rbind_ok. eapply IH; [|done]. by eapply upsert_wf.
Qed.

Lemma create_split_get t e fresh ns t' j :
  create_split t e fresh ns = Ok t' ->
  j ∉ map (fun n => default fresh (NewTask.id n)) ns -> get t' j = get t j.
Proof.
  revert t. induction ns as [|n ns IH]; cbn; intros t; [by intros [= <-]|].
  intros (t1 & Hup & Hr)%rbind_ok Hj. rewrite (IH _ Hr) by set_solver.
  rewrite (upsert_get _ _ _ _ Hup), bool_decide_eq_false_2; [done|]. set_solver.
Qed.

Lemma stamp_wf t id a : wf t -> wf (stamp_status_changed_at t id a).
Proof. apply wf_same_get. intros. apply get_stamp_status. Qed.
Lemma stamp_pos_wf t id p : wf t -> wf (stamp_pipeline_position t id p).
Proof. apply wf_same_get. intros. apply get_stamp_position. Qed.
#[export] Hint Resolve stamp_wf stamp_pos_wf : daruma.

Lemma delete_get t id j :
  get (mk (delete id (rows t)) (delete id (notified t))) j =
  if bool_decide (j = id) then None else get t j.
Proof.
  unfold get. cbn. case_bool_decide; subst; [by rewrite lookup_delete_eq|by rewrite lookup_delete_ne].
Qed.

(** What an event can do to the table: nothing, one edit of one row, or a
    replacement of the rows it writes. *)
Inductive effect (fresh : TaskId) (t t' : TaskTable) (e : Event) : Prop :=
| eff_none : (forall j, get t' j = get t j) -> effect fresh t t' e
| eff_edit id f t1 :
    with_task t id f = Ok t1 ->
    written fresh e = [id] -> keeps_id f -> keeps_started f ->
    (forall j, get t' j = get t1 j) -> effect fresh t t' e
| eff_replace :
    (wf t -> wf t') ->
    (forall j, j ∉ written fresh e -> get t' j = get t j) ->
    (forall j, replaces fresh e j = bool_decide (j ∈ written fresh e)) ->
    effect fresh t t' e.

Lemma apply_event_effect fresh now t e t' :
  apply_event_tx fresh now t e = Ok t' -> effect fresh t t' (Envelope.payload e).
Proof.
  unfold apply_event_tx. destruct (Envelope.payload e) eqn:He;
    try (intros H; injection H as <-; by apply eff_none).
  - (* TaskCreated *)
    intros (t1 & H1 & [= <-])%rbind_ok. apply eff_replace; [|intros j Hj|done].
    + intros Hw. apply stamp_wf. by eapply upsert_wf.
    + rewrite get_stamp_status, (upsert_get _ _ _ _ H1), bool_decide_eq_false_2; [done|].
      set_solver.
  - (* TaskUpdated *)
    intros (t1 & H1 & [= <-])%rbind_ok.
    apply (eff_edit _ _ _ _ _ _ _ H1); [by eauto with daruma..|]. intros j.
    destruct (TaskPatch.pipeline_position patch); [by rewrite get_stamp_position|done].
  - intros (t1 & H1 & [= <-])%rbind_ok.
    apply (eff_edit _ _ _ _ _ _ _ H1); eauto using get_stamp_status with daruma.
  - intros H1. apply (eff_edit _ _ _ _ _ _ _ H1); eauto with daruma.
  - intros (t1 & H1 & [= <-])%rbind_ok.
    apply (eff_edit _ _ _ _ _ _ _ H1); [by eauto with daruma..|]. intros j.
    destruct (match get t task_id with Some _ => _ | None => _ end);
      [by rewrite get_stamp_status|done].
  - (* TaskDeleted *)
    intros [= <-]. apply eff_replace; [|intros j Hj|done].
    + intros [Hk Hu]. split.
      * intros id x. rewrite delete_get. case_bool_decide; [done|apply Hk].
      * intros i j x y k. rewrite !delete_get. repeat case_bool_decide; try done. apply Hu.
    + rewrite delete_get, bool_decide_eq_false_2; [done|]. set_solver.
  - (* TaskSplitGenerated *)
    intros H1. apply eff_replace; [|intros j Hj|done].
    + intros Hw. by eapply create_split_wf.
    + by eapply create_split_get.
  - intros H1. apply (eff_edit _ _ _ _ _ _ _ H1); eauto with daruma.
  - intros H1. apply (eff_edit _ _ _ _ _ _ _ H1); eauto with daruma.
Qed.
End TaskTableFacts.

Section TaskTableProperties.
  Import TaskRepo TaskTableSpec TaskTableFacts.

(** Projecting any event keeps the tasks table well formed (rows under
      their own id, at most one row per external key) and changes only the rows
      the event writes; a row that survives the event never loses or moves its
      [started_at]. *)
Theorem apply_event_preserves_table fresh now t e t' :
  wf t -> apply_event_tx fresh now t e = Ok t' ->
  wf t' /\
  (forall j, j ∉ written fresh (Envelope.payload e) -> get t' j = get t j) /\
  (forall j x s, replaces fresh (Envelope.payload e) j = false ->
     get t j = Some x -> Task.started_at x = Some s ->
     exists x', get t' j = Some x' /\ Task.started_at x' = Some s).
Proof.
  intros Hw [Hg|id f t1 H1 Hwr Hid Hst Hg|Hwf Hfr Hrep]%apply_event_effect.
  - split; [by eapply wf_same_get|]. split; [done|]. intros. rewrite Hg. eauto.
  - pose proof (fun j => with_task_get _ _ _ _ j Hw Hid H1) as Hget. split.
    { eapply wf_same_get; [exact Hg|]. by eapply with_task_wf. }
    rewrite Hwr. split.
    + intros j Hj. rewrite Hg, Hget, bool_decide_eq_false_2; [done|]. set_solver.
    + intros j x s _ Hx Hs. rewrite Hg, Hget. case_bool_decide; subst; [|eauto].
      rewrite Hx. cbn. eauto.
  - split; [auto|]. split; [done|]. intros j x s Hr Hx Hs. rewrite Hrep in Hr. bsplit.
    rewrite Hfr by done. eauto.
Qed.
End TaskTableProperties.

Definition demo_task (i : N) : Task :=
  from_new (mkId i) 0 (NewTask.new (lit "demo")) <| Task.started_at := Some 3%Z |>.
Definition demo_table : TaskTable :=
  TaskRepo.mk {[ mkId 1 := TaskRow.mk (demo_task 1) None None ]} ∅.

Lemma demo_table_wf : TaskTableSpec.wf demo_table.
Proof.
  assert (H : forall i x, TaskRepo.get demo_table i = Some x -> i = mkId 1 /\ x = demo_task 1).
  { intros i x. unfold TaskRepo.get. cbn. intros (r & Hr & ->)%fmap_Some.
    by apply lookup_singleton_Some in Hr as [<- <-]. }
  split.
  - by intros i x [-> ->]%H.
  - by intros i j x y k [-> ->]%H [-> ->]%H.
Qed.

Lemma apply_event_preserves_table_witness :
  exists x', TaskRepo.get
    (TaskRepo.stamp_status_changed_at
       (TaskRepo.mk {[ mkId 1 := TaskRow.mk
          (TaskRepo.on_status_changed
             (Envelope.new (mkId 9) 7 ActorOps.user
                (Event.TaskStatusChanged (mkId 1) Inbox Done)) Done (demo_task 1))
          None None ]} ∅) (mkId 1) 7) (mkId 1) = Some x'
    /\ Task.started_at x' = Some 3%Z.
Proof.
  refine (proj2 (proj2 (apply_event_preserves_table (mkId 0) 7 demo_table
    (Envelope.new (mkId 9) 7 ActorOps.user (Event.TaskStatusChanged (mkId 1) Inbox Done)) _
    demo_table_wf _)) (mkId 1) (demo_task 1) 3%Z _ _ _);
    vm_compute; reflexivity.
Defined.
