(* ===== verification/RelationStore.v ===== *)
(** * storage/relation_repo.rs and core/relation_enforcement.rs

    The [task_relations] table (rows in insertion order, [UNIQUE(from, to,
    kind)], primary key [id]) and the enforcement helpers: the cycle search for
    a new [Blocks] edge, the active blockers of a task and the tasks a finished
    blocker sets free. *)

From S2P Require Import Prelude Shared TaskModel PlanModel RegistryModel Events TaskStore.

Module RelationRepo.
Abbreviation RelationTable := (list Relation).

Definition same_edge (a b : Relation) : bool :=
  bool_decide (Relation.from a = Relation.from b)
  && bool_decide (Relation.to a = Relation.to b)
  && bool_decide (Relation.kind a = Relation.kind b).

(** Any unique violation, of the edge or of the primary key, is reported as
    [relation_exists]. *)
Definition insert (t : RelationTable) (r : Relation) : Result CoreError RelationTable :=
  if existsb (fun x => same_edge x r || bool_decide (Relation.id x = Relation.id r)) t
  then Err (Conflict "relation_exists: ({}, {}, {})")
  else Ok (t ++ [r]).

Definition get (t : RelationTable) (id : RelationId) : option Relation :=
  head (List.filter (fun r => bool_decide (Relation.id r = id)) t).

(** [UPDATE task_relations SET kind = ? WHERE id = ?]: the unique constraint
    is checked against the other rows. *)
Definition update_kind (t : RelationTable) (id : RelationId) (k : RelationKind)
  : Result CoreError (bool * RelationTable) :=
  match get t id with
  | None => Ok (false, t)
  | Some r =>
      if existsb (fun x => same_edge x (r <| Relation.kind := k |>)
                           && negb (bool_decide (Relation.id x = id))) t
      then Err (Storage "UNIQUE constraint failed")
      else Ok (true,
               map (fun x => if bool_decide (Relation.id x = id)
                             then x <| Relation.kind := k |> else x) t)
  end.

Definition delete (t : RelationTable) (id : RelationId) : bool * RelationTable :=
  (existsb (fun r => bool_decide (Relation.id r = id)) t,
   List.filter (fun r => negb (bool_decide (Relation.id r = id))) t).

Definition by_created (a b : Relation) : bool :=
  (Relation.created_at a <=? Relation.created_at b)%Z.
Definition select (t : RelationTable) (where_ : Relation -> bool) : list Relation :=
  sort_by by_created (List.filter where_ t).

Definition list_by_task (t : RelationTable) (id : TaskId) : list Relation :=
  select t (fun r => bool_decide (Relation.from r = id) || bool_decide (Relation.to r = id)).
Definition list_by_task_ids (t : RelationTable) (ids : list TaskId) : list Relation :=
  match ids with
  | [] => []
  | _ => select t (fun r => bool_decide (Relation.from r ∈ ids)
                            || bool_decide (Relation.to r ∈ ids))
  end.
Definition list_blockers (t : RelationTable) (id : TaskId) : list Relation :=
  select t (fun r => bool_decide (Relation.to r = id)
                     && bool_decide (Relation.kind r = Blocks)).
Definition list_blocks_targets (t : RelationTable) (id : TaskId) : list Relation :=
  select t (fun r => bool_decide (Relation.from r = id)
                     && bool_decide (Relation.kind r = Blocks)).
End RelationRepo.
Abbreviation RelationTable := RelationRepo.RelationTable.

Module RelationEnforcement.
  Import RelationRepo.

Definition MAX_DEPTH : nat := 1000.

(** The [while let Some(curr) = stack.pop()] loop: [budget] is
    [MAX_DEPTH - steps], so the check [steps > MAX_DEPTH] is the [O] case.  The
    stack's top is the head of the list, and [extend] leaves the last target on
    top. *)
Fixpoint search (t : RelationTable) (from : TaskId) (budget : nat)
    (visited : gset TaskId) (stack : list TaskId) : Result CoreError unit :=
  match stack with
  | [] => Ok tt
  | curr :: stack =>
      match budget with
      | O => Err (Validation "relation_graph_too_deep")
      | S budget =>
          if bool_decide (curr = from) then Err (Validation "cycle_detected")
          else if bool_decide (curr ∈ visited) then search t from budget visited stack
          else search t from budget ({[curr]} ∪ visited)
                 (rev (map Relation.to (list_blocks_targets t curr)) ++ stack)
      end
  end.

Definition detect_cycle (t : RelationTable) (from to : TaskId) (kind : RelationKind)
  : Result CoreError unit :=
  if negb (bool_decide (kind = Blocks)) then Ok tt
  else if bool_decide (from = to) then Err (Validation "cycle_detected")
  else search t from MAX_DEPTH ∅ [to].

(** A blocker whose task row is gone counts as resolved. *)
Definition list_active_blockers (t : RelationTable) (tasks : TaskTable) (id : TaskId)
  : list TaskId :=
  omap (fun rel =>
    match TaskRepo.get tasks (Relation.from rel) with
    | Some x => if bool_decide (Task.status x = Done) then None else Some (Relation.from rel)
    | None => None
    end) (list_blockers t id).

Definition is_done (tasks : TaskTable) (id : TaskId) : bool :=
  match TaskRepo.get tasks id with
  | Some x => bool_decide (Task.status x = Done)
  | None => false
  end.

Definition list_downstream_to_unblock (t : RelationTable) (tasks : TaskTable)
    (blocker_id : TaskId) : list TaskId :=
  match TaskRepo.get tasks blocker_id with
  | Some x =>
      if bool_decide (Task.status x = Done) then []
      else
        omap (fun rel =>
          let target := Relation.to rel in
          if forallb (fun b => bool_decide (Relation.from b = blocker_id)
                               || is_done tasks (Relation.from b))
                     (list_blockers t target)
          then Some target else None)
          (list_blocks_targets t blocker_id)
  | None => []
  end.
End RelationEnforcement.

(** ** Specification *)
Module RelationSpec.
  Import RelationRepo.

Definition edge_key (r : Relation) : TaskId * TaskId * RelationKind :=
  (Relation.from r, Relation.to r, Relation.kind r).

(** The table's two constraints. *)
Definition wf (t : RelationTable) : Prop :=
  NoDup (map Relation.id t) /\ NoDup (map edge_key t).

Definition blocks (t : RelationTable) (a b : TaskId) : Prop :=
  exists r, r ∈ t /\ Relation.from r = a /\ Relation.to r = b /\ Relation.kind r = Blocks.

Definition acyclic (t : RelationTable) : Prop := forall a, ~ tc (blocks t) a a.

Definition graph_ok (t : RelationTable) : Prop := wf t /\ acyclic t.
End RelationSpec.

Module RelationFacts.
  Import RelationRepo RelationEnforcement RelationSpec.

Lemma elem_of_select t w r : r ∈ select t w <-> r ∈ t /\ w r = true.
Proof.
  unfold select. rewrite elem_of_sort_by, !list_elem_of_In, filter_In. done.
Qed.

Lemma elem_of_targets t a b :
  b ∈ map Relation.to (list_blocks_targets t a) <-> blocks t a b.
Proof.
  unfold blocks, list_blocks_targets. rewrite list_elem_of_fmap. split.
  - intros (r & -> & (Hr & Hw)%elem_of_select). bsplit. eauto 10.
  - intros (r & Hr & Hf & Ht & Hk). exists r. split; [done|]. apply elem_of_select.
    split; [done|]. by rewrite !bool_decide_eq_true_2.
Qed.

(** Everything reachable from the visited tasks is visited or on the stack. *)
Definition closed_under (t : RelationTable) (visited : gset TaskId) (stack : list TaskId) :=
  forall a b, a ∈ visited -> blocks t a b -> b ∈ visited \/ b ∈ stack.

Lemma closed_reach t visited a b :
  closed_under t visited [] -> a ∈ visited -> rtc (blocks t) a b -> b ∈ visited.
Proof.
  intros Hcl Ha Hab. revert Ha. induction Hab as [|a c b Hac _ IH]; [done|].
  intros Ha. apply IH. destruct (Hcl _ _ Ha Hac); [done|set_solver].
Qed.

Lemma search_ok t from budget visited stack :
  closed_under t visited stack -> from ∉ visited ->
  search t from budget visited stack = Ok tt ->
  forall a b, a ∈ visited \/ a ∈ stack -> rtc (blocks t) a b -> b <> from.
Proof.
  revert visited stack. induction budget as [|budget IH]; intros visited stack Hcl Hfr Hs a b Ha Hab;
    (destruct stack as [|c stack]; cbn in Hs;
     [destruct Ha as [Ha|Ha]; [pose proof (closed_reach _ _ _ _ Hcl Ha Hab); by intros ->|set_solver]|]);
    [done|].
  case_bool_decide as Hcf; [done|]. case_bool_decide as Hcv.
  - refine (IH visited stack _ Hfr Hs a b _ Hab); [|set_solver].
    intros x y Hx Hxy. destruct (Hcl _ _ Hx Hxy); [by left|]. set_solver.
  - refine (IH _ _ _ _ Hs a b _ Hab); [|set_solver..].
    intros x y [Hx%elem_of_singleton|Hx]%elem_of_union Hxy.
    + subst x. right. apply elem_of_app. left.
      apply list_elem_of_In, (proj1 (in_rev _ _)), list_elem_of_In. by apply elem_of_targets.
    + destruct (Hcl _ _ Hx Hxy); set_solver.
Qed.

Lemma search_cycle t from budget visited stack :
  search t from budget visited stack = Err (Validation "cycle_detected") ->
  exists a, a ∈ stack /\ rtc (blocks t) a from.
Proof.
  revert visited stack. induction budget as [|budget IH]; intros visited stack Hs;
    destruct stack as [|c stack]; cbn in Hs; try done.
  case_bool_decide as Hcf; [subst; exists from; split; [set_solver|done]|].
  case_bool_decide as Hcv.
  - destruct (IH _ _ Hs) as (a & ? & ?). exists a. set_solver.
  - destruct (IH _ _ Hs) as (a & [Ha|Ha]%elem_of_app & Hr); [|exists a; set_solver].
    exists c. split; [set_solver|]. eapply rtc_l; [|exact Hr]. apply elem_of_targets.
    by apply list_elem_of_In, in_rev, list_elem_of_In.
Qed.

Lemma search_result t from budget visited stack :
  search t from budget visited stack = Ok tt \/
  search t from budget visited stack = Err (Validation "cycle_detected") \/
  search t from budget visited stack = Err (Validation "relation_graph_too_deep").
Proof.
  revert visited stack. induction budget as [|budget IH]; intros visited stack;
    destruct stack; cbn; auto. repeat case_bool_decide; auto.
Qed.

(** The new edge of an insertion. *)
Lemma blocks_app t r a b :
  blocks (t ++ [r]) a b <->
  blocks t a b \/ (Relation.from r = a /\ Relation.to r = b /\ Relation.kind r = Blocks).
Proof.
  unfold blocks. split.
  - intros (x & [Hx|Hx%list_elem_of_singleton]%elem_of_app & ?); subst; [left; eauto|by right].
  - intros [(x & ? & ?)|?]; [exists x|exists r]; set_solver.
Qed.

Lemma acyclic_app t r :
  acyclic t ->
  (Relation.kind r = Blocks -> ~ rtc (blocks t) (Relation.to r) (Relation.from r)) ->
  acyclic (t ++ [r]).
Proof.
  intros Hac Hnew. destruct (decide (Relation.kind r = Blocks)) as [Hk|Hk].
  - refine (acyclic_add_edge (blocks t) _ (Relation.from r) (Relation.to r) _ Hac (Hnew Hk)).
    intros a b [?|(<- & <- & _)]%blocks_app; [by left|by right].
  - intros a Ha. apply (Hac a). revert Ha. apply tc_mono.
    intros x y [?|(_ & _ & ?)]%blocks_app; done.
Qed.

(** ** Table constraints *)
Lemma insert_ok t r t' :
  insert t r = Ok t' ->
  t' = t ++ [r] /\ Relation.id r ∉ map Relation.id t /\ edge_key r ∉ map edge_key t.
Proof.
  unfold insert. destruct (existsb _ _) eqn:E; [done|]. intros [= <-].
  split; [done|]. apply not_true_iff_false in E. rewrite existsb_exists in E.
  split; intros (x & Hx & Hin)%list_elem_of_fmap; apply E; exists x;
    (split; [by apply list_elem_of_In|]).
  - rewrite (bool_decide_eq_true_2 (Relation.id x = _)) by done. apply orb_true_r.
  - unfold same_edge. injection Hx as -> -> ->. by rewrite 3!bool_decide_eq_true_2 by done.
Qed.

Lemma insert_wf t r t' : wf t -> insert t r = Ok t' -> wf t'.
Proof.
  intros [Hi He] (-> & Hni & Hne)%insert_ok. split; rewrite map_app; by apply NoDup_snoc.
Qed.

Lemma delete_wf t id : wf t -> wf (delete t id).2.
Proof. intros [? ?]. split; by apply NoDup_map_filter. Qed.

Lemma get_some t id r : get t id = Some r -> r ∈ t /\ Relation.id r = id.
Proof.
  unfold get. intros H. destruct (List.filter _ t) as [|x l] eqn:E; [done|].
  injection H as ->. assert (Hin : List.In r (r :: l)) by (by left). rewrite <- E in Hin.
  apply filter_In in Hin as [? ?]. bsplit. by split; [apply list_elem_of_In|].
Qed.

Lemma unique_row t x y :
  NoDup (map Relation.id t) -> x ∈ t -> y ∈ t -> Relation.id x = Relation.id y -> x = y.
Proof.
  intros Hi Hx Hy Hid. apply list_elem_of_lookup in Hx as [i Hx].
  apply list_elem_of_lookup in Hy as [j Hj]. assert (i = j) as ->; [|congruence].
  eapply NoDup_lookup; [exact Hi| |]; rewrite list_lookup_fmap;
    [rewrite Hx|rewrite Hj]; cbn; [reflexivity|by rewrite Hid].
Qed.

Lemma update_kind_wf t id k b t' :
  wf t -> update_kind t id k = Ok (b, t') -> wf t'.
Proof.
  unfold update_kind. intros [Hi He]. destruct (get t id) as [r|] eqn:G; [|by intros [= <- <-]].
  destruct (existsb _ t) eqn:E; [done|]. intros [= <- <-].
  apply get_some in G as [Hr <-]. apply not_true_iff_false in E. rewrite existsb_exists in E.
  split.
  - rewrite map_map. erewrite map_ext; [exact Hi|]. intros x. by case_bool_decide.
  - set (f := fun x => if bool_decide (Relation.id x = Relation.id r)
                       then x <| Relation.kind := k |> else x).
    change (NoDup (map edge_key (map f t))).
    assert (Hu : forall x, x ∈ t -> Relation.id x = Relation.id r -> x = r).
    { intros x Hx Hid. by eapply unique_row. }
    assert (Hne : forall x, x ∈ t -> Relation.id x <> Relation.id r ->
                  edge_key x <> edge_key (r <| Relation.kind := k |>)).
    { intros x Hx Hid Heq. apply E. exists x. split; [by apply list_elem_of_In|].
      unfold same_edge. unfold edge_key in Heq. injection Heq as H1 H2 H3.
      by rewrite bool_decide_eq_true_2, bool_decide_eq_true_2, bool_decide_eq_true_2,
        bool_decide_eq_false_2. }
    clear Hr E. clear Hi. induction t as [|x t IH]; cbn; [done|].
    cbn in He. apply NoDup_cons in He as [Hx He].
    apply NoDup_cons. split; [|apply IH; auto using list_elem_of_further].
    intros (y & Hxy & Hy)%list_elem_of_fmap.
    apply list_elem_of_fmap in Hy as (z & -> & Hz). unfold f in Hxy.
    assert (Hzt : z ∈ x :: t) by (by apply list_elem_of_further).
    assert (Hxt : x ∈ x :: t) by apply list_elem_of_here.
    repeat case_bool_decide.
    + apply Hx. rewrite (Hu x Hxt), <- (Hu z Hzt) by done. by apply list_elem_of_fmap_2.
    + rewrite (Hu x Hxt) in Hxy by done. by eapply (Hne z).
    + rewrite (Hu z Hzt) in Hxy by done. by eapply (Hne x).
    + apply Hx. rewrite Hxy. by apply list_elem_of_fmap_2.
Qed.

(** ** Cost of the search

    Each pop removes one entry; expanding a task for the first time adds its
    edges, which are then no longer pending. *)
Definition is_pending (visited : gset TaskId) (r : Relation) : bool :=
  bool_decide (Relation.kind r = Blocks) && negb (bool_decide (Relation.from r ∈ visited)).
Definition pending (t : RelationTable) (visited : gset TaskId) : nat :=
  length (List.filter (is_pending visited) t).

Lemma pending_le t visited : pending t visited <= length t.
Proof. unfold pending. induction t as [|r t IH]; cbn; [lia|]. case_match; cbn; lia. Qed.

Lemma targets_length t a :
  length (list_blocks_targets t a) =
  length (List.filter (fun r => bool_decide (Relation.from r = a)
                                && bool_decide (Relation.kind r = Blocks)) t).
Proof. apply length_sort_by. Qed.

Lemma length_filter_cons {A} (f : A -> bool) x l :
  length (List.filter f (x :: l)) = (if f x then 1 else 0) + length (List.filter f l).
Proof. cbn. by destruct (f x). Qed.

Lemma pending_expand t visited a :
  a ∉ visited ->
  length (list_blocks_targets t a) + pending t ({[a]} ∪ visited) = pending t visited.
Proof.
  intros Ha. rewrite targets_length. unfold pending.
  induction t as [|r t IH]; [done|]. rewrite !length_filter_cons, <- IH. clear IH.
  assert (Hp : forall v, is_pending v r = bool_decide (Relation.kind r = Blocks)
                         && negb (bool_decide (Relation.from r ∈ v))) by done.
  rewrite !Hp. clear Hp.
  destruct (bool_decide (Relation.kind r = Blocks)); rewrite ?andb_false_r; cbn; [|lia].
  rewrite andb_true_r. destruct (decide (Relation.from r = a)) as [Hra|Hne].
  - rewrite Hra. rewrite bool_decide_eq_true_2 by done.
    rewrite (bool_decide_eq_true_2 (a ∈ {[a]} ∪ visited)) by set_solver.
    rewrite (bool_decide_eq_false_2 (a ∈ visited)) by done. cbn. lia.
  - rewrite bool_decide_eq_false_2 by done.
    rewrite (bool_decide_ext (Relation.from r ∈ {[a]} ∪ visited) (Relation.from r ∈ visited))
      by set_solver.
    destruct (bool_decide (Relation.from r ∈ visited)); cbn; lia.
Qed.

Lemma search_within_budget t from budget visited stack :
  length stack + pending t visited <= budget ->
  search t from budget visited stack <> Err (Validation "relation_graph_too_deep").
Proof.
  revert visited stack. induction budget as [|budget IH]; intros visited stack Hb;
    destruct stack as [|c stack]; cbn in *; try done; [lia|].
  repeat case_bool_decide; [done|apply IH; lia|apply IH].
  rewrite length_app, length_rev, length_map.
  pose proof (pending_expand t visited c ltac:(done)). lia.
Qed.

(** ** Blockers *)
Lemma elem_of_blockers t id a :
  a ∈ map Relation.from (list_blockers t id) <-> blocks t a id.
Proof.
  unfold blocks, list_blockers. rewrite list_elem_of_fmap. split.
  - intros (r & -> & (Hr & Hw)%elem_of_select). bsplit. eauto 10.
  - intros (r & Hr & Hf & Ht & Hk). exists r. split; [done|]. apply elem_of_select.
    split; [done|]. by rewrite !bool_decide_eq_true_2.
Qed.

Lemma elem_of_active t tasks id b :
  b ∈ list_active_blockers t tasks id <->
  blocks t b id /\ exists x, TaskRepo.get tasks b = Some x /\ Task.status x <> Done.
Proof.
  unfold list_active_blockers. rewrite list_elem_of_omap, <- elem_of_blockers, list_elem_of_fmap.
  split.
  - intros (r & Hr & Hm). destruct (TaskRepo.get tasks (Relation.from r)) as [x|] eqn:G; [|done].
    case_bool_decide; [done|]. injection Hm as <-. eauto 10.
  - intros ((r & -> & Hr) & x & Hx & Hs). exists r. split; [done|].
    by rewrite Hx, bool_decide_eq_false_2.
Qed.

Lemma is_done_spec tasks id :
  is_done tasks id = true <->
  exists x, TaskRepo.get tasks id = Some x /\ Task.status x = Done.
Proof.
  unfold is_done. destruct (TaskRepo.get tasks id) as [x|].
  - rewrite bool_decide_eq_true. split; [eauto|by intros (? & [= <-] & ?)].
  - split; [done|by intros (? & ? & _)].
Qed.

Lemma elem_of_downstream t tasks a d :
  d ∈ list_downstream_to_unblock t tasks a <->
  (exists x, TaskRepo.get tasks a = Some x /\ Task.status x <> Done) /\
  blocks t a d /\ (forall b, blocks t b d -> b = a \/ is_done tasks b = true).
Proof.
  unfold list_downstream_to_unblock. destruct (TaskRepo.get tasks a) as [x|] eqn:G;
    [|split; [set_solver|by intros ((? & ? & _) & _)]].
  case_bool_decide as Hd; [split; [set_solver|by intros ((? & [= <-] & ?) & _)]|].
  rewrite list_elem_of_omap, <- elem_of_targets, list_elem_of_fmap.
  assert (Hall : forall target,
    forallb (fun b => bool_decide (Relation.from b = a) || is_done tasks (Relation.from b))
      (list_blockers t target) = true <->
    forall b, blocks t b target -> b = a \/ is_done tasks b = true).
  { intros target. rewrite forallb_forall. split.
    - intros H b (r & -> & Hr)%elem_of_blockers%list_elem_of_fmap.
      specialize (H r (proj1 (list_elem_of_In _ _) Hr)). apply orb_true_iff in H as [H|H]; [|by right].
      left. by apply bool_decide_eq_true in H.
    - intros H r Hr%list_elem_of_In. destruct (H (Relation.from r)) as [<-|H'].
      + apply elem_of_blockers, list_elem_of_fmap. eauto.
      + by rewrite bool_decide_eq_true_2.
      + by rewrite H', orb_true_r. }
  split.
  - intros (r & Hr & Hm). destruct (forallb _ _) eqn:F; [|done]. injection Hm as <-.
    split; [eauto|]. split; [eauto|]. by apply Hall.
  - intros (_ & (r & -> & Hr) & H). exists r. split; [done|].
    apply Hall in H. by rewrite H.
Qed.

(** *** The operations keep the graph *)
Lemma acyclic_sub t t' : (forall a b, blocks t' a b -> blocks t a b) -> acyclic t -> acyclic t'.
Proof. intros Hsub Hac a Ha. apply (Hac a). revert Ha. by apply tc_mono. Qed.

Lemma delete_graph t id : graph_ok t -> graph_ok (delete t id).2.
Proof.
  intros [Hw Hac]. split; [by apply delete_wf|]. revert Hac. apply acyclic_sub.
  intros a b (r & Hr & H). apply list_elem_of_In, filter_In in Hr as [Hr _].
  exists r. split; [by apply list_elem_of_In|done].
Qed.

Lemma update_kind_graph t id k b t' :
  k <> Blocks -> update_kind t id k = Ok (b, t') -> graph_ok t -> graph_ok t'.
Proof.
  intros Hk H [Hw Hac]. split; [by eapply update_kind_wf|]. revert Hac. apply acyclic_sub.
  revert H. unfold update_kind. destruct (get t id) as [r|]; [|by intros [= <- <-]].
  destruct (existsb _ t); [done|]. intros [= <- <-] x y (q & Hq & Hf & Ht & Hkq).
  apply list_elem_of_fmap in Hq as (z & -> & Hz). case_bool_decide; [by cbn in Hkq|].
  by exists z.
Qed.

(** An insert checked for cycles closes none. *)
Lemma checked_insert_acyclic t r t' :
  acyclic t -> detect_cycle t (Relation.from r) (Relation.to r) (Relation.kind r) = Ok tt ->
  insert t r = Ok t' -> acyclic t'.
Proof.
  intros Hac Hs (-> & _)%insert_ok. apply acyclic_app; [done|]. intros Hk Hp. revert Hs.
  unfold detect_cycle. rewrite bool_decide_eq_true_2 by done. cbn [negb].
  case_bool_decide; [done|]. intros Hs.
  refine (search_ok t _ MAX_DEPTH ∅ [Relation.to r] _ (not_elem_of_empty _) Hs _ _ _ Hp eq_refl).
  + intros x y Hx. by apply not_elem_of_empty in Hx.
  + right. apply list_elem_of_here.
Qed.
Lemma checked_insert_graph t r t' :
  graph_ok t -> detect_cycle t (Relation.from r) (Relation.to r) (Relation.kind r) = Ok tt ->
  insert t r = Ok t' -> graph_ok t'.
Proof. intros [Hw Hac] Hs Hi. split; [by eapply insert_wf|by eapply checked_insert_acyclic]. Qed.
End RelationFacts.

Section RelationProperties.
  Import RelationRepo RelationEnforcement RelationSpec RelationFacts.

(** C30: the cycle check before a [Blocks] edge is linked is sound and exact.
      [Ok] means no path of blocks edges leads from the new edge's target back
      to its source, so inserting the edge keeps the relation graph acyclic;
      [cycle_detected] means such a path exists; and with fewer than
      [MAX_DEPTH] relations stored the search always reaches one of these two
      verdicts. *)
Theorem detect_cycle_exact t r t' :
  acyclic t ->
  (detect_cycle t (Relation.from r) (Relation.to r) (Relation.kind r) = Ok tt ->
   insert t r = Ok t' -> acyclic t') /\
  (detect_cycle t (Relation.from r) (Relation.to r) (Relation.kind r)
     = Err (Validation "cycle_detected") ->
   rtc (blocks t) (Relation.to r) (Relation.from r)) /\
  (length t < MAX_DEPTH ->
   detect_cycle t (Relation.from r) (Relation.to r) (Relation.kind r) = Ok tt \/
   detect_cycle t (Relation.from r) (Relation.to r) (Relation.kind r)
     = Err (Validation "cycle_detected")).
Proof.
  intros Hac. split; [by apply checked_insert_acyclic|]. unfold detect_cycle.
  destruct (bool_decide (Relation.kind r = Blocks)); cbn [negb]; [|split; [done|by left]].
  case_bool_decide as Hft; [split; [by rewrite Hft|by right]|]. split.
  - intros (a & ->%list_elem_of_singleton & Ha)%search_cycle. done.
  - intros Hlt. pose proof (pending_le t ∅).
    destruct (search_result t (Relation.from r) MAX_DEPTH ∅ [Relation.to r]) as [?|[?|Hd]]; auto.
    exfalso. revert Hd. apply search_within_budget. cbn. lia.
Qed.

(** Linking, unlinking and changing the kind of a relation keep the
    table's constraints: ids are unique and there is one row per (from, to,
    kind); a duplicate link is reported as a conflict and leaves the table
    alone. *)
Theorem relation_table_constraints t :
  wf t ->
  (forall r t', insert t r = Ok t' -> wf t') /\
  (forall id k b t', update_kind t id k = Ok (b, t') -> wf t') /\
  (forall id, wf (delete t id).2) /\
  (forall r, edge_key r ∈ map edge_key t ->
     insert t r = Err (Conflict "relation_exists: ({}, {}, {})")).
Proof.
  intros Hw. split; [eauto using insert_wf|]. split; [eauto using update_kind_wf|].
  split; [auto using delete_wf|]. intros r Hin. destruct (insert t r) as [t'|e] eqn:E.
  - by apply insert_ok in E as (_ & _ & ?).
  - unfold insert in E. by destruct (existsb _ t).
Qed.

(** What a finished blocker sets free.  A task reported as unblocked when
    [a] finishes has no active blocker left once [a] is done; and, as long as
    the rows of its blockers exist, every task [a] blocks whose blockers are
    all done then is reported. *)
Theorem downstream_unblocked_exact t tasks tasks' a :
  (exists x, TaskRepo.get tasks a = Some x /\ Task.status x <> Done) ->
  is_done tasks' a = true ->
  (forall b, b <> a -> TaskRepo.get tasks' b = TaskRepo.get tasks b) ->
  (forall d, d ∈ list_downstream_to_unblock t tasks a -> list_active_blockers t tasks' d = []) /\
  (forall d, blocks t a d ->
     (forall b, blocks t b d -> exists x, TaskRepo.get tasks b = Some x) ->
     list_active_blockers t tasks' d = [] -> d ∈ list_downstream_to_unblock t tasks a).
Proof.
  intros Ha Hda Hsame. split.
  - intros d (_ & _ & Hall)%elem_of_downstream. apply elem_of_nil_inv. intros b Hb.
    apply elem_of_active in Hb as (Hbl & x & Hx & Hs).
    destruct (Hall _ Hbl) as [->|(y & Hy & Hdone)%is_done_spec].
    + apply is_done_spec in Hda as (z & Hz & Hd). congruence.
    + destruct (decide (b = a)) as [->|Hne].
      * apply is_done_spec in Hda as (z & Hz & Hd). congruence.
      * rewrite Hsame in Hx by done. congruence.
  - intros d Hbl Hrows Hnil. apply elem_of_downstream. split; [done|]. split; [done|].
    intros b Hb. destruct (decide (b = a)) as [|Hne]; [by left|]. right.
    destruct (Hrows _ Hb) as [x Hx]. apply is_done_spec. exists x. split; [done|].
    destruct (decide (Task.status x = Done)) as [|Hs]; [done|]. exfalso.
    apply (not_elem_of_nil b). rewrite <- Hnil. apply elem_of_active. split; [done|].
    exists x. by rewrite Hsame.
Qed.
End RelationProperties.

(** ** Witnesses *)
Definition demo_relation (i a b : N) (k : RelationKind) : Relation :=
  Relation.mk (mkId i) (mkId a) (mkId b) k 0 ActorOps.user.

Lemma blocks_nil a b : ~ RelationSpec.blocks [] a b.
Proof. intros (r & Hr & _). by apply not_elem_of_nil in Hr. Qed.

Lemma acyclic_nil : RelationSpec.acyclic [].
Proof. intros a H. inversion H; subst; by eapply blocks_nil. Qed.

Lemma detect_cycle_exact_witness :
  RelationSpec.acyclic [demo_relation 1 10 20 Blocks].
Proof.
  refine (proj1 (detect_cycle_exact [] (demo_relation 1 10 20 Blocks) _ acyclic_nil) _ _);
    vm_compute; reflexivity.
Defined.

Lemma wf_nil : RelationSpec.wf [].
Proof. split; constructor. Qed.

Lemma relation_table_constraints_witness :
  RelationSpec.wf [demo_relation 1 10 20 Blocks].
Proof.
  refine (proj1 (relation_table_constraints [] wf_nil) (demo_relation 1 10 20 Blocks) _ _).
  vm_compute; reflexivity.
Defined.

Definition open_task (i : N) : TaskRow :=
  TaskRow.mk (from_new (mkId i) 0 (NewTask.new (lit "t"))) None None.
Definition done_task (i : N) : TaskRow :=
  TaskRow.mk (from_new (mkId i) 0 (NewTask.new (lit "t")) <| Task.status := Done |>) None None.

Lemma downstream_unblocked_exact_witness :
  RelationEnforcement.list_active_blockers [demo_relation 1 10 20 Blocks]
    (TaskRepo.mk {[ mkId 10 := done_task 10 ]} ∅) (mkId 20) = [].
Proof.
  refine (proj1 (downstream_unblocked_exact [demo_relation 1 10 20 Blocks]
    (TaskRepo.mk {[ mkId 10 := open_task 10 ]} ∅)
    (TaskRepo.mk {[ mkId 10 := done_task 10 ]} ∅) (mkId 10) _ _ _) (mkId 20) _).
  - eexists. split; [vm_compute; reflexivity|done].
  - vm_compute; reflexivity.
  - intros b Hb. unfold TaskRepo.get. cbn [TaskRepo.rows].
    by rewrite !lookup_singleton_ne.
  - vm_compute. left.
Defined.
