(* ===== verification/PlanStore.v ===== *)
(** * storage/plan_repo.rs: plans, plan membership and source nodes

    Tables [plans], [plan_tasks] (primary key [(plan_id, task_id)]) and
    [sources], their queries and the projection [apply_event].  Attaching a task
    to a plan also fills the task's missing project, so the projection works on
    the tasks table too. *)

From S2P Require Import Prelude Shared TaskModel PlanModel RegistryModel Events TaskStore.

Module PlanRepo.
Record PlanTables : Type := mk {
  plans : gmap PlanId Plan;
  plan_tasks : gmap (PlanId * TaskId) PlanTask;
  sources : gmap Str SourceNode }.
#[global] Instance PlanTables_rebuild : Rebuild PlanTables := fun t =>
  mk (plans t) (plan_tasks t) (sources t).

Definition empty : PlanTables := mk ∅ ∅ ∅.

(** ** Queries *)
Definition get (t : PlanTables) (id : PlanId) : option Plan := plans t !! id.

Definition all_plans (t : PlanTables) : list Plan := (map_to_list (plans t)).*2.
Definition all_members (t : PlanTables) : list PlanTask := (map_to_list (plan_tasks t)).*2.

Definition by_created (a b : Plan) : bool := (Plan.created_at a <=? Plan.created_at b)%Z.

Definition list_children (t : PlanTables) (parent : PlanId) : list Plan :=
  sort_by by_created
    (List.filter (fun p => bool_decide (Plan.parent_plan_id p = Some parent)) (all_plans t)).

Definition by_position (a b : PlanTask) : bool :=
  (PlanTask.position a <=? PlanTask.position b)%Z.

Definition list_tasks_ordered (t : PlanTables) (plan_id : PlanId) : list PlanTask :=
  sort_by by_position
    (List.filter (fun m => bool_decide (PlanTask.plan_id m = plan_id)) (all_members t)).

(** The join of [plan_tasks] and [plans], ordered by position, then by the
    plan's creation. *)
Definition list_plans_for_task (t : PlanTables) (task_id : TaskId) : list Plan :=
  map fst
    (sort_by (fun a b => (a.2 <? b.2)%Z || ((a.2 =? b.2)%Z && by_created a.1 b.1))
      (omap (fun m =>
         if bool_decide (PlanTask.task_id m = task_id)
         then match get t (PlanTask.plan_id m) with
              | Some p => Some (p, PlanTask.position m)
              | None => None
              end
         else None) (all_members t))).

Definition earliest_by_source_ref (t : PlanTables) (project_id : ProjectId) (ref : Str)
  : option PlanId :=
  option_map Plan.id (head
    (sort_by (fun a b => (Plan.created_at a <? Plan.created_at b)%Z
                         || ((Plan.created_at a =? Plan.created_at b)%Z
                             && (as_uuid (Plan.id a) <=? as_uuid (Plan.id b))%N))
      (List.filter (fun p => bool_decide (Plan.project_id p = project_id)
                             && bool_decide (Plan.source_ref p = Some ref)
                             && bool_decide (Plan.archived_at p = None)) (all_plans t)))).

Definition get_source (t : PlanTables) (ref : Str) : option SourceNode := sources t !! ref.

(** ** Mutations *)
Definition upsert_plan (t : PlanTables) (p : Plan) : PlanTables :=
  t <| plans := <[Plan.id p := p]> (plans t) |>.

Definition update_plan (t : PlanTables) (id : PlanId) (f : Plan -> Plan) : PlanTables :=
  t <| plans := alter f id (plans t) |>.

(** [updated_at = CASE WHEN updated_at < ? THEN ? ELSE updated_at END]. *)
Definition touch (at_ : Z) (p : Plan) : Plan :=
  p <| Plan.updated_at := Z.max (Plan.updated_at p) at_ |>.

Definition archive (t : PlanTables) (id : PlanId) (at_ : Z) : PlanTables :=
  update_plan t id (fun p =>
    p <| Plan.status := Abandoned |> <| Plan.archived_at := Some at_ |>
      <| Plan.updated_at := at_ |>).

Definition project_ids_of (t : PlanTables) (task_id : TaskId) : list ProjectId :=
  remove_dups (map Plan.project_id (list_plans_for_task t task_id)).

Definition add_task (t : PlanTables) (tasks : TaskTable) (plan_id : PlanId)
    (task_id : TaskId) (position : Z) (depends_on : list TaskId)
  : PlanTables * TaskTable :=
  let t := t <| plan_tasks :=
    <[(plan_id, task_id) := PlanTask.mk plan_id task_id position depends_on]> (plan_tasks t) |> in
  let unambiguous := (length (project_ids_of t task_id) =? 1)%nat in
  (t,
   if unambiguous then
     TaskRepo.update_row tasks task_id (fun r =>
       match Task.project_id (TaskRow.task r) with
       | Some _ => r
       | None => r <| TaskRow.task := TaskRow.task r
                       <| Task.project_id := Plan.project_id <$> get t plan_id |> |>
       end)
   else tasks).

Definition remove_task (t : PlanTables) (plan_id : PlanId) (task_id : TaskId) : PlanTables :=
  t <| plan_tasks := delete (plan_id, task_id) (plan_tasks t) |>.

Definition set_position (t : PlanTables) (plan_id : PlanId) (pos : nat * TaskId) : PlanTables :=
  t <| plan_tasks :=
    alter (fun m => m <| PlanTask.position := Z.of_nat pos.1 |>) (plan_id, pos.2) (plan_tasks t) |>.

Definition reorder (t : PlanTables) (plan_id : PlanId) (order : list TaskId) : PlanTables :=
  foldl (fun t pos => set_position t plan_id pos) t (zip (seq 0 (length order)) order).

Definition delete_plan (t : PlanTables) (id : PlanId) (at_ : Z) : PlanTables :=
  let t := match get t id ≫= Plan.parent_plan_id with
           | Some parent => update_plan t parent (touch at_)
           | None => t
           end in
  t <| plan_tasks := filter (fun '(k, _) => k.1 <> id) (plan_tasks t) |>
    <| plans := delete id (plans t) |>.

Definition upsert_source (t : PlanTables) (n : SourceNode) : PlanTables :=
  let row := match get_source t (SourceNode.source_ref n) with
             | None => n
             | Some old =>
                 old <| SourceNode.label := or_else (SourceNode.label old) (SourceNode.label n) |>
                     <| SourceNode.occurred_at :=
                          or_else (SourceNode.occurred_at old) (SourceNode.occurred_at n) |>
                     <| SourceNode.note := or_else (SourceNode.note old) (SourceNode.note n) |>
                     <| SourceNode.upstream_ref :=
                          or_else (SourceNode.upstream_ref old) (SourceNode.upstream_ref n) |>
             end in
  t <| sources := <[SourceNode.source_ref n := row]> (sources t) |>.

Definition set_source (t : PlanTables) (id : PlanId) (ref : Str) (at_ : Z) : PlanTables :=
  update_plan t id (fun p =>
    match Plan.source_ref p with
    | Some _ => p
    | None => p <| Plan.source_ref := Some ref |> <| Plan.updated_at := at_ |>
    end).

(** [now] is the clock [PlanPatch::apply] reads. *)
Definition apply_event (now : Z) (t : PlanTables) (tasks : TaskTable) (e : EventEnvelope)
  : PlanTables * TaskTable :=
  let occurred_at := Envelope.occurred_at e in
  match Envelope.payload e with
  | Event.PlanCreated plan => (upsert_plan t plan, tasks)
  | Event.PlanUpdated plan_id patch =>
      match get t plan_id with
      | None => (t, tasks)
      | Some plan =>
          let former_parent := Plan.parent_plan_id plan in
          let plan := PlanPatch.apply now patch plan in
          let t := if bool_decide (former_parent = Plan.parent_plan_id plan) then t
                   else match former_parent with
                        | Some f => update_plan t f (touch occurred_at)
                        | None => t
                        end in
          (upsert_plan t plan, tasks)
      end
  | Event.PlanStatusChanged plan_id _ to =>
      (update_plan t plan_id (fun p =>
         p <| Plan.status := to |> <| Plan.updated_at := occurred_at |>), tasks)
  | Event.PlanGoalChanged plan_id _ to =>
      (update_plan t plan_id (fun p =>
         p <| Plan.goal := to |> <| Plan.updated_at := occurred_at |>), tasks)
  | Event.PlanTaskAdded plan_id task_id position depends_on =>
      add_task t tasks plan_id task_id position depends_on
  | Event.PlanTaskRemoved plan_id task_id => (remove_task t plan_id task_id, tasks)
  | Event.PlanReordered plan_id order => (reorder t plan_id order, tasks)
  | Event.PlanArchived plan_id at_ => (archive t plan_id at_, tasks)
  | Event.PlanDeleted plan_id at_ => (delete_plan t plan_id at_, tasks)
  | Event.SourceUpserted source => (upsert_source t source, tasks)
  | Event.PlanSourceSet plan_id ref at_ => (set_source t plan_id ref at_, tasks)
  | _ => (t, tasks)
  end.
End PlanRepo.
Abbreviation PlanTables := PlanRepo.PlanTables.

(** ** Lemmas *)
Module PlanStoreFacts.
  Import PlanRepo.

(** Members are stored under their own key. *)
Definition members_keyed (t : PlanTables) : Prop :=
  map_Forall (fun k m => k = (PlanTask.plan_id m, PlanTask.task_id m)) (plan_tasks t).

Lemma elem_of_all_members t m :
  m ∈ all_members t <-> exists k, plan_tasks t !! k = Some m.
Proof.
  unfold all_members. rewrite list_elem_of_fmap. split.
  - intros ([k m'] & -> & Hk%elem_of_map_to_list). eauto.
  - intros [k Hk]. exists (k, m). by rewrite elem_of_map_to_list.
Qed.

Lemma elem_of_tasks_ordered t p m :
  members_keyed t ->
  m ∈ list_tasks_ordered t p <->
  PlanTask.plan_id m = p /\ plan_tasks t !! (p, PlanTask.task_id m) = Some m.
Proof.
  intros Hk. unfold list_tasks_ordered.
  rewrite elem_of_sort_by, list_elem_of_In, filter_In, <- list_elem_of_In, elem_of_all_members.
  rewrite bool_decide_eq_true. split.
  - intros [[k Hm] <-]. split; [done|]. by rewrite (Hk _ _ Hm) in Hm.
  - intros [<- Hm]. eauto.
Qed.

Lemma tasks_ordered_sorted t p :
  StronglySorted (fun a b => (PlanTask.position a <= PlanTask.position b)%Z)
    (list_tasks_ordered t p).
Proof.
  assert (H : StronglySorted (fun a b => by_position a b = true) (list_tasks_ordered t p)).
  { apply sort_by_sorted; unfold by_position.
    - intros x y. rewrite !Z.leb_le. lia.
    - intros x y z. rewrite !Z.leb_le. lia. }
  unfold by_position in H. induction H as [|a l Hl IH Ha]; constructor; [done|].
  eapply Forall_impl; [exact Ha|]. intros. by apply Z.leb_le.
Qed.

Lemma NoDup_tasks_ordered t p :
  members_keyed t -> NoDup (map PlanTask.task_id (list_tasks_ordered t p)).
Proof.
  intros Hk.
  assert (Hsub : NoDup (list_tasks_ordered t p)).
  { unfold list_tasks_ordered. rewrite sort_by_perm. apply NoDup_list_filter.
    unfold all_members. assert (Hm : forall k m, (k, m) ∈ map_to_list (plan_tasks t) ->
      k = (PlanTask.plan_id m, PlanTask.task_id m)).
    { intros k m Hin%elem_of_map_to_list. by apply Hk. }
    pose proof (NoDup_map_to_list (plan_tasks t)) as Hnd.
    induction (map_to_list (plan_tasks t)) as [|[k m] l IH]; [constructor|].
    apply NoDup_cons in Hnd as [Hnin Hnd]. cbn. apply NoDup_cons. split.
    - intros ([k' m'] & -> & Hin)%list_elem_of_fmap. apply Hnin. cbn in *.
      rewrite (Hm k m') by apply list_elem_of_here.
      by rewrite <- (Hm k' m') by (by apply list_elem_of_further).
    - apply IH; [|done]. intros. apply Hm. by apply list_elem_of_further. }
  assert (Hkey : forall m, m ∈ list_tasks_ordered t p ->
    plan_tasks t !! (p, PlanTask.task_id m) = Some m).
  { intros m Hin. by apply (elem_of_tasks_ordered t p m Hk). }
  induction (list_tasks_ordered t p) as [|m l IH]; [constructor|].
  apply NoDup_cons in Hsub as [Hnin Hnd]. cbn. apply NoDup_cons. split.
  - intros (m' & Heq & Hin)%list_elem_of_fmap. apply Hnin.
    pose proof (Hkey m ltac:(apply list_elem_of_here)) as H1.
    pose proof (Hkey m' ltac:(by apply list_elem_of_further)) as H2.
    rewrite Heq in H1. congruence.
  - apply IH; [done|]. intros. apply Hkey. by apply list_elem_of_further.
Qed.

(** ** Every projected event keeps members under their key *)
Lemma set_position_keyed t p pos : members_keyed t -> members_keyed (set_position t p pos).
Proof.
  intros Hk k m. cbn. destruct (decide (k = (p, pos.2))) as [->|Hne].
  - rewrite lookup_alter_eq. intros (m' & Hm' & ->)%fmap_Some. exact (Hk _ _ Hm').
  - rewrite lookup_alter_ne by done. apply Hk.
Qed.

Lemma reorder_keyed t p order : members_keyed t -> members_keyed (reorder t p order).
Proof.
  unfold reorder. generalize (zip (seq 0 (length order)) order) as l. intros l. revert t.
  induction l as [|pos l IH]; cbn; intros t Hk; [done|]. by apply IH, set_position_keyed.
Qed.

Lemma apply_event_keyed now t tasks e :
  members_keyed t -> members_keyed (apply_event now t tasks e).1.
Proof.
  intros Hk. unfold apply_event. destruct (Envelope.payload e); try exact Hk.
  - (* PlanUpdated *)
    destruct (get t plan_id) as [pl|]; [|done]. case_bool_decide; [done|].
    by destruct (Plan.parent_plan_id pl).
  - (* PlanTaskAdded *)
    intros k m. cbn. intros [[<- <-]|[_ Hm]]%lookup_insert_Some; [done|by apply Hk].
  - (* PlanTaskRemoved *) intros k m. cbn. intros [_ Hm]%lookup_delete_Some. by apply Hk.
  - by apply reorder_keyed.
  - (* PlanDeleted *)
    intros k m. cbn. unfold delete_plan.
    destruct (get t plan_id ≫= Plan.parent_plan_id); cbn;
      intros [Hm _]%map_lookup_filter_Some; by apply Hk.
Qed.
End PlanStoreFacts.
