(* ===== verification/SourceChain.v ===== *)
(** * core/plan_source.rs: linking source nodes and checking them against a policy

    The parts of plan intake (ADR-0009) that only read the tables: the chains of
    source nodes and their links, the policy of a project, and the choice
    between continuing a plan and creating one. *)

From S2P Require Import Prelude Shared TaskModel PlanModel RegistryModel Events TaskStore PlanStore SourceRef Gate.

Module SourceChain.
  Import LifecycleGate SourceRef.

Definition chain_invalid (msg : string) : CoreError := Unprocessable "source_chain_invalid" msg JNull.
Definition invalid (msg : string) : CoreError := Unprocessable "invalid_intake_source" msg JNull.

Definition warning (code : string) (msg : string) (details : Json) : MutationWarning :=
  mkWarning (lit code) (lit msg) details.

(** ** Links *)

(** [nodes[i - 1].upstream_ref = nodes[i].source_ref]. *)
Fixpoint link_up (nodes : list SourceNode) : list SourceNode :=
  match nodes with
  | a :: ((b :: _) as rest) =>
      (a <| SourceNode.upstream_ref := Some (SourceNode.source_ref b) |>) :: link_up rest
  | _ => nodes
  end.

Abbreviation Overlay := (gmap Str SourceNode).

Definition lookup_node (t : PlanTables) (merged : Overlay) (ref : Str) : option SourceNode :=
  match merged !! ref with
  | Some n => Some n
  | None => PlanRepo.get_source t ref
  end.

Definition kept_warning (node : SourceNode) (kept : Str) : MutationWarning :=
  warning "source_upstream_kept"
    "source already has an upstream; kept it and dropped the sources given above it"
    (JObj [("ref"%string, JStr (SourceNode.source_ref node));
           ("kept_upstream"%string, JStr kept);
           ("dropped_upstream"%string,
            match SourceNode.upstream_ref node with Some u => JStr u | None => JNull end)]).

(** The node to store for [node], and the upstream it keeps when the given one
    differs. *)
Definition merge_node (keep_existing : bool) (stored : option SourceNode) (node : SourceNode)
  : Result CoreError (SourceNode * option Str) :=
  match stored with
  | None => Ok (node, None)
  | Some stored =>
      match SourceNode.fill_from stored node with
      | Ok next => Ok (next, None)
      | Err have =>
          if keep_existing then
            match SourceNode.fill_from stored (node <| SourceNode.upstream_ref := Some have |>) with
            | Ok next => Ok (next, Some have)
            | Err _ => Err (Storage "same upstream never conflicts")
            end
          else Err (coded_conflict "source_upstream_conflict"
                      "source already has an upstream; a set link is never rewritten")
      end
  end.

(** The loop over the nodes, up to the first that keeps its upstream. *)
Fixpoint merge_nodes (t : PlanTables) (keep_existing : bool) (merged : Overlay)
    (nodes : list SourceNode) : Result CoreError (Overlay * list Event * list MutationWarning) :=
  match nodes with
  | [] => Ok (merged, [], [])
  | node :: nodes =>
      let stored := lookup_node t merged (SourceNode.source_ref node) in
      rbind (merge_node keep_existing stored node) (fun '(next, kept) =>
        let same := bool_decide (stored = Some next) in
        let merged := if same then merged else <[SourceNode.source_ref next := next]> merged in
        let events := if same then [] else [Event.SourceUpserted next] in
        match kept with
        | Some have => Ok (merged, events, [kept_warning node have])
        | None =>
            rbind (merge_nodes t keep_existing merged nodes) (fun '(merged, rest, ws) =>
              Ok (merged, events ++ rest, ws))
        end)
  end.

(** [PlanRepo::source_descendants]: the longest distance below [ref], followed
    for fewer than [SOURCE_CHAIN_MAX] steps. *)
Fixpoint depth_below (t : PlanTables) (fuel : nat) (ref : Str) : nat :=
  match fuel with
  | O => O
  | S fuel =>
      foldr Nat.max 0%nat
        (map (fun n => S (depth_below t fuel (SourceNode.source_ref n)))
          (List.filter (fun n => bool_decide (SourceNode.upstream_ref n = Some ref))
             (map_to_list (PlanRepo.sources t)).*2))
  end.
Definition source_descendants_depth (t : PlanTables) (ref : Str) : nat :=
  depth_below t (SOURCE_CHAIN_MAX - 1) ref.

(** The walk above the first node.  Every turn adds a node to [seen], so
    [SOURCE_CHAIN_MAX + 1] turns are enough ([walk_enough]). *)
Fixpoint walk_up (t : PlanTables) (merged : Overlay) (below fuel : nat) (seen : gset Str)
    (cursor : option Str) : Result CoreError unit :=
  match cursor with
  | None => Ok tt
  | Some current =>
      match fuel with
      | O => Err (Storage "out of fuel")
      | S fuel =>
          if bool_decide (current ∈ seen)
          then Err (chain_invalid "linking would close a cycle at source `{current}`")
          else
            let seen := {[current]} ∪ seen in
            if (SOURCE_CHAIN_MAX <? below + size seen)%nat
            then Err (chain_invalid "a source chain holds at most {SOURCE_CHAIN_MAX} nodes")
            else walk_up t merged below fuel seen
                   (lookup_node t merged current ≫= SourceNode.upstream_ref)
      end
  end.

Definition link_sources (t : PlanTables) (nodes : list SourceNode) (keep_existing : bool)
  : Result CoreError (list Event * list MutationWarning) :=
  let nodes := link_up nodes in
  rbind (merge_nodes t keep_existing ∅ nodes) (fun '(merged, events, warnings) =>
    match nodes with
    | [] => Ok (events, warnings)
    | first :: _ =>
        let below := source_descendants_depth t (SourceNode.source_ref first) in
        rbind (walk_up t merged below (S SOURCE_CHAIN_MAX) ∅ (Some (SourceNode.source_ref first)))
          (fun _ => Ok (events, warnings))
    end).
End SourceChain.

(** ** Specification *)
Module ChainSpec.
  Import SourceRef SourceChain.

Definition upstream (t : PlanTables) (ref : Str) : option Str :=
  PlanRepo.get_source t ref ≫= SourceNode.upstream_ref.

(** Going up from [ref] ends. *)
Inductive ends (up : Str -> option Str) : Str -> Prop :=
| ends_top r : up r = None -> ends up r
| ends_up r u : up r = Some u -> ends up u -> ends up r.

Definition forest (t : PlanTables) : Prop := forall r, ends (upstream t) r.
Definition keyed_sources (t : PlanTables) : Prop :=
  forall r n, PlanRepo.get_source t r = Some n -> SourceNode.source_ref n = r.

(** The nodes above [r], nearest first. *)
Inductive chain (up : Str -> option Str) : Str -> list Str -> Prop :=
| chain_top r : up r = None -> chain up r [r]
| chain_up r u l : up r = Some u -> chain up u l -> chain up r (r :: l).

(** What the projection makes of the events. *)
Definition stored_after (t : PlanTables) (es : list Event) : PlanTables :=
  foldl (fun t e => match e with Event.SourceUpserted n => PlanRepo.upsert_source t n | _ => t end) t es.

(** A set field is never rewritten. *)
Definition kept_field {A B} (f : A -> option B) (n n' : A) : Prop := forall v, f n = Some v -> f n' = Some v.
Record filled (n n' : SourceNode) : Prop := mkFilled {
  filled_ref : SourceNode.source_ref n' = SourceNode.source_ref n;
  filled_label : kept_field SourceNode.label n n';
  filled_note : kept_field SourceNode.note n n';
  filled_date : kept_field SourceNode.occurred_at n n';
  filled_up : kept_field SourceNode.upstream_ref n n' }.
End ChainSpec.

Module ChainFacts.
  Import SourceRef SourceChain ChainSpec.

Lemma filled_refl n : filled n n.
Proof. split; try done; by intros v. Qed.
Lemma filled_trans a b c : filled a b -> filled b c -> filled a c.
Proof.
  intros [r1 l1 n1 d1 u1] [r2 l2 n2 d2 u2]. split; [congruence| | | |]; intros v H; auto.
Qed.

(** [n'] is [n] but for the fields a merge fills. *)
Definition refills (n n' : SourceNode) : Prop :=
  n' = n <| SourceNode.label := SourceNode.label n' |>
         <| SourceNode.occurred_at := SourceNode.occurred_at n' |>
         <| SourceNode.note := SourceNode.note n' |>
         <| SourceNode.upstream_ref := SourceNode.upstream_ref n' |>.

Lemma fill_from_ok a b n :
  SourceNode.fill_from a b = Ok n ->
  filled a n /\ kept_field SourceNode.upstream_ref b n /\ refills a n.
Proof.
  destruct a as [r l d n0 u c cb], b as [r' l' d' n' u' c' cb']. unfold SourceNode.fill_from. cbn.
  intros H. assert (Hn : n = SourceNode.mk r (or_else l l') (or_else d d') (or_else n0 n') (or_else u u') c cb
                        /\ (forall x y, u = Some x -> u' = Some y -> x = y)).
  { destruct u as [x|], u' as [y|]; cbn in H; try case_bool_decide; inversion H; subst; (split; [done|]); congruence. }
  destruct Hn as [-> Hu]. split; [|split; [|done]].
  - split; unfold kept_field; cbn; [done| | | |]; by intros v ->.
  - intros v Hv. cbn in Hv |- *. subst u'. destruct u as [x|]; cbn; [|done]. f_equal. by apply Hu.
Qed.

Lemma merge_node_ok keep stored node next kept :
  merge_node keep stored node = Ok (next, kept) ->
  (forall s, stored = Some s -> filled s next /\ refills s next) /\
  (stored = None -> next = node) /\
  (kept = None -> kept_field SourceNode.upstream_ref node next).
Proof.
  unfold merge_node. destruct stored as [s|].
  - destruct (SourceNode.fill_from s node) as [n|have] eqn:F.
    + intros [= <- <-]. apply fill_from_ok in F as (Hf & Hu & Hr).
      split; [by intros ? [= <-]|]. by split.
    + destruct keep; [|done].
      destruct (SourceNode.fill_from s (node <| SourceNode.upstream_ref := Some have |>)) as [n|] eqn:G;
        [|by intros [=]].
      intros [= <- <-]. apply fill_from_ok in G as (Hf & _ & Hr).
      split; [by intros ? [= <-]|]. by split.
  - intros [= <- <-]. split; [done|]. split; [done|]. intros _ v. done.
Qed.

(** Upserting a filled node stores just that node. *)
Lemma upsert_filled t n next :
  PlanRepo.get_source t (SourceNode.source_ref next) = Some n ->
  refills n next -> filled n next ->
  forall r, PlanRepo.get_source (PlanRepo.upsert_source t next) r =
    if bool_decide (r = SourceNode.source_ref next) then Some next else PlanRepo.get_source t r.
Proof.
  intros Hn He Hf r. unfold PlanRepo.upsert_source. rewrite Hn. unfold PlanRepo.get_source. cbn.
  case_bool_decide as Hr; [|by rewrite lookup_insert_ne]. subst r. rewrite lookup_insert_eq. f_equal.
  assert (Hor : forall A (f : SourceNode -> option A), kept_field f n next -> or_else (f n) (f next) = f next).
  { intros A f H. destruct (f n) as [v|] eqn:E; cbn; [|done]. symmetry. by apply H. }
  destruct Hf as [_ Hl Hno Hd Hu]. rewrite !Hor by done. done.
Qed.
Lemma upsert_new t n r :
  PlanRepo.get_source t (SourceNode.source_ref n) = None ->
  PlanRepo.get_source (PlanRepo.upsert_source t n) r =
    if bool_decide (r = SourceNode.source_ref n) then Some n else PlanRepo.get_source t r.
Proof.
  intros Hn. unfold PlanRepo.upsert_source. rewrite Hn. unfold PlanRepo.get_source. cbn.
  case_bool_decide as Hr; [subst; by rewrite lookup_insert_eq|by rewrite lookup_insert_ne].
Qed.

(** *** The overlay is what gets stored *)
Section Merge.
Context (t : PlanTables) (keep : bool).

Definition mirrors (t0 : PlanTables) (merged : Overlay) : Prop :=
  forall r, PlanRepo.get_source t0 r = lookup_node t merged r.
Definition keyed_overlay (merged : Overlay) : Prop :=
  forall r n, lookup_node t merged r = Some n -> SourceNode.source_ref n = r.
Definition up_of (merged : Overlay) (r : Str) : option Str :=
  lookup_node t merged r ≫= SourceNode.upstream_ref.

(** One turn of the loop. *)
Lemma merge_step t0 merged node next kept :
  keyed_overlay merged -> mirrors t0 merged ->
  merge_node keep (lookup_node t merged (SourceNode.source_ref node)) node = Ok (next, kept) ->
  let stored := lookup_node t merged (SourceNode.source_ref node) in
  let same := bool_decide (stored = Some next) in
  let merged' := if same then merged else <[SourceNode.source_ref next := next]> merged in
  let es := if same then [] else [Event.SourceUpserted next] in
  SourceNode.source_ref next = SourceNode.source_ref node /\
  (forall r, lookup_node t merged' r =
     if bool_decide (r = SourceNode.source_ref node) then Some next else lookup_node t merged r) /\
  mirrors (stored_after t0 es) merged' /\ keyed_overlay merged' /\
  (forall r n, lookup_node t merged r = Some n ->
     exists n', lookup_node t merged' r = Some n' /\ filled n n').
Proof.
  intros Hk Hm (Hf & Hn & _)%merge_node_ok. cbn zeta.
  set (stored := lookup_node t merged (SourceNode.source_ref node)) in *.
  assert (Href : SourceNode.source_ref next = SourceNode.source_ref node).
  { destruct stored as [s|] eqn:E; [|by rewrite (Hn eq_refl)].
    destruct (Hf s eq_refl) as [[-> _ _ _ _] _]. by apply Hk. }
  set (merged' := if bool_decide _ then _ else _).
  assert (Hl : forall r, lookup_node t merged' r =
     if bool_decide (r = SourceNode.source_ref node) then Some next else lookup_node t merged r).
  { intros r. subst merged'. case_bool_decide as Hs.
    - case_bool_decide as Hr; [by subst r|done].
    - rewrite Href. unfold lookup_node. case_bool_decide as Hr; [subst r; by rewrite lookup_insert_eq|].
      by rewrite lookup_insert_ne. }
  split; [done|]. split; [done|]. split; [|split].
  - intros r. rewrite Hl. case_bool_decide as Hs; cbn.
    + rewrite Hm. case_bool_decide as Hr; [by subst r|done].
    + destruct stored as [s|] eqn:E.
      * destruct (Hf s eq_refl) as [Hfi Hre].
        rewrite (upsert_filled _ s) by (rewrite ?Href, ?Hm; done). by rewrite Href, Hm.
      * rewrite upsert_new by (by rewrite Href, Hm). by rewrite Href, Hm.
  - intros r n. rewrite Hl. case_bool_decide as Hr; [intros [= <-]; congruence|apply Hk].
  - intros r n Hr. rewrite Hl. case_bool_decide as Hd; [|exists n; split; [done|apply filled_refl]].
    subst r. exists next. split; [done|]. by apply Hf.
Qed.

Lemma stored_after_app t0 a b : stored_after t0 (a ++ b) = stored_after (stored_after t0 a) b.
Proof. apply foldl_app. Qed.

Definition linked (nodes : list SourceNode) : Prop :=
  forall i a b, nodes !! i = Some a -> nodes !! S i = Some b ->
    SourceNode.upstream_ref a = Some (SourceNode.source_ref b).

Lemma merge_nodes_ok nodes t0 merged merged' es ws :
  keyed_overlay merged -> mirrors t0 merged -> linked nodes ->
  merge_nodes t keep merged nodes = Ok (merged', es, ws) ->
  mirrors (stored_after t0 es) merged' /\ keyed_overlay merged' /\
  (forall r n, lookup_node t merged r = Some n ->
     exists n', lookup_node t merged' r = Some n' /\ filled n n') /\
  (forall r first, head nodes = Some first -> up_of merged r <> up_of merged' r ->
     rtc (fun a b => up_of merged' a = Some b) (SourceNode.source_ref first) r) /\
  (nodes = [] -> merged' = merged).
Proof.
  revert t0 merged es ws. induction nodes as [|node nodes IH]; intros t0 merged es ws Hk Hm Hln;
    cbn [merge_nodes].
  { intros [= <- <- <-]. split; [done|]. split; [done|]. split; [|done].
    intros r n Hn. exists n. split; [done|apply filled_refl]. }
  intros ([next kept] & Hmn & H)%rbind_ok.
  destruct (merge_step t0 merged node next kept Hk Hm Hmn) as (Href & Hl & Hm1 & Hk1 & Hf1).
  set (merged1 := if bool_decide _ then merged else _) in *.
  set (es1 := if bool_decide _ then [] else _) in *.
  assert (Hch : forall r, up_of merged r <> up_of merged1 r -> r = SourceNode.source_ref node).
  { intros r Hr. unfold up_of in Hr. rewrite Hl in Hr. by case_bool_decide. }
  destruct kept as [have|].
  - injection H as <- <- <-. split; [done|]. split; [done|]. split; [done|]. split; [|done].
    intros r first [= <-] Hr. by rewrite (Hch r Hr).
  - apply rbind_ok in H as ([[m2 rest] ws2] & H2 & [= <- <- <-]).
    destruct (IH _ merged1 rest ws2 Hk1 Hm1) as (Hm2 & Hk2 & Hf2 & Hr2 & Hnil); [|exact H2|].
    { intros i a b Ha Hb. by apply (Hln (S i)). }
    rewrite stored_after_app. split; [done|]. split; [done|]. split; [|split; [|done]].
    + intros r n Hn. destruct (Hf1 r n Hn) as (n1 & Hn1 & F1). destruct (Hf2 r n1 Hn1) as (n2 & Hn2 & F2).
      exists n2. split; [done|by eapply filled_trans].
    + intros r first [= <-] Hr.
      destruct (decide (up_of merged1 r = up_of m2 r)) as [He|He].
      { rewrite <- He in Hr. rewrite (Hch r Hr). done. }
      destruct nodes as [|b nodes]; [by rewrite (Hnil eq_refl) in He|].
      eapply rtc_l; [|by apply (Hr2 r b)].
      assert (Hup : SourceNode.upstream_ref next = Some (SourceNode.source_ref b)).
      { apply merge_node_ok in Hmn as (_ & _ & Hkeep). apply (Hkeep eq_refl). by apply (Hln 0%nat). }
      destruct (Hf2 (SourceNode.source_ref node) next) as (n2 & Hn2 & F2).
      { by rewrite Hl, bool_decide_eq_true_2. }
      unfold up_of. rewrite Hn2. cbn. by apply (filled_up _ _ F2).
Qed.
End Merge.

(** *** The walk *)
Lemma walk_ends t merged below fuel seen r :
  walk_up t merged below fuel seen (Some r) = Ok tt -> ends (up_of t merged) r.
Proof.
  revert seen r. induction fuel as [|fuel IH]; intros seen r; cbn [walk_up]; [done|].
  case_bool_decide; [done|]. destruct (_ <? _)%nat; [done|].
  destruct (lookup_node t merged r ≫= SourceNode.upstream_ref) as [u|] eqn:E.
  - intros Hw. eapply ends_up; [exact E|by eapply IH].
  - intros _. by apply ends_top.
Qed.

(** The nodes walked are few. *)
Lemma walk_chain t merged below fuel seen r :
  walk_up t merged below fuel seen (Some r) = Ok tt ->
  exists l, chain (up_of t merged) r l /\ (below + size seen + length l <= SOURCE_CHAIN_MAX)%nat.
Proof.
  revert seen r. induction fuel as [|fuel IH]; intros seen r; cbn [walk_up]; [done|].
  case_bool_decide as Hin; [done|]. destruct (_ <? _)%nat eqn:L; [done|]. apply Nat.ltb_ge in L.
  rewrite size_union, size_singleton in L by set_solver.
  destruct (lookup_node t merged r ≫= SourceNode.upstream_ref) as [u|] eqn:E.
  - intros (l & Hl & Hb)%IH. exists (r :: l). split; [by eapply chain_up|].
    rewrite size_union, size_singleton in Hb by set_solver. cbn. lia.
  - intros _. exists [r]. split; [by apply chain_top|]. cbn. lia.
Qed.

(** The fuel is enough: the walk always decides. *)
Lemma walk_enough t merged below fuel seen cursor :
  (size seen <= SOURCE_CHAIN_MAX)%nat -> (SOURCE_CHAIN_MAX < fuel + size seen)%nat ->
  walk_up t merged below fuel seen cursor <> Err (Storage "out of fuel").
Proof.
  revert seen cursor. induction fuel as [|fuel IH]; intros seen [r|] Hs Hf; cbn [walk_up]; try done.
  - cbn in Hf. lia.
  - case_bool_decide as Hin; [done|]. destruct (_ <? _)%nat eqn:L; [done|]. apply Nat.ltb_ge in L.
    assert (Hz : size ({[r]} ∪ seen) = S (size seen)) by (rewrite size_union, size_singleton by set_solver; done).
    apply IH; lia.
Qed.

Lemma ends_down up r u : ends up r -> rtc (fun a b => up a = Some b) r u -> ends up u.
Proof.
  intros He. induction 1 as [|a b c Hab _ IH]; [done|]. apply IH.
  destruct He as [r Hr|r v Hr Hv]; congruence.
Qed.

Lemma link_up_linked nodes : linked (link_up nodes).
Proof.
  induction nodes as [|a nodes IH]; [by intros i|]. destruct nodes as [|b nodes].
  { intros [|i] x y; [done|]. intros Hx; by destruct i. }
  intros [|i] x y Hx Hy; cbn in *.
  - injection Hx as <-. destruct nodes as [|c nodes]; cbn in Hy; injection Hy as <-; done.
  - by eapply (IH i).
Qed.
Lemma link_up_head nodes : SourceNode.source_ref <$> head (link_up nodes) = SourceNode.source_ref <$> head nodes.
Proof. destruct nodes as [|a [|b nodes]]; done. Qed.

Lemma lookup_start t r : lookup_node t ∅ r = PlanRepo.get_source t r.
Proof. unfold lookup_node. by rewrite lookup_empty. Qed.
Lemma start_mirrors t : mirrors t t ∅.
Proof. intros r. by rewrite lookup_start. Qed.
Lemma start_keyed t : keyed_sources t -> keyed_overlay t ∅.
Proof. intros Hk r n. rewrite lookup_start. apply Hk. Qed.

Lemma link_sources_inv t nodes keep es ws :
  keyed_sources t -> link_sources t nodes keep = Ok (es, ws) ->
  exists merged, mirrors t (stored_after t es) merged /\ keyed_overlay t merged /\
    (forall r n, PlanRepo.get_source t r = Some n ->
       exists n', lookup_node t merged r = Some n' /\ filled n n') /\
    match head nodes with
    | Some first =>
        walk_up t merged (source_descendants_depth t (SourceNode.source_ref first))
          (S SOURCE_CHAIN_MAX) ∅ (Some (SourceNode.source_ref first)) = Ok tt /\
        (forall r, upstream t r <> up_of t merged r ->
           rtc (fun a b => up_of t merged a = Some b) (SourceNode.source_ref first) r)
    | None => merged = ∅
    end.
Proof.
  intros Hk. unfold link_sources. intros ([[merged events] warnings] & Hm & H)%rbind_ok.
  destruct (merge_nodes_ok t keep _ t ∅ _ _ _ (start_keyed t Hk) (start_mirrors t) (link_up_linked nodes) Hm)
    as (Hmi & Hke & Hfi & Hre & Hnil).
  pose proof (link_up_head nodes) as Hh. exists merged.
  destruct (link_up nodes) as [|first rest] eqn:E.
  - injection H as <- <-. destruct (head nodes); [done|]. split; [done|]. split; [done|].
    split; [|by apply Hnil]. intros r n Hn. apply Hfi. by rewrite lookup_start.
  - apply rbind_ok in H as ([] & Hw & [= <- <-]). destruct (head nodes) as [f|]; [|done].
    injection Hh as Hh. rewrite <- Hh. split; [done|]. split; [done|]. split.
    { intros r n Hn. apply Hfi. by rewrite lookup_start. }
    split; [done|]. intros r Hr. apply Hre; [done|]. unfold up_of at 1. by rewrite lookup_start.
Qed.
End ChainFacts.

Section Property.
  Import SourceRef SourceChain ChainSpec ChainFacts.

(** Linking sources keeps every chain of source nodes finite.  If going up
    from any stored node ends, it still does after the accepted nodes are
    stored; what a node already has, its upstream link first of all, is never
    rewritten; and the chain of the nearest node has at most
    [SOURCE_CHAIN_MAX] nodes, counted with the longest chain stored below it. *)
Theorem source_links_stay_finite t nodes keep es ws :
  keyed_sources t -> forest t -> link_sources t nodes keep = Ok (es, ws) ->
  keyed_sources (stored_after t es) /\ forest (stored_after t es) /\
  (forall r n, PlanRepo.get_source t r = Some n ->
     exists n', PlanRepo.get_source (stored_after t es) r = Some n' /\ filled n n') /\
  (forall first, head nodes = Some first ->
     exists l, chain (upstream (stored_after t es)) (SourceNode.source_ref first) l /\
       (source_descendants_depth t (SourceNode.source_ref first) + length l <= SOURCE_CHAIN_MAX)%nat).
Proof.
  intros Hk Hfo (merged & Hmi & Hke & Hfi & Hw)%link_sources_inv; [|done].
  assert (Hup : forall r, upstream (stored_after t es) r = up_of t merged r).
  { intros r. unfold upstream, up_of. by rewrite Hmi. }
  split; [intros r n; rewrite Hmi; apply Hke|]. split; [|split].
  - assert (Hchanged : forall r, upstream t r <> up_of t merged r -> ends (up_of t merged) r).
    { intros r Hr. destruct (head nodes) as [first|].
      2:{ subst merged. exfalso. apply Hr. unfold up_of. by rewrite lookup_start. }
      destruct Hw as [Hw Hre]. eapply ends_down; [by eapply walk_ends|by apply Hre]. }
    assert (Hends : forall r, ends (up_of t merged) r).
    { intros r. induction (Hfo r) as [r Hr|r u Hr _ IH];
        (destruct (decide (upstream t r = up_of t merged r)) as [He|He]; [|by apply Hchanged]).
      - apply ends_top. by rewrite <- He.
      - eapply ends_up; [by rewrite <- He|exact IH]. }
    intros r. specialize (Hends r). induction Hends as [r Hr|r u Hr _ IH].
    + apply ends_top. by rewrite Hup.
    + eapply ends_up; [by rewrite Hup|exact IH].
  - intros r n Hn. destruct (Hfi r n Hn) as (n' & Hn' & F). exists n'. by rewrite Hmi.
  - intros first Hf. rewrite Hf in Hw. destruct Hw as [(l & Hl & Hb)%walk_chain _].
    exists l. split; [|rewrite size_empty in Hb; lia]. clear Hb. induction Hl as [r Hr|r u l Hr _ IH].
    + apply chain_top. by rewrite Hup.
    + eapply chain_up; [by rewrite Hup|exact IH].
Qed.
End Property.

Definition demo_node (i : N) (up : option N) : SourceNode :=
  SourceNode.mk [i] None None None ((fun u => [u]) <$> up) 0 None.
Definition demo_sources (nodes : list SourceNode) : PlanTables :=
  ChainSpec.stored_after PlanRepo.empty (map Event.SourceUpserted nodes).

Lemma source_links_stay_finite_witness :
  SourceChain.link_sources (demo_sources [demo_node 1 None]) [demo_node 2 None; demo_node 1 None; demo_node 3 None] true
    = Ok ([Event.SourceUpserted (demo_node 2 (Some 1%N)); Event.SourceUpserted (demo_node 1 (Some 3%N));
           Event.SourceUpserted (demo_node 3 None)], []) /\
  ChainSpec.forest (ChainSpec.stored_after (demo_sources [demo_node 1 None])
    [Event.SourceUpserted (demo_node 2 (Some 1%N)); Event.SourceUpserted (demo_node 1 (Some 3%N));
     Event.SourceUpserted (demo_node 3 None)]).
Proof.
  assert (H : forall r n, PlanRepo.get_source (demo_sources [demo_node 1 None]) r = Some n ->
            r = [1%N] /\ n = demo_node 1 None).
  { intros r n. unfold PlanRepo.get_source, demo_sources, ChainSpec.stored_after. cbn.
    intros [[<- <-]|[_ Hr]]%lookup_insert_Some; [done|]. by rewrite lookup_empty in Hr. }
  split; [vm_compute; reflexivity|].
  refine (proj1 (proj2 (source_links_stay_finite (demo_sources [demo_node 1 None])
    [demo_node 2 None; demo_node 1 None; demo_node 3 None] true _ [] _ _ _))).
  - by intros r n [-> ->]%H.
  - intros r. apply ChainSpec.ends_top. unfold ChainSpec.upstream.
    destruct (PlanRepo.get_source _ r) as [n|] eqn:E; [|done]. by apply H in E as [_ ->].
  - vm_compute. reflexivity.
Defined.

(** The bound counts the chain of the nearest node only: attaching a node above
    a chain that others hang from makes theirs too long. *)
Definition long_chain : PlanTables :=
  demo_sources (map (fun i => demo_node (N.of_nat i) (if (i =? 32)%nat then None else Some (N.of_nat (S i))))
                 (seq 1 32)).
Definition overlong : Result CoreError unit :=
  rbind (SourceChain.link_sources long_chain [demo_node 100 None; demo_node 32 None; demo_node 101 None] true)
    (fun r => SourceChain.walk_up (ChainSpec.stored_after long_chain r.1) ∅ 0 40 ∅ (Some [1%N])).
Example side_chain_exceeds_bound :
  overlong = Err (SourceChain.chain_invalid "a source chain holds at most {SOURCE_CHAIN_MAX} nodes") /\
  is_ok (SourceChain.link_sources long_chain [demo_node 100 None; demo_node 32 None; demo_node 101 None] true) = true.
Proof. split; vm_compute; reflexivity. Qed.
