(* ===== verification/SourcePolicy.v ===== *)
(** * core/plan_source.rs: the intake policy of a project

    The pure part of plan intake (ADR-0009): checking a policy, deriving a
    reference from a branch, the verdict on a plan's nearest source, and the
    plans a new one may continue.  Regular expressions belong to the [regex]
    crate: a pattern compiles to a matcher that gives the capture groups of the
    first match, or does not compile. *)

From S2P Require Import Prelude Shared TaskModel PlanModel RegistryModel Events TaskStore PlanStore SourceRef Gate SourceChain.

Module SourcePolicy.
  Import LifecycleGate SourceRef SourceChain.

Definition Captures : Type := nat -> option Str.
Definition Matcher : Type := Str -> option Captures.

Definition MAX_PATTERN_LEN : nat := 512.
Definition MAX_DERIVE_RULES : nat := 32.
Definition MAX_CHANNELS : nat := 32.
Definition PLAN_CHOICE_MAX : nat := 10.
Definition APPENDED_BRIEF_MAX : nat := 2000.
Definition TRUNK_BRANCHES : list Str := map lit ["main"; "master"; "develop"; "dev"; "trunk"]%string.

Definition normalized (source_ref : Str) : Result CoreError Str :=
  match normalize_source_ref source_ref with Ok r => Ok r | Err e => Err (Validation e) end.
Definition normalized_or_invalid (source_ref : Str) : Result CoreError Str :=
  match normalize_source_ref source_ref with Ok r => Ok r | Err e => Err (invalid e) end.

Section Regex.
(** [RegexBuilder::build]. *)
Context (regex : Str -> option Matcher).

Definition compile (pattern : Str) : Result CoreError Matcher :=
  if (MAX_PATTERN_LEN <? length pattern)%nat
  then Err (invalid "{what} is longer than {MAX_PATTERN_LEN} characters")
  else match regex pattern with
       | Some m => Ok m
       | None => Err (invalid "{what} `{pattern}` is not a valid regex: {e}")
       end.

Fixpoint all_ok {A} (f : A -> Result CoreError unit) (l : list A) : Result CoreError unit :=
  match l with
  | [] => Ok tt
  | x :: l => rbind (f x) (fun _ => all_ok f l)
  end.

Definition valid_derive (rule : SourceDeriveRule) : Result CoreError unit :=
  if negb (bool_decide (dr_from rule = lit "branch"))
  then Err (invalid "derive.from `{}` is not supported (only `branch`)")
  else rbind (compile (dr_pattern rule)) (fun _ =>
       rbind (normalized_or_invalid (dr_ref_template rule)) (fun _ => Ok tt)).
Definition valid_channel (c : SourceChannel) : Result CoreError unit :=
  if str_is_empty (trim (ch_scheme c)) then Err (invalid "channels[].scheme must not be empty")
  else match ch_pattern c with
       | Some p => rbind (compile p) (fun _ => Ok tt)
       | None => Ok tt
       end.
Definition validate_policy (policy : IntakeSourcePolicy) : Result CoreError unit :=
  if (MAX_DERIVE_RULES <? length (ip_derive policy))%nat
  then Err (invalid "at most {MAX_DERIVE_RULES} derive rules are allowed")
  else if (MAX_CHANNELS <? length (ip_channels policy))%nat
  then Err (invalid "at most {MAX_CHANNELS} channels are allowed")
  else
    rbind (match ip_default_ref policy with
           | Some r => rbind (normalized_or_invalid r) (fun _ => Ok tt)
           | None => Ok tt
           end) (fun _ =>
    rbind (all_ok valid_derive (ip_derive policy)) (fun _ => all_ok valid_channel (ip_channels policy))).

(** [$1]..[$9] stand for capture groups; a group that took no part in the match
    makes the rule not fire. *)
Fixpoint expand (template : Str) (caps : Captures) : option Str :=
  match template with
  | [] => Some []
  | c :: rest =>
      match rest with
      | d :: rest' =>
          if (c =? 36)%N && ((49 <=? d) && (d <=? 57))%N
          then caps (N.to_nat (d - 48)) ≫= fun s => (fun out => s ++ out) <$> expand rest' caps
          else cons c <$> expand rest caps
      | [] => Some [c]
      end
  end.

Definition channel_matches (channel : SourceChannel) (source_ref : Str) : Result CoreError bool :=
  let scheme := fst (split_at_any [58%N] source_ref) in
  if negb (Lease.eq_ignore_ascii_case scheme (trim (ch_scheme channel))) then Ok false
  else match ch_pattern channel with
       | Some p => rbind (compile p) (fun m => Ok (match m source_ref with Some _ => true | None => false end))
       | None => Ok true
       end.
(** The first channel that matches. *)
Fixpoint find_channel (channels : list SourceChannel) (source_ref : Str)
  : Result CoreError (option SourceChannel) :=
  match channels with
  | [] => Ok None
  | c :: channels =>
      rbind (channel_matches c source_ref) (fun b =>
        if b then Ok (Some c) else find_channel channels source_ref)
  end.

Definition opt_text (o : option Str) : Json := match o with Some s => JStr s | None => JNull end.
Definition channels_json (policy : IntakeSourcePolicy) : Json :=
  JArr (map (fun c => JObj [("scheme"%string, JStr (ch_scheme c)); ("pattern"%string, opt_text (ch_pattern c));
                            ("label"%string, opt_text (ch_label c))]) (ip_channels policy)).

Definition source_problem (policy : IntakeSourcePolicy) (source_ref : option Str) (explained : bool)
  : Result CoreError (option (string * string)) :=
  match source_ref with
  | None => Ok (Some ("plan_source_missing"%string,
      "plan has no source: pass `source.ref` (MCP tools) / `plan.source_ref` (HTTP), a URI such as an issue URL"%string))
  | Some r =>
      rbind (find_channel (ip_channels policy) r) (fun matched => Ok
        match ip_channels policy, matched with
        | _ :: _, None => Some ("plan_source_channel_mismatch"%string,
            "source `{source_ref}` matches none of the project's channels"%string)
        | _, Some c =>
            if ch_note_required c && negb explained
            then Some ("plan_source_note_required"%string,
              "source `{source_ref}`: channel requires an explanation: pass source.note (or source_brief)"%string)
            else None
        | [], None => None
        end)
  end.

Definition source_policy_findings (policy : IntakeSourcePolicy) (source_ref : option Str) (explained : bool)
  : Result CoreError (list MutationWarning) :=
  if bool_decide (ip_mode policy = SourceOff) then Ok []
  else rbind (source_problem policy source_ref explained) (fun problem =>
    match problem with
    | None => Ok []
    | Some (code, message) =>
        if bool_decide (ip_mode policy = SourceEnforce)
        then Err (Unprocessable "plan_source_required" message
               (JObj [("reason"%string, JStr (lit code)); ("channels"%string, channels_json policy)]))
        else Ok [warning code message (JObj [("channels"%string, channels_json policy)])]
    end).

(** The reference the first firing rule derives from a branch. *)
Fixpoint derive_ref (rules : list SourceDeriveRule) (branch : Str) : Result CoreError (option Str) :=
  match rules with
  | [] => Ok None
  | rule :: rules =>
      rbind (compile (dr_pattern rule)) (fun m =>
        match m branch ≫= expand (dr_ref_template rule) with
        | Some derived => rbind (normalized derived) (fun r => Ok (Some r))
        | None => derive_ref rules branch
        end)
  end.
Definition derived_ref (policy : IntakeSourcePolicy) (branch : option Str) : Result CoreError (option Str) :=
  match branch with
  | None => Ok None
  | Some b => derive_ref (List.filter (fun r => bool_decide (dr_from r = lit "branch")) (ip_derive policy)) b
  end.
End Regex.

(** [str::contains] of a word. *)
Fixpoint has_word (w s : Str) : bool :=
  starts_with w s || match s with [] => false | _ :: s => has_word w s end.
Definition RAW_WORDS : list Str :=
  [ [1080; 1089; 1089; 1083; 1077; 1076; 1086; 1074; 1072; 1090; 1100];
    [1087; 1086; 1076; 1091; 1084; 1072; 1090; 1100];
    [1088; 1072; 1079; 1086; 1073; 1088; 1072; 1090; 1100; 1089; 1103];
    [1080; 1076; 1077; 1103] ]%N
  ++ map lit ["explore"; "investigate"; "research"; "idea"]%string.
Definition blank (v : option Str) : bool :=
  match v with None => true | Some v => str_is_empty (trim v) end.
(** [lowercase] is Unicode's, which belongs to the standard library. *)
Definition plan_looks_raw (lowercase : Str -> Str) (plan : NewPlan) (tasks : list NewTask)
  : option MutationWarning :=
  if negb (blank (NewPlan.goal plan))
     || match NewPlan.success_criteria plan with Some (_ :: _) => true | _ => false end
     || (1 <? length tasks)%nat
  then None
  else
    let exploratory :=
      existsb (fun t => existsb (fun w => has_word w (lowercase t)) RAW_WORDS)
        (NewPlan.title plan :: map NewTask.title tasks) in
    if exploratory
    then Some (warning "plan_looks_raw"
      "plan has no goal or success_criteria, at most one task and an exploratory title: it looks like raw material — consider mcpbox_pipeline_run"
      (JObj []))
    else None.

(** ** plan_repo.rs: the plans a new one may continue *)

(** The references below one, each once: the recursive query with [UNION]. *)
Fixpoint refs_below (t : PlanTables) (fuel : nat) (ref : Str) : list Str :=
  match fuel with
  | O => []
  | S fuel =>
      ref :: concat (map (fun n => refs_below t fuel (SourceNode.source_ref n))
               (List.filter (fun n => bool_decide (SourceNode.upstream_ref n = Some ref))
                  (map_to_list (PlanRepo.sources t)).*2))
  end.
Definition plan_order (a b : Plan) : bool :=
  (Plan.updated_at b <? Plan.updated_at a)%Z
  || ((Plan.updated_at a =? Plan.updated_at b)%Z && (as_uuid (Plan.id b) <=? as_uuid (Plan.id a))%N).
Definition on_branch (t : PlanTables) (tasks : TaskTable) (repo : option Str) (branch : Str) (p : Plan) : bool :=
  existsb (fun m =>
    bool_decide (PlanTask.plan_id m = Plan.id p)
    && match TaskRepo.get tasks (PlanTask.task_id m) ≫= Task.git_context with
       | Some g => bool_decide (GitContext.branch g = Some branch)
                   && match repo with
                      | Some r => bool_decide (GitContext.repo g = Some r)
                      | None => true
                      end
       | None => false
       end) (PlanRepo.all_members t).
Definition continuation_candidates (t : PlanTables) (tasks : TaskTable) (project : ProjectId)
    (chain : list Str) (repo branch : option Str) : list Plan :=
  let below := match chain with [] => [] | nearest :: _ => refs_below t SOURCE_CHAIN_MAX nearest end in
  sort_by plan_order
    (List.filter (fun p =>
       bool_decide (Plan.project_id p = project) && bool_decide (Plan.archived_at p = None)
       && (bool_decide (Plan.status p = Draft) || bool_decide (Plan.status p = Active)
           || bool_decide (Plan.status p = Completed))
       && (match Plan.source_ref p with
           | Some r => bool_decide (r ∈ chain) || bool_decide (r ∈ below)
           | None => false
           end
           || match branch with Some b => on_branch t tasks repo b p | None => false end))
      (PlanRepo.all_plans t)).
End SourcePolicy.
