(* ===== verification/RunStore.v ===== *)
(** * storage/run_repo.rs: runs and their steps

    Tables [runs] and [run_steps] (rows in insertion order: the position of a row
    is its autoincrement id), the queries of the handler and of the liveness
    watchdog, and the projection [apply_event]. *)

From S2P Require Import Prelude Shared TaskModel PlanModel RegistryModel Events.

Module RunRepo.
Record StepRow : Type := mkStepRow {
  step_run_id : RunId;
  step : RunStep }.
#[global] Instance StepRow_rebuild : Rebuild StepRow := fun r =>
  mkStepRow (step_run_id r) (step r).
#[global] Instance StepRow_eq_dec : EqDecision StepRow.
Proof. solve_decision. Defined.

Record RunTables : Type := mk {
  runs : gmap RunId Run;
  steps : list StepRow }.
#[global] Instance RunTables_rebuild : Rebuild RunTables := fun t =>
  mk (runs t) (steps t).

Definition empty : RunTables := mk ∅ [].

(** ** Queries *)
Definition get (t : RunTables) (id : RunId) : option Run := runs t !! id.
Definition all_runs (t : RunTables) : list Run := (map_to_list (runs t)).*2.
Definition by_started (a b : Run) : bool := (Run.started_at a <=? Run.started_at b)%Z.

Definition is_active (r : Run) : bool := bool_decide (Run.status r = RunActive).

Definition list_active_for_plan (t : RunTables) (plan_id : PlanId) : list Run :=
  sort_by by_started
    (List.filter (fun r => bool_decide (Run.plan_id r = plan_id) && is_active r) (all_runs t)).

Definition steps_of (t : RunTables) (run_id : RunId) : list RunStep :=
  map step (List.filter (fun r => bool_decide (step_run_id r = run_id)) (steps t)).
Definition step_by_started (a b : RunStep) : bool :=
  (RunStep.started_at a <=? RunStep.started_at b)%Z.
Definition list_steps (t : RunTables) (run_id : RunId) : list RunStep :=
  sort_by step_by_started (steps_of t run_id).

Definition is_open (s : RunStep) : bool := bool_decide (RunStep.finished_at s = None).

(** [ORDER BY started_at DESC, id DESC LIMIT 1] among the open steps. *)
Definition current_step_task (t : RunTables) (run_id : RunId) : option TaskId :=
  option_map RunStep.task_id (last (List.filter is_open (list_steps t run_id))).

Definition list_unresponsive_candidates (t : RunTables) (threshold now : Z) : list RunId :=
  map Run.id (List.filter (fun r =>
    is_active r && bool_decide (Run.unresponsive_at r = None)
    && bool_decide (Run.last_activity_at r = Some (Run.started_at r))
    && (Run.started_at r <=? now - threshold)%Z) (all_runs t)).

Definition list_stale_candidates (t : RunTables) (threshold now : Z) : list RunId :=
  map Run.id (List.filter (fun r =>
    is_active r && bool_decide (Run.stale_at r = None)
    && match Run.last_activity_at r with
       | Some a => (a <=? now - threshold)%Z
       | None => false
       end) (all_runs t)).

(** ** Mutations *)
Definition update_run (t : RunTables) (id : RunId) (f : Run -> Run) : RunTables :=
  t <| runs := alter f id (runs t) |>.

Definition touch_activity (t : RunTables) (id : RunId) (at_ : Z) : RunTables :=
  update_run t id (fun r => r <| Run.last_activity_at := Some at_ |>).

Definition insert_step (t : RunTables) (run_id : RunId) (task_id : TaskId) (at_ : Z) : RunTables :=
  t <| steps := steps t ++ [mkStepRow run_id (RunStep.mk task_id at_ None None)] |>.

(** The index of the latest open step of the run on the task. *)
Definition open_row (run_id : RunId) (task_id : TaskId) (r : StepRow) : bool :=
  bool_decide (step_run_id r = run_id) && bool_decide (RunStep.task_id (step r) = task_id)
  && is_open (step r).

Fixpoint latest_open (run_id : RunId) (task_id : TaskId) (i : nat) (l : list StepRow)
    (best : option (nat * Z)) : option nat :=
  match l with
  | [] => option_map fst best
  | r :: l =>
      let best :=
        if open_row run_id task_id r then
          match best with
          | Some (_, s) => if (s <=? RunStep.started_at (step r))%Z
                           then Some (i, RunStep.started_at (step r)) else best
          | None => Some (i, RunStep.started_at (step r))
          end
        else best in
      latest_open run_id task_id (S i) l best
  end.

Definition finish_step_row (t : RunTables) (run_id : RunId) (task_id : TaskId)
    (outcome : RunOutcome) (at_ : Z) : RunTables :=
  match latest_open run_id task_id 0 (steps t) None with
  | Some i =>
      t <| steps := alter (fun r =>
             r <| step := step r <| RunStep.finished_at := Some at_ |>
                                 <| RunStep.outcome := Some outcome |> |>) i (steps t) |>
  | None =>
      t <| steps := steps t
             ++ [mkStepRow run_id (RunStep.mk task_id at_ (Some at_) (Some outcome))] |>
  end.

Definition set_ended (t : RunTables) (id : RunId) (status : RunStatus) (outcome : Str)
    (at_ : Z) : RunTables :=
  update_run t id (fun r =>
    r <| Run.status := status |> <| Run.ended_at := Some at_ |>
      <| Run.outcome := Some outcome |>).

Definition complete (t : RunTables) (id : RunId) (at_ : Z) : RunTables :=
  set_ended t id RunCompleted (lit "done") at_.
Definition fail (t : RunTables) (id : RunId) (reason : Str) (at_ : Z) : RunTables :=
  set_ended t id RunFailed reason at_.
Definition abort (t : RunTables) (id : RunId) (reason : Str) (at_ : Z) : RunTables :=
  set_ended t id RunAborted reason at_.

Definition mark_unresponsive (t : RunTables) (id : RunId) (at_ : Z) : RunTables :=
  update_run t id (fun r =>
    r <| Run.unresponsive_at := or_else (Run.unresponsive_at r) (Some at_) |>).
Definition mark_stale (t : RunTables) (id : RunId) (at_ : Z) : RunTables :=
  update_run t id (fun r => r <| Run.stale_at := or_else (Run.stale_at r) (Some at_) |>).

Definition upsert_run (t : RunTables) (r : Run) : RunTables :=
  t <| runs := <[Run.id r :=
         r <| Run.last_activity_at :=
                Some (default (Run.started_at r) (Run.last_activity_at r)) |>]> (runs t) |>.

Definition apply_event (t : RunTables) (e : EventEnvelope) : RunTables :=
  match Envelope.payload e with
  | Event.RunStarted run => upsert_run t run
  | Event.RunStepStarted run_id task_id at_ =>
      insert_step (touch_activity t run_id at_) run_id task_id at_
  | Event.RunStepFinished run_id task_id outcome at_ =>
      finish_step_row (touch_activity t run_id at_) run_id task_id outcome at_
  | Event.RunCompleted run_id at_ => complete t run_id at_
  | Event.RunFailed run_id reason at_ => fail t run_id reason at_
  | Event.RunAborted run_id reason at_ => abort t run_id reason at_
  | Event.RunUnresponsive run_id at_ => mark_unresponsive t run_id at_
  | Event.RunStale run_id at_ => mark_stale t run_id at_
  | _ => t
  end.
End RunRepo.
Abbreviation RunTables := RunRepo.RunTables.
