(* ===== verification/ActivityStore.v ===== *)
(** * storage/activity_repo.rs: the activity feed

    Table [activity]: one row per event a user sees, except that a semantic
    event ([TaskClosed], [TaskReopened], [TaskCommented]) is merged into the row
    of the event just before it.  Rows are found by task and [seq]; their own
    random key is left out, nothing refers to it.  [Serde] stands for the text
    the [serde_json] and [chrono] crates produce and read. *)

From S2P Require Import Prelude Shared TaskModel PlanModel RegistryModel Events EventStore PlanStore RunStore.

Module Verb.
Inductive Verb : Set :=
| Created | Updated | StatusChanged | PriorityChanged | Closed | Reopened | Completed | Deleted
| SplitGenerated | DueElapsed
| ProjectCreated | ProjectUpdated | ProjectDeleted
| Commented | CommentEdited | CommentDeleted
| AgentAction
| PlanCreated | PlanModified | PlanArchived | PlanReparented
| RunStarted | RunCompleted | RunFailed | RunAborted
| TaskAttached | TaskDetached
| TaskClaimed | TaskReleased
| Linked | Unlinked | Unblocked | RelationKindChanged
| RuleFired.
#[global] Instance Verb_eq_dec : EqDecision Verb.
Proof. solve_decision. Defined.
End Verb.
Abbreviation Verb := Verb.Verb.

Module Activity.
Record Activity : Type := mk {
  task_id : option TaskId;
  project_id : option ProjectId;
  actor : Actor;
  verb : Verb;
  field : option Str;
  old_value : option Str;
  new_value : option Str;
  occurred_at : Z;
  event_id : EventId;
  seq : Z }.
#[global] Instance Activity_rebuild : Rebuild Activity := fun a =>
  mk (task_id a) (project_id a) (actor a) (verb a) (field a) (old_value a) (new_value a)
     (occurred_at a) (event_id a) (seq a).
End Activity.
Abbreviation Activity := Activity.Activity.

(** Text written and read by [serde_json] and [chrono]; [carries_position] is
    whether a text parses to an object with a [pipeline_position] that is not
    null. *)
Record Serde : Type := mkSerde {
  json_text : Json -> Str;
  patch_text : TaskPatch -> Str;
  note_text : CompletionNote -> Str;
  settings_text : AutoAppendSettings -> Str;
  time_text : Z -> Str;
  carries_position : Str -> bool }.

Definition priority_as_str (p : Priority) : string :=
  match p with P0 => "p0" | P1 => "p1" | P2 => "p2" | P3 => "p3" end.
Definition relation_kind_str (k : RelationKind) : string :=
  match k with
  | Blocks => "blocks" | RelatesTo => "relates_to" | Duplicates => "duplicates"
  | WasBlocking => "was_blocking"
  end.
Definition plan_status_str (s : PlanStatus) : string :=
  match s with
  | Draft => "draft" | Active => "active" | Completed => "completed" | Abandoned => "abandoned"
  end.
Definition rule_decision_str (d : RuleDecision) : string :=
  match d with
  | DecisionWarning => "warning" | DecisionBlocked => "blocked" | DecisionOverridden => "overridden"
  end.

Module ActivityRepo.
Abbreviation ActivityTable := (list Activity).

Section Repo.
Context (display : N -> Str) (serde : Serde).

Definition shown {k} (i : Id k) : Str := Ids.display display i.

(** ** Lookups of the project *)
Definition newest_first (a b : Activity) : bool := (Activity.seq b <=? Activity.seq a)%Z.
Definition inherit_project_id (t : ActivityTable) (task : TaskId) : option ProjectId :=
  head (sort_by newest_first (List.filter (fun a => bool_decide (Activity.task_id a = Some task)) t))
    ≫= Activity.project_id.
Definition inherit_plan_project_id (plans : PlanTables) (plan : PlanId) : option ProjectId :=
  Plan.project_id <$> PlanRepo.get plans plan.
Definition inherit_run_project_id (plans : PlanTables) (runs : RunTables) (run : RunId) : option ProjectId :=
  RunRepo.get runs run ≫= fun r => inherit_plan_project_id plans (Run.plan_id r).

(** ** The row of an event, by family *)
Definition row (e : EventEnvelope) (v : Verb) (task : option TaskId) (project : option ProjectId)
    (field old new : option Str) : Activity :=
  Activity.mk task project (Envelope.actor e) v field old new (Envelope.occurred_at e)
    (Envelope.id e) (Envelope.seq e).

(** A row of a task that inherits its project. *)
Definition task_row (t : ActivityTable) (e : EventEnvelope) (v : Verb) (task : TaskId)
    (field old new : option Str) : Activity :=
  row e v (Some task) (inherit_project_id t task) field old new.

Definition task_event_row (t : ActivityTable) (e : EventEnvelope) : option Activity :=
  match Envelope.payload e with
  | Event.TaskCreated n =>
      Some (row e Verb.Created (NewTask.id n) (NewTask.project_id n) None None (Some (NewTask.title n)))
  | Event.TaskUpdated task patch =>
      Some (task_row t e Verb.Updated task None None (Some (patch_text serde patch)))
  | Event.TaskStatusChanged task from to =>
      Some (task_row t e Verb.StatusChanged task (Some (lit "status"))
              (Some (lit (status_as_str from))) (Some (lit (status_as_str to))))
  | Event.TaskPriorityChanged task from to =>
      Some (task_row t e Verb.PriorityChanged task (Some (lit "priority"))
              (Some (lit (priority_as_str from))) (Some (lit (priority_as_str to))))
  | Event.TaskCompleted task _ note =>
      Some (task_row t e Verb.Completed task None None
              (note ≫= fun n => if CompletionNote.is_substantive n then Some (note_text serde n) else None))
  | Event.RuleFired _ key decision _ _ project _ task message _ _ =>
      let project := match project, task with
                     | Some p, _ => Some p
                     | None, Some x => inherit_project_id t x
                     | None, None => None
                     end in
      Some (row e Verb.RuleFired task project (Some key) (Some (lit (rule_decision_str decision)))
              (Some message))
  | Event.TaskDeleted task => Some (task_row t e Verb.Deleted task None None None)
  | Event.TaskSplitGenerated parent _ => Some (task_row t e Verb.SplitGenerated parent None None None)
  | _ => None
  end.

Definition project_event_row (t : ActivityTable) (e : EventEnvelope) : option Activity :=
  match Envelope.payload e with
  | Event.ProjectCreated p =>
      Some (row e Verb.ProjectCreated None (Some (Project.id p)) None None (Some (Project.title p)))
  | Event.ProjectUpdated p _ _ => Some (row e Verb.ProjectUpdated None (Some p) None None None)
  | Event.ProjectSettingsChanged p settings _ _ _ =>
      Some (row e Verb.ProjectUpdated None (Some p) (Some (lit "settings.auto_append")) None
              (Some (settings_text serde settings)))
  | Event.ProjectDeleted p => Some (row e Verb.ProjectDeleted None (Some p) None None None)
  | Event.CommentAdded c =>
      Some (task_row t e Verb.Commented (Comment.task_id c) None None (Some (take 80 (Comment.body c))))
  | Event.CommentEdited _ task _ _ => Some (task_row t e Verb.CommentEdited task None None None)
  | Event.CommentDeleted _ task _ => Some (task_row t e Verb.CommentDeleted task None None None)
  | Event.AgentActionRecorded _ => Some (row e Verb.AgentAction None None None None None)
  | _ => None
  end.

Definition plan_event_row (plans : PlanTables) (e : EventEnvelope) : option Activity :=
  let plan_row v task plan field old new :=
    Some (row e v task (inherit_plan_project_id plans plan) field old new) in
  match Envelope.payload e with
  | Event.PlanCreated p =>
      Some (row e Verb.PlanCreated None (Some (Plan.project_id p)) None None (Some (Plan.title p)))
  | Event.PlanUpdated plan patch =>
      match PlanPatch.parent_plan_id patch with
      | Some parent =>
          plan_row Verb.PlanReparented None plan (Some (lit "parent_plan_id")) None
            (Some (match parent with Some p => shown p | None => lit "null" end))
      | None => plan_row Verb.PlanModified None plan None None None
      end
  | Event.PlanReordered plan _ => plan_row Verb.PlanModified None plan None None None
  | Event.PlanStatusChanged plan from to =>
      plan_row Verb.PlanModified None plan (Some (lit "status"))
        (Some (lit (plan_status_str from))) (Some (lit (plan_status_str to)))
  | Event.PlanGoalChanged plan from to =>
      plan_row Verb.PlanModified None plan (Some (lit "goal")) (Some from) (Some to)
  | Event.PlanTaskAdded plan task _ _ => plan_row Verb.TaskAttached (Some task) plan None None (Some (shown plan))
  | Event.PlanTaskRemoved plan task => plan_row Verb.TaskDetached (Some task) plan None None (Some (shown plan))
  | Event.PlanArchived plan _ => plan_row Verb.PlanArchived None plan None None None
  | _ => None
  end.

Definition run_event_row (plans : PlanTables) (runs : RunTables) (t : ActivityTable) (e : EventEnvelope)
  : option Activity :=
  let run_row v run new := Some (row e v None (inherit_run_project_id plans runs run) None None new) in
  match Envelope.payload e with
  | Event.RunStarted r =>
      Some (row e Verb.RunStarted None (inherit_plan_project_id plans (Run.plan_id r)) None None
              (Some (shown (Run.id r))))
  | Event.RunCompleted run _ => run_row Verb.RunCompleted run None
  | Event.RunFailed run reason _ => run_row Verb.RunFailed run (Some reason)
  | Event.RunAborted run reason _ => run_row Verb.RunAborted run (Some reason)
  | Event.AgentClaimed _ task _ _ => Some (task_row t e Verb.TaskClaimed task None None None)
  | Event.AgentReleased _ task _ => Some (task_row t e Verb.TaskReleased task None None None)
  | _ => None
  end.

Definition id_text {k} (i : Id k) : Json := JStr (shown i).
Definition kind_json (k : RelationKind) : Json := JStr (lit (relation_kind_str k)).
Definition link_text (r : RelationId) (k : RelationKind) (to : TaskId) : Str :=
  json_text serde (JObj [("relation_id"%string, id_text r); ("kind"%string, kind_json k); ("to"%string, id_text to)]).
Definition relation_event_row (t : ActivityTable) (e : EventEnvelope) : option Activity :=
  match Envelope.payload e with
  | Event.TaskLinked r from to k _ _ =>
      Some (task_row t e Verb.Linked from None None (Some (link_text r k to)))
  | Event.TaskUnlinked r from to k _ =>
      Some (task_row t e Verb.Unlinked from None None (Some (link_text r k to)))
  | Event.TaskUnblocked task by_ _ =>
      Some (task_row t e Verb.Unblocked task None None
              (Some (json_text serde (JObj [("unblocked_by"%string, id_text by_)]))))
  | Event.TaskDueElapsed task due _ =>
      Some (task_row t e Verb.DueElapsed task (Some (lit "due_at")) None (Some (time_text serde due)))
  | Event.TaskRelationKindChanged r from to k k' _ =>
      Some (task_row t e Verb.RelationKindChanged from (Some (lit "kind"))
              (Some (json_text serde (kind_json k)))
              (Some (json_text serde (JObj [("relation_id"%string, id_text r); ("from_kind"%string, kind_json k);
                                            ("to_kind"%string, kind_json k'); ("to"%string, id_text to)]))))
  | _ => None
  end.

(** ** Projection *)
(** [INSERT OR IGNORE] on the unique [event_id]. *)
Definition insert_row (t : ActivityTable) (a : Activity) : ActivityTable :=
  if existsb (fun x => bool_decide (Activity.event_id x = Activity.event_id a)) t then t else t ++ [a].

Definition at_seq (task : TaskId) (s : Z) (a : Activity) : bool :=
  bool_decide (Activity.task_id a = Some task) && (Activity.seq a =? s)%Z.
(** [UPDATE ... WHERE task_id = ? AND seq = ?]; [None] when no row is there. *)
Definition try_update_at_seq (t : ActivityTable) (task : TaskId) (s : Z) (f : Activity -> Activity)
  : option ActivityTable :=
  if existsb (at_seq task s) t then Some (map (fun a => if at_seq task s a then f a else a) t) else None.
Definition try_update_verb_at_seq (t : ActivityTable) (task : TaskId) (s : Z) (v : Verb) : option ActivityTable :=
  try_update_at_seq t task s (fun a => a <| Activity.verb := v |>).
Definition try_update_commented_at_seq (t : ActivityTable) (task : TaskId) (s : Z) (preview : Str)
  : option ActivityTable :=
  try_update_at_seq t task s
    (fun a => a <| Activity.verb := Verb.Commented |> <| Activity.new_value := Some preview |>).

(** [seq.saturating_sub(1)]. *)
Definition prev_seq (e : EventEnvelope) : Z := Z.max 0 (Envelope.seq e - 1).

Definition semantic_event (t : ActivityTable) (e : EventEnvelope) : option ActivityTable :=
  let merged task v :=
    Some (default (insert_row t (task_row t e v task None None None))
            (try_update_verb_at_seq t task (prev_seq e) v)) in
  match Envelope.payload e with
  | Event.TaskClosed task _ _ => merged task Verb.Closed
  | Event.TaskReopened task _ _ => merged task Verb.Reopened
  | Event.TaskCommented task _ _ preview =>
      Some (default (insert_row t (task_row t e Verb.Commented task None None (Some preview)))
              (try_update_commented_at_seq t task (prev_seq e) preview))
  | _ => None
  end.

(** The other events insert their row, if they have one. *)
Definition plain_row (plans : PlanTables) (runs : RunTables) (t : ActivityTable) (e : EventEnvelope)
  : option Activity :=
  or_else (task_event_row t e) (or_else (project_event_row t e) (or_else (plan_event_row plans e)
    (or_else (run_event_row plans runs t e) (relation_event_row t e)))).

Definition apply_event (plans : PlanTables) (runs : RunTables) (t : ActivityTable) (e : EventEnvelope)
  : ActivityTable :=
  match semantic_event t e with
  | Some t' => t'
  | None => match plain_row plans runs t e with Some a => insert_row t a | None => t end
  end.

(** ** Queries *)
Definition by_seq (a b : Activity) : bool := (Activity.seq a <=? Activity.seq b)%Z.
Definition list_for_task (t : ActivityTable) (task : TaskId) (cursor : option Z) (limit : nat)
    (verbs : option (list Verb)) : list Activity * option Z * bool :=
  let since := default 0%Z cursor in
  let limit := Nat.min limit 500 in
  match verbs with
  | Some [] => ([], None, false)
  | _ =>
      let items := take (S limit)
        (sort_by by_seq (List.filter (fun a =>
           bool_decide (Activity.task_id a = Some task) && (since <? Activity.seq a)%Z
           && match verbs with Some vs => bool_decide (Activity.verb a ∈ vs) | None => true end) t)) in
      let has_more := (limit <? length items)%nat in
      let items := if has_more then take limit items else items in
      (items, if has_more then Activity.seq <$> last items else None, has_more)
  end.

(** [COALESCE(MAX(seq), 0)]. *)
Definition last_backfilled_seq (t : ActivityTable) : Z := default 0%Z (max_of (map Activity.seq t)).

(** ** Backfill from the log, in pages of 1000 *)
Definition BACKFILL_PAGE : nat := 1000.
Fixpoint backfill_pages (fuel : nat) (plans : PlanTables) (runs : RunTables) (l : EventLog)
    (t : ActivityTable) (last_ : Z) (count : nat) : option (nat * ActivityTable) :=
  match fuel with
  | O => None
  | S fuel =>
      match EventStore.load_since l last_ BACKFILL_PAGE with
      | [] => Some (count, t)
      | page =>
          backfill_pages fuel plans runs l (foldl (apply_event plans runs) t page)
            (match last page with Some e => Envelope.seq e | None => last_ end) (count + length page)
      end
  end.
Definition backfill_from_events (plans : PlanTables) (runs : RunTables) (l : EventLog) (t : ActivityTable)
  : option (nat * ActivityTable) :=
  backfill_pages (S (length (EventStore.rows l))) plans runs l t (last_backfilled_seq t) 0.
End Repo.
End ActivityRepo.
Abbreviation ActivityTable := ActivityRepo.ActivityTable.

(** ** Facts *)
Module ActivityFacts.
  Import ActivityRepo EventStore EventLogSpec EventLogFacts.

Section Facts.
Context (display : N -> Str) (serde : Serde) (plans : PlanTables) (runs : RunTables).

Abbreviation apply := (apply_event display serde plans runs).

(** A merge of an event: the task whose row it changes, and how. *)
Definition merge_of (e : EventEnvelope) : option (TaskId * (Activity -> Activity)) :=
  match Envelope.payload e with
  | Event.TaskClosed task _ _ => Some (task, fun a => a <| Activity.verb := Verb.Closed |>)
  | Event.TaskReopened task _ _ => Some (task, fun a => a <| Activity.verb := Verb.Reopened |>)
  | Event.TaskCommented task _ _ preview =>
      Some (task, fun a => a <| Activity.verb := Verb.Commented |> <| Activity.new_value := Some preview |>)
  | _ => None
  end.

(** A merge keeps what rows are found by, and repeating it changes nothing. *)
Lemma merge_spec e task f :
  merge_of e = Some (task, f) ->
  forall a, Activity.task_id (f a) = Activity.task_id a /\ Activity.seq (f a) = Activity.seq a /\
            Activity.event_id (f a) = Activity.event_id a /\ f (f a) = f a.
Proof. unfold merge_of. destruct (Envelope.payload e); try done; intros [= <- <-] a; by destruct a. Qed.

Definition row_of (e : EventEnvelope) (a : Activity) : Prop :=
  Activity.event_id a = Envelope.id e /\ Activity.seq a = Envelope.seq e.
Lemma apply_merge t e task f :
  merge_of e = Some (task, f) ->
  if existsb (at_seq task (prev_seq e)) t
  then apply t e = map (fun a => if at_seq task (prev_seq e) a then f a else a) t
  else exists a, row_of e a /\ apply t e = insert_row t a.
Proof.
  unfold apply_event, semantic_event, merge_of, try_update_verb_at_seq, try_update_commented_at_seq,
    try_update_at_seq.
  destruct (Envelope.payload e); try done; intros [= <- <-];
    (destruct (existsb _ t); cbn [default]; [done|eexists; split; [|reflexivity]; done]).
Qed.
Lemma apply_plain e :
  merge_of e = None ->
  (forall t, exists a, row_of e a /\ apply t e = insert_row t a) \/ (forall t, apply t e = t).
Proof.
  unfold apply_event, semantic_event, merge_of, plain_row, task_event_row, project_event_row,
    plan_event_row, run_event_row, relation_event_row.
  destruct (Envelope.payload e); try done; intros _; cbn [or_else]; try (by right);
    left; intros t; try destruct (PlanPatch.parent_plan_id _); cbn [or_else]; eexists; (split; [|reflexivity]); done.
Qed.

Lemma at_seq_merged e task f s' s a task' :
  merge_of e = Some (task, f) ->
  at_seq task' s' (if at_seq task s a then f a else a) = at_seq task' s' a.
Proof.
  intros Hm. destruct (at_seq task s a); [|done]. unfold at_seq.
  by destruct (merge_spec _ _ _ Hm a) as (-> & -> & _).
Qed.
Lemma existsb_merged e task f s' s task' t :
  merge_of e = Some (task, f) ->
  existsb (at_seq task' s') (map (fun a => if at_seq task s a then f a else a) t) =
  existsb (at_seq task' s') t.
Proof.
  intros Hm. induction t as [|a t IH]; cbn [map existsb]; [done|]. by rewrite IH, (at_seq_merged _ _ _ _ _ _ _ Hm).
Qed.

(** What makes applying an event again a no-op: it does nothing at all, its row
    is there, or the rows it merges into are as it left them. *)
Definition settled (t : ActivityTable) (e : EventEnvelope) : Prop :=
  (merge_of e = None /\ forall t', apply t' e = t') \/
  exists task f, merge_of e = Some (task, f) /\ existsb (at_seq task (prev_seq e)) t = true /\
    forall a, a ∈ t -> at_seq task (prev_seq e) a = true -> f a = a.
Definition has_row (t : ActivityTable) (e : EventEnvelope) : Prop :=
  exists a, a ∈ t /\ Activity.seq a = Envelope.seq e.

Lemma settled_again t e : settled t e -> apply t e = t.
Proof.
  intros [[_ H]|(task & f & Hm & Hex & Hf)]; [apply H|].
  pose proof (apply_merge t e task f Hm) as Ha. rewrite Hex in Ha. rewrite Ha.
  rewrite <- (map_id t) at 2. apply map_ext_in. intros x Hx%list_elem_of_In.
  destruct (at_seq _ _ x) eqn:E; [|done]. by apply Hf.
Qed.

(** The rows of a table come from the events before. *)
Definition known (t : ActivityTable) (es : list EventEnvelope) : Prop :=
  forall a, a ∈ t -> exists e, e ∈ es /\ row_of e a.

Lemma insert_new t a es e :
  known t es -> row_of e a -> Envelope.id e ∉ map Envelope.id es -> insert_row t a = t ++ [a].
Proof.
  intros Hk [Ha _] Hn. unfold insert_row. destruct (existsb _ t) eqn:E; [|done]. exfalso.
  apply existsb_exists in E as (x & Hx%list_elem_of_In & Heq%bool_decide_eq_true).
  destruct (Hk x Hx) as (e' & He' & Hi & _). apply Hn. rewrite <- Ha, <- Heq, Hi. by apply list_elem_of_fmap_2.
Qed.

Lemma apply_settles t e es :
  known t es -> Envelope.id e ∉ map Envelope.id es ->
  known (apply t e) (es ++ [e]) /\ (settled (apply t e) e \/ has_row (apply t e) e).
Proof.
  intros Hk Hn.
  assert (Hk' : known t (es ++ [e])).
  { intros x Hx. destruct (Hk x Hx) as (e' & He' & Hr). exists e'. split; [by apply elem_of_app; left|done]. }
  assert (Hins : forall a, row_of e a -> known (insert_row t a) (es ++ [e]) /\ has_row (insert_row t a) e).
  { intros a Ha. rewrite (insert_new _ _ _ _ Hk Ha Hn). split.
    - intros x [Hx| ->%list_elem_of_singleton]%elem_of_app; [by apply Hk'|].
      exists e. split; [apply elem_of_app; right; by left|done].
    - exists a. split; [apply elem_of_app; right; by left|by destruct Ha]. }
  destruct (merge_of e) as [[task f]|] eqn:Hm.
  - pose proof (apply_merge t e task f Hm) as Happ. destruct (existsb _ t) eqn:E.
    + rewrite Happ. split.
      * intros x (y & -> & Hy)%list_elem_of_fmap. destruct (Hk' y Hy) as (e' & He' & Hi & Hs). exists e'. split; [done|].
        destruct (at_seq _ _ y); [|done]. unfold row_of. by destruct (merge_spec _ _ _ Hm y) as (_ & -> & -> & _).
      * left. right. exists task, f. split; [done|]. split; [by rewrite (existsb_merged _ _ _ _ _ _ _ Hm)|].
        intros x (y & -> & _)%list_elem_of_fmap. rewrite (at_seq_merged _ _ _ _ _ _ _ Hm). intros ->.
        by apply (merge_spec _ _ _ Hm).
    + destruct Happ as (a & Ha & ->). destruct (Hins a Ha). auto.
  - destruct (apply_plain e Hm) as [H|H].
    + destruct (H t) as (a & Ha & ->). destruct (Hins a Ha). auto.
    + rewrite H. split; [done|]. left. by left.
Qed.

(** Later events leave an event settled, and its row in place. *)
Lemma settled_step t e e' :
  (0 < Envelope.seq e < Envelope.seq e')%Z -> settled t e -> settled (apply t e') e.
Proof.
  intros Hs [H|(task & f & Hm & Hex & Hf)]; [by left|]. right. exists task, f. split; [done|].
  assert (Hins : forall a, row_of e' a ->
    existsb (at_seq task (prev_seq e)) (insert_row t a) = true /\
    forall x, x ∈ insert_row t a -> at_seq task (prev_seq e) x = true -> f x = x).
  { intros a [_ Ha]. unfold insert_row.
    destruct (existsb (fun x => bool_decide (Activity.event_id x = _)) t); [by split|]. split.
    - rewrite existsb_app, Hex. done.
    - intros x [Hx| ->%list_elem_of_singleton]%elem_of_app; [by apply Hf|].
      unfold at_seq, prev_seq. rewrite Ha. intros [_ H%Z.eqb_eq]%andb_prop. lia. }
  destruct (merge_of e') as [[task' f']|] eqn:Hm'.
  - pose proof (apply_merge t e' task' f' Hm') as Happ.
    destruct (existsb (at_seq task' _) t); [|destruct Happ as (a & Ha & ->); by apply Hins].
    rewrite Happ. split; [by rewrite (existsb_merged _ _ _ _ _ _ _ Hm')|].
    intros x (y & -> & Hy)%list_elem_of_fmap. rewrite (at_seq_merged _ _ _ _ _ _ _ Hm').
    intros Hat. destruct (at_seq task' (prev_seq e') y) eqn:E; [|by apply Hf]. exfalso. revert Hat E.
    unfold at_seq, prev_seq. intros [_ H1%Z.eqb_eq]%andb_prop [_ H2%Z.eqb_eq]%andb_prop. lia.
  - destruct (apply_plain e' Hm') as [H|H]; [|by rewrite H].
    destruct (H t) as (a & Ha & ->). by apply Hins.
Qed.

Lemma has_row_step t e e' : has_row t e -> has_row (apply t e') e.
Proof.
  intros (a & Ha & Hs).
  assert (Hins : forall r, has_row (insert_row t r) e).
  { intros r. exists a. split; [|done]. unfold insert_row. destruct (existsb _ t); [done|].
    apply elem_of_app. by left. }
  destruct (merge_of e') as [[task f]|] eqn:Hm.
  - pose proof (apply_merge t e' task f Hm) as Happ.
    destruct (existsb _ t); [|destruct Happ as (r & _ & ->); apply Hins]. rewrite Happ.
    exists (if at_seq task (prev_seq e') a then f a else a). split.
    { apply list_elem_of_fmap. by exists a. }
    destruct (at_seq task _ a); [|done]. by destruct (merge_spec _ _ _ Hm a) as (_ & -> & _).
  - destruct (apply_plain e' Hm) as [H|H]; [|rewrite H; by exists a].
    destruct (H t) as (r & _ & ->). apply Hins.
Qed.

(** After a prefix of the log, each of its events has its row or is settled. *)
Lemma live_prefix es :
  StronglySorted (fun a b => Envelope.seq a < Envelope.seq b)%Z es ->
  Forall (fun e => 0 < Envelope.seq e)%Z es -> NoDup (map Envelope.id es) ->
  known (foldl apply [] es) es /\
  Forall (fun e => settled (foldl apply [] es) e \/ has_row (foldl apply [] es) e) es.
Proof.
  induction es as [|e es IH] using rev_ind; intros Hs Hp Hd; [split; [by intros a ?%not_elem_of_nil|done]|].
  rewrite foldl_app. cbn. apply Forall_app in Hp as [Hp _].
  rewrite map_app in Hd. apply NoDup_app in Hd as (Hd & Hne & _).
  apply StronglySorted_app in Hs as (Hlt & Hs & _). destruct (IH Hs Hp Hd) as [Hk Hf].
  destruct (apply_settles _ e _ Hk) as [Hk' He']; [intros Hin; apply (Hne _ Hin); by left|].
  split; [done|]. apply Forall_app. split; [|by rewrite Forall_singleton].
  rewrite Forall_forall in Hf, Hp |- *. intros x Hx.
  destruct (Hf x Hx) as [H|H]; [left|right; by apply has_row_step].
  apply settled_step; [|done]. split; [by apply Hp|apply Hlt; [done|by left]].
Qed.

(** Applying the events a prefix has left settled changes nothing. *)
Lemma settled_all t es : Forall (settled t) es -> foldl apply t es = t.
Proof. induction es as [|e es IH]; intros Hf; cbn; [done|]. apply Forall_cons in Hf as [He Hf]. rewrite settled_again; auto. Qed.

Lemma backfill_pages_all fuel l t since count :
  wf l -> (length (List.filter (fun e => since <? Envelope.seq e)%Z (rows l)) < fuel)%nat ->
  backfill_pages display serde fuel plans runs l t since count =
  let es := List.filter (fun e => since <? Envelope.seq e)%Z (rows l) in
  Some ((count + length es)%nat, foldl apply t es).
Proof.
  intros Hwf. revert t since count. induction fuel as [|fuel IH]; intros t since count Hf; [lia|]. cbn [backfill_pages].
  destruct (load_since l since BACKFILL_PAGE) as [|e0 page] eqn:P.
  { rewrite (page_empty l since BACKFILL_PAGE); [|apply Nat.ltb_lt; reflexivity|done]. cbn. by rewrite Nat.add_0_r. }
  destruct (last (e0 :: page)) as [e|] eqn:L; [|by apply last_None in L].
  rewrite <- P in L |- *. rewrite (page_rest _ _ _ _ Hwf L) in Hf |- *.
  rewrite P, length_app in Hf. cbn [length] in Hf. rewrite IH by lia. cbn.
  by rewrite foldl_app, length_app, Nat.add_assoc.
Qed.

(** The newest row of a table bounds the rows it has. *)
Lemma last_seq_bound t a : a ∈ t -> (Activity.seq a <= last_backfilled_seq t)%Z.
Proof.
  intros Ha. unfold last_backfilled_seq. assert (Hin : Activity.seq a ∈ map Activity.seq t) by (by apply list_elem_of_fmap_2).
  destruct (max_of (map Activity.seq t)) as [m|] eqn:E; [by apply (max_of_ge _ _ _ E)|].
  destruct t; [by apply not_elem_of_nil in Ha|]. unfold max_of in E. cbn in E. by destruct (foldr _ _ _).
Qed.
End Facts.
End ActivityFacts.

Section Backfill.
  Import ActivityRepo EventStore EventLogSpec ActivityFacts.

(** C38: the backfill at start-up is idempotent and complete.  Wherever the feed
    stands -- after the first [n] events of the log were projected -- the loop
    over pages ends, and leaves the feed exactly as projecting the whole log
    once would: events that had been merged into earlier rows are not applied
    again to any effect. *)
Theorem activity_backfill_completes display serde plans runs l n :
  wf l ->
  let apply := apply_event display serde plans runs in
  let t := foldl apply [] (take n (rows l)) in
  backfill_from_events display serde plans runs l t =
  Some (length (List.filter (fun e => last_backfilled_seq t <? Envelope.seq e)%Z (rows l)),
        foldl apply [] (rows l)).
Proof.
  intros Hwf apply t.
  pose proof (wf_sorted _ Hwf) as Hs. pose proof (wf_low _ Hwf) as Hlow. pose proof (wf_ids _ Hwf) as Hids.
  rewrite <- (take_drop n (rows l)) in Hs, Hlow, Hids. apply StronglySorted_app in Hs as (Hcross & Hs1 & _).
  apply Forall_app in Hlow as [Hl1 Hl2]. rewrite map_app in Hids. apply NoDup_app in Hids as (Hd1 & _ & _).
  destruct (live_prefix display serde plans runs (take n (rows l)) Hs1) as [Hk Hpre]; [|done|].
  { eapply Forall_impl; [exact Hl1|]. cbn. lia. }
  fold apply t in Hk, Hpre. unfold backfill_from_events. etrans; [apply (backfill_pages_all display serde plans runs (S _)); [done|]|].
  { pose proof (List.filter_length_le (fun e => last_backfilled_seq t <? Envelope.seq e)%Z (rows l)). lia. }
  cbn. f_equal. f_equal. rewrite <- (take_drop n (rows l)) at 1 2.
  rewrite List.filter_app, !foldl_app. fold apply t. unfold apply.
  rewrite (settled_all display serde plans runs t (List.filter _ (take n (rows l)))).
  - rewrite filter_all; [done|]. intros e He. apply Z.ltb_lt. unfold last_backfilled_seq.
    destruct (max_of (map Activity.seq t)) as [m|] eqn:E; cbn.
    + apply max_of_elem in E as (a & -> & Ha)%list_elem_of_fmap. destruct (Hk a Ha) as (e' & He' & _ & ->). by apply Hcross.
    + rewrite Forall_forall in Hl2. apply Hl2 in He. lia.
  - apply Forall_forall. intros e. rewrite list_elem_of_In, filter_In, <- list_elem_of_In. intros [He Hgt%Z.ltb_lt].
    rewrite Forall_forall in Hpre. destruct (Hpre e He) as [H|(a & Ha & Hseq)]; [done|].
    apply last_seq_bound in Ha. lia.
Qed.
End Backfill.

Definition demo_serde : Serde :=
  mkSerde (fun _ => lit "{}") (fun _ => lit "{}") (fun _ => lit "{}") (fun _ => lit "{}") (fun _ => lit "") (fun _ => false).
Definition feed_batch : list EventEnvelope :=
  [demo_env 1 10 (Event.TaskStatusChanged (mkId 9) InProgress Done);
   demo_env 2 10 (Event.TaskClosed (mkId 9) ActorOps.user 10);
   demo_env 3 20 (Event.TaskDeleted (mkId 9))].
Definition feed_log : EventLog := (EventStore.append_batch EventStore.empty feed_batch).2.

Lemma feed_log_wf : EventLogSpec.wf feed_log.
Proof.
  refine (EventLogFacts.append_all_wf EventStore.empty feed_batch _ _ wf_empty_log _).
  vm_compute. reflexivity.
Qed.

(** A crash after two of three events: the merged row is the only one so far. *)
Lemma activity_backfill_completes_witness :
  EventLogSpec.wf feed_log /\
  (exists count t, ActivityRepo.backfill_from_events (fun _ => []) demo_serde PlanRepo.empty RunRepo.empty feed_log
     (foldl (ActivityRepo.apply_event (fun _ => []) demo_serde PlanRepo.empty RunRepo.empty) []
        (take 2 (EventStore.rows feed_log))) = Some (count, t) /\ length t = 2%nat /\ count = 2%nat).
Proof.
  split; [apply feed_log_wf|]. do 2 eexists.
  split; [apply (activity_backfill_completes (fun _ => []) demo_serde PlanRepo.empty RunRepo.empty feed_log 2 feed_log_wf)|].
  split; vm_compute; reflexivity.
Defined.
