(* ===== verification/ClaimStore.v ===== *)
(** * storage/claim_repo.rs: exclusive task claims with a time to live

    Table [agent_claims] (primary key [(agent_id, task_id)], [claim_id] unique)
    and [run_claim_owners].  A claim is live while [expires_at >= now].  The
    compare-and-set insert, the generation-conditional releases, the sweep and
    the transactions that tie claim clean-up to a run's, a plan's or a task's
    end are modelled with the events they append.  Each operation receives the
    clock value it read ([now]), which may be older than the instant at which
    its statement takes SQLite's write lock. *)

From S2P Require Import Prelude Shared TaskModel PlanModel RegistryModel Events TaskStore PlanStore RunStore.

Module ClaimRow.
Record ClaimRow : Type := mk {
  agent_id : AgentId;
  task_id : TaskId;
  acquired_at : Z;
  expires_at : Z;
  run_id : option RunId;
  claim_id : ClaimId }.
#[global] Instance ClaimRow_rebuild : Rebuild ClaimRow := fun r =>
  mk (agent_id r) (task_id r) (acquired_at r) (expires_at r) (run_id r) (claim_id r).
#[global] Instance ClaimRow_eq_dec : EqDecision ClaimRow.
Proof. solve_decision. Defined.
End ClaimRow.
Abbreviation ClaimRow := ClaimRow.ClaimRow.

Module ClaimRepo.
Abbreviation ClaimKey := (AgentId * TaskId)%type.
Abbreviation ClaimTable := (gmap (AgentId * TaskId) ClaimRow).

Inductive ClaimOutcome : Type :=
| Acquired (expires_at : Z) (claim_id : ClaimId)
| Busy (holder : AgentId) (expires_at : Z).

(** ** Queries *)
Definition live (now : Z) (r : ClaimRow) : bool := (now <=? ClaimRow.expires_at r)%Z.

Definition rows (t : ClaimTable) : list ClaimRow := (map_to_list t).*2.

(** [ORDER BY expires_at DESC]. *)
Definition by_expiry (a b : ClaimRow) : bool :=
  (ClaimRow.expires_at b <=? ClaimRow.expires_at a)%Z.

Definition live_on (t : ClaimTable) (now : Z) (task : TaskId) : list ClaimRow :=
  sort_by by_expiry
    (List.filter (fun r => bool_decide (ClaimRow.task_id r = task) && live now r) (rows t)).

Definition get_active_for_task (t : ClaimTable) (now : Z) (task : TaskId) : option ClaimRow :=
  head (live_on t now task).

Definition is_claimed (t : ClaimTable) (now : Z) (task : TaskId) : option (AgentId * Z) :=
  option_map (fun r => (ClaimRow.agent_id r, ClaimRow.expires_at r))
             (get_active_for_task t now task).

Definition others_live (t : ClaimTable) (now : Z) (task : TaskId) (agent : AgentId)
  : list ClaimRow :=
  List.filter (fun r => negb (bool_decide (ClaimRow.agent_id r = agent))) (live_on t now task).

Definition is_claimed_by_other (t : ClaimTable) (now : Z) (task : TaskId) (agent : AgentId)
  : option AgentId :=
  option_map ClaimRow.agent_id (head (others_live t now task agent)).

Definition get_agents_claiming_task (t : ClaimTable) (now : Z) (task : TaskId) : list AgentId :=
  map ClaimRow.agent_id
    (List.filter (fun r => bool_decide (ClaimRow.task_id r = task) && live now r) (rows t)).

Definition list_active (t : ClaimTable) (tasks : TaskTable) (now : Z)
    (project : option ProjectId) : list ClaimRow :=
  sort_by (fun a b => (ClaimRow.acquired_at a <=? ClaimRow.acquired_at b)%Z)
    (List.filter (fun r =>
       live now r &&
       match project with
       | None => true
       | Some p => match TaskRepo.get tasks (ClaimRow.task_id r) with
                   | Some x => bool_decide (Task.project_id x = Some p)
                   | None => false
                   end
       end) (rows t)).

(** ** The compare-and-set insert

    [INSERT ... SELECT ... WHERE NOT EXISTS (live claim of another agent) ON
    CONFLICT(agent_id, task_id) DO UPDATE]: [None] when no row was written. *)
Definition claim_id_taken (t : ClaimTable) (key : ClaimKey) (claim : ClaimId) : bool :=
  existsb (fun r => bool_decide (ClaimRow.claim_id r = claim)
                    && negb (bool_decide ((ClaimRow.agent_id r, ClaimRow.task_id r) = key)))
          (rows t).

Definition cas_insert (t : ClaimTable) (now : Z) (row : ClaimRow)
  : Result CoreError (option ClaimTable) :=
  let key := (ClaimRow.agent_id row, ClaimRow.task_id row) in
  match others_live t now (ClaimRow.task_id row) (ClaimRow.agent_id row) with
  | _ :: _ => Ok None
  | [] =>
      if claim_id_taken t key (ClaimRow.claim_id row)
      then Err (Storage "UNIQUE constraint failed: agent_claims.claim_id")
      else
        let row := match t !! key with
                   | None => row
                   | Some old =>
                       row <| ClaimRow.run_id :=
                         if live now old && bool_decide (ClaimRow.run_id row = None)
                         then ClaimRow.run_id old else ClaimRow.run_id row |>
                   end in
        Ok (Some (<[key := row]> t))
  end.

Definition busy (t : ClaimTable) (now : Z) (task : TaskId) (agent : AgentId) (expires : Z)
  : ClaimOutcome :=
  match is_claimed t now task with
  | Some (holder, exp) => Busy holder exp
  | None => Busy agent expires
  end.

Definition try_acquire (t : ClaimTable) (now : Z) (fresh : ClaimId) (agent : AgentId)
    (task : TaskId) (ttl : Z) : Result CoreError (ClaimOutcome * ClaimTable) :=
  let expires_at := (now + ttl)%Z in
  rbind (cas_insert t now (ClaimRow.mk agent task now expires_at None fresh)) (fun r =>
  match r with
  | Some t' => Ok (Acquired expires_at fresh, t')
  | None => Ok (busy t now task agent expires_at, t)
  end).

(** [acquire_until], used when an [AgentClaimed] event is projected: inserted
    only while it has not expired, and an existing row of the agent is
    refreshed only by its own generation. *)
Definition acquire_until (t : ClaimTable) (now : Z) (agent : AgentId) (task : TaskId)
    (claim : ClaimId) (expires_at : Z) : Result CoreError ClaimTable :=
  if (now <? expires_at)%Z then
    match others_live t now task agent with
    | _ :: _ => Ok t
    | [] =>
        match t !! (agent, task) with
        | None =>
            if claim_id_taken t (agent, task) claim
            then Err (Storage "UNIQUE constraint failed: agent_claims.claim_id")
            else Ok (<[(agent, task) := ClaimRow.mk agent task now expires_at None claim]> t)
        | Some old =>
            if claim_id_taken t (agent, task) claim
            then Err (Storage "UNIQUE constraint failed: agent_claims.claim_id")
            else if bool_decide (ClaimRow.claim_id old = claim)
            then Ok (<[(agent, task) :=
                        old <| ClaimRow.acquired_at := now |>
                            <| ClaimRow.expires_at := expires_at |>]> t)
            else Ok t
        end
    end
  else Ok t.

(** ** Releases *)
Definition release (t : ClaimTable) (agent : AgentId) (task : TaskId) : ClaimTable :=
  delete (agent, task) t.

(** [DELETE ... WHERE agent_id = ? AND task_id = ? AND claim_id = ?]. *)
Definition delete_generation (t : ClaimTable) (agent : AgentId) (task : TaskId)
    (claim : ClaimId) : bool * ClaimTable :=
  match t !! (agent, task) with
  | Some r => if bool_decide (ClaimRow.claim_id r = claim)
              then (true, delete (agent, task) t) else (false, t)
  | None => (false, t)
  end.

Definition released_event (r : ClaimRow) : Event :=
  Event.AgentReleased (ClaimRow.agent_id r) (ClaimRow.task_id r) (Some (ClaimRow.claim_id r)).

Definition release_recorded (t : ClaimTable) (agent : AgentId) (task : TaskId)
    (claim : ClaimId) : option Event * ClaimTable :=
  match delete_generation t agent task claim with
  | (true, t') => (Some (Event.AgentReleased agent task (Some claim)), t')
  | (false, t') => (None, t')
  end.

(** The loop over selected rows: delete each generation that is still there
    and remember the ones deleted. *)
Fixpoint delete_rows (t : ClaimTable) (selected : list ClaimRow)
  : list ClaimRow * ClaimTable :=
  match selected with
  | [] => ([], t)
  | r :: rs =>
      let '(deleted, t) :=
        delete_generation t (ClaimRow.agent_id r) (ClaimRow.task_id r) (ClaimRow.claim_id r) in
      let '(released, t) := delete_rows t rs in
      (if deleted then r :: released else released, t)
  end.

Definition select (t : ClaimTable) (where_ : ClaimRow -> bool) : list ClaimRow :=
  List.filter where_ (rows t).

Definition apply_event (t : ClaimTable) (now : Z) (e : Event) : Result CoreError ClaimTable :=
  match e with
  | Event.AgentClaimed agent task (Some claim) expires_at =>
      acquire_until t now agent task claim expires_at
  | Event.AgentClaimed _ _ None _ => Ok t
  | Event.AgentReleased agent task (Some claim) => Ok (delete_generation t agent task claim).2
  | Event.AgentReleased agent task None => Ok (release t agent task)
  | Event.TaskClosed _ _ _ | Event.TaskReopened _ _ _ | Event.TaskDeleted _ => Ok t
  | _ => Ok t
  end.

(** [sweep_expired_recorded]: the rows are selected first; the table may have
    changed ([t']) when the deletes run, each conditional on its generation
    and on the row still being expired. *)
Fixpoint sweep_rows (t : ClaimTable) (now : Z) (selected : list ClaimRow)
  : list Event * ClaimTable :=
  match selected with
  | [] => ([], t)
  | r :: rs =>
      let key := (ClaimRow.agent_id r, ClaimRow.task_id r) in
      match t !! key with
      | Some c =>
          if bool_decide (ClaimRow.claim_id c = ClaimRow.claim_id r) && negb (live now c)
          then let '(es, t) := sweep_rows (delete key t) now rs in (released_event r :: es, t)
          else sweep_rows t now rs
      | None => sweep_rows t now rs
      end
  end.

Definition select_expired (t : ClaimTable) (now : Z) : list ClaimRow :=
  select t (fun r => negb (live now r)).

Definition sweep_expired (t : ClaimTable) (now : Z) : list (AgentId * TaskId) * ClaimTable :=
  (map (fun r => (ClaimRow.agent_id r, ClaimRow.task_id r)) (select_expired t now),
   filter (fun '(_, r) => live now r = true) t).

(** ** Task lifecycle

    Claims on a task that is closed or deleted end with the event batch. *)
Definition cleanup_tasks (envelopes : list EventEnvelope) : list TaskId :=
  fold_left (fun acc e =>
    match Envelope.payload e with
    | Event.TaskClosed task _ _ | Event.TaskDeleted task =>
        if bool_decide (task ∈ acc) then acc else acc ++ [task]
    | _ => acc
    end) envelopes [].

Fixpoint cleanup (t : ClaimTable) (tasks : list TaskId) : list ClaimRow * ClaimTable :=
  match tasks with
  | [] => ([], t)
  | task :: tasks =>
      let '(r1, t) :=
        delete_rows t (select t (fun r => bool_decide (ClaimRow.task_id r = task))) in
      let '(r2, t) := cleanup t tasks in
      (r1 ++ r2, t)
  end.

(** [wrap] is [EventEnvelope::new(actor, _)]. *)
Definition record_task_lifecycle (wrap : Event -> EventEnvelope) (t : ClaimTable)
    (envelopes : list EventEnvelope) : list EventEnvelope * ClaimTable :=
  let '(released, t) := cleanup t (cleanup_tasks envelopes) in
  (envelopes ++ map (fun r => wrap (released_event r)) released, t).
End ClaimRepo.
Abbreviation ClaimTable := ClaimRepo.ClaimTable.

(** ** Claims and runs *)
Module RunClaims.
  Import ClaimRepo.

Abbreviation OwnerTable := (gmap RunId AgentId).

Definition run_owner (o : OwnerTable) (run : RunId) : option AgentId := o !! run.

(** [validated_run_plan_id] on the joined row. *)
Definition resolve_run_assignment (runs : RunTables) (plans : PlanTables) (o : OwnerTable)
    (agent : AgentId) (run : RunId) : Result CoreError PlanId :=
  match RunRepo.get runs run with
  | None => Err (NotFound "run {run_id}")
  | Some r =>
      match PlanRepo.get plans (Run.plan_id r) with
      | None => Err (NotFound "run {run_id}")
      | Some p =>
          if negb (bool_decide (Run.status r = RunActive))
          then Err (Conflict "run is not active")
          else if negb (bool_decide (Plan.status p = Active))
          then Err (Conflict "run plan is not active")
          else if negb (bool_decide (o !! run = Some agent))
          then Err (Forbidden "run has no matching authenticated owner")
          else Ok (Run.plan_id r)
      end
  end.

Definition validate_run_assignment (runs : RunTables) (plans : PlanTables) (o : OwnerTable)
    (agent : AgentId) (run : RunId) (plan : PlanId) : Result CoreError unit :=
  rbind (resolve_run_assignment runs plans o agent run) (fun actual =>
  if negb (bool_decide (actual = plan))
  then Err (Conflict "run belongs to a different plan") else Ok tt).

Definition check_claimable (tasks : TaskTable) (task : TaskId) : Result CoreError unit :=
  match TaskRepo.get tasks task with
  | None => Err (NotFound "task {task_id}")
  | Some x => if is_terminal (Task.status x)
              then Err (Conflict "terminal task cannot be claimed") else Ok tt
  end.

(** [try_acquire_bound_recorded]: checks and compare-and-set in one
    transaction, with the audit event. *)
Definition try_acquire_bound_recorded (t : ClaimTable) (tasks : TaskTable) (runs : RunTables)
    (plans : PlanTables) (o : OwnerTable) (now : Z) (agent : AgentId) (task : TaskId)
    (claim : ClaimId) (expires_at : Z) (run : option (RunId * PlanId))
  : Result CoreError (ClaimOutcome * option Event * ClaimTable) :=
  rbind (check_claimable tasks task) (fun _ =>
  rbind (match run with
         | Some (run, plan) => validate_run_assignment runs plans o agent run plan
         | None => Ok tt
         end) (fun _ =>
  rbind (cas_insert t now (ClaimRow.mk agent task now expires_at (fst <$> run) claim)) (fun r =>
  match r with
  | Some t' =>
      Ok (Acquired expires_at claim,
          Some (Event.AgentClaimed agent task (Some claim) expires_at), t')
  | None => Ok (busy t now task agent expires_at, None, t)
  end))).

Definition record_run_started (o : OwnerTable) (owner : AgentId)
    (envelopes : list EventEnvelope) : Result CoreError OwnerTable :=
  match head (omap (fun e => match Envelope.payload e with
                             | Event.RunStarted run => Some (Run.id run)
                             | _ => None
                             end) envelopes) with
  | None => Err (Validation "expected RunStarted event")
  | Some run =>
      match o !! run with
      | Some _ => Err (Storage "UNIQUE constraint failed: run_claim_owners.run_id")
      | None => Ok (<[run := owner]> o)
      end
  end.

Record RunClaimTables : Type := mk {
  claims : ClaimTable;
  run_tables : RunTables;
  owners : OwnerTable }.

Definition run_terminal_event (e : EventEnvelope) : option (RunId * RunStatus * Z * Str) :=
  match Envelope.payload e with
  | Event.RunFailed run reason at_ => Some (run, RunFailed, at_, reason)
  | Event.RunAborted run reason at_ => Some (run, RunAborted, at_, reason)
  | _ => None
  end.

(** The claims of a run: by [run_id]; for a run without owner row also the
    runless claims its agent took since the run started on its open steps. *)
Definition claims_of_run (t : RunClaimTables) (run : RunId) (r : Run) (owned : bool)
    (c : ClaimRow) : bool :=
  bool_decide (ClaimRow.run_id c = Some run)
  || (negb owned && bool_decide (ClaimRow.run_id c = None)
      && bool_decide (ClaimRow.agent_id c = Run.agent_id r)
      && (Run.started_at r <=? ClaimRow.acquired_at c)%Z
      && existsb (fun s => bool_decide (RunStep.task_id s = ClaimRow.task_id c)
                           && RunRepo.is_open s)
                 (RunRepo.steps_of (run_tables t) run)).

Definition record_run_terminal (wrap : Event -> EventEnvelope) (t : RunClaimTables)
    (agent : AgentId) (is_admin : bool) (envelopes : list EventEnvelope)
  : Result CoreError (list EventEnvelope * RunClaimTables) :=
  match head (omap run_terminal_event envelopes) with
  | None => Err (Validation "expected failed or aborted run event")
  | Some (run, status, ended_at, outcome) =>
      match RunRepo.get (run_tables t) run with
      | None => Err (NotFound "run {run_id}")
      | Some r =>
          if negb (bool_decide (Run.status r = RunActive))
          then Err (Conflict "run is not active")
          else
            let owner := owners t !! run in
            rbind (match owner with
                   | Some o => if is_admin || bool_decide (o = agent) then Ok tt
                               else Err (Forbidden "run is owned by another agent")
                   | None => if is_admin then Ok tt
                             else Err (Forbidden "run has no authenticated owner")
                   end) (fun _ =>
            let owned := match owner with Some _ => true | None => false end in
            let '(released, cl) :=
              delete_rows (claims t) (select (claims t) (claims_of_run t run r owned)) in
            Ok (envelopes ++ map (fun c => wrap (released_event c)) released,
                mk cl (RunRepo.set_ended (run_tables t) run status outcome ended_at)
                   (delete run (owners t))))
      end
  end.

(** The plan event that ends its runs, with the status and outcome they get;
    [now] is the clock read for a status change. *)
Definition plan_terminal_event (now : Z) (e : EventEnvelope)
  : option (PlanId * RunStatus * Str * Z) :=
  match Envelope.payload e with
  | Event.PlanArchived plan at_ => Some (plan, RunAborted, lit "plan_archived", at_)
  | Event.PlanDeleted plan at_ => Some (plan, RunAborted, lit "plan_deleted", at_)
  | Event.PlanStatusChanged plan _ Completed =>
      Some (plan, RunCompleted, lit "plan_completed", now)
  | Event.PlanStatusChanged plan _ Abandoned =>
      Some (plan, RunAborted, lit "plan_abandoned", now)
  | _ => None
  end.

Fixpoint end_runs (t : RunClaimTables) (ids : list RunId) (status : RunStatus)
    (reason : Str) (at_ : Z) : list ClaimRow * RunClaimTables :=
  match ids with
  | [] => ([], t)
  | run :: ids =>
      let '(released, cl) :=
        delete_rows (claims t)
          (select (claims t) (fun c => bool_decide (ClaimRow.run_id c = Some run))) in
      let t := mk cl (RunRepo.set_ended (run_tables t) run status reason at_)
                  (delete run (owners t)) in
      let '(more, t) := end_runs t ids status reason at_ in
      (released ++ more, t)
  end.

Definition record_plan_terminal (wrap : Event -> EventEnvelope) (now : Z) (t : RunClaimTables)
    (agent : option AgentId) (is_admin : bool) (envelopes : list EventEnvelope)
  : Result CoreError (list EventEnvelope * RunClaimTables) :=
  match head (omap (plan_terminal_event now) envelopes) with
  | None => Err (Validation "expected terminal plan event")
  | Some (plan, status, reason, ended_at) =>
      let ids := map Run.id (RunRepo.list_active_for_plan (run_tables t) plan) in
      let denied := match agent with
                    | Some a => negb is_admin
                                && existsb (fun run => negb (bool_decide (owners t !! run = Some a))) ids
                    | None => false
                    end in
      if denied
      then Err (Forbidden "plan termination requires ownership of every active run")
      else
        let '(released, t) := end_runs t ids status reason ended_at in
        Ok (envelopes ++ map (fun c => wrap (released_event c)) released, t)
  end.
End RunClaims.

(** ** Specification

    A claim table is a lock service: [holder] is the agent that holds a task at
    an instant.  [World] adds the clock; [step] lists the operations that may
    interleave, each with a clock reading that may be stale. *)
Module ClaimSpec.
  Import ClaimRepo RunClaims.

Definition row_key (r : ClaimRow) : ClaimKey := (ClaimRow.agent_id r, ClaimRow.task_id r).

Definition keyed (t : ClaimTable) : Prop := map_Forall (fun k r => k = row_key r) t.

(** At most one agent holds a live claim on a task. *)
Definition exclusive (c : Z) (t : ClaimTable) : Prop :=
  forall k1 k2 r1 r2, t !! k1 = Some r1 -> t !! k2 = Some r2 ->
    ClaimRow.task_id r1 = ClaimRow.task_id r2 ->
    live c r1 = true -> live c r2 = true -> k1 = k2.

Definition holder (c : Z) (t : ClaimTable) (task : TaskId) : option (AgentId * Z) :=
  is_claimed t c task.

Record World : Type := mkWorld { clock : Z; table : ClaimTable }.

Inductive step : World -> World -> Prop :=
| step_tick w c : (clock w <= c)%Z -> step w (mkWorld c (table w))
| step_acquire w now agent task ttl fresh out t' :
    (now <= clock w)%Z ->
    try_acquire (table w) now fresh agent task ttl = Ok (out, t') ->
    step w (mkWorld (clock w) t')
| step_acquire_recorded w now tasks runs plans o agent task claim expires run out ev t' :
    (now <= clock w)%Z ->
    try_acquire_bound_recorded (table w) tasks runs plans o now agent task claim expires run
      = Ok (out, ev, t') ->
    step w (mkWorld (clock w) t')
| step_project w now e t' :
    (now <= clock w)%Z -> apply_event (table w) now e = Ok t' ->
    step w (mkWorld (clock w) t')
| step_release w agent task claim :
    step w (mkWorld (clock w) (release_recorded (table w) agent task claim).2)
| step_sweep w now selected :
    (now <= clock w)%Z ->
    step w (mkWorld (clock w) (sweep_rows (table w) now selected).2)
| step_lifecycle w wrap envelopes :
    step w (mkWorld (clock w) (record_task_lifecycle wrap (table w) envelopes).2)
| step_run_end w wrap runs o agent admin envelopes es t' :
    record_run_terminal wrap (RunClaims.mk (table w) runs o) agent admin envelopes = Ok (es, t') ->
    step w (mkWorld (clock w) (claims t'))
| step_plan_end w wrap now runs o agent admin envelopes es t' :
    record_plan_terminal wrap now (RunClaims.mk (table w) runs o) agent admin envelopes
      = Ok (es, t') ->
    step w (mkWorld (clock w) (claims t')).
End ClaimSpec.

Module ClaimFacts.
  Import ClaimRepo RunClaims ClaimSpec.

Lemma elem_of_rows t r : r ∈ rows t <-> exists k, t !! k = Some r.
Proof.
  unfold rows. rewrite list_elem_of_fmap. split.
  - intros ([k r'] & -> & Hk%elem_of_map_to_list). eauto.
  - intros [k Hk]. exists (k, r). by rewrite elem_of_map_to_list.
Qed.

Lemma elem_of_live_on t c task r :
  r ∈ live_on t c task <->
  (exists k, t !! k = Some r) /\ ClaimRow.task_id r = task /\ live c r = true.
Proof.
  unfold live_on. rewrite elem_of_sort_by, list_elem_of_In, filter_In, <- list_elem_of_In,
    elem_of_rows, andb_true_iff, bool_decide_eq_true. done.
Qed.

Lemma elem_of_others t c task agent r :
  r ∈ others_live t c task agent <-> r ∈ live_on t c task /\ ClaimRow.agent_id r <> agent.
Proof.
  unfold others_live. rewrite list_elem_of_In, filter_In, <- list_elem_of_In, negb_true_iff,
    bool_decide_eq_false. done.
Qed.

Lemma others_nil t c task agent k r :
  others_live t c task agent = [] -> t !! k = Some r ->
  ClaimRow.task_id r = task -> live c r = true -> ClaimRow.agent_id r = agent.
Proof.
  intros Hn Hk Ht Hl. destruct (decide (ClaimRow.agent_id r = agent)) as [|Hne]; [done|].
  exfalso. apply (not_elem_of_nil r). rewrite <- Hn. apply elem_of_others. split; [|done].
  apply elem_of_live_on. eauto.
Qed.

Lemma live_mono c c' r : (c <= c')%Z -> live c' r = true -> live c r = true.
Proof. unfold live. rewrite !Z.leb_le. lia. Qed.

Lemma exclusive_mono c c' t : (c <= c')%Z -> exclusive c t -> exclusive c' t.
Proof. intros Hc Hx k1 k2 r1 r2 H1 H2 Ht Hl1 Hl2. eapply Hx; eauto using live_mono. Qed.

Lemma exclusive_sub c t t' : t' ⊆ t -> exclusive c t -> exclusive c t'.
Proof. intros Hs Hx k1 k2 r1 r2 H1 H2. eapply Hx; by eapply lookup_weaken. Qed.
Lemma keyed_sub t t' : t' ⊆ t -> keyed t -> keyed t'.
Proof. intros Hs Hk k r Hr. apply Hk. by eapply lookup_weaken. Qed.

(** Writing the row of an agent that no other live claim stands against. *)
Lemma insert_exclusive c now t row :
  (now <= c)%Z -> keyed t -> exclusive c t ->
  others_live t now (ClaimRow.task_id row) (ClaimRow.agent_id row) = [] ->
  exclusive c (<[row_key row := row]> t).
Proof.
  intros Hc Hk Hx Hn.
  assert (Hnew : forall k r, t !! k = Some r -> ClaimRow.task_id r = ClaimRow.task_id row ->
            live c r = true -> k = row_key row).
  { intros k r Hr Ht Hl. rewrite (Hk _ _ Hr). unfold row_key. f_equal; [|done].
    eapply others_nil; eauto using live_mono. }
  intros k1 k2 r1 r2 [[<- <-]|[_ H1]]%lookup_insert_Some [[<- <-]|[_ H2]]%lookup_insert_Some
    Ht Hl1 Hl2; [done|symmetry; by eapply Hnew|by eapply Hnew|by eapply Hx].
Qed.

Lemma insert_keyed t row : keyed t -> keyed (<[row_key row := row]> t).
Proof. intros Hk k r [[<- <-]|[_ Hr]]%lookup_insert_Some; [done|by apply Hk]. Qed.

(** What the compare-and-set writes when it writes. *)
Lemma cas_some t now row t' :
  cas_insert t now row = Ok (Some t') ->
  others_live t now (ClaimRow.task_id row) (ClaimRow.agent_id row) = [] /\
  exists row', row_key row' = row_key row /\ ClaimRow.expires_at row' = ClaimRow.expires_at row /\
    ClaimRow.claim_id row' = ClaimRow.claim_id row /\ t' = <[row_key row' := row']> t.
Proof.
  unfold cas_insert. destruct (others_live _ _ _ _); [|done].
  destruct (claim_id_taken _ _ _); [done|]. intros [= <-]. split; [done|].
  match goal with |- context [<[_ := ?x]> t] => exists x end.
  by destruct (t !! _).
Qed.

Lemma cas_none t now row :
  cas_insert t now row = Ok None ->
  exists r, r ∈ others_live t now (ClaimRow.task_id row) (ClaimRow.agent_id row).
Proof.
  unfold cas_insert. destruct (others_live _ _ _ _) as [|r l]; [|exists r; apply list_elem_of_here].
  by destruct (claim_id_taken _ _ _).
Qed.

Definition good (c : Z) (t : ClaimTable) : Prop := keyed t /\ exclusive c t.

Lemma good_sub c t t' : t' ⊆ t -> good c t -> good c t'.
Proof. intros Hs [? ?]. split; eauto using keyed_sub, exclusive_sub. Qed.

Lemma cas_good c now t row t' :
  (now <= c)%Z -> good c t -> cas_insert t now row = Ok (Some t') -> good c t'.
Proof.
  intros Hc [Hk Hx] (Hn & row' & Hkey & _ & _ & ->)%cas_some. injection Hkey as Ha Ht.
  split; [by apply insert_keyed|]. apply insert_exclusive with now; [done..|]. by rewrite Ha, Ht.
Qed.

Lemma acquire_until_good c now t agent task claim expires t' :
  (now <= c)%Z -> good c t -> acquire_until t now agent task claim expires = Ok t' -> good c t'.
Proof.
  intros Hc [Hk Hx]. unfold acquire_until. destruct (_ <? _)%Z; [|by intros [= <-]].
  destruct (others_live _ _ _ _) eqn:Hn; [|by intros [= <-]].
  destruct (t !! (agent, task)) as [old|] eqn:Ho.
  - destruct (claim_id_taken _ _ _); [done|]. case_bool_decide; [|by intros [= <-]].
    intros [= <-]. pose proof (Hk _ _ Ho) as Hkey. injection Hkey as -> ->.
    set (row := old <| ClaimRow.acquired_at := now |> <| ClaimRow.expires_at := expires |>).
    change (good c (<[row_key row := row]> t)).
    split; [by apply insert_keyed|by apply insert_exclusive with now].
  - destruct (claim_id_taken _ _ _); [done|]. intros [= <-].
    set (row := ClaimRow.mk agent task now expires None claim).
    change (good c (<[row_key row := row]> t)).
    split; [by apply insert_keyed|by apply insert_exclusive with now].
Qed.

(** ** Deletions only remove *)
Lemma delete_generation_sub t a k cl : (delete_generation t a k cl).2 ⊆ t.
Proof.
  unfold delete_generation. destruct (t !! _); [|done].
  case_bool_decide; cbn; [apply delete_subseteq|done].
Qed.

Lemma delete_rows_sub t sel : (delete_rows t sel).2 ⊆ t.
Proof.
  revert t. induction sel as [|r sel IH]; intros t; cbn; [done|].
  pose proof (delete_generation_sub t (ClaimRow.agent_id r) (ClaimRow.task_id r)
                (ClaimRow.claim_id r)) as H.
  destruct (delete_generation _ _ _ _) as [b t1]. specialize (IH t1).
  destruct (delete_rows t1 sel) as [rs t2]. cbn in *. by etrans.
Qed.

Lemma cleanup_sub t tasks : (cleanup t tasks).2 ⊆ t.
Proof.
  revert t. induction tasks as [|task tasks IH]; intros t; cbn; [done|].
  match goal with |- context [delete_rows t ?s] => pose proof (delete_rows_sub t s) as H end.
  destruct (delete_rows _ _) as [r1 t1]. specialize (IH t1).
  destruct (cleanup t1 tasks) as [r2 t2]. cbn in *. by etrans.
Qed.

Lemma sweep_rows_sub t now sel : (sweep_rows t now sel).2 ⊆ t.
Proof.
  revert t. induction sel as [|r sel IH]; intros t; cbn; [done|].
  destruct (t !! _) as [c|]; [|apply IH]. destruct (_ && _); [|apply IH].
  specialize (IH (delete (ClaimRow.agent_id r, ClaimRow.task_id r) t)).
  destruct (sweep_rows _ _ _) as [es t2]. cbn in *. etrans; [exact IH|apply delete_subseteq].
Qed.

Lemma end_runs_sub t ids s r a : claims (end_runs t ids s r a).2 ⊆ claims t.
Proof.
  revert t. induction ids as [|run ids IH]; intros t; cbn; [done|].
  match goal with |- context [delete_rows ?t ?s] => pose proof (delete_rows_sub t s) as H end.
  destruct (delete_rows _ _) as [r1 cl].
  match goal with |- context [end_runs ?t' ids s r a] => specialize (IH t') end.
  destruct (end_runs _ ids s r a) as [r2 t2]. cbn in *. by etrans.
Qed.

Lemma step_good w w' : step w w' -> good (clock w) (table w) -> good (clock w') (table w').
Proof.
  intros Hs Hg.
  destruct Hs as [w c Hc|w now agent task ttl fresh out t' Hnow Ha
    |w now tasks runs plans o agent task claim expires run out ev t' Hnow Ha
    |w now e t' Hnow Ha|w agent task claim|w now sel Hnow|w wrap envs
    |w wrap runs o agent admin envs es t' Ha|w wrap now runs o agent admin envs es t' Ha]; cbn in *.
  - destruct Hg as [? ?]. split; [done|by eapply exclusive_mono].
  - unfold try_acquire in Ha. apply rbind_ok in Ha as ([t1|] & Hc & [= <- <-]); [|done].
    by eapply cas_good.
  - unfold try_acquire_bound_recorded in Ha. apply rbind_ok in Ha as (? & _ & Ha).
    apply rbind_ok in Ha as (? & _ & Ha).
    apply rbind_ok in Ha as ([t1|] & Hc & [= <- <- <-]); [|done]. by eapply cas_good.
  - unfold apply_event in Ha. destruct e; try (by injection Ha as <-); destruct claim_id;
      try (by injection Ha as <-).
    + by eapply acquire_until_good.
    + injection Ha as <-. eapply good_sub; [apply delete_generation_sub|done].
    + injection Ha as <-. eapply good_sub; [apply delete_subseteq|done].
  - unfold release_recorded.
    pose proof (delete_generation_sub (table w) agent task claim) as Hsub.
    destruct (delete_generation _ _ _ _) as [[] t1]; cbn in *; by eapply good_sub.
  - eapply good_sub; [apply sweep_rows_sub|done].
  - unfold record_task_lifecycle.
    pose proof (cleanup_sub (table w) (cleanup_tasks envs)) as Hsub.
    destruct (cleanup _ _) as [rs t1]; cbn in *. by eapply good_sub.
  - unfold record_run_terminal in Ha. destruct (head _) as [[[[run st] at_] out]|]; [|done].
    cbn in Ha. destruct (RunRepo.get runs run) as [r|]; [|done]. destruct (negb _); [done|].
    apply rbind_ok in Ha as (? & _ & Ha).
    match type of Ha with context [delete_rows ?t ?s] =>
      pose proof (delete_rows_sub t s) as Hsub end.
    destruct (delete_rows _ _) as [rel cl]. injection Ha as <- <-. cbn in *. by eapply good_sub.
  - unfold record_plan_terminal in Ha. destruct (head _) as [[[[plan st] rs] at_]|]; [|done].
    destruct (match agent with Some _ => _ | None => _ end); [done|].
    match type of Ha with context [end_runs ?t ?i ?s ?r ?a] =>
      pose proof (end_runs_sub t i s r a) as Hsub end.
    destruct (end_runs _ _ _ _ _) as [rel t2]. injection Ha as <- <-. cbn in *. by eapply good_sub.
Qed.

Lemma reachable_good w w' :
  rtc step w w' -> good (clock w) (table w) -> good (clock w') (table w').
Proof. induction 1; eauto using step_good. Qed.

(** ** The holder of a task *)
Lemma holder_spec c t task a e :
  good c t ->
  holder c t task = Some (a, e) <->
  exists r, t !! (a, task) = Some r /\ live c r = true /\ ClaimRow.expires_at r = e.
Proof.
  intros [Hk Hx]. unfold holder, is_claimed, get_active_for_task.
  assert (Hin := fun r => elem_of_live_on t c task r). split.
  - destruct (live_on t c task) as [|r l]; [done|]. intros [= <- <-].
    destruct (proj1 (Hin r)) as ((k & Hr) & <- & Hl); [apply list_elem_of_here|].
    exists r. split; [|done]. pose proof (Hk _ _ Hr) as ->. done.
  - intros (r & Hr & Hl & <-). pose proof (Hk _ _ Hr) as Hkey. injection Hkey as Ha Ht.
    assert (Hr' : r ∈ live_on t c task) by (apply Hin; eauto).
    destruct (live_on t c task) as [|r' l] eqn:E; [by apply not_elem_of_nil in Hr'|].
    destruct (proj1 (Hin r')) as ((k' & Hk') & Ht' & Hl'); [apply list_elem_of_here|].
    assert ((a, task) = k') as <- by (eapply Hx; eauto; congruence).
    assert (r' = r) as -> by congruence. cbn. by rewrite Ha.
Qed.

Lemma holder_none c t task :
  good c t -> holder c t task = None <->
  forall a r, t !! (a, task) = Some r -> live c r = false.
Proof.
  intros Hg. split.
  - intros Hn a r Hr. destruct (live c r) eqn:Hl; [|done].
    assert (holder c t task = Some (a, ClaimRow.expires_at r)); [|congruence].
    apply holder_spec; eauto.
  - intros H. destruct (holder c t task) as [[a e]|] eqn:E; [|done].
    apply holder_spec in E as (r & Hr & Hl & _); [|done]. by rewrite (H _ _ Hr) in Hl.
Qed.

Lemma holder_insert_other c t row task :
  good c t -> good c (<[row_key row := row]> t) -> task <> ClaimRow.task_id row ->
  holder c (<[row_key row := row]> t) task = holder c t task.
Proof.
  intros Hg Hg' Hne. apply option_eq. intros [a e]. rewrite !holder_spec by done.
  rewrite lookup_insert_ne; [done|]. intros [= _ ?]. by apply Hne.
Qed.

(** ** The rows a selection deletes *)
Lemma elem_of_claims_select t p r : r ∈ select t p <-> (exists k, t !! k = Some r) /\ p r = true.
Proof.
  unfold select. by rewrite list_elem_of_In, filter_In, <- list_elem_of_In, elem_of_rows.
Qed.

Lemma NoDup_row_keys t : keyed t -> NoDup (map row_key (rows t)).
Proof.
  intros Hk. unfold rows. rewrite map_map.
  assert (Hm : map (fun x => row_key x.2) (map_to_list t) = (map_to_list t).*1).
  { apply map_ext_in. intros [k r] Hin%list_elem_of_In%elem_of_map_to_list. symmetry. by apply Hk. }
  change (NoDup (map (fun x => row_key x.2) (map_to_list t))). rewrite Hm.
  apply NoDup_fst_map_to_list.
Qed.

Lemma delete_rows_spec t sel :
  NoDup (map row_key sel) -> (forall r, r ∈ sel -> t !! row_key r = Some r) ->
  (delete_rows t sel).1 = sel /\
  forall k, (delete_rows t sel).2 !! k = if bool_decide (k ∈ map row_key sel) then None else t !! k.
Proof.
  revert t. induction sel as [|r sel IH]; intros t Hnd Hin; cbn [delete_rows].
  { split; [done|]. intros k. by rewrite bool_decide_eq_false_2 by apply not_elem_of_nil. }
  cbn in Hnd. apply NoDup_cons in Hnd as [Hr Hnd].
  pose proof (Hin r (list_elem_of_here _ _)) as Hlk. unfold row_key in Hlk.
  unfold delete_generation. rewrite Hlk, bool_decide_eq_true_2 by done.
  change (ClaimRow.agent_id r, ClaimRow.task_id r) with (row_key r).
  destruct (IH (delete (row_key r) t) Hnd) as [H1 H2].
  { intros r' Hr'. rewrite lookup_delete_ne.
    - apply Hin. by apply list_elem_of_further.
    - intros Heq. apply Hr. rewrite Heq. by apply list_elem_of_fmap_2. }
  destruct (delete_rows _ sel) as [rel t2]. cbn in *. split; [by rewrite H1|].
  intros k. rewrite H2. destruct (decide (k = row_key r)) as [->|Hne].
  - rewrite lookup_delete_eq. rewrite (bool_decide_eq_true_2 (row_key r ∈ _ :: _)) by set_solver.
    by case_bool_decide.
  - rewrite lookup_delete_ne by done.
    by rewrite (bool_decide_ext (k ∈ row_key r :: _) (k ∈ map row_key sel)) by set_solver.
Qed.

(** Deleting what a predicate selects: the rows that satisfy it go, and only
    they, and each is reported once. *)
Lemma delete_selected t p :
  keyed t ->
  (delete_rows t (select t p)).1 = select t p /\
  forall k, (delete_rows t (select t p)).2 !! k =
    match t !! k with Some r => if p r then None else Some r | None => None end.
Proof.
  intros Hk. destruct (delete_rows_spec t (select t p)) as [H1 H2].
  - apply NoDup_map_filter, NoDup_row_keys, Hk.
  - intros r [[k Hr] _]%elem_of_claims_select. by rewrite <- (Hk _ _ Hr).
  - split; [done|]. intros k. rewrite H2. destruct (t !! k) as [r|] eqn:Hr.
    + destruct (p r) eqn:Hp.
      * rewrite bool_decide_eq_true_2; [done|]. rewrite (Hk _ _ Hr).
        apply list_elem_of_fmap_2, elem_of_claims_select. eauto.
      * rewrite bool_decide_eq_false_2; [done|].
        intros (r' & Heq & [[k' Hr'] Hp']%elem_of_claims_select)%list_elem_of_fmap.
        rewrite Heq, <- (Hk _ _ Hr') in Hr. congruence.
    + by case_bool_decide.
Qed.

Lemma cleanup_spec t tasks :
  keyed t ->
  forall k, (cleanup t tasks).2 !! k = if bool_decide (k.2 ∈ tasks) then None else t !! k.
Proof.
  revert t. induction tasks as [|task tasks IH]; intros t Hk k; cbn [cleanup].
  { by rewrite bool_decide_eq_false_2 by apply not_elem_of_nil. }
  destruct (delete_selected t (fun r => bool_decide (ClaimRow.task_id r = task)) Hk) as [_ H2].
  pose proof (delete_rows_sub t (select t (fun r => bool_decide (ClaimRow.task_id r = task)))) as Hs.
  destruct (delete_rows t _) as [r1 t1]. cbn in H2, Hs.
  specialize (IH t1 (keyed_sub _ _ Hs Hk) k). destruct (cleanup t1 tasks) as [r2 t2]. cbn in *.
  rewrite IH, H2. destruct (t !! k) as [r|] eqn:Hr; [|by repeat case_bool_decide].
  pose proof (Hk _ _ Hr) as Hkey.
  assert (Ht : k.2 = ClaimRow.task_id r) by (by rewrite Hkey).
  repeat case_bool_decide; try done; exfalso; set_solver.
Qed.

Lemma cleanup_released t tasks r :
  keyed t -> r ∈ (cleanup t tasks).1 ->
  t !! row_key r = Some r /\ ClaimRow.task_id r ∈ tasks.
Proof.
  revert t. induction tasks as [|task tasks IH]; intros t Hk; cbn [cleanup].
  { by intros ?%not_elem_of_nil. }
  destruct (delete_selected t (fun r => bool_decide (ClaimRow.task_id r = task)) Hk) as [H1 _].
  pose proof (delete_rows_sub t (select t (fun r => bool_decide (ClaimRow.task_id r = task)))) as Hs.
  destruct (delete_rows t _) as [r1 t1]. cbn in H1, Hs. subst r1.
  specialize (IH t1 (keyed_sub _ _ Hs Hk)). destruct (cleanup t1 tasks) as [r2 t2]. cbn in *.
  intros [[[k Hr] Ht]%elem_of_claims_select|Hr]%elem_of_app.
  - bsplit. pose proof (Hk _ _ Hr) as ->. split; [done|]. rewrite Ht. apply list_elem_of_here.
  - destruct (IH Hr) as [Hl Hin]. split; [by eapply lookup_weaken|]. by apply list_elem_of_further.
Qed.

Lemma cleanup_reports t tasks r :
  keyed t -> t !! row_key r = Some r -> ClaimRow.task_id r ∈ tasks -> r ∈ (cleanup t tasks).1.
Proof.
  revert t. induction tasks as [|task tasks IH]; intros t Hk Hr; cbn [cleanup].
  { by intros ?%not_elem_of_nil. }
  destruct (delete_selected t (fun r => bool_decide (ClaimRow.task_id r = task)) Hk) as [H1 H2].
  pose proof (delete_rows_sub t (select t (fun r => bool_decide (ClaimRow.task_id r = task)))) as Hs.
  destruct (delete_rows t _) as [r1 t1]. cbn in H1, H2, Hs. subst r1.
  specialize (IH t1 (keyed_sub _ _ Hs Hk)). destruct (cleanup t1 tasks) as [r2 t2]. cbn in *.
  intros Hin. apply elem_of_app. destruct (decide (ClaimRow.task_id r = task)) as [Ht|Hne].
  - left. apply elem_of_claims_select. rewrite bool_decide_eq_true. eauto.
  - right. apply IH; [|set_solver]. by rewrite H2, Hr, bool_decide_eq_false_2.
Qed.

Lemma elem_of_cleanup_tasks envs task :
  task ∈ cleanup_tasks envs <->
  exists e, e ∈ envs /\ match Envelope.payload e with
                        | Event.TaskClosed x _ _ | Event.TaskDeleted x => x = task
                        | _ => False
                        end.
Proof.
  unfold cleanup_tasks.
  assert (H : forall acc, task ∈ fold_left (fun acc e =>
    match Envelope.payload e with
    | Event.TaskClosed task _ _ | Event.TaskDeleted task =>
        if bool_decide (task ∈ acc) then acc else acc ++ [task]
    | _ => acc
    end) envs acc <-> task ∈ acc \/ exists e, e ∈ envs /\ match Envelope.payload e with
                        | Event.TaskClosed x _ _ | Event.TaskDeleted x => x = task
                        | _ => False end).
  { induction envs as [|e envs IH]; intros acc; cbn.
    - split; [by left|]. intros [?|(? & H & _)]; [done|]. by apply not_elem_of_nil in H.
    - rewrite IH. setoid_rewrite elem_of_cons.
      destruct (Envelope.payload e) eqn:E;
        try (split; [intros [?|(x & ? & ?)]; [by left|right; exists x; by auto]
                    |intros [?|(x & [->|?] & Hx)]; [by left|by rewrite E in Hx|right; by eauto]]).
      all: split; [intros [Ha|(x & ? & ?)]; [|right; exists x; by auto]
                  |intros [?|(x & [->|?] & Hx)]; [left|rewrite E in Hx; subst|right; by eauto]].
      all: case_bool_decide; try (left; set_solver); try set_solver.
      all: try (apply elem_of_app in Ha as [Ha|Ha]; [by left|];
        apply list_elem_of_singleton in Ha as ->; right; exists e; rewrite E; by auto). }
  rewrite H. split; [intros [?%not_elem_of_nil|?]; done|by right].
Qed.
End ClaimFacts.

Section ClaimProperties.
  Import ClaimRepo RunClaims ClaimSpec ClaimFacts.

(** C13: mutual exclusion of task claims.  Whatever interleaving of acquires,
      replayed claim events, releases, sweeps and run, plan or task clean-ups
      runs from an empty table, with clock readings that may be older than the
      moment they act on, two live claims on one task always belong to the same
      agent, and rows stay under their (agent, task) key. *)
Theorem claims_mutually_exclusive w w' :
  table w = ∅ -> rtc step w w' ->
  exclusive (clock w') (table w') /\ keyed (table w').
Proof.
  intros Hw Hs. destruct (reachable_good _ _ Hs) as [? ?]; [|by split].
  rewrite Hw. split; [apply map_Forall_empty|]. by intros k1 k2 r1 r2 Hr.
Qed.

(** C14: the recorded acquire refines a lock.  It answers only for an existing
    open task; [Acquired] means nobody else held the task, the claim event is
    appended with the new generation, and the caller holds the task until the
    expiry it was given while every other task keeps its holder; [Busy] means
    another agent holds it, names that agent and its expiry, and changes
    nothing. *)
Theorem acquire_refines_lock t tasks runs plans o now agent task claim expires run out ev t' :
  good now t ->
  try_acquire_bound_recorded t tasks runs plans o now agent task claim expires run
    = Ok (out, ev, t') ->
  (exists x, TaskRepo.get tasks task = Some x /\ is_terminal (Task.status x) = false) /\
  match out with
  | Acquired e c =>
      e = expires /\ c = claim /\
      ev = Some (Event.AgentClaimed agent task (Some claim) expires) /\
      (forall a e', holder now t task = Some (a, e') -> a = agent) /\
      ((now <= expires)%Z -> holder now t' task = Some (agent, expires)) /\
      (forall other, other <> task -> holder now t' other = holder now t other)
  | Busy h e => h <> agent /\ holder now t task = Some (h, e) /\ ev = None /\ t' = t
  end.
Proof.
  intros Hg. unfold try_acquire_bound_recorded.
  intros (u & Hcl & (u' & _ & (r & Hc & H)%rbind_ok)%rbind_ok)%rbind_ok. split.
  { unfold check_claimable in Hcl. destruct (TaskRepo.get tasks task) as [x|]; [|done].
    exists x. split; [done|]. by destruct (is_terminal (Task.status x)). }
  destruct r as [t1|]; injection H as <- <- <-.
  - pose proof (cas_good now now t _ t1 ltac:(lia) Hg Hc) as Hg'.
    apply cas_some in Hc as (Hn & row & Hkey & He & _ & ->). cbn in Hn, He.
    assert (row_key row = (agent, task)) as Hrk by done.
    split; [done|]. split; [done|]. split; [done|]. split; [|split].
    + intros a e' (r & Hr & Hl & _)%holder_spec; [|done].
      pose proof (proj1 Hg _ _ Hr) as Hk. injection Hk as -> Ht. by eapply others_nil.
    + intros Hle. apply holder_spec; [done|]. exists row. rewrite <- Hrk, lookup_insert_eq.
      split; [done|]. split; [|done]. unfold live. rewrite He. by apply Z.leb_le.
    + intros other Hne. apply holder_insert_other; [done..|]. by injection Hrk as _ ->.
  - apply cas_none in Hc as (r & [[[k Hr] [Ht Hl]]%elem_of_live_on Hne]%elem_of_others). cbn in *.
    pose proof (proj1 Hg _ _ Hr) as Hk; cbn in Hk. subst k. unfold row_key in Hr. rewrite Ht in Hr.
    assert (Hh : holder now t task = Some (ClaimRow.agent_id r, ClaimRow.expires_at r)).
    { apply holder_spec; eauto. }
    unfold busy. unfold holder in Hh. rewrite Hh. done.
Qed.

(** A claim generation can only be ended by its own release, by its
    expiry, or by the end of its task, run or plan.  A release (direct or
    replayed) that names another generation, a replayed close, reopen or
    delete of the task, and a sweep whose rows were selected before the claim
    was refreshed all leave a live claim as it is. *)
Theorem stale_generation_is_noop t now agent task r :
  t !! (agent, task) = Some r -> live now r = true ->
  (forall claim, claim <> ClaimRow.claim_id r ->
     release_recorded t agent task claim = (None, t) /\
     apply_event t now (Event.AgentReleased agent task (Some claim)) = Ok t) /\
  (forall by_ at_, apply_event t now (Event.TaskClosed task by_ at_) = Ok t /\
                   apply_event t now (Event.TaskReopened task by_ at_) = Ok t /\
                   apply_event t now (Event.TaskDeleted task) = Ok t) /\
  (forall selected, (sweep_rows t now selected).2 !! (agent, task) = Some r).
Proof.
  intros Hr Hl. split; [|split; [done|]].
  - intros claim Hne. unfold release_recorded. cbn. unfold delete_generation.
    by rewrite Hr, bool_decide_eq_false_2.
  - intros selected. revert t Hr. induction selected as [|s sel IH]; intros t Hr; cbn; [done|].
    destruct (t !! (ClaimRow.agent_id s, ClaimRow.task_id s)) as [c|] eqn:Hc; [|by apply IH].
    destruct (bool_decide _ && negb (live now c)) eqn:E; [|by apply IH].
    apply andb_prop in E as [_ E]. apply negb_true_iff in E.
    specialize (IH (delete (ClaimRow.agent_id s, ClaimRow.task_id s) t)).
    destruct (sweep_rows _ _ _) as [es t2]. cbn in *. apply IH.
    rewrite lookup_delete_ne; [done|]. intros Heq. rewrite Heq in Hc. congruence.
Qed.

(** The end of a task ends its claims with the event batch: after the
    batch is recorded no claim is left on a task it closes or deletes, every
    other claim is untouched, and the batch is extended by exactly one
    [AgentReleased] with the generation of each claim that went. *)
Theorem task_lifecycle_releases wrap t envelopes :
  keyed t ->
  let '(persisted, t') := record_task_lifecycle wrap t envelopes in
  (forall agent task, t' !! (agent, task) =
     if bool_decide (task ∈ cleanup_tasks envelopes) then None else t !! (agent, task)) /\
  (exists released,
     persisted = envelopes ++ map (fun r => wrap (released_event r)) released /\
     forall r, r ∈ released <->
       t !! row_key r = Some r /\ ClaimRow.task_id r ∈ cleanup_tasks envelopes).
Proof.
  intros Hk. unfold record_task_lifecycle.
  pose proof (cleanup_spec t (cleanup_tasks envelopes) Hk) as H1.
  pose proof (fun r => cleanup_released t (cleanup_tasks envelopes) r Hk) as H2.
  pose proof (fun r => cleanup_reports t (cleanup_tasks envelopes) r Hk) as H3.
  destruct (cleanup t _) as [released t']. cbn in *. split.
  - intros agent task. apply (H1 (agent, task)).
  - exists released. split; [done|]. intros r. split; [apply H2|]. intros [? ?]. by apply H3.
Qed.

(** C15: failing or aborting a run needs its authenticated owner or an
    administrator, works only on an active run, and then ends the run,
    deletes its owner row and every claim taken for it, leaving the claims of
    other runs in place. *)
Theorem run_terminal_authorized wrap t agent admin envelopes persisted t' run status at_ reason :
  keyed (claims t) ->
  head (omap run_terminal_event envelopes) = Some (run, status, at_, reason) ->
  record_run_terminal wrap t agent admin envelopes = Ok (persisted, t') ->
  (admin = true \/ owners t !! run = Some agent) /\
  (exists r, RunRepo.get (run_tables t) run = Some r /\ Run.status r = RunActive /\
     option_map Run.status (RunRepo.get (run_tables t') run) = Some status) /\
  owners t' !! run = None /\
  (forall k c, claims t' !! k = Some c -> ClaimRow.run_id c <> Some run) /\
  (forall k c other, claims t !! k = Some c -> ClaimRow.run_id c = Some other -> other <> run ->
     claims t' !! k = Some c).
Proof.
  intros Hk Hhead. unfold record_run_terminal. rewrite Hhead.
  destruct (RunRepo.get (run_tables t) run) as [r|] eqn:Hr; [|done].
  destruct (bool_decide (Run.status r = RunActive)) eqn:Hact; cbn [negb]; [|done].
  intros (u & Hauth & H)%rbind_ok. bsplit.
  match type of H with context [claims_of_run t run r ?b] => set (owned := b) in H end.
  destruct (delete_selected (claims t) (claims_of_run t run r owned) Hk) as [_ Hdel].
  destruct (delete_rows _ _) as [rel cl]. injection H as <- <-. cbn in *.
  split; [|split; [|split; [|split]]].
  - destruct (owners t !! run) as [o|]; [|destruct admin; [by left|done]].
    destruct admin; [by left|]. cbn in Hauth. case_bool_decide; [by subst; right|done].
  - exists r. split; [done|]. split; [done|]. unfold RunRepo.get, RunRepo.set_ended. cbn.
    unfold RunRepo.get in Hr. by rewrite lookup_alter_eq, Hr.
  - by rewrite lookup_delete_eq.
  - intros k c. rewrite Hdel. destruct (claims t !! k) as [c'|]; [|done].
    destruct (claims_of_run t run r owned c') eqn:E; [done|]. intros [= <-] Hrun.
    unfold claims_of_run in E. by rewrite bool_decide_eq_true_2 in E.
  - intros k c other Hc Ho Hne. rewrite Hdel, Hc. unfold claims_of_run.
    rewrite Ho, (bool_decide_eq_false_2 (Some other = Some run)) by congruence.
    rewrite (bool_decide_eq_false_2 (Some other = None)) by done.
    by rewrite andb_false_r.
Qed.
End ClaimProperties.

(** ** Witnesses *)
Definition demo_claim : ClaimRow := ClaimRow.mk (mkId 1) (mkId 10) 0 5 (Some (mkId 7)) (mkId 100).
Definition demo_claims : ClaimTable := {[ (mkId 1, mkId 10) := demo_claim ]}.
Definition demo_envelope (e : Event) : EventEnvelope := Envelope.new (mkId 50) 3 ActorOps.user e.

Lemma demo_claims_lookup k r :
  demo_claims !! k = Some r -> k = (mkId 1, mkId 10) /\ r = demo_claim.
Proof. unfold demo_claims. by intros [<- <-]%lookup_singleton_Some. Qed.

Lemma demo_claims_good c : ClaimFacts.good c demo_claims.
Proof.
  split.
  - intros k r [-> ->]%demo_claims_lookup. done.
  - by intros k1 k2 r1 r2 [-> ->]%demo_claims_lookup [-> ->]%demo_claims_lookup.
Qed.

Definition demo_world (c : Z) (t : ClaimTable) : ClaimSpec.World := ClaimSpec.mkWorld c t.

Lemma claims_mutually_exclusive_witness :
  ClaimSpec.exclusive 3 {[ (mkId 1, mkId 10) := ClaimRow.mk (mkId 1) (mkId 10) 0 5 None (mkId 100) ]}.
Proof.
  refine (proj1 (claims_mutually_exclusive (demo_world 0 ∅)
    (demo_world 3 {[ (mkId 1, mkId 10) := ClaimRow.mk (mkId 1) (mkId 10) 0 5 None (mkId 100) ]})
    eq_refl _)).
  eapply rtc_l.
  { apply (ClaimSpec.step_acquire (demo_world 0 ∅) 0 (mkId 1) (mkId 10) 5 (mkId 100)
      (ClaimRepo.Acquired 5 (mkId 100))); [cbn; lia|vm_compute; reflexivity]. }
  eapply rtc_l.
  { apply (ClaimSpec.step_tick _ 3). cbn. lia. }
  eapply rtc_l; [|apply rtc_refl].
  apply (ClaimSpec.step_acquire (demo_world 3 _) 2 (mkId 2) (mkId 10) 5 (mkId 101)
    (ClaimRepo.Busy (mkId 1) 5)); [cbn; lia|vm_compute; reflexivity].
Defined.

Lemma acquire_refines_lock_witness :
  ClaimSpec.holder 3 demo_claims (mkId 10) = Some (mkId 1, 5%Z).
Proof.
  refine (proj1 (proj2 (proj2 (acquire_refines_lock demo_claims
    (TaskRepo.mk {[ mkId 10 := TaskRow.mk (from_new (mkId 10) 0 (NewTask.new (lit "t"))) None None ]} ∅)
    RunRepo.empty PlanRepo.empty ∅ 3 (mkId 2) (mkId 10) (mkId 101) 9 None
    (ClaimRepo.Busy (mkId 1) 5) None demo_claims (demo_claims_good 3) _)))).
  vm_compute. reflexivity.
Defined.

Lemma stale_generation_is_noop_witness :
  ClaimRepo.release_recorded demo_claims (mkId 1) (mkId 10) (mkId 99) = (None, demo_claims).
Proof.
  refine (proj1 (proj1 (stale_generation_is_noop demo_claims 3 (mkId 1) (mkId 10) demo_claim
    _ _) (mkId 99) _)); [vm_compute; reflexivity..|done].
Defined.

Lemma task_lifecycle_releases_witness :
  let '(persisted, t') := ClaimRepo.record_task_lifecycle demo_envelope demo_claims
    [demo_envelope (Event.TaskDeleted (mkId 10))] in
  (forall agent task, t' !! (agent, task) =
     if bool_decide (task ∈ [mkId 10]) then None else demo_claims !! (agent, task)) /\
  (exists released,
     persisted = [demo_envelope (Event.TaskDeleted (mkId 10))]
                   ++ map (fun r => demo_envelope (ClaimRepo.released_event r)) released /\
     forall r, r ∈ released <->
       demo_claims !! ClaimSpec.row_key r = Some r /\ ClaimRow.task_id r ∈ [mkId 10]).
Proof.
  exact (task_lifecycle_releases demo_envelope demo_claims
    [demo_envelope (Event.TaskDeleted (mkId 10))] (proj1 (demo_claims_good 0))).
Defined.

Definition demo_run : Run :=
  Run.mk (mkId 7) (mkId 70) (mkId 1) None 0 None RunActive None (Some 0%Z) None None.
Definition demo_run_claims : RunClaims.RunClaimTables :=
  RunClaims.mk demo_claims (RunRepo.mk {[ mkId 7 := demo_run ]} []) {[ mkId 7 := mkId 1 ]}.

Lemma run_terminal_authorized_witness :
  RunClaims.owners
    (RunClaims.mk ∅ (RunRepo.set_ended (RunRepo.mk {[ mkId 7 := demo_run ]} []) (mkId 7)
                        RunFailed (lit "boom") 4) ∅) !! (mkId 7 : RunId) = None.
Proof.
  refine (proj1 (proj2 (proj2 (run_terminal_authorized demo_envelope demo_run_claims (mkId 1) false
    [demo_envelope (Event.RunFailed (mkId 7) (lit "boom") 4)]
    [demo_envelope (Event.RunFailed (mkId 7) (lit "boom") 4);
     demo_envelope (ClaimRepo.released_event demo_claim)] _ (mkId 7) RunFailed 4 (lit "boom")
    (proj1 (demo_claims_good 0)) eq_refl _)))).
  vm_compute. reflexivity.
Defined.
