(* ===== verification/PlanLogic.v ===== *)
(** * core/plan_concurrency.rs and core/plan_readiness.rs

    The resolver that hands the next task of a plan to an agent, the guard of
    the [parent_plan_id] chain, the plan's dependency graph and its fan-out
    waves, and the readiness test of a plan.  The resolver is written against
    the [PlanRepository] interface of [core/repos.rs]; the storage tables are
    one instance of it. *)

From S2P Require Import Prelude Shared TaskModel PlanModel RegistryModel Events TaskStore RelationStore PlanStore RunStore ClaimStore.

(** ** The repository interface (repos.rs)

    The two reads the code of this file makes, with what the trait documents
    about them: members come in the order of their position. *)
Class PlanRepository (R : Type) : Type := {
  plan_get : R -> PlanId -> option Plan;
  list_plan_tasks_ordered : R -> PlanId -> list PlanTask;
  plan_tasks_sorted : forall r p,
    StronglySorted (fun a b => (PlanTask.position a <= PlanTask.position b)%Z)
      (list_plan_tasks_ordered r p) }.

#[export] Instance plan_tables_repository : PlanRepository PlanTables := {
  plan_get := PlanRepo.get;
  list_plan_tasks_ordered := PlanRepo.list_tasks_ordered;
  plan_tasks_sorted := PlanStoreFacts.tasks_ordered_sorted }.

(** ** The next task of a plan *)
Module NextTaskResolver.
Record NextTask : Type := mkNext {
  task_id : TaskId;
  position : Z;
  claim_expires_at : option Z }.

Section Next.
Context {R : Type} `{PlanRepository R}.
Context (plans : R) (tasks : TaskTable) (claims : ClaimTable)
  (relations : option RelationTable) (now : Z).

(** [for dep_id in &pt.depends_on]. *)
Definition deps_done (deps : list TaskId) : bool :=
  forallb (fun d => match TaskRepo.get tasks d with
                    | Some dep => bool_decide (Task.status dep = Done)
                    | None => false
                    end) deps.

Definition no_blockers (id : TaskId) : bool :=
  match relations with
  | None => true
  | Some r => match RelationEnforcement.list_active_blockers r tasks id with
              | [] => true
              | _ => false
              end
  end.

(** One turn of the loop: is this member handed out? *)
Definition eligible (agent : AgentId) (pt : PlanTask) : bool :=
  match TaskRepo.get tasks (PlanTask.task_id pt) with
  | None => false
  | Some task =>
      if is_terminal (Task.status task) || bool_decide (Task.status task = Inbox) then false
      else if negb (deps_done (PlanTask.depends_on pt)) then false
      else if negb (no_blockers (PlanTask.task_id pt)) then false
      else match ClaimRepo.is_claimed_by_other claims now (PlanTask.task_id pt) agent with
           | Some _ => false
           | None => true
           end
  end.

(** [claim_ttl] is in nanoseconds: [as_secs] drops the fraction and the cast
    to [i64] saturates. *)
Definition claim_expiry (claim_ttl : option Z) : option Z :=
  (fun ttl => now + Z.min (ttl / 1000000000) (2 ^ 63 - 1) * 1000000000)%Z <$> claim_ttl.

Fixpoint scan (agent : AgentId) (claim_ttl : option Z) (members : list PlanTask)
  : option NextTask :=
  match members with
  | [] => None
  | pt :: members =>
      if eligible agent pt
      then Some (mkNext (PlanTask.task_id pt) (PlanTask.position pt) (claim_expiry claim_ttl))
      else scan agent claim_ttl members
  end.

Definition next (plan_id : PlanId) (agent : AgentId) (claim_ttl : option Z)
  : Result CoreError (option NextTask) :=
  match plan_get plans plan_id with
  | None => Err (NotFound "plan {plan_id}")
  | Some plan =>
      if negb (bool_decide (Plan.status plan = Active)) then Ok None
      else Ok (scan agent claim_ttl (list_plan_tasks_ordered plans plan_id))
  end.
End Next.
End NextTaskResolver.

(** ** The parent chain *)
Module ParentChain.
Definition MAX_PARENT_DEPTH : Z := 3.

Section Chain.
Context {R : Type} `{PlanRepository R} (plans : R).

(** The [loop]: [hops_left] is [MAX_PARENT_DEPTH - hops], so the test
    [hops > MAX_PARENT_DEPTH] is the [O] case. *)
Fixpoint walk (hops_left : nat) (plan_id current : PlanId) : Result CoreError unit :=
  match hops_left with
  | O => Err (Validation "cycle_detected")
  | S hops_left =>
      match plan_get plans current with
      | None => Ok tt
      | Some plan =>
          match Plan.parent_plan_id plan with
          | None => Ok tt
          | Some parent =>
              if bool_decide (parent = plan_id) then Err (Validation "cycle_detected")
              else walk hops_left plan_id parent
          end
      end
  end.

Definition detect_parent_cycle (plan_id candidate_parent : PlanId) : Result CoreError unit :=
  if bool_decide (candidate_parent = plan_id) then Err (Validation "cycle_detected")
  else walk (Z.to_nat MAX_PARENT_DEPTH) plan_id candidate_parent.
End Chain.
End ParentChain.

(** ** Readiness, graph and fan-out (plan_readiness.rs) *)
Module PlanReadiness.
(** The loop over the members: [None] is the early [return false], otherwise
    whether a member was seen. *)
Fixpoint members_done (l : list (option Status)) (any : bool) : option bool :=
  match l with
  | [] => Some any
  | Some s :: l => if is_terminal s then members_done l true else None
  | None :: _ => None
  end.

Definition plan_ready_to_close (member_statuses : list (option Status))
    (child_statuses : list PlanStatus) : bool :=
  match members_done member_statuses false with
  | None => false
  | Some any =>
      any && forallb (fun c => bool_decide (c = Completed) || bool_decide (c = Abandoned))
                     child_statuses
  end.

Record PlanGraphNode : Type := mkNode {
  node_task_id : TaskId;
  node_position : Z;
  node_depends_on : list TaskId;
  node_title : Str;
  node_status : Status;
  node_priority : Priority }.
Record PlanGraphEdge : Type := mkEdge {
  edge_from : TaskId;
  edge_to : TaskId;
  edge_kind : string }.
Record PlanGraph : Type := mkGraph {
  nodes : list PlanGraphNode;
  edges : list PlanGraphEdge }.
Record PlanFanoutWave : Type := mkWave {
  wave : Z;
  wave_tasks : list TaskId }.

Definition ensure_plan_exists (plans : PlanTables) (plan_id : PlanId) : Result CoreError unit :=
  match PlanRepo.get plans plan_id with
  | None => Err (NotFound "plan {plan_id}")
  | Some _ => Ok tt
  end.

(** [HashMap<TaskId, Task>] of the rows that exist. *)
Definition load_tasks (tasks : TaskTable) (ids : list TaskId) : gmap TaskId Task :=
  match ids with
  | [] => ∅
  | _ => foldl (fun m x => <[Task.id x := x]> m) ∅ (TaskRepo.get_many tasks ids)
  end.

Definition graph_node (task_map : gmap TaskId Task) (pt : PlanTask) : option PlanGraphNode :=
  (fun task => mkNode (PlanTask.task_id pt) (PlanTask.position pt) (PlanTask.depends_on pt)
                      (Task.title task) (Task.status task) (Task.priority task))
  <$> task_map !! PlanTask.task_id pt.

Definition plan_graph (plans : PlanTables) (tasks : TaskTable) (relations : RelationTable)
    (plan_id : PlanId) : Result CoreError PlanGraph :=
  rbind (ensure_plan_exists plans plan_id) (fun _ =>
  let plan_tasks := PlanRepo.list_tasks_ordered plans plan_id in
  let task_ids := map PlanTask.task_id plan_tasks in
  let task_map := load_tasks tasks task_ids in
  let dep_edges :=
    mjoin (map (fun pt =>
      map (fun dep => mkEdge dep (PlanTask.task_id pt) "depends_on")
        (List.filter (fun dep => bool_decide (dep ∈ task_ids)) (PlanTask.depends_on pt)))
      plan_tasks) in
  let block_edges :=
    map (fun rel => mkEdge (Relation.from rel) (Relation.to rel) "blocks")
      (List.filter (fun rel => bool_decide (Relation.kind rel = Blocks)
                               && bool_decide (Relation.from rel ∈ task_ids)
                               && bool_decide (Relation.to rel ∈ task_ids))
         (RelationRepo.list_by_task_ids relations task_ids)) in
  Ok (mkGraph (omap (graph_node task_map) plan_tasks) (dep_edges ++ block_edges))).

(** *** Fan-out

    [incoming] maps a task to its unresolved blockers; no entry is the empty
    set. *)
Abbreviation Incoming := (gmap TaskId (gset TaskId)).

Definition blockers_of (incoming : Incoming) (id : TaskId) : gset TaskId :=
  default ∅ (incoming !! id).

Definition add_blocker (incoming : Incoming) (id by_ : TaskId) : Incoming :=
  <[id := {[by_]} ∪ blockers_of incoming id]> incoming.

Definition status_done (m : gmap TaskId Task) (id : TaskId) : bool :=
  match m !! id with Some x => bool_decide (Task.status x = Done) | None => false end.

Definition open_members (task_map : gmap TaskId Task) (plan_tasks : list PlanTask)
  : gset TaskId :=
  list_to_set (omap (fun pt =>
    match task_map !! PlanTask.task_id pt with
    | Some x => if is_terminal (Task.status x) then None else Some (PlanTask.task_id pt)
    | None => None
    end) plan_tasks).

Definition dep_incoming (task_map : gmap TaskId Task) (remaining : gset TaskId)
    (plan_tasks : list PlanTask) (incoming : Incoming) : Incoming :=
  foldl (fun inc pt =>
    if bool_decide (PlanTask.task_id pt ∈ remaining)
    then foldl (fun inc dep => if status_done task_map dep then inc
                               else add_blocker inc (PlanTask.task_id pt) dep)
               inc (PlanTask.depends_on pt)
    else inc) incoming plan_tasks.

Definition blocking (remaining : gset TaskId) (rel : Relation) : bool :=
  bool_decide (Relation.kind rel = Blocks) && bool_decide (Relation.to rel ∈ remaining).

Definition rel_incoming (blockers_map : gmap TaskId Task) (remaining : gset TaskId)
    (rels : list Relation) (incoming : Incoming) : Incoming :=
  foldl (fun inc rel =>
    if blocking remaining rel && negb (status_done blockers_map (Relation.from rel))
    then add_blocker inc (Relation.to rel) (Relation.from rel)
    else inc) incoming rels.

(** The [while] loop.  [None] is fuel exhausted with tasks remaining; every
    turn takes a task out of [remaining], so [size remaining] turns suffice
    ([FanoutFacts.waves_total]). *)
Fixpoint waves (fuel : nat) (order : list TaskId) (remaining : gset TaskId)
    (incoming : Incoming) (n : nat) : option (list PlanFanoutWave) :=
  if bool_decide (remaining = ∅) then Some []
  else
    match fuel with
    | O => None
    | S fuel =>
        let ready := List.filter (fun id => bool_decide (id ∈ remaining)
                                            && bool_decide (blockers_of incoming id = ∅)) order in
        match ready with
        | [] => Some []
        | _ =>
            (fun ws => mkWave (Z.of_nat n) ready :: ws) <$>
              waves fuel order (remaining ∖ list_to_set ready)
                ((fun b => b ∖ list_to_set ready) <$> incoming) (S n)
        end
    end.

Definition plan_fanout (plans : PlanTables) (tasks : TaskTable) (relations : RelationTable)
    (plan_id : PlanId) : Result CoreError (option (list PlanFanoutWave)) :=
  rbind (ensure_plan_exists plans plan_id) (fun _ =>
  let plan_tasks := PlanRepo.list_tasks_ordered plans plan_id in
  let task_ids := map PlanTask.task_id plan_tasks in
  let task_map := load_tasks tasks task_ids in
  let remaining := open_members task_map plan_tasks in
  let incoming := dep_incoming task_map remaining plan_tasks ∅ in
  let rels := RelationRepo.list_by_task_ids relations task_ids in
  let blockers_map := load_tasks tasks
    (remove_dups (map Relation.from (List.filter (blocking remaining) rels))) in
  let incoming := rel_incoming blockers_map remaining rels incoming in
  Ok (waves (size remaining) task_ids remaining incoming 0)).
End PlanReadiness.

(** ** Specification *)
Module PlanLogicSpec.
  Import NextTaskResolver PlanReadiness.

(** What makes a member of a plan ready for an agent, read off the tables. *)
Definition task_done (tasks : TaskTable) (id : TaskId) : Prop :=
  exists x, TaskRepo.get tasks id = Some x /\ Task.status x = Done.

Record ready (tasks : TaskTable) (claims : ClaimTable) (relations : option RelationTable)
    (now : Z) (agent : AgentId) (pt : PlanTask) : Prop := mkReady {
  ready_task : exists x, TaskRepo.get tasks (PlanTask.task_id pt) = Some x /\
    is_terminal (Task.status x) = false /\ Task.status x <> Inbox;
  ready_deps : forall d, d ∈ PlanTask.depends_on pt -> task_done tasks d;
  ready_blockers : forall r b x, relations = Some r ->
    RelationSpec.blocks r b (PlanTask.task_id pt) ->
    TaskRepo.get tasks b = Some x -> Task.status x = Done;
  ready_claims : forall k row, claims !! k = Some row ->
    ClaimRow.task_id row = PlanTask.task_id pt -> (now <= ClaimRow.expires_at row)%Z ->
    ClaimRow.agent_id row = agent }.

(** The parent relation of a repository, and what it is to be a forest. *)
Definition parent_rel {R} `{PlanRepository R} (r : R) (a b : PlanId) : Prop :=
  exists pl, plan_get r a = Some pl /\ Plan.parent_plan_id pl = Some b.
Definition forest {R} `{PlanRepository R} (r : R) : Prop :=
  forall a, ~ tc (parent_rel r) a a.

(** The tasks a plan still has to run, and what holds one of them back. *)
Definition open_member (plans : PlanTables) (tasks : TaskTable) (p : PlanId) (id : TaskId)
  : Prop :=
  (exists pt, pt ∈ PlanRepo.list_tasks_ordered plans p /\ PlanTask.task_id pt = id) /\
  exists x, TaskRepo.get tasks id = Some x /\ is_terminal (Task.status x) = false.

Definition held_by (plans : PlanTables) (tasks : TaskTable) (relations : RelationTable)
    (p : PlanId) (id b : TaskId) : Prop :=
  (exists pt, pt ∈ PlanRepo.list_tasks_ordered plans p /\ PlanTask.task_id pt = id /\
     b ∈ PlanTask.depends_on pt /\
     ~ ((exists pb, pb ∈ PlanRepo.list_tasks_ordered plans p /\ PlanTask.task_id pb = b)
        /\ task_done tasks b))
  \/ (RelationSpec.blocks relations b id /\ ~ task_done tasks b).

Definition scheduled (ws : list PlanFanoutWave) : list TaskId := mjoin (map wave_tasks ws).
End PlanLogicSpec.

(** ** Lemmas: the resolver *)
Module ResolverFacts.
  Import NextTaskResolver PlanLogicSpec.

Section Facts.
Context (tasks : TaskTable) (claims : ClaimTable) (relations : option RelationTable) (now : Z).

Lemma deps_done_spec deps :
  deps_done tasks deps = true <-> forall d, d ∈ deps -> task_done tasks d.
Proof.
  unfold deps_done. rewrite forallb_forall. setoid_rewrite <- list_elem_of_In.
  apply forall_proper. intros d. apply imp_iff_compat_l. unfold task_done.
  destruct (TaskRepo.get tasks d) as [x|].
  - rewrite bool_decide_eq_true. split; [eauto|by intros (? & [= <-] & ?)].
  - split; [done|by intros (? & ? & _)].
Qed.

Lemma no_blockers_spec id :
  no_blockers tasks relations id = true <->
  forall r b x, relations = Some r -> RelationSpec.blocks r b id ->
    TaskRepo.get tasks b = Some x -> Task.status x = Done.
Proof.
  unfold no_blockers. destruct relations as [r|]; [|by split].
  split.
  - intros Hn r' b x [= <-] Hb Hx. destruct (decide (Task.status x = Done)) as [|Hne]; [done|].
    assert (Hin : b ∈ RelationEnforcement.list_active_blockers r tasks id).
    { apply RelationFacts.elem_of_active. eauto. }
    destruct (RelationEnforcement.list_active_blockers r tasks id); [set_solver|done].
  - intros Hall. destruct (RelationEnforcement.list_active_blockers r tasks id) as [|b l] eqn:E;
      [done|].
    assert (Hin : b ∈ b :: l) by apply list_elem_of_here. rewrite <- E in Hin.
    apply RelationFacts.elem_of_active in Hin as (Hb & x & Hx & Hne). exfalso. eauto.
Qed.

Lemma unclaimed_spec id agent :
  ClaimRepo.is_claimed_by_other claims now id agent = None <->
  forall k row, claims !! k = Some row -> ClaimRow.task_id row = id ->
    (now <= ClaimRow.expires_at row)%Z -> ClaimRow.agent_id row = agent.
Proof.
  unfold ClaimRepo.is_claimed_by_other. split.
  - intros Hn k row Hk Hid Hl.
    destruct (ClaimRepo.others_live claims now id agent) eqn:E; [|done].
    eapply ClaimFacts.others_nil; eauto. by apply Z.leb_le.
  - intros Hall. destruct (ClaimRepo.others_live claims now id agent) as [|row l] eqn:E; [done|].
    assert (Hin : row ∈ row :: l) by apply list_elem_of_here. rewrite <- E in Hin.
    apply ClaimFacts.elem_of_others in Hin as [Hin Hne].
    apply ClaimFacts.elem_of_live_on in Hin as ([k Hk] & Hid & Hl).
    exfalso. apply Hne. eapply Hall; eauto. by apply Z.leb_le.
Qed.

Lemma eligible_spec agent pt :
  eligible tasks claims relations now agent pt = true <->
  ready tasks claims relations now agent pt.
Proof.
  unfold eligible. split.
  - destruct (TaskRepo.get tasks (PlanTask.task_id pt)) as [x|] eqn:G; [|done].
    destruct (is_terminal _ || _) eqn:T; [done|].
    destruct (deps_done tasks _) eqn:D; cbn; [|done].
    destruct (no_blockers tasks relations _) eqn:B; cbn; [|done].
    destruct (ClaimRepo.is_claimed_by_other _ _ _ _) eqn:C; [done|]. intros _. bsplit.
    constructor; [eauto|by apply deps_done_spec|by apply no_blockers_spec|by apply unclaimed_spec].
  - intros [(x & -> & Ht & Hi) Hd Hb Hc].
    rewrite Ht, bool_decide_eq_false_2 by done. cbn.
    rewrite (proj2 (deps_done_spec _) Hd), (proj2 (no_blockers_spec _) Hb). cbn.
    by rewrite (proj2 (unclaimed_spec _ _) Hc).
Qed.

Lemma scan_some agent ttl l nt :
  scan tasks claims relations now agent ttl l = Some nt ->
  exists pre pt post, l = pre ++ pt :: post /\ ready tasks claims relations now agent pt /\
    (forall p, p ∈ pre -> ~ ready tasks claims relations now agent p) /\
    nt = mkNext (PlanTask.task_id pt) (PlanTask.position pt) (claim_expiry now ttl).
Proof.
  induction l as [|pt l IH]; cbn; [done|]. destruct (eligible _ _ _ _ _ pt) eqn:E.
  - intros [= <-]. apply eligible_spec in E. exists [], pt, l.
    split; [done|]. split; [done|]. split; [|done]. intros p Hp. by apply not_elem_of_nil in Hp.
  - intros (pre & p & post & -> & Hr & Hpre & ->)%IH. exists (pt :: pre), p, post.
    split; [done|]. split; [done|]. split; [|done].
    intros q [->|Hq]%elem_of_cons; [|by apply Hpre].
    rewrite <- eligible_spec. by rewrite E.
Qed.

Lemma scan_none agent ttl l :
  scan tasks claims relations now agent ttl l = None ->
  forall p, p ∈ l -> ~ ready tasks claims relations now agent p.
Proof.
  induction l as [|pt l IH]; cbn; [intros _ p Hp; by apply not_elem_of_nil in Hp|].
  destruct (eligible _ _ _ _ _ pt) eqn:E; [done|]. intros Hs p [->|Hp]%elem_of_cons; [|by apply IH].
  rewrite <- eligible_spec. by rewrite E.
Qed.
End Facts.

(** In a sorted list nothing before or after the split point beats it, unless
    it is rejected. *)
Lemma first_is_least (P : PlanTask -> Prop) pre pt post :
  StronglySorted (fun a b => (PlanTask.position a <= PlanTask.position b)%Z)
    (pre ++ pt :: post) ->
  (forall p, p ∈ pre -> ~ P p) ->
  forall p, p ∈ pre ++ pt :: post -> P p -> (PlanTask.position pt <= PlanTask.position p)%Z.
Proof.
  induction pre as [|q pre IH]; cbn; intros Hs Hpre p Hp HP.
  - apply elem_of_cons in Hp as [->|Hp]; [lia|].
    apply StronglySorted_inv in Hs as [_ Hf]. rewrite Forall_forall in Hf. by apply Hf.
  - apply elem_of_cons in Hp as [->|Hp]; [exfalso; apply (Hpre q); [set_solver|done]|].
    apply StronglySorted_inv in Hs as [Hs _]. apply IH; try done. intros p' Hp'. apply Hpre.
    set_solver.
Qed.
End ResolverFacts.

(** ** Lemmas: the parent chain *)
Module ParentFacts.
  Import ParentChain PlanLogicSpec.

Section Facts.
Context {R : Type} `{PlanRepository R} (plans : R).

Lemma walk_ok n p c :
  walk plans n p c = Ok tt -> c <> p -> ~ rtc (parent_rel plans) c p.
Proof.
  revert c. induction n as [|n IH]; intros c Hw Hne Hr; [done|]. cbn in Hw.
  apply rtc_inv in Hr as [->|(b & (pl & Hpl & Hpar) & Hr)]; [done|].
  rewrite Hpl, Hpar in Hw. case_bool_decide as Hb; [done|]. by apply (IH b).
Qed.

Lemma walk_root n p c :
  walk plans n p c = Ok tt ->
  exists k r, (k < n)%nat /\ nsteps (parent_rel plans) k c r /\
    forall b, ~ parent_rel plans r b.
Proof.
  revert c. induction n as [|n IH]; intros c Hw; [done|]. cbn in Hw.
  destruct (plan_get plans c) as [pl|] eqn:G.
  2: { exists O, c. split; [lia|]. split; [constructor|]. intros b (pl & ? & _). congruence. }
  destruct (Plan.parent_plan_id pl) as [b|] eqn:P.
  2: { exists O, c. split; [lia|]. split; [constructor|].
       intros b (pl' & ? & ?). congruence. }
  case_bool_decide; [done|]. destruct (IH b Hw) as (k & r & Hk & Hs & Hr).
  exists (S k), r. split; [lia|]. split; [|done]. econstructor; [|exact Hs]. by exists pl.
Qed.

Lemma walk_complete n p c k r :
  nsteps (parent_rel plans) k c r -> (k < n)%nat -> (forall b, ~ parent_rel plans r b) ->
  ~ tc (parent_rel plans) c p -> walk plans n p c = Ok tt.
Proof.
  intros Hs. revert n. induction Hs as [c|k c b r (pl & Hpl & Hpar) Hs IH]; intros n Hk Hr Ht;
    (destruct n as [|n]; [lia|]); cbn.
  - destruct (plan_get plans c) as [pl|] eqn:G; [|done].
    destruct (Plan.parent_plan_id pl) as [b|] eqn:P; [|done]. exfalso. apply (Hr b). by exists pl.
  - rewrite Hpl, Hpar. case_bool_decide as Hb.
    + subst. exfalso. apply Ht, tc_once. by exists pl.
    + apply IH; [lia|done|]. intros Hbp. apply Ht. eapply tc_l; [|exact Hbp]. by exists pl.
Qed.

Lemma walk_error n p c e : walk plans n p c = Err e -> e = Validation "cycle_detected".
Proof.
  revert c. induction n as [|n IH]; intros c; cbn; [by intros [= <-]|].
  repeat case_match; try done; [by intros [= <-]|by apply IH].
Qed.
End Facts.

(** Giving [p] the parent [c] closes a cycle only through the new edge. *)
Lemma upsert_parent t p pl c a b :
  Plan.id pl = p ->
  parent_rel (PlanRepo.upsert_plan t (pl <| Plan.parent_plan_id := Some c |>)) a b ->
  (a = p /\ b = c) \/ (a <> p /\ parent_rel t a b).
Proof.
  intros <- (x & Hx & Hb). cbn in Hx. unfold PlanRepo.get in Hx. cbn in Hx.
  destruct (decide (a = Plan.id pl)) as [->|Hne].
  - rewrite lookup_insert_eq in Hx. injection Hx as <-. cbn in Hb. left. by injection Hb as <-.
  - rewrite lookup_insert_ne in Hx by done. right. split; [done|]. by exists x.
Qed.

Lemma upsert_forest t p pl c :
  Plan.id pl = p -> forest t -> ~ rtc (parent_rel t) c p ->
  forest (PlanRepo.upsert_plan t (pl <| Plan.parent_plan_id := Some c |>)).
Proof.
  intros Hid Hf Hc. refine (acyclic_add_edge (parent_rel t) _ p c _ Hf Hc).
  intros a b [?|[_ ?]]%(upsert_parent t p pl c a b Hid); [by right|by left].
Qed.
End ParentFacts.

(** ** Lemmas: fan-out *)
Module FanoutFacts.
  Import PlanReadiness PlanLogicSpec.

Lemma foldl_index (l : list Task) (m : gmap TaskId Task) id x :
  (forall y z, y ∈ l -> z ∈ l -> Task.id y = Task.id z -> y = z) ->
  (forall y, y ∈ l -> m !! Task.id y = None \/ m !! Task.id y = Some y) ->
  foldl (fun m x => <[Task.id x := x]> m) m l !! id = Some x <->
  (x ∈ l /\ Task.id x = id) \/ m !! id = Some x.
Proof.
  revert m. induction l as [|y l IH]; cbn; intros m Hinj Hm.
  { split; [by right|]. intros [[Hx _]|?]; [by apply not_elem_of_nil in Hx|done]. }
  rewrite IH.
  - destruct (decide (Task.id y = id)) as [<-|Hne].
    + rewrite lookup_insert_eq. split.
      * intros [[? ?]|[= ->]]; left; set_solver.
      * intros [[Hx Hid]|Hx].
        -- right. f_equal. symmetry. apply Hinj; [done|set_solver|done].
        -- right. destruct (Hm y ltac:(set_solver)); congruence.
    + rewrite lookup_insert_ne by done. set_solver.
  - intros; apply Hinj; set_solver.
  - intros z Hz. destruct (decide (Task.id z = Task.id y)) as [E|E].
    + rewrite E, lookup_insert_eq. right. f_equal. apply Hinj; set_solver.
    + rewrite lookup_insert_ne by done. apply Hm. set_solver.
Qed.

Lemma load_tasks_lookup tasks ids id x :
  TaskTableSpec.keyed tasks ->
  load_tasks tasks ids !! id = Some x <-> id ∈ ids /\ TaskRepo.get tasks id = Some x.
Proof.
  intros Hk. unfold load_tasks.
  assert (Hmany : forall y, y ∈ TaskRepo.get_many tasks ids <->
            Task.id y ∈ ids /\ TaskRepo.get tasks (Task.id y) = Some y).
  { intros y. unfold TaskRepo.get_many. rewrite list_elem_of_In, filter_In, bool_decide_eq_true,
      TaskTableFacts.elem_of_tasks. split.
    - intros [[i Hi] Hin]. split; [done|]. by rewrite (Hk _ _ Hi).
    - intros [? ?]. eauto. }
  destruct ids as [|i ids]; [rewrite lookup_empty; set_solver|].
  rewrite foldl_index.
  - rewrite lookup_empty. split.
    + intros [[Hx <-]|?]; [by apply Hmany|done].
    + intros [Hin Hg]. left. pose proof (Hk _ _ Hg) as Hid. subst id. by rewrite Hmany.
  - intros y z Hy Hz E. apply Hmany in Hy as [_ Hy], Hz as [_ Hz]. rewrite E in Hy. congruence.
  - intros. left. apply lookup_empty.
Qed.

Lemma status_done_spec tasks ids id :
  TaskTableSpec.keyed tasks ->
  status_done (load_tasks tasks ids) id = true <-> id ∈ ids /\ task_done tasks id.
Proof.
  intros Hk. unfold status_done, task_done. destruct (load_tasks tasks ids !! id) as [x|] eqn:L.
  - apply load_tasks_lookup in L as [Hin Hg]; [|done]. rewrite bool_decide_eq_true. split.
    + intros Hs. eauto.
    + intros (_ & y & Hy & Hs). congruence.
  - split; [done|]. intros (Hin & y & Hy & _).
    assert (L' : load_tasks tasks ids !! id = Some y) by (by apply load_tasks_lookup). congruence.
Qed.

Lemma open_members_spec tasks plans p id :
  TaskTableSpec.keyed tasks ->
  let pts := PlanRepo.list_tasks_ordered plans p in
  id ∈ open_members (load_tasks tasks (map PlanTask.task_id pts)) pts <->
  open_member plans tasks p id.
Proof.
  intros Hk pts. unfold open_members, open_member. rewrite elem_of_list_to_set, list_elem_of_omap.
  split.
  - intros (pt & Hpt & Hm). destruct (load_tasks _ _ !! _) as [x|] eqn:L; [|done].
    apply load_tasks_lookup in L as [_ Hg]; [|done]. destruct (is_terminal _) eqn:T; [done|].
    injection Hm as <-. eauto 10.
  - intros ((pt & Hpt & <-) & x & Hg & T). exists pt. split; [done|].
    assert (L : load_tasks tasks (map PlanTask.task_id pts) !! PlanTask.task_id pt = Some x).
    { apply load_tasks_lookup; [done|]. split; [|done]. by apply list_elem_of_fmap_2. }
    by rewrite L, T.
Qed.

Lemma elem_of_add_blocker inc i b j x :
  x ∈ blockers_of (add_blocker inc i b) j <-> (j = i /\ x = b) \/ x ∈ blockers_of inc j.
Proof.
  unfold blockers_of at 1, add_blocker. destruct (decide (j = i)) as [->|Hne].
  - rewrite lookup_insert_eq. cbn. set_solver.
  - rewrite lookup_insert_ne by done. fold (blockers_of inc j). naive_solver.
Qed.

(** Folding steps that each add some edges adds the edges of all of them. *)
Lemma elem_of_fold_blockers {A} (step : Incoming -> A -> Incoming)
    (adds : A -> TaskId -> TaskId -> Prop) (l : list A) :
  (forall inc a j x, x ∈ blockers_of (step inc a) j <-> adds a j x \/ x ∈ blockers_of inc j) ->
  forall inc j x, x ∈ blockers_of (foldl step inc l) j <->
    (exists a, a ∈ l /\ adds a j x) \/ x ∈ blockers_of inc j.
Proof.
  intros Hstep. induction l as [|a l IH]; cbn; intros inc j x.
  - split; [by right|]. intros [(a & Ha & _)|?]; [by apply not_elem_of_nil in Ha|done].
  - rewrite IH, Hstep. setoid_rewrite elem_of_cons. naive_solver.
Qed.

Lemma elem_of_dep_incoming tm remaining pts inc j x :
  x ∈ blockers_of (dep_incoming tm remaining pts inc) j <->
  (exists pt, pt ∈ pts /\ PlanTask.task_id pt = j /\ j ∈ remaining /\
     x ∈ PlanTask.depends_on pt /\ status_done tm x = false)
  \/ x ∈ blockers_of inc j.
Proof.
  unfold dep_incoming. rewrite (elem_of_fold_blockers _ (fun pt j x =>
    PlanTask.task_id pt = j /\ j ∈ remaining /\
    x ∈ PlanTask.depends_on pt /\ status_done tm x = false)); [done|].
  clear. intros inc pt j x. case_bool_decide as Hr.
  - rewrite (elem_of_fold_blockers _ (fun d j x =>
      d = x /\ j = PlanTask.task_id pt /\ status_done tm x = false)); [naive_solver|].
    clear. intros inc d j x. destruct (status_done tm d) eqn:E.
    + split; [by right|]. intros [(-> & _ & ?)|?]; [congruence|done].
    + rewrite elem_of_add_blocker. naive_solver.
  - split; [by right|]. intros [(<- & ? & _)|?]; done.
Qed.

Lemma elem_of_rel_incoming bm remaining rels inc j x :
  x ∈ blockers_of (rel_incoming bm remaining rels inc) j <->
  (exists r, r ∈ rels /\ blocking remaining r = true /\ Relation.to r = j /\
     Relation.from r = x /\ status_done bm x = false)
  \/ x ∈ blockers_of inc j.
Proof.
  unfold rel_incoming. rewrite (elem_of_fold_blockers _ (fun r j x =>
    blocking remaining r = true /\ Relation.to r = j /\ Relation.from r = x /\
    status_done bm x = false)); [done|].
  clear. intros inc r j x. destruct (blocking remaining r) eqn:B; cbn.
  2: { split; [by right|]. intros [(? & _)|?]; done. }
  destruct (status_done bm (Relation.from r)) eqn:S; cbn.
  - split; [by right|]. intros [(_ & _ & <- & ?)|?]; [congruence|done].
  - rewrite elem_of_add_blocker. naive_solver.
Qed.

(** The collected blockers are those of the specification. *)
Lemma incoming_held plans tasks relations p id b :
  TaskTableSpec.keyed tasks ->
  let pts := PlanRepo.list_tasks_ordered plans p in
  let ids := map PlanTask.task_id pts in
  let tm := load_tasks tasks ids in
  let todo := open_members tm pts in
  let rels := RelationRepo.list_by_task_ids relations ids in
  let bm := load_tasks tasks (remove_dups (map Relation.from (List.filter (blocking todo) rels))) in
  id ∈ todo ->
  b ∈ blockers_of (rel_incoming bm todo rels (dep_incoming tm todo pts ∅)) id <->
  held_by plans tasks relations p id b.
Proof.
  intros Hk pts ids tm todo rels bm Hid.
  rewrite elem_of_rel_incoming, elem_of_dep_incoming.
  assert (Hmem : id ∈ ids).
  { unfold todo, tm, ids in Hid. apply open_members_spec in Hid as ((pt & Hpt & <-) & _); [|done].
    by apply list_elem_of_fmap_2. }
  assert (Hids : forall d, d ∈ ids <-> exists pb, pb ∈ pts /\ PlanTask.task_id pb = d).
  { intros d. unfold ids. rewrite list_elem_of_fmap. naive_solver. }
  assert (Hrel : forall r, r ∈ rels /\ blocking todo r = true /\ Relation.to r = id <->
            r ∈ relations /\ Relation.to r = id /\ Relation.kind r = Blocks).
  { intros r. unfold rels, RelationRepo.list_by_task_ids.
    destruct ids as [|i0 ids0] eqn:Ei; [by apply not_elem_of_nil in Hmem|].
    rewrite RelationFacts.elem_of_select. unfold blocking.
    rewrite orb_true_iff, andb_true_iff, !bool_decide_eq_true. split.
    - intros ((? & _) & (? & _) & ?). done.
    - intros (? & -> & ?). auto. }
  unfold held_by. fold pts. split.
  - intros [(r & Hr & Hb & Ht & <- & Hd)|[(pt & Hpt & Ht & _ & Hdep & Hd)|Hn]].
    + right. destruct (proj1 (Hrel r) (conj Hr (conj Hb Ht))) as (Hin & _ & Hkind).
      split; [by exists r|]. intros Hdone. apply not_true_iff_false in Hd. apply Hd.
      apply status_done_spec; [done|]. split; [|done].
      apply elem_of_remove_dups, list_elem_of_fmap_2, list_elem_of_In, filter_In.
      by rewrite <- list_elem_of_In.
    + left. exists pt. split; [done|]. split; [done|]. split; [done|]. rewrite <- Hids.
      intros Hdone. apply not_true_iff_false in Hd. apply Hd. by apply status_done_spec.
    + unfold blockers_of in Hn. rewrite lookup_empty in Hn. cbn in Hn. set_solver.
  - intros [(pt & Hpt & Ht & Hdep & Hd)|[(r & Hr & Hf & Ht & Hkind) Hd]].
    + right. left. exists pt. repeat split; try done. apply not_true_iff_false. intros Hs. apply Hd.
      rewrite <- Hids. by apply status_done_spec in Hs.
    + left. exists r. destruct (proj2 (Hrel r) (conj Hr (conj Ht Hkind))) as (Hin & Hb & _).
      repeat split; try done. apply not_true_iff_false. intros Hs. apply Hd.
      by apply status_done_spec in Hs as [_ ?].
Qed.

(** *** The loop *)
Section Loop.
Context (order : list TaskId) (todo : gset TaskId) (held : TaskId -> gset TaskId).

(** From the tasks [d] already scheduled: each wave is exactly the open tasks
    whose blockers are all scheduled, and at the end nothing else is free. *)
Fixpoint greedy (d : gset TaskId) (ws : list PlanFanoutWave) : Prop :=
  match ws with
  | [] => forall id, id ∈ order -> id ∈ todo -> id ∉ d -> ~ held id ⊆ d
  | w :: ws =>
      wave_tasks w <> [] /\
      (forall id, id ∈ wave_tasks w <-> id ∈ order /\ id ∈ todo /\ id ∉ d /\ held id ⊆ d) /\
      greedy (d ∪ list_to_set (wave_tasks w)) ws
  end.

Lemma elem_of_ready_list (remaining : gset TaskId) inc id :
  id ∈ List.filter (fun id => bool_decide (id ∈ remaining)
                              && bool_decide (blockers_of inc id = ∅)) order <->
  id ∈ order /\ id ∈ remaining /\ blockers_of inc id = ∅.
Proof.
  rewrite list_elem_of_In, filter_In, <- list_elem_of_In, andb_true_iff, !bool_decide_eq_true. done.
Qed.

Lemma blockers_of_minus inc (s : gset TaskId) id :
  blockers_of ((fun b => b ∖ s) <$> inc) id = blockers_of inc id ∖ s.
Proof. unfold blockers_of. rewrite lookup_fmap. destruct (inc !! id); cbn; set_solver. Qed.

Lemma waves_total fuel remaining inc n :
  (size remaining <= fuel)%nat -> is_Some (waves fuel order remaining inc n).
Proof.
  clear todo held. revert remaining inc n.
  induction fuel as [|fuel IH]; intros remaining inc n Hs; cbn; (case_bool_decide as He; [eauto|]).
  - exfalso. apply He. apply leibniz_equiv, size_empty_inv. lia.
  - destruct (List.filter _ order) as [|id l] eqn:E; [eauto|].
    apply fmap_is_Some, IH.
    assert (Hin : id ∈ id :: l) by apply list_elem_of_here. rewrite <- E in Hin.
    apply elem_of_ready_list in Hin as (_ & Hin & _).
    assert (size (remaining ∖ list_to_set (id :: l)) < size remaining)%nat; [|lia].
    apply subset_size. set_solver.
Qed.

Lemma minus_empty (a b : gset TaskId) : a ∖ b = ∅ <-> a ⊆ b.
Proof.
  split.
  - intros E x Hx. destruct (decide (x ∈ b)) as [|Hb]; [done|].
    exfalso. apply (not_elem_of_empty (C := gset TaskId) x). rewrite <- E. by apply elem_of_difference.
  - intros Hs. apply leibniz_equiv, elem_of_equiv_empty. intros x [Ha Hb]%elem_of_difference. auto.
Qed.

Lemma waves_greedy fuel d inc n ws :
  (forall id, blockers_of inc id = held id ∖ d) ->
  waves fuel order (todo ∖ d) inc n = Some ws ->
  greedy d ws /\ forall i w, ws !! i = Some w -> wave w = Z.of_nat (n + i).
Proof.
  revert d inc n ws. induction fuel as [|fuel IH]; intros d inc n ws Hinc; cbn;
    (case_bool_decide as He; [intros [= <-]; split; [set_solver|done]|]); [done|].
  destruct (List.filter _ order) as [|id l] eqn:E.
  - intros [= <-]. split; [|done]. intros id Ho Ht Hd Hh.
    apply (not_elem_of_nil id). rewrite <- E. apply elem_of_ready_list. rewrite Hinc. set_solver.
  - rewrite <- E. assert (Hne : List.filter (fun id => bool_decide (id ∈ todo ∖ d)
        && bool_decide (blockers_of inc id = ∅)) order <> []) by (by rewrite E).
    pose proof (elem_of_ready_list (todo ∖ d) inc) as Hl. clear E He. revert Hne Hl.
    generalize (List.filter (fun id => bool_decide (id ∈ todo ∖ d)
      && bool_decide (blockers_of inc id = ∅)) order) as l'. intros l' Hne Hl.
    intros (ws' & Hw & ->)%fmap_Some.
    replace (todo ∖ d ∖ list_to_set l') with (todo ∖ (d ∪ list_to_set l')) in Hw by set_solver.
    apply IH in Hw as [Hg Hn]; [|intros; rewrite blockers_of_minus, Hinc; set_solver]. split.
    + split; [exact Hne|]. split; [|exact Hg]. cbn [wave_tasks]. intros id'.
      rewrite Hl, Hinc, elem_of_difference, minus_empty. tauto.
    + intros [|i] w; cbn; [intros [= <-]; cbn; lia|]. intros Hi. rewrite (Hn i w Hi). lia.
Qed.

Lemma greedy_wave d ws i w id :
  greedy d ws -> ws !! i = Some w ->
  id ∈ wave_tasks w <->
  id ∈ order /\ id ∈ todo /\ id ∉ d ∪ list_to_set (scheduled (take i ws)) /\
  held id ⊆ d ∪ list_to_set (scheduled (take i ws)).
Proof.
  revert d i. induction ws as [|w' ws IH]; intros d i Hg; [done|].
  destruct Hg as (_ & Hw & Hg). destruct i as [|i]; cbn.
  - intros [= <-]. rewrite Hw. set_solver.
  - intros Hi. rewrite (IH _ i Hg Hi). unfold scheduled. cbn.
    rewrite list_to_set_app_L. set_solver.
Qed.

Lemma greedy_rest d ws id :
  greedy d ws -> id ∈ order -> id ∈ todo -> id ∉ d ∪ list_to_set (scheduled ws) ->
  ~ held id ⊆ d ∪ list_to_set (scheduled ws).
Proof.
  revert d. induction ws as [|w ws IH]; intros d Hg Ho Ht Hd.
  - unfold scheduled in *. cbn in *. intros Hh. apply (Hg id Ho Ht); set_solver.
  - destruct Hg as (_ & Hw & Hg). intros Hh. unfold scheduled in *. cbn in *.
    rewrite list_to_set_app_L in *. apply (IH _ Hg Ho Ht); set_solver.
Qed.

Lemma greedy_nonempty d ws w : greedy d ws -> w ∈ ws -> wave_tasks w <> [].
Proof.
  revert d. induction ws as [|w' ws IH]; intros d Hg Hw; [by apply not_elem_of_nil in Hw|].
  destruct Hg as (Hne & _ & Hg). apply elem_of_cons in Hw as [->|Hw]; [done|by eapply IH].
Qed.
End Loop.
End FanoutFacts.

(** ** Properties *)
Section Properties.
  Import NextTaskResolver ParentChain PlanReadiness PlanLogicSpec.

(** C27: the resolver hands out exactly the first ready task.  A missing plan
    is an error and an inactive plan has nothing to offer; for an active plan
    the answer is [None] only when no member is ready, and otherwise it is a
    ready member (open and past triage, its dependencies done, no live blocker,
    no live claim of another agent) and no ready member has a smaller
    position. *)
Theorem next_task_first_ready {R} `{PlanRepository R} (plans : R) tasks claims relations now
    plan_id agent ttl :
  match plan_get plans plan_id, next plans tasks claims relations now plan_id agent ttl with
  | None, res => res = Err (NotFound "plan {plan_id}")
  | Some plan, Ok None =>
      Plan.status plan = Active ->
      forall pt, pt ∈ list_plan_tasks_ordered plans plan_id ->
        ~ ready tasks claims relations now agent pt
  | Some plan, Ok (Some nt) =>
      Plan.status plan = Active /\
      exists pt, pt ∈ list_plan_tasks_ordered plans plan_id /\
        ready tasks claims relations now agent pt /\
        task_id nt = PlanTask.task_id pt /\ position nt = PlanTask.position pt /\
        claim_expires_at nt = claim_expiry now ttl /\
        forall pt', pt' ∈ list_plan_tasks_ordered plans plan_id ->
          ready tasks claims relations now agent pt' ->
          (PlanTask.position pt <= PlanTask.position pt')%Z
  | Some _, Err _ => False
  end.
Proof.
  unfold next. destruct (plan_get plans plan_id) as [plan|]; [|done].
  destruct (bool_decide (Plan.status plan = Active)) eqn:Hs; bsplit; cbn; [|done].
  destruct (scan _ _ _ _ _ _ _) as [nt|] eqn:E.
  - apply ResolverFacts.scan_some in E as (pre & pt & post & Hl & Hr & Hpre & ->).
    split; [done|]. pose proof (plan_tasks_sorted plans plan_id) as Hsort. rewrite Hl in *.
    exists pt. split; [set_solver|]. do 4 (split; [done|]).
    by apply ResolverFacts.first_is_least.
  - intros _. by apply ResolverFacts.scan_none with (ttl := ttl).
Qed.

(** C28: a task the resolver hands out can be claimed: when nothing happens in
    between, the agent's acquire with a fresh claim id succeeds, makes it the
    holder and records the claim. *)
Theorem next_task_is_claimable {R} `{PlanRepository R} (plans : R) tasks claims relations now
    plan_id agent ttl nt runs plan_tables owners claim expires
    (Hnext : next plans tasks claims relations now plan_id agent ttl = Ok (Some nt))
    (Hfresh : forall k row, claims !! k = Some row -> ClaimRow.claim_id row <> claim) :
  exists claims',
    RunClaims.try_acquire_bound_recorded claims tasks runs plan_tables owners now agent
      (task_id nt) claim expires None
    = Ok (ClaimRepo.Acquired expires claim,
          Some (Event.AgentClaimed agent (task_id nt) (Some claim) expires), claims') /\
    exists row, claims' !! (agent, task_id nt) = Some row /\ ClaimRow.claim_id row = claim
      /\ ClaimRow.expires_at row = expires.
Proof.
  unfold next in Hnext. destruct (plan_get plans plan_id) as [plan|]; [|done].
  destruct (negb _); [done|]. injection Hnext as Hs.
  apply ResolverFacts.scan_some in Hs as (pre & pt & post & _ & Hr & _ & ->). cbn [task_id].
  destruct Hr as [(x & Hx & Ht & _) _ _ Hc]. apply ResolverFacts.unclaimed_spec in Hc.
  unfold RunClaims.try_acquire_bound_recorded, RunClaims.check_claimable.
  rewrite Hx, Ht. cbn. unfold ClaimRepo.cas_insert. cbn.
  unfold ClaimRepo.is_claimed_by_other in Hc.
  destruct (ClaimRepo.others_live claims now (PlanTask.task_id pt) agent); [|done].
  destruct (ClaimRepo.claim_id_taken _ _ _) eqn:E.
  - exfalso. apply existsb_exists in E as (r & Hin & Hb). bsplit.
    apply list_elem_of_In, list_elem_of_fmap in Hin as ([k r'] & -> & Hin).
    apply elem_of_map_to_list in Hin. by eapply Hfresh.
  - cbn. eexists. split; [reflexivity|]. rewrite lookup_insert_eq. eexists.
    split; [reflexivity|]. by destruct (claims !! _).
Qed.

(** The parent guard is exact.  It accepts a new parent precisely when the
    plan is not the parent itself nor one of its ancestors and the parent's own
    chain reaches a root within [MAX_PARENT_DEPTH] plans; every refusal is
    [cycle_detected]. *)
Theorem detect_parent_cycle_exact {R} `{PlanRepository R} (plans : R) plan_id candidate :
  (detect_parent_cycle plans plan_id candidate = Ok tt <->
   ~ rtc (parent_rel plans) candidate plan_id /\
   exists k root, (Z.of_nat k < MAX_PARENT_DEPTH)%Z /\
     nsteps (parent_rel plans) k candidate root /\ forall b, ~ parent_rel plans root b) /\
  forall e, detect_parent_cycle plans plan_id candidate = Err e ->
    e = Validation "cycle_detected".
Proof.
  unfold detect_parent_cycle. case_bool_decide as Hc.
  { subst. split; [|by intros e [= <-]]. split; [done|].
    intros [Hn _]. exfalso. apply Hn, rtc_refl. }
  split; [|apply ParentFacts.walk_error]. split.
  - intros Hw. split; [by eapply ParentFacts.walk_ok|].
    destruct (ParentFacts.walk_root _ _ _ _ Hw) as (k & r & Hk & Hs). exists k, r.
    split; [unfold MAX_PARENT_DEPTH in *; lia|done].
  - intros [Hn (k & r & Hk & Hs & Hr)]. eapply ParentFacts.walk_complete; eauto.
    + unfold MAX_PARENT_DEPTH in *; lia.
    + intros Ht. apply Hn. by apply tc_rtc.
Qed.

(** A parent change the guard accepts keeps the plans a forest. *)
Theorem reparent_keeps_forest (t : PlanTables) plan candidate
    (Hforest : forest t)
    (Hok : detect_parent_cycle t (Plan.id plan) candidate = Ok tt) :
  forest (PlanRepo.upsert_plan t (plan <| Plan.parent_plan_id := Some candidate |>)).
Proof.
  apply (ParentFacts.upsert_forest t (Plan.id plan)); [done|done|].
  unfold detect_parent_cycle in Hok. case_bool_decide; [done|]. by eapply ParentFacts.walk_ok.
Qed.

(** C29: fan-out is the greedy schedule.  On a well-formed task table the loop
    always ends; the waves are numbered from 0 and none is empty; a task is in
    a wave exactly when it is an open member not scheduled before whose
    blockers are all scheduled before; and every open member left out is held
    back by a task that is never scheduled. *)
Theorem plan_fanout_greedy plans tasks relations p plan
    (Hplan : PlanRepo.get plans p = Some plan) (Hkeyed : TaskTableSpec.keyed tasks) :
  exists ws, plan_fanout plans tasks relations p = Ok (Some ws) /\
    (forall i w, ws !! i = Some w ->
       wave w = Z.of_nat i /\ wave_tasks w <> [] /\
       forall id, id ∈ wave_tasks w <->
         open_member plans tasks p id /\ id ∉ scheduled (take i ws) /\
         forall b, held_by plans tasks relations p id b -> b ∈ scheduled (take i ws)) /\
    (forall id, open_member plans tasks p id -> id ∉ scheduled ws ->
       exists b, held_by plans tasks relations p id b /\ b ∉ scheduled ws).
Proof.
  unfold plan_fanout, ensure_plan_exists. rewrite Hplan. cbn.
  set (pts := PlanRepo.list_tasks_ordered plans p).
  set (ids := map PlanTask.task_id pts).
  set (todo := open_members _ pts).
  set (inc := rel_incoming _ todo _ _).
  assert (Htodo : forall id, id ∈ todo <-> open_member plans tasks p id)
    by (intros; by apply FanoutFacts.open_members_spec).
  assert (Hord : forall id, id ∈ todo -> id ∈ ids).
  { intros id ((pt & Hpt & <-) & _)%Htodo. by apply list_elem_of_fmap_2. }
  assert (Hinc : forall id b, id ∈ todo -> b ∈ blockers_of inc id <->
            held_by plans tasks relations p id b).
  { intros id b Hid. by apply FanoutFacts.incoming_held. }
  destruct (FanoutFacts.waves_total ids (size todo) todo inc 0 ltac:(lia)) as [ws Hws].
  exists ws. split; [by rewrite Hws|].
  replace todo with (todo ∖ ∅) in Hws at 2 by set_solver.
  destruct (FanoutFacts.waves_greedy ids todo (blockers_of inc) (size todo) ∅ inc 0 ws
    ltac:(set_solver) Hws) as [Hg Hn].
  split.
  - intros i w Hi. split; [by apply Hn|].
    split; [eapply FanoutFacts.greedy_nonempty; [exact Hg|by eapply list_elem_of_lookup_2]|].
    intros id. rewrite (FanoutFacts.greedy_wave _ _ _ _ _ _ _ id Hg Hi). split.
    + intros (_ & Ht & Hs & Hh). split; [by apply Htodo|]. split; [set_solver|].
      intros b Hb. apply Hinc in Hb; [|done]. set_solver.
    + intros (Ht%Htodo & Hs & Hh). split; [auto|]. split; [done|]. split; [set_solver|].
      intros b Hb. apply Hinc, Hh in Hb; [set_solver|done].
  - intros id Ht%Htodo Hs.
    pose proof (FanoutFacts.greedy_rest _ _ _ _ ws id Hg (Hord _ Ht) Ht ltac:(set_solver)) as Hh.
    destruct (decide (Forall (fun b => b ∈ scheduled ws) (elements (blockers_of inc id)))) as [Hf|Hf].
    + exfalso. apply Hh. rewrite Forall_forall in Hf. set_solver.
    + apply not_Forall_Exists in Hf; [|intros ?; apply decide_rel; apply _].
      apply Exists_exists in Hf as (b & Hb & Hnb). exists b. split; [|done].
      apply Hinc; [done|]. by apply elem_of_elements.
Qed.
End Properties.

(** ** Witnesses *)
Definition demo_plan (i : N) (parent : option PlanId) : Plan :=
  Plan.mk (mkId i) (mkId 1) parent (lit "p") [] (lit "g") [] Active ActorOps.user 0 0 None
    None None.

Definition demo_plans : PlanTables :=
  PlanRepo.mk {[ mkId 1 := demo_plan 1 None; mkId 2 := demo_plan 2 None ]}
    {[ (mkId 1, mkId 10) := PlanTask.mk (mkId 1) (mkId 10) 0 [];
       (mkId 1, mkId 20) := PlanTask.mk (mkId 1) (mkId 20) 1 [mkId 10] ]} ∅.
Definition demo_todo (i : N) : TaskRow :=
  TaskRow.mk (from_new (mkId i) 0 (NewTask.new (lit "t")) <| Task.status := Todo |>) None None.
Definition demo_tasks : TaskTable :=
  TaskRepo.mk {[ mkId 10 := demo_todo 10; mkId 20 := demo_todo 20 ]} ∅.

Lemma next_task_is_claimable_witness :
  exists claims',
    RunClaims.try_acquire_bound_recorded ∅ demo_tasks RunRepo.empty demo_plans ∅ 5 (mkId 7)
      (mkId 10) (mkId 99) 50 None
    = Ok (ClaimRepo.Acquired 50 (mkId 99),
          Some (Event.AgentClaimed (mkId 7) (mkId 10) (Some (mkId 99)) 50), claims') /\
    exists row, claims' !! (mkId 7, mkId 10) = Some row /\ ClaimRow.claim_id row = mkId 99
      /\ ClaimRow.expires_at row = 50%Z.
Proof.
  refine (next_task_is_claimable demo_plans demo_tasks ∅ (Some []) 5 (mkId 1) (mkId 7) None
    (NextTaskResolver.mkNext (mkId 10) 0 None) RunRepo.empty demo_plans ∅ (mkId 99) 50 _ _).
  - vm_compute. reflexivity.
  - intros k row Hk. rewrite lookup_empty in Hk. discriminate Hk.
Defined.

Lemma demo_no_parents a b : ~ PlanLogicSpec.parent_rel demo_plans a b.
Proof.
  intros (pl & Hpl & Hb). cbn in Hpl. unfold PlanRepo.get in Hpl. cbn in Hpl.
  apply lookup_insert_Some in Hpl as [[_ <-]|[_ [_ <-]%lookup_singleton_Some]]; done.
Qed.

Lemma reparent_keeps_forest_witness :
  PlanLogicSpec.forest
    (PlanRepo.upsert_plan demo_plans (demo_plan 1 None <| Plan.parent_plan_id := Some (mkId 2) |>)).
Proof.
  refine (reparent_keeps_forest demo_plans (demo_plan 1 None) (mkId 2) _ _).
  - intros a Ha. destruct Ha as [a b H|a x b H _]; exact (demo_no_parents _ _ H).
  - vm_compute. reflexivity.
Defined.

Lemma demo_tasks_keyed : TaskTableSpec.keyed demo_tasks.
Proof.
  intros id x (r & Hr & ->)%fmap_Some. cbn in Hr.
  by apply lookup_insert_Some in Hr as [[<- <-]|[_ [<- <-]%lookup_singleton_Some]].
Qed.

Lemma plan_fanout_greedy_witness :
  exists ws, PlanReadiness.plan_fanout demo_plans demo_tasks [] (mkId 1) = Ok (Some ws) /\
    length ws = 2%nat.
Proof.
  destruct (plan_fanout_greedy demo_plans demo_tasks [] (mkId 1) (demo_plan 1 None)
    ltac:(vm_compute; reflexivity) demo_tasks_keyed) as (ws & Hws & _ & _).
  exists ws. split; [exact Hws|].
  assert (E : PlanReadiness.plan_fanout demo_plans demo_tasks [] (mkId 1)
    = Ok (Some [PlanReadiness.mkWave 0 [mkId 10]; PlanReadiness.mkWave 1 [mkId 20]]))
    by (vm_compute; reflexivity).
  rewrite E in Hws. injection Hws as <-. reflexivity.
Defined.

(** The guard measures the chain above the new parent only: a plan that has
    descendants of its own can end up with a chain longer than
    [MAX_PARENT_DEPTH]. *)
Definition deep_plans : PlanTables :=
  PlanRepo.mk (list_to_map (map (fun p => (Plan.id p, p))
    [demo_plan 1 None; demo_plan 2 (Some (mkId 1)); demo_plan 3 (Some (mkId 2));
     demo_plan 5 (Some (mkId 6)); demo_plan 6 (Some (mkId 7)); demo_plan 7 None])) ∅ ∅.

Example subtree_depth_unchecked :
  ParentChain.detect_parent_cycle deep_plans (mkId 1) (mkId 5) = Ok tt /\
  nsteps (PlanLogicSpec.parent_rel
    (PlanRepo.upsert_plan deep_plans (demo_plan 1 None <| Plan.parent_plan_id := Some (mkId 5) |>)))
    5 (mkId 3) (mkId 7).
Proof.
  split; [vm_compute; reflexivity|].
  do 5 (eapply nsteps_l; [eexists; split; [vm_compute; reflexivity|vm_compute; reflexivity]|]).
  apply nsteps_O.
Qed.
