(* ===== verification/LeaseStore.v ===== *)
(** * storage/work_lease_repo.rs: leases on files and other resources

    Tables [work_leases] (primary key [id]) and [lease_fencing_seq], the
    atomic reservation with its conflict scan and its fencing tokens, the
    releases, the sweep and the projection of lease events.  [fresh] supplies
    the ids [WorkLeaseId::new()] draws; [now] is the clock value an operation
    read before it took SQLite's write lock. *)

From S2P Require Import Prelude Shared TaskModel PlanModel RegistryModel Events.

Module WorkLeaseRepo.
  Import Lease.

Record LeaseTables : Type := mk {
  leases : gmap WorkLeaseId WorkLease;
  fencing_seq : gmap Str Z }.
#[global] Instance LeaseTables_rebuild : Rebuild LeaseTables := fun t =>
  mk (leases t) (fencing_seq t).

Definition empty : LeaseTables := mk ∅ ∅.

Inductive ReserveOutcome : Type :=
| Reserved (leases : list WorkLease)
| ReserveConflict (path : Str) (holder : AgentId) (holder_task : TaskId).

Record SweptLeases : Type := mkSwept {
  swept_agent_id : AgentId;
  swept_task_id : TaskId;
  swept_lease_ids : list WorkLeaseId }.

(** [expires_at >= now]. *)
Definition live (now : Z) (l : WorkLease) : bool := (now <=? expires_at l)%Z.
Definition rows (t : LeaseTables) : list WorkLease := (map_to_list (leases t)).*2.

(** The canonical targets of a request, each once. *)
Definition requested (targets : list Str) : list Str :=
  dedup (sort_by str_le (map canonical_target_uri targets)).

(** Live leases of other agents in the same project scope. *)
Definition existing (t : LeaseTables) (now : Z) (agent : AgentId) (project : option ProjectId)
  : list WorkLease :=
  List.filter (fun l => live now l && negb (bool_decide (agent_id l = agent))
                        && bool_decide (project_id l = project)) (rows t).

(** The conflict scan: the first held row that conflicts, with the first
    requested target it overlaps. *)
Fixpoint find_conflict (mode_ : LeaseMode) (reqs : list Str) (held : list WorkLease)
  : option ReserveOutcome :=
  match held with
  | [] => None
  | row :: held =>
      if negb (conflicts_with mode_ (mode row)) then find_conflict mode_ reqs held
      else match List.find (fun req => targets_overlap req (resource_key row)) reqs with
           | Some req => Some (ReserveConflict req (agent_id row) (task_id row))
           | None => find_conflict mode_ reqs held
           end
  end.

(** [req.strip_prefix("file://").unwrap_or(req)]. *)
Definition glob_of (req : Str) : Str := default req (strip_prefix (lit "file://") req).

Definition is_own (agent : AgentId) (task : TaskId) (req : Str) (l : WorkLease) : bool :=
  bool_decide (agent_id l = agent) && bool_decide (task_id l = task)
  && (bool_decide (target_uri l = Some req)
      || (bool_decide (target_uri l = None) && bool_decide (path_glob l = glob_of req))).

Definition delete_where (t : LeaseTables) (p : WorkLease -> bool) : LeaseTables :=
  t <| leases := filter (fun '(_, l) => p l = false) (leases t) |>.

(** [INSERT OR IGNORE (key, 0)], [seq = seq + 1], read back. *)
Definition next_token (t : LeaseTables) (key : Str) : Z := (default 0 (fencing_seq t !! key) + 1)%Z.

Section Reserve.
Context (fresh : nat -> WorkLeaseId) (now : Z) (agent : AgentId) (task : TaskId)
  (project : option ProjectId) (mode_ : LeaseMode) (expires : Z).

Definition grant (t : LeaseTables) (i : nat) (req : Str)
  : Result CoreError (WorkLease * LeaseTables) :=
  let t := delete_where t (is_own agent task req) in
  let token := next_token t req in
  let lease := Lease.mk (fresh i) agent task project (glob_of req) (Some req) mode_ (Some token)
                        now expires in
  match leases t !! fresh i with
  | Some _ => Err (Storage "UNIQUE constraint failed: work_leases.id")
  | None => Ok (lease, mk (<[fresh i := lease]> (leases t)) (<[req := token]> (fencing_seq t)))
  end.

Fixpoint grant_all (t : LeaseTables) (i : nat) (reqs : list Str)
  : Result CoreError (list WorkLease * LeaseTables) :=
  match reqs with
  | [] => Ok ([], t)
  | req :: reqs =>
      rbind (grant t i req) (fun '(l, t) =>
      rbind (grant_all t (S i) reqs) (fun '(ls, t) => Ok (l :: ls, t)))
  end.
End Reserve.

(** The body runs inside [BEGIN IMMEDIATE .. COMMIT]; an error rolls back, so
    no table is returned with it. *)
Definition try_reserve_targets (fresh : nat -> WorkLeaseId) (t : LeaseTables) (now : Z)
    (agent : AgentId) (task : TaskId) (project : option ProjectId) (targets : list Str)
    (mode_ : LeaseMode) (ttl : Z) : Result CoreError (ReserveOutcome * LeaseTables) :=
  let reqs := requested targets in
  match find_conflict mode_ reqs (existing t now agent project) with
  | Some conflict => Ok (conflict, t)
  | None =>
      rbind (grant_all fresh now agent task project mode_ (now + ttl) t 0 reqs)
            (fun '(ls, t) => Ok (Reserved ls, t))
  end.

Definition try_reserve (fresh : nat -> WorkLeaseId) (t : LeaseTables) (now : Z)
    (agent : AgentId) (task : TaskId) (project : option ProjectId) (paths : list Str)
    (ttl : Z) : Result CoreError (ReserveOutcome * LeaseTables) :=
  try_reserve_targets fresh t now agent task project paths Exclusive ttl.

(** [INSERT OR REPLACE] on the primary key. *)
Definition apply_reserved (t : LeaseTables) (l : WorkLease) : LeaseTables :=
  t <| leases := <[Lease.id l := l]> (leases t) |>.

Definition check_fencing_token (t : LeaseTables) (now : Z) (agent : AgentId) (target : Str)
    (token : Z) : bool :=
  let key := canonical_target_uri target in
  if negb (bool_decide (fencing_seq t !! key = Some token)) then false
  else existsb (fun l => bool_decide (agent_id l = agent) && bool_decide (target_uri l = Some key)
                         && bool_decide (fencing_token l = Some token) && live now l) (rows t).

Definition release_all_for_task (t : LeaseTables) (task : TaskId) : LeaseTables :=
  delete_where t (fun l => bool_decide (task_id l = task)).

Definition of_holder (agent : AgentId) (task : TaskId) (l : WorkLease) : bool :=
  bool_decide (agent_id l = agent) && bool_decide (task_id l = task).

Definition release_for_task (t : LeaseTables) (agent : AgentId) (task : TaskId) : LeaseTables :=
  delete_where t (of_holder agent task).

Definition release_leases (t : LeaseTables) (agent : AgentId) (task : TaskId)
    (ids : list WorkLeaseId) : LeaseTables :=
  foldl (fun t i => delete_where t (fun l => bool_decide (Lease.id l = i) && of_holder agent task l))
        t ids.

Definition apply_event (t : LeaseTables) (e : EventEnvelope) : LeaseTables :=
  match Envelope.payload e with
  | Event.FilesReserved ls => foldl apply_reserved t ls
  | Event.FilesReleased agent task None => release_for_task t agent task
  | Event.FilesReleased agent task (Some ids) => release_leases t agent task ids
  | Event.TaskClosed task _ _ => release_all_for_task t task
  | _ => t
  end.

(** [ORDER BY agent_id, task_id, id]: the textual ids of one kind sort like
    their values. *)
Definition sweep_order (a b : WorkLease) : bool :=
  let k l := (as_uuid (agent_id l), as_uuid (task_id l), as_uuid (Lease.id l)) in
  let '(a1, a2, a3) := k a in
  let '(b1, b2, b3) := k b in
  ((a1 <? b1) || ((a1 =? b1) && ((a2 <? b2) || ((a2 =? b2) && (a3 <=? b3)))))%N.

(** Neighbouring rows of one agent and task share a group. *)
Definition push_swept (swept : list SweptLeases) (l : WorkLease) : list SweptLeases :=
  match last swept with
  | Some g =>
      if bool_decide (swept_agent_id g = agent_id l) && bool_decide (swept_task_id g = task_id l)
      then removelast swept
             ++ [mkSwept (agent_id l) (task_id l) (swept_lease_ids g ++ [Lease.id l])]
      else swept ++ [mkSwept (agent_id l) (task_id l) [Lease.id l]]
  | None => [mkSwept (agent_id l) (task_id l) [Lease.id l]]
  end.

Definition sweep_expired (t : LeaseTables) (now : Z) : list SweptLeases * LeaseTables :=
  let expired := sort_by sweep_order (List.filter (fun l => negb (live now l)) (rows t)) in
  let swept := foldl push_swept [] expired in
  match swept with
  | [] => ([], t)
  | _ => (swept, delete_where t (fun l => negb (live now l)))
  end.

Definition list_active (t : LeaseTables) (now : Z) (project : option ProjectId)
  : list WorkLease :=
  sort_by (fun a b => (acquired_at a <=? acquired_at b)%Z)
    (List.filter (fun l => live now l &&
       match project with
       | Some p => bool_decide (project_id l = Some p)
       | None => true
       end) (rows t)).
End WorkLeaseRepo.
Abbreviation LeaseTables := WorkLeaseRepo.LeaseTables.

(** ** Specification

    Leases are a lock on sets of resources with shared and exclusive modes:
    [exclusive c t] says that no two agents hold conflicting live leases on
    overlapping resources of one project scope at the instant [c].  [step] is
    what the repository lets happen; a [FilesReserved] event is projected while
    the rows it names are still there ([projects_stored]). *)
Module LeaseSpec.
  Import Lease WorkLeaseRepo.

Definition keyed (t : LeaseTables) : Prop := map_Forall (fun i l => Lease.id l = i) (leases t).

Definition compatible (a b : WorkLease) : Prop :=
  conflicts_with (mode a) (mode b) = true ->
  targets_overlap (resource_key a) (resource_key b) = false.

Definition exclusive (c : Z) (t : LeaseTables) : Prop :=
  forall i j a b, leases t !! i = Some a -> leases t !! j = Some b ->
    agent_id a <> agent_id b -> project_id a = project_id b ->
    live c a = true -> live c b = true -> compatible a b.

Definition current (t : LeaseTables) (key : Str) : Z := default 0%Z (fencing_seq t !! key).

Definition good (c : Z) (t : LeaseTables) : Prop := keyed t /\ exclusive c t.

Definition projects_stored (t : LeaseTables) (e : EventEnvelope) : Prop :=
  match Envelope.payload e with
  | Event.FilesReserved ls => forall l, l ∈ ls -> leases t !! Lease.id l = Some l
  | _ => True
  end.

Record World : Type := mkWorld { clock : Z; table : LeaseTables }.

Inductive step : World -> World -> Prop :=
| step_tick w c : (clock w <= c)%Z -> step w (mkWorld c (table w))
| step_reserve w fresh now agent task project targets mode_ ttl out t' :
    (now <= clock w)%Z ->
    try_reserve_targets fresh (table w) now agent task project targets mode_ ttl = Ok (out, t') ->
    step w (mkWorld (clock w) t')
| step_project w e :
    projects_stored (table w) e -> step w (mkWorld (clock w) (apply_event (table w) e))
| step_sweep w now :
    (now <= clock w)%Z -> step w (mkWorld (clock w) (sweep_expired (table w) now).2).
End LeaseSpec.

(** ** Lemmas *)
Module LeaseFacts.
  Import Lease WorkLeaseRepo LeaseSpec.

Lemma conflicts_with_sym a b : conflicts_with a b = conflicts_with b a.
Proof. by destruct a, b. Qed.

Lemma targets_overlap_sym a b : targets_overlap a b = targets_overlap b a.
Proof.
  unfold targets_overlap. destruct (strip_prefix _ a), (strip_prefix _ b); try done.
  - apply PathLeaseFacts.paths_overlap_sym.
  - apply bool_decide_ext. done.
Qed.

Lemma compatible_sym a b : compatible a b -> compatible b a.
Proof. unfold compatible. by rewrite conflicts_with_sym, targets_overlap_sym. Qed.

Lemma elem_of_lease_rows t l : l ∈ rows t <-> exists i, leases t !! i = Some l.
Proof.
  unfold rows. rewrite list_elem_of_fmap. split.
  - intros ([i l'] & -> & H%elem_of_map_to_list). eauto.
  - intros [i H]. exists (i, l). by rewrite elem_of_map_to_list.
Qed.

Lemma elem_of_existing t now agent project l :
  l ∈ existing t now agent project <->
  (exists i, leases t !! i = Some l) /\ live now l = true /\ agent_id l <> agent /\
  project_id l = project.
Proof.
  unfold existing. rewrite list_elem_of_In, filter_In, <- list_elem_of_In, elem_of_lease_rows.
  rewrite !andb_true_iff, negb_true_iff, bool_decide_eq_true, bool_decide_eq_false. tauto.
Qed.

Lemma elem_of_requested targets req :
  req ∈ requested targets <-> exists x, x ∈ targets /\ canonical_target_uri x = req.
Proof.
  unfold requested. rewrite elem_of_dedup, elem_of_sort_by, list_elem_of_fmap. naive_solver.
Qed.

Lemma NoDup_requested targets : NoDup (requested targets).
Proof.
  apply (NoDup_dedup str_le); [apply str_le_antisym|].
  apply sort_by_sorted; [apply str_le_total|apply str_le_trans].
Qed.

Lemma lease_live_mono c c' l : (c <= c')%Z -> live c' l = true -> live c l = true.
Proof. unfold live. rewrite !Z.leb_le. lia. Qed.

(** *** The conflict scan *)
Lemma find_conflict_none m reqs held :
  find_conflict m reqs held = None ->
  forall row req, row ∈ held -> req ∈ reqs -> conflicts_with m (mode row) = true ->
    targets_overlap req (resource_key row) = false.
Proof.
  induction held as [|h held IH]; cbn; intros Hf row req Hrow Hreq Hc;
    [by apply not_elem_of_nil in Hrow|].
  apply elem_of_cons in Hrow as [->|Hrow].
  - rewrite Hc in Hf. cbn in Hf. destruct (List.find _ reqs) eqn:F; [done|].
    by apply (find_none _ _ F), list_elem_of_In.
  - apply IH; try done. destruct (negb _); [done|]. by destruct (List.find _ reqs).
Qed.

Lemma find_conflict_some m reqs held out :
  find_conflict m reqs held = Some out ->
  exists row req, row ∈ held /\ req ∈ reqs /\ conflicts_with m (mode row) = true /\
    targets_overlap req (resource_key row) = true /\
    out = ReserveConflict req (agent_id row) (task_id row).
Proof.
  induction held as [|h held IH]; cbn; [done|].
  destruct (conflicts_with m (mode h)) eqn:C; cbn.
  - destruct (List.find _ reqs) as [req|] eqn:F.
    + intros [= <-]. apply find_some in F as [Hin Ho]. exists h, req.
      split; [apply list_elem_of_here|]. by rewrite list_elem_of_In.
    + intros (row & req & ? & ?)%IH. exists row, req. by rewrite elem_of_cons; auto.
  - intros (row & req & ? & ?)%IH. exists row, req. by rewrite elem_of_cons; auto.
Qed.

(** *** Deletions *)
Lemma delete_where_lookup t p i l :
  leases (delete_where t p) !! i = Some l <-> leases t !! i = Some l /\ p l = false.
Proof. unfold delete_where. cbn. by rewrite map_lookup_filter_Some. Qed.

Lemma delete_where_good c t p : good c t -> good c (delete_where t p).
Proof.
  intros (Hk & Hx). split.
  - intros i l [Hl _]%delete_where_lookup. by apply Hk.
  - intros i j a b [Ha _]%delete_where_lookup [Hb _]%delete_where_lookup. by apply (Hx i j).
Qed.

Lemma release_leases_good c t agent task ids : good c t -> good c (release_leases t agent task ids).
Proof.
  unfold release_leases. revert t. induction ids as [|i ids IH]; cbn; intros t Hg; [done|].
  by apply IH, delete_where_good.
Qed.

Lemma release_leases_seq t agent task ids :
  fencing_seq (release_leases t agent task ids) = fencing_seq t.
Proof. unfold release_leases. revert t. induction ids as [|i ids IH]; cbn; intros t; [done|]. by rewrite IH. Qed.

Lemma project_stored_noop t e :
  (exists ls, Envelope.payload e = Event.FilesReserved ls) -> projects_stored t e ->
  apply_event t e = t.
Proof.
  unfold projects_stored, apply_event. intros [ls ->] Hs. revert Hs.
  induction ls as [|l ls IH]; cbn; intros Hs; [done|].
  assert (Hl : apply_reserved t l = t).
  { unfold apply_reserved. destruct t as [ll s]. cbn in *. unfold set_field, Setter. cbn.
    f_equal. apply insert_id, Hs, list_elem_of_here. }
  rewrite Hl. apply IH. intros. by apply Hs, list_elem_of_further.
Qed.

(** *** Granting *)
Section Grant.
Context (fresh : nat -> WorkLeaseId) (now : Z) (agent : AgentId) (task : TaskId)
  (project : option ProjectId) (m : LeaseMode) (expires : Z).

Abbreviation grant' := (grant fresh now agent task project m expires).
Abbreviation grant_all' := (grant_all fresh now agent task project m expires).

Definition granted (i : nat) (req : Str) (tok : Z) : WorkLease :=
  Lease.mk (fresh i) agent task project (glob_of req) (Some req) m (Some tok) now expires.

Lemma grant_ok t i req l t' :
  grant' t i req = Ok (l, t') ->
  l = granted i req (current t req + 1) /\
  (forall j x, leases t' !! j = Some x <->
     (j = fresh i /\ x = l) \/
     (j <> fresh i /\ leases t !! j = Some x /\ is_own agent task req x = false)) /\
  (forall j x, leases t !! j = Some x -> is_own agent task req x = false -> j <> fresh i) /\
  fencing_seq t' = <[req := (current t req + 1)%Z]> (fencing_seq t).
Proof.
  unfold grant. destruct (leases (delete_where t _) !! fresh i) eqn:F; [done|].
  intros [= <- <-]. split; [done|]. split; [|split; [|done]].
  - intros j x. cbn. rewrite lookup_insert_Some.
    change (filter _ (leases t)) with (leases (delete_where t (is_own agent task req))).
    rewrite delete_where_lookup. naive_solver.
  - intros j x Hx Ho ->. assert (H : leases (delete_where t (is_own agent task req)) !! fresh i = Some x)
      by (by apply delete_where_lookup). congruence.
Qed.

Lemma current_grant t t' req key v :
  fencing_seq t' = <[req := v]> (fencing_seq t) ->
  current t' key = if bool_decide (key = req) then v else current t key.
Proof.
  intros Hs. unfold current. rewrite Hs. case_bool_decide as E.
  - by rewrite E, lookup_insert_eq.
  - by rewrite lookup_insert_ne.
Qed.

(** The rows of other agents are untouched. *)
Definition others_kept (t0 t : LeaseTables) : Prop :=
  forall i l, agent_id l <> agent -> leases t !! i = Some l -> leases t0 !! i = Some l.

Lemma grant_others t i req l t' : grant' t i req = Ok (l, t') -> others_kept t t'.
Proof.
  intros (-> & Hl & _)%grant_ok j x Hx Hj. apply Hl in Hj as [[_ ->]|(_ & Hj & _)]; done.
Qed.

Lemma grant_good c t i req l t' :
  (forall j x, leases t !! j = Some x -> agent_id x <> agent -> project_id x = project ->
     live c x = true -> conflicts_with m (mode x) = true ->
     targets_overlap req (resource_key x) = false) ->
  good c t -> grant' t i req = Ok (l, t') -> good c t'.
Proof.
  intros Hfree (Hk & Hx) (-> & Hl & _ & Hs)%grant_ok. split.
  - intros j x Hj. apply Hl in Hj as [[-> ->]|(_ & Hj & _)]; [done|by apply Hk].
  - assert (Hnew : forall j x, leases t !! j = Some x -> agent_id x <> agent ->
              project_id x = project -> live c x = true ->
              compatible (granted i req (current t req + 1)) x)
      by (intros j x ? ? ? ? ?; by eapply Hfree).
    intros j1 j2 a b H1 H2 Hab Hp La Lb. apply Hl in H1, H2.
    destruct H1 as [[-> ->]|(_ & H1 & _)], H2 as [[-> ->]|(_ & H2 & _)]; [done| | |by apply (Hx j1 j2)].
    + by apply (Hnew j2).
    + apply compatible_sym. by apply (Hnew j1).
Qed.

Lemma grant_all_good c t i reqs ls t' :
  (forall j x req, req ∈ reqs -> leases t !! j = Some x -> agent_id x <> agent ->
     project_id x = project -> live c x = true -> conflicts_with m (mode x) = true ->
     targets_overlap req (resource_key x) = false) ->
  good c t -> grant_all' t i reqs = Ok (ls, t') -> good c t'.
Proof.
  revert t i ls. induction reqs as [|req reqs IH]; cbn; intros t i ls Hfree Hg.
  { by intros [= <- <-]. }
  intros ([l t1] & H1 & ([ls1 t2] & H2 & [= <- <-])%rbind_ok)%rbind_ok.
  pose proof (grant_others _ _ _ _ _ H1) as Ho.
  eapply (IH t1); [|eapply grant_good; [|exact Hg|exact H1]|exact H2].
  - intros j x r Hr Hj Hx. apply (Hfree j x r); [set_solver|by apply Ho|done].
  - intros j x. apply Hfree. set_solver.
Qed.

Lemma grant_all_current t i reqs ls t' key :
  grant_all' t i reqs = Ok (ls, t') -> (current t key <= current t' key)%Z.
Proof.
  revert t i ls t'. induction reqs as [|req reqs IH]; cbn; intros t i ls t'.
  { intros [= <- <-]. lia. }
  intros ([l t1] & (_ & _ & _ & Hs)%grant_ok & ([ls1 t2] & H2%IH & [= <- <-])%rbind_ok)%rbind_ok.
  rewrite (current_grant t t1 req key _ Hs) in H2. case_bool_decide; subst; lia.
Qed.

(** What a whole grant leaves: one row per requested target, carrying the
    resource's newest token. *)
Lemma grant_all_rows t i reqs ls t' :
  NoDup reqs -> grant_all' t i reqs = Ok (ls, t') ->
  Forall2 (fun req l => exists k, l = granted k req (current t req + 1) /\
     leases t' !! Lease.id l = Some l /\
     fencing_seq t' !! req = Some (current t req + 1)%Z) reqs ls /\
  (forall j x, leases t !! j = Some x -> (forall r, r ∈ reqs -> is_own agent task r x = false) ->
     leases t' !! j = Some x) /\
  (forall key, key ∉ reqs -> fencing_seq t' !! key = fencing_seq t !! key).
Proof.
  revert t i ls t'. induction reqs as [|req reqs IH]; cbn; intros t i ls t' Hnd.
  { intros [= <- <-]. split; [constructor|]. by split. }
  apply NoDup_cons in Hnd as [Hreq Hnd].
  intros ([l t1] & (-> & Hl & Hne & Hs)%grant_ok & ([ls1 t2] & H2 & [= <- <-])%rbind_ok)%rbind_ok.
  destruct (IH _ _ _ _ Hnd H2) as (Hrows & Hkeep & Hcur).
  assert (Hc1 : forall r, r <> req -> current t1 r = current t r).
  { intros r Hr. rewrite (current_grant t t1 req r _ Hs). by rewrite bool_decide_eq_false_2. }
  split; [|split].
  - constructor.
    + exists i. split; [done|]. split.
      * apply Hkeep; [apply Hl; by left|]. intros r Hr. unfold is_own. cbn.
        rewrite (bool_decide_eq_false_2 (Some req = Some r)) by (intros [= ->]; done).
        apply andb_false_r.
      * by rewrite Hcur, Hs, lookup_insert_eq.
    + eapply Forall2_impl_elem; [|exact Hrows]. intros r l Hr (k & -> & Hk). exists k.
      rewrite (Hc1 r) in Hk |- * by (intros ->; done). done.
  - intros j x Hx Ho. apply Hkeep; [|intros; apply Ho; set_solver].
    apply Hl. right. assert (Ho1 : is_own agent task req x = false) by (apply Ho; set_solver).
    split; [by eapply Hne|done].
  - intros key Hkey. rewrite Hcur, Hs by set_solver. apply lookup_insert_ne. set_solver.
Qed.
End Grant.

(** *** A reservation *)
Lemma reserve_ok fresh t now agent task project targets m ttl out t' :
  try_reserve_targets fresh t now agent task project targets m ttl = Ok (out, t') ->
  (exists row req, row ∈ existing t now agent project /\ req ∈ requested targets /\
     conflicts_with m (mode row) = true /\ targets_overlap req (resource_key row) = true /\
     out = ReserveConflict req (agent_id row) (task_id row) /\ t' = t) \/
  (exists ls, out = Reserved ls /\
     (forall row req, row ∈ existing t now agent project -> req ∈ requested targets ->
        conflicts_with m (mode row) = true -> targets_overlap req (resource_key row) = false) /\
     grant_all fresh now agent task project m (now + ttl) t 0 (requested targets) = Ok (ls, t')).
Proof.
  unfold try_reserve_targets. destruct (find_conflict _ _ _) as [o|] eqn:F.
  - intros [= <- <-]. left. apply find_conflict_some in F as (row & req & ?). exists row, req. tauto.
  - intros ([ls t1] & Hg & [= <- <-])%rbind_ok. right. exists ls. split; [done|].
    split; [|done]. intros row req. by apply find_conflict_none.
Qed.

Lemma reserve_good c fresh t now agent task project targets m ttl out t' :
  (now <= c)%Z -> good c t ->
  try_reserve_targets fresh t now agent task project targets m ttl = Ok (out, t') -> good c t'.
Proof.
  intros Hc Hg [(row & req & _ & _ & _ & _ & _ & ->)|(ls & _ & Hfree & Hok)]%reserve_ok; [done|].
  eapply grant_all_good; [|exact Hg|exact Hok]. intros j x req Hr Hx Ha Hp Hl Hm.
  apply Hfree; [|done|done]. apply elem_of_existing. split; [eauto|].
  split; [by eapply lease_live_mono|done].
Qed.

Lemma apply_event_good c t e : projects_stored t e -> good c t -> good c (apply_event t e).
Proof.
  intros Hp Hg. unfold apply_event. destruct (Envelope.payload e) eqn:E; try done.
  - by apply delete_where_good.
  - pose proof (project_stored_noop t e (ex_intro _ _ E) Hp) as Hn.
    unfold apply_event in Hn. rewrite E in Hn. by rewrite Hn.
  - destruct lease_ids; [by apply release_leases_good|by apply delete_where_good].
Qed.

Lemma lease_step_good w w' : step w w' -> good (clock w) (table w) -> good (clock w') (table w').
Proof.
  intros Hs Hg. destruct Hs; cbn.
  - destruct Hg as [Hk Hx]. split; [done|]. intros i j a b Ha Hb Hab Hp La Lb. eapply Hx; eauto using lease_live_mono.
  - by eapply reserve_good.
  - by apply apply_event_good.
  - unfold sweep_expired. destruct (foldl _ _ _); [done|]. by apply delete_where_good.
Qed.

(** *** Tokens only grow *)
Lemma apply_event_seq t e : fencing_seq (apply_event t e) = fencing_seq t.
Proof.
  unfold apply_event. destruct (Envelope.payload e); try done.
  - generalize leases0 as ls. intros ls. revert t. induction ls as [|l ls IH]; cbn; intros t; [done|].
    by rewrite IH.
  - destruct lease_ids; [by apply release_leases_seq|done].
Qed.

Lemma step_current w w' key :
  step w w' -> (current (table w) key <= current (table w') key)%Z.
Proof.
  intros Hs. destruct Hs as [|w fresh now agent task project targets m ttl out t' Hn Hr| |]; cbn.
  - lia.
  - apply reserve_ok in Hr as [(? & ? & _ & _ & _ & _ & _ & ->)|(ls & _ & _ & Hok)]; [lia|].
    by eapply grant_all_current.
  - unfold current. rewrite apply_event_seq. lia.
  - unfold sweep_expired. destruct (foldl _ _ _); cbn; [lia|]. unfold current, delete_where. cbn. lia.
Qed.

Lemma steps_current w w' key :
  rtc step w w' -> (current (table w) key <= current (table w') key)%Z.
Proof. induction 1 as [|w w1 w2 Hs _ IH]; [lia|]. pose proof (step_current _ _ key Hs). lia. Qed.

Lemma check_current t now agent target tok :
  check_fencing_token t now agent target tok = true ->
  fencing_seq t !! canonical_target_uri target = Some tok.
Proof. unfold check_fencing_token. by case_bool_decide. Qed.
End LeaseFacts.

(** ** Properties *)
Section Properties.
  Import Lease WorkLeaseRepo LeaseSpec.

(** C16: leases exclude one another within a project scope.  Whatever sequence of
    clock ticks, reservations with possibly stale clock readings, releases, task
    closings, sweeps and projections of leases that are still stored runs from an
    empty table, two live leases of different agents in one project scope whose
    modes conflict never cover a common resource.  (A projection that comes after
    its lease was released is outside: [late_projection_breaks_exclusivity].) *)
Theorem leases_mutually_exclusive c0 w
    (Hreach : rtc step (mkWorld c0 WorkLeaseRepo.empty) w) :
  exclusive (clock w) (table w).
Proof.
  assert (Hg : good (clock w) (table w)).
  { remember (mkWorld c0 WorkLeaseRepo.empty) as w0.
    assert (H0 : good (clock w0) (table w0)).
    { subst. split; intros i; cbn; intros; by rewrite lookup_empty in *. }
    clear Heqw0. induction Hreach; [done|]. eauto using LeaseFacts.lease_step_good. }
  apply Hg.
Qed.

(** A reservation decides exactly on the conflicts that exist.  A conflict
    answer names a live lease of another agent in the same project scope whose
    mode conflicts and whose resource overlaps the named requested target, and
    changes nothing; a grant means no such lease exists and leaves, for each
    distinct canonical target, one row of the caller with the asked mode and
    expiry; rows of other agents are untouched. *)
Theorem reserve_decides_conflicts fresh t now agent task project targets m ttl out t'
    (Hres : try_reserve_targets fresh t now agent task project targets m ttl = Ok (out, t')) :
  match out with
  | ReserveConflict req holder holder_task =>
      t' = t /\ (exists x, x ∈ targets /\ canonical_target_uri x = req) /\
      exists i row, leases t !! i = Some row /\ agent_id row = holder /\
        task_id row = holder_task /\ holder <> agent /\ project_id row = project /\
        live now row = true /\ conflicts_with m (mode row) = true /\
        targets_overlap req (resource_key row) = true
  | Reserved ls =>
      (forall i row x, leases t !! i = Some row -> agent_id row <> agent ->
         project_id row = project -> live now row = true -> x ∈ targets ->
         conflicts_with m (mode row) = true ->
         targets_overlap (canonical_target_uri x) (resource_key row) = false) /\
      (forall x, x ∈ targets -> exists l, l ∈ ls /\ target_uri l = Some (canonical_target_uri x)) /\
      NoDup (map target_uri ls) /\
      (forall l, l ∈ ls -> leases t' !! Lease.id l = Some l /\ agent_id l = agent /\
         task_id l = task /\ project_id l = project /\ mode l = m /\
         expires_at l = (now + ttl)%Z) /\
      (forall i row, leases t !! i = Some row -> agent_id row <> agent ->
         leases t' !! i = Some row)
  end.
Proof.
  apply LeaseFacts.reserve_ok in Hres
    as [(row & req & ((i & Hrow) & Hl & Ha & Hp)%LeaseFacts.elem_of_existing
         & Hreq%LeaseFacts.elem_of_requested & Hc & Ho & -> & ->)
       |(ls & -> & Hfree & Hok)].
  { split; [done|]. split; [done|]. exists i, row. done. }
  destruct (LeaseFacts.grant_all_rows _ _ _ _ _ _ _ _ _ _ _ _ (LeaseFacts.NoDup_requested _) Hok)
    as (Hrows & Hkeep & _).
  assert (Htgt : map target_uri ls = map Some (requested targets)).
  { clear -Hrows. induction Hrows as [|req l reqs ls (k & -> & _) _ IH]; cbn; [done|]. by rewrite IH. }
  split; [|split; [|split; [|split]]].
  - intros i row x Hi Ha Hp Hl Hx Hm. apply Hfree; [|by apply LeaseFacts.elem_of_requested; eauto|done].
    apply LeaseFacts.elem_of_existing. eauto.
  - intros x Hx. assert (Hin : Some (canonical_target_uri x) ∈ map target_uri ls).
    { rewrite Htgt. apply list_elem_of_fmap_2, LeaseFacts.elem_of_requested. eauto. }
    apply list_elem_of_fmap in Hin as (l & Hl & Hin). eauto.
  - rewrite Htgt. apply NoDup_fmap_2; [intros ?? [= ->]; done|apply LeaseFacts.NoDup_requested].
  - intros l Hl. apply list_elem_of_lookup in Hl as [k Hl].
    destruct (Forall2_lookup_r _ _ _ _ _ Hrows Hl) as (req & _ & n & -> & Hn & _). done.
  - intros i row Hi Ha. apply Hkeep; [done|]. intros r _. unfold is_own.
    by rewrite bool_decide_eq_false_2.
Qed.

(** C17: fencing tokens fence.  A grant gives each requested target a token
    that validates for the caller until the lease expires and is larger than
    any token that validated on the target before; and whatever happens later,
    no smaller token ever validates on that target again. *)
Theorem fencing_tokens_fence c fresh t now agent task project targets m ttl ls t' x
    (Hres : try_reserve_targets fresh t now agent task project targets m ttl
            = Ok (Reserved ls, t'))
    (Hx : x ∈ targets) :
  exists tok,
    (forall at_, (at_ <= now + ttl)%Z -> check_fencing_token t' at_ agent x tok = true) /\
    (forall at_ a old, check_fencing_token t at_ a x old = true -> (old < tok)%Z) /\
    (forall w at_ a old, rtc step (mkWorld c t') w -> (old < tok)%Z ->
       check_fencing_token (table w) at_ a x old = false).
Proof.
  apply LeaseFacts.reserve_ok in Hres as [(? & ? & _ & _ & _ & _ & ? & _)|(ls' & [= <-] & _ & Hok)];
    [done|].
  destruct (LeaseFacts.grant_all_rows _ _ _ _ _ _ _ _ _ _ _ _ (LeaseFacts.NoDup_requested _) Hok)
    as (Hrows & _ & _).
  set (req := canonical_target_uri x).
  assert (Hreq : req ∈ requested targets) by (apply LeaseFacts.elem_of_requested; eauto).
  apply list_elem_of_lookup in Hreq as [k Hk].
  destruct (Forall2_lookup_l _ _ _ _ _ Hrows Hk) as (l & _ & n & -> & Hl & Hpos).
  exists (current t req + 1)%Z. split; [|split].
  - intros at_ Hat. unfold check_fencing_token. fold req. rewrite Hpos, bool_decide_eq_true_2 by done.
    cbn. apply existsb_exists. eexists. split; [apply list_elem_of_In, LeaseFacts.elem_of_lease_rows; eauto|].
    cbn. rewrite !bool_decide_eq_true_2 by done. apply Z.leb_le, Hat.
  - intros at_ a old Hold%LeaseFacts.check_current. fold req in Hold. unfold current. rewrite Hold. cbn. lia.
  - intros w at_ a old Hw Hlt. apply not_true_iff_false. intros Hc%LeaseFacts.check_current.
    fold req in Hc. pose proof (LeaseFacts.steps_current _ _ req Hw) as Hle. cbn in Hle.
    unfold current in *. rewrite Hpos, Hc in Hle. cbn in Hle. lia.
Qed.
End Properties.

(** ** Witnesses *)
Definition demo_fresh (base : N) (i : nat) : WorkLeaseId := mkId (base + N.of_nat i).
Definition demo_reserve (base : N) (t : LeaseTables) (agent : N) (path : string)
  : Result CoreError (WorkLeaseRepo.ReserveOutcome * LeaseTables) :=
  WorkLeaseRepo.try_reserve (demo_fresh base) t 0 (mkId agent) (mkId 5) None [lit path] 60.

Definition demo_leases : LeaseTables :=
  match demo_reserve 100 WorkLeaseRepo.empty 1 "src" with
  | Ok (_, t) => t
  | Err _ => WorkLeaseRepo.empty
  end.

Lemma leases_mutually_exclusive_witness :
  LeaseSpec.exclusive 10 demo_leases.
Proof.
  refine (leases_mutually_exclusive 0 (LeaseSpec.mkWorld 10 demo_leases) _).
  eapply rtc_l; [apply (LeaseSpec.step_tick _ 10); cbn; lia|]. apply rtc_once.
  eapply (LeaseSpec.step_reserve (LeaseSpec.mkWorld 10 WorkLeaseRepo.empty) (demo_fresh 100) 0 (mkId 1) (mkId 5) None [lit "src"] Exclusive 60);
    [cbn; lia|vm_compute; reflexivity].
Defined.

Lemma reserve_decides_conflicts_witness :
  exists i row, WorkLeaseRepo.leases demo_leases !! i = Some row /\ Lease.agent_id row = mkId 1.
Proof.
  assert (H : demo_reserve 200 demo_leases 2 "src/lib.rs"
    = Ok (WorkLeaseRepo.ReserveConflict (lit "file://src/lib.rs") (mkId 1) (mkId 5), demo_leases))
    by (vm_compute; reflexivity).
  destruct (reserve_decides_conflicts _ _ _ _ _ _ _ _ _ _ _ H)
    as (_ & _ & i & row & Hrow & Ha & _).
  exists i, row. split; [exact Hrow|exact Ha].
Defined.

Lemma fencing_tokens_fence_witness :
  exists tok, WorkLeaseRepo.check_fencing_token demo_leases 30 (mkId 1) (lit "./src") tok = true.
Proof.
  destruct (fencing_tokens_fence 10 (demo_fresh 100) WorkLeaseRepo.empty 0 (mkId 1) (mkId 5) None
    [lit "./src"] Exclusive 60
    [Lease.mk (mkId 100) (mkId 1) (mkId 5) None (lit "src") (Some (lit "file://src")) Exclusive
       (Some 1%Z) 0 60] demo_leases (lit "./src")) as (tok & Htok & _).
  - vm_compute; reflexivity.
  - apply list_elem_of_here.
  - exists tok. apply Htok. cbn. lia.
Defined.

(** The premise of [step_project] matters.  The reservation and its
    [FilesReserved] event are two steps; when the lease is released in between
    and another agent reserves the path, projecting the late event puts the
    released lease back next to the new one: two agents then hold exclusive live
    leases on the same path. *)
Example late_projection_breaks_exclusivity :
  exists l t1 t2 out,
    demo_reserve 100 WorkLeaseRepo.empty 1 "src" = Ok (WorkLeaseRepo.Reserved [l], t1) /\
    demo_reserve 200 (WorkLeaseRepo.release_for_task t1 (mkId 1) (mkId 5)) 2 "src"
      = Ok (WorkLeaseRepo.Reserved out, t2) /\
    ~ LeaseSpec.exclusive 10
        (WorkLeaseRepo.apply_event t2
           (Envelope.new (mkId 0) 1 ActorOps.user (Event.FilesReserved [l]))).
Proof.
  do 4 eexists. split; [vm_compute; reflexivity|]. split; [vm_compute; reflexivity|].
  intros Hx.
  assert (H := Hx (mkId 100) (mkId 200) _ _ ltac:(vm_compute; reflexivity)
                  ltac:(vm_compute; reflexivity)).
  vm_compute in H. specialize (H ltac:(discriminate) eq_refl eq_refl eq_refl eq_refl). discriminate H.
Qed.
