(* ===== verification/ArtifactStore.v ===== *)
(** * storage/artifact_repo.rs: the artifact registry

    Tables [artifacts] (primary key [id], unique [uri], unique generation per
    task, role and kind) and [artifact_relations] (unique endpoints and kind,
    foreign keys with cascade), their queries and projection.  A write of an
    artifact is fenced by the lease of its URI. *)

From S2P Require Import Prelude Shared TaskModel PlanModel RegistryModel Events LeaseStore.
From stdpp Require Import pretty.

#[export] Instance ArtifactRelation_eq_dec : EqDecision ArtifactRelation.
Proof. solve_decision. Defined.

Module ArtifactRepo.
  Import Artifact.

Record ArtifactTables : Type := mkTables {
  artifacts : gmap ArtifactId Artifact;
  relations : list ArtifactRelation }.
#[global] Instance ArtifactTables_rebuild : Rebuild ArtifactTables := fun t => mkTables (artifacts t) (relations t).
Definition empty : ArtifactTables := mkTables ∅ [].

(** ** Queries *)
Definition get (t : ArtifactTables) (i : ArtifactId) : option Artifact := artifacts t !! i.
Definition rows (t : ArtifactTables) : list Artifact := (map_to_list (artifacts t)).*2.
Definition get_by_uri (t : ArtifactTables) (u : Str) : option Artifact :=
  head (List.filter (fun a => bool_decide (uri a = u)) (rows t)).

Definition by_created (a b : Artifact) : bool := (created_at a <=? created_at b)%Z.
Definition listed (t : ArtifactTables) (project : option ProjectId) (task : option TaskId)
    (st : option ArtifactStatus) (include_superseded : bool) : list Artifact :=
  sort_by by_created
    (List.filter (fun a =>
       match project with Some p => bool_decide (project_id a = Some p) | None => true end
       && match task with Some x => bool_decide (task_id a = Some x) | None => true end
       && match st with
          | Some s => bool_decide (status a = s)
          | None => include_superseded || negb (bool_decide (status a = ArtDeprecated))
          end) (rows t)).

(** The role columns of a row, for one task, role and kind. *)
Definition in_slot (task : TaskId) (r k : Str) (a : Artifact) : bool :=
  bool_decide (task_id a = Some task)
  && match role_artifact a with
     | Some x => bool_decide (role x = r) && bool_decide (role_kind x = k)
     | None => false
     end.
Definition generation_of (a : Artifact) : Z :=
  match role_artifact a with Some x => generation x | None => 0 end.
(** [MAX(role_generation) + 1], starting at 1. *)
Definition next_role_generation (t : ArtifactTables) (task : TaskId) (r k : Str) : Z :=
  (default 0 (max_of (map generation_of (List.filter (in_slot task r k) (rows t)))) + 1)%Z.

Definition relations_for (t : ArtifactTables) (i : ArtifactId) : list ArtifactRelation :=
  sort_by (fun a b => (rel_created_at a <=? rel_created_at b)%Z)
    (List.filter (fun r => bool_decide (from_id r = i) || bool_decide (to_id r = i)) (relations t)).

Definition write_fencing_token_is_live (t : ArtifactTables) (leases : LeaseTables) (now : Z)
    (i : ArtifactId) (agent : AgentId) (token : Z) : bool :=
  match get t i with
  | Some a => WorkLeaseRepo.check_fencing_token leases now agent (uri a) token
  | None => false
  end.

(** [RoleArtifact::uri]. *)
Definition role_uri (display : N -> Str) (task : TaskId) (r k : Str) (generation : Z) : Str :=
  lit "artifact://task/" ++ Ids.display display task ++ lit "/role/" ++ r ++ lit "/" ++ k ++ lit "/"
    ++ lit (pretty generation).

(** ** Projection *)
Definition edit (t : ArtifactTables) (i : ArtifactId) (at_ : Z) (f : Artifact -> Artifact) : ArtifactTables :=
  t <| artifacts := alter (fun a => f a <| updated_at := at_ |>) i (artifacts t) |>.

(** Rows that [INSERT OR REPLACE] deletes: the same id, URI or generation. *)
Definition clashes (a x : Artifact) : bool :=
  bool_decide (Artifact.id x = Artifact.id a) || bool_decide (uri x = uri a)
  || match role_artifact a, role_artifact x with
     | Some r, Some y =>
         match task_id a, task_id x with
         | Some s, Some s' => bool_decide (s = s')
         | _, _ => false
         end
         && bool_decide (role r = role y) && bool_decide (role_kind r = role_kind y)
         && bool_decide (generation r = generation y)
     | _, _ => false
     end.
(** The deleted rows take their relations with them. *)
Definition upsert (t : ArtifactTables) (a : Artifact) : ArtifactTables :=
  let gone := List.filter (clashes a) (rows t) in
  let dead (i : ArtifactId) := existsb (fun x => bool_decide (Artifact.id x = i)) gone in
  mkTables (<[Artifact.id a := a]> (foldr (fun x m => delete (Artifact.id x) m) (artifacts t) gone))
    (List.filter (fun r => negb (dead (from_id r)) && negb (dead (to_id r))) (relations t)).

Definition same_link (a b : ArtifactRelation) : bool :=
  bool_decide (from_id a = from_id b) && bool_decide (to_id a = to_id b) && bool_decide (rel_kind a = rel_kind b).
(** [INSERT OR IGNORE]: a foreign key that fails is an error all the same. *)
Definition add_relation (t : ArtifactTables) (r : ArtifactRelation) : Result CoreError ArtifactTables :=
  if existsb (fun x => bool_decide (rel_id x = rel_id r) || same_link x r) (relations t) then Ok t
  else match get t (from_id r), get t (to_id r) with
       | Some _, Some _ => Ok (t <| relations := relations t ++ [r] |>)
       | _, _ => Err (Storage "FOREIGN KEY constraint failed")
       end.

Definition set_role_status (to : RoleArtifactStatus) (a : Artifact) : Artifact :=
  a <| role_artifact := (fun r => mkRole (role r) (role_kind r) (generation r) to (payload r)) <$> role_artifact a |>.

Definition apply_event (t : ArtifactTables) (leases : LeaseTables) (now : Z) (e : EventEnvelope)
  : Result CoreError ArtifactTables :=
  let at_ := Envelope.occurred_at e in
  match Envelope.payload e with
  | Event.ArtifactRegistered a => Ok (upsert t a)
  | Event.ArtifactOwnerAssigned i owner _ =>
      Ok (edit t i at_ (fun a => a <| owner_agent_id := Some owner |>))
  | Event.ArtifactStatusChanged i _ to _ => Ok (edit t i at_ (fun a => a <| status := to |>))
  | Event.RoleArtifactStatusChanged i _ to _ =>
      match get t i ≫= role_artifact with
      | Some _ => Ok (edit t i at_ (set_role_status to))
      | None => Ok t
      end
  | Event.ArtifactChanged i ti de _ =>
      let t := match ti with Some x => edit t i at_ (fun a => a <| title := x |>) | None => t end in
      Ok (match de with Some x => edit t i at_ (fun a => a <| description := x |>) | None => t end)
  | Event.ArtifactWriteCommitted i agent token ver _ =>
      if write_fencing_token_is_live t leases now i agent token
      then Ok (edit t i at_ (fun a => a <| last_write_token := Some token |> <| version := ver |>
                                        <| status := ArtCommitted |>))
      else Ok t
  | Event.ArtifactDeprecated i _ _ => Ok (edit t i at_ (fun a => a <| status := ArtDeprecated |>))
  | Event.ArtifactRelationAdded r => add_relation t r
  | Event.ArtifactRelationRemoved _ f to k _ =>
      Ok (t <| relations := List.filter (fun r => negb (bool_decide (from_id r = f) && bool_decide (to_id r = to)
                                                        && bool_decide (rel_kind r = k))) (relations t) |>)
  | _ => Ok t
  end.
End ArtifactRepo.
Abbreviation ArtifactTables := ArtifactRepo.ArtifactTables.

(** ** Specification *)
Module ArtifactSpec.
  Import Artifact ArtifactRepo.

(** What the schema guarantees. *)
Record registry_ok (t : ArtifactTables) : Prop := mkRegistry {
  reg_keyed : map_Forall (fun i a => Artifact.id a = i) (artifacts t);
  reg_uri : forall i j a b, artifacts t !! i = Some a -> artifacts t !! j = Some b -> uri a = uri b -> i = j;
  reg_generation : forall i j a b task r k, artifacts t !! i = Some a -> artifacts t !! j = Some b ->
    in_slot task r k a = true -> in_slot task r k b = true -> generation_of a = generation_of b -> i = j;
  reg_endpoints : forall r, r ∈ relations t -> is_Some (artifacts t !! from_id r) /\ is_Some (artifacts t !! to_id r);
  reg_links : NoDup (map (fun r => (from_id r, to_id r, rel_kind r)) (relations t)) }.

(** [agent] may write [u] with [token]: the token is the newest one of the
    resource, and an unexpired lease of the agent on it carries that token. *)
Definition holds_lease (t : LeaseTables) (now : Z) (agent : AgentId) (u : Str) (token : Z) : Prop :=
  let key := Lease.canonical_target_uri u in
  WorkLeaseRepo.fencing_seq t !! key = Some token /\
  exists j l, WorkLeaseRepo.leases t !! j = Some l /\ Lease.agent_id l = agent /\
    Lease.target_uri l = Some key /\ Lease.fencing_token l = Some token /\ (now <= Lease.expires_at l)%Z.

(** What a write leaves on a row. *)
Definition write_mark (a : Artifact) : option Z * option Str := (last_write_token a, version a).
Definition committed_write (token : Z) (ver : option Str) (at_ : Z) (a : Artifact) : Artifact :=
  a <| last_write_token := Some token |> <| version := ver |> <| status := ArtCommitted |> <| updated_at := at_ |>.
End ArtifactSpec.

Module ArtifactFacts.
  Import Artifact ArtifactRepo ArtifactSpec.

Lemma elem_of_artifact_rows t a : a ∈ rows t <-> exists i, artifacts t !! i = Some a.
Proof.
  unfold rows. rewrite list_elem_of_fmap. split.
  - intros ([i a'] & -> & H%elem_of_map_to_list). eauto.
  - intros [i H]. exists (i, a). by rewrite elem_of_map_to_list.
Qed.

(** An edit that leaves what identifies a row. *)
Definition keeps_identity (f : Artifact -> Artifact) : Prop :=
  forall a, Artifact.id (f a) = Artifact.id a /\ uri (f a) = uri a /\ generation_of (f a) = generation_of a /\
            forall task r k, in_slot task r k (f a) = in_slot task r k a.

Lemma edit_lookup t i at_ f j x :
  artifacts (edit t i at_ f) !! j = Some x ->
  exists y, artifacts t !! j = Some y /\ (x = y \/ x = f y <| updated_at := at_ |>).
Proof. cbn. intros [(_ & y & H & ->)|[_ H]]%lookup_alter_Some; eauto. Qed.

Lemma edit_ok t i at_ f : keeps_identity f -> registry_ok t -> registry_ok (edit t i at_ f).
Proof.
  intros Hf [H1 H2 H3 H4 H5].
  assert (E : forall j x, artifacts (edit t i at_ f) !! j = Some x -> exists y, artifacts t !! j = Some y /\
    Artifact.id x = Artifact.id y /\ uri x = uri y /\ generation_of x = generation_of y /\
    forall task r k, in_slot task r k x = in_slot task r k y).
  { intros j x (y & Hy & Hx)%edit_lookup. exists y. split; [done|]. destruct (Hf y) as (? & ? & ? & Hs).
    destruct Hx as [-> | ->]; [done|]. cbn. split; [done|]. split; [done|]. split; [done|].
    intros task r k. by rewrite <- Hs. }
  split.
  - intros j x (y & Hy & -> & _)%E. by apply H1.
  - intros j k a b (x & Hx & _ & Ea & _)%E (y & Hy & _ & Eb & _)%E Hu. eapply (H2 j k x y); congruence.
  - intros j k a b task r rk (x & Hx & _ & _ & Ga & Sa)%E (y & Hy & _ & _ & Gb & Sb)%E.
    rewrite Sa, Sb, Ga, Gb. by apply (H3 j k x y).
  - intros r Hr. destruct (H4 r Hr) as [[x Hx] [y Hy]].
    assert (D : forall q z, artifacts t !! q = Some z -> is_Some (artifacts (edit t i at_ f) !! q)).
    { intros q z Hz. cbn. destruct (decide (i = q)) as [->|]; [rewrite lookup_alter_eq, Hz; by eexists|].
      rewrite lookup_alter_ne by done. by eexists. }
    split; by eapply D.
  - exact H5.
Qed.

Lemma foldr_delete_lookup (gone : list Artifact) (m : gmap ArtifactId Artifact) i x :
  foldr (fun x m => delete (Artifact.id x) m) m gone !! i = Some x <->
  m !! i = Some x /\ forall y, y ∈ gone -> Artifact.id y <> i.
Proof.
  induction gone as [|y gone IH]; cbn.
  - split; [intros H; split; [done|by intros y ?%elem_of_nil]|by intros []].
  - rewrite lookup_delete_Some, IH. split.
    + intros (Hn & Hm & Hg). split; [done|]. by intros z [->|Hz]%elem_of_cons; [|apply Hg].
    + intros (Hm & Hg). split; [apply Hg; by left|]. split; [done|]. intros z Hz. apply Hg. by right.
Qed.

Lemma upsert_lookup t a i x :
  registry_ok t ->
  artifacts (upsert t a) !! i = Some x <->
  (i = Artifact.id a /\ x = a) \/ (i <> Artifact.id a /\ artifacts t !! i = Some x /\ clashes a x = false).
Proof.
  intros Hok. unfold upsert. cbn. rewrite lookup_insert_Some, foldr_delete_lookup. split.
  - intros [[<- <-]|(Hn & Hx & Hg)]; [by left|]. right. split; [done|]. split; [done|].
    destruct (clashes a x) eqn:C; [|done]. exfalso. apply (Hg x); [|by apply (reg_keyed _ Hok)].
    apply list_elem_of_In, filter_In. split; [|done]. apply list_elem_of_In, elem_of_artifact_rows. eauto.
  - intros [[-> ->]|(Hn & Hx & Hc)]; [by left|]. right. split; [done|]. split; [done|].
    intros y Hy. apply list_elem_of_In, filter_In in Hy as [Hy Cy].
    apply list_elem_of_In, elem_of_artifact_rows in Hy as [j Hj]. intros Hid.
    rewrite (reg_keyed _ Hok j y Hj) in Hid. subst j. congruence.
Qed.

Lemma clashes_false a x :
  clashes a x = false ->
  Artifact.id x <> Artifact.id a /\ uri x <> uri a /\
  forall task r k, in_slot task r k a = true -> in_slot task r k x = true -> generation_of a <> generation_of x.
Proof.
  unfold clashes. intros [[H1 H2]%orb_false_iff H3]%orb_false_iff. bsplit. split; [done|]. split; [done|].
  intros task r k Ha Hx. unfold in_slot in Ha, Hx. apply andb_prop in Ha as [Ta Ha], Hx as [Tx Hx]. bsplit.
  unfold generation_of. destruct (role_artifact a) as [ra|], (role_artifact x) as [rx|]; try done.
  rewrite Ta, Tx in H3. bsplit. intros E. rewrite !bool_decide_eq_true_2 in H3 by congruence. done.
Qed.

Lemma artifact_upsert_ok t a : registry_ok t -> registry_ok (upsert t a).
Proof.
  intros Hok. destruct Hok as [H1 H2 H3 H4 H5] eqn:E. clear E. split.
  - intros i x [[-> ->]|(_ & Hx & _)]%upsert_lookup; [done|by apply H1|done].
  - intros i j x y Hx%upsert_lookup Hy%upsert_lookup Hu; [|done..].
    destruct Hx as [[-> ->]|(Hni & Hx & Cx)], Hy as [[-> ->]|(Hnj & Hy & Cy)]; [done| | |by eapply H2].
    + apply clashes_false in Cy as (_ & Cy & _). by destruct Cy.
    + apply clashes_false in Cx as (_ & Cx & _). by destruct Cx.
  - intros i j x y task r k Hx%upsert_lookup Hy%upsert_lookup Sx Sy Hg; [|done..].
    destruct Hx as [[-> ->]|(Hni & Hx & Cx)], Hy as [[-> ->]|(Hnj & Hy & Cy)]; [done| | |by eapply H3].
    + apply clashes_false in Cy as (_ & _ & Cy). by destruct (Cy task r k Sx Sy).
    + apply clashes_false in Cx as (_ & _ & Cx). by destruct (Cx task r k Sy Sx).
  - intros r Hr. cbn in Hr. apply list_elem_of_In, filter_In in Hr as [Hr Hdead].
    apply list_elem_of_In in Hr. destruct (H4 r Hr) as [[x Hx] [y Hy]].
    apply andb_prop in Hdead as [D1 D2]. apply negb_true_iff in D1, D2.
    assert (K : forall q z, artifacts t !! q = Some z ->
      existsb (fun x => bool_decide (Artifact.id x = q)) (List.filter (clashes a) (rows t)) = false ->
      is_Some (artifacts (upsert t a) !! q)).
    { intros q z Hz Hd. exists z. apply upsert_lookup; [done|].
      assert (Cz : clashes a z = false).
      { destruct (clashes a z) eqn:C; [|done]. exfalso. apply not_true_iff_false in Hd. apply Hd.
        apply existsb_exists. exists z. split; [|by apply bool_decide_eq_true, (H1 q)].
        apply filter_In. split; [|done]. apply list_elem_of_In, elem_of_artifact_rows. eauto. }
      right. split; [|done]. rewrite <- (H1 q z Hz). by apply clashes_false in Cz as (? & _). }
    split; by eapply K.
  - cbn. by apply NoDup_map_filter.
Qed.

Lemma add_relation_ok t r t' : add_relation t r = Ok t' -> registry_ok t -> registry_ok t'.
Proof.
  unfold add_relation. destruct (existsb _ _) eqn:X; [by intros [= <-]|].
  destruct (get t (from_id r)) as [a|] eqn:Ef; [|done]. destruct (get t (to_id r)) as [b|] eqn:Et; [|done].
  intros [= <-] [H1 H2 H3 H4 H5]. split; try done.
  - cbn. intros x [Hx| ->%list_elem_of_singleton]%elem_of_app; [by apply H4|]. split; by eexists.
  - cbn. rewrite map_app. apply NoDup_snoc; [done|]. intros (x & Hx & Hin)%list_elem_of_fmap.
    apply not_true_iff_false in X. apply X, existsb_exists. exists x. split; [by apply list_elem_of_In|].
    apply orb_true_iff. right. unfold same_link. injection Hx as -> -> ->. by rewrite !bool_decide_eq_true_2.
Qed.

Lemma artifact_apply_ok t leases now e t' :
  apply_event t leases now e = Ok t' -> registry_ok t -> registry_ok t'.
Proof.
  unfold apply_event. intros H Hok.
  assert (S : forall to, keeps_identity (set_role_status to)).
  { intros to a. unfold set_role_status, generation_of, in_slot. cbn. by destruct (role_artifact a). }
  destruct (Envelope.payload e); try (by injection H as <-); try (by eapply add_relation_ok);
    try (injection H as <-; by apply edit_ok).
  - injection H as <-. by apply artifact_upsert_ok.
  - injection H as <-. repeat case_match; repeat (apply edit_ok; [done|]); done.
  - destruct (write_fencing_token_is_live _ _ _ _ _ _); injection H as <-; [by apply edit_ok|done].
  - injection H as <-. destruct Hok as [H1 H2 H3 H4 H5]. split; try done; cbn.
    + intros r Hr. apply list_elem_of_In, filter_In in Hr as [Hr _]. by apply H4, list_elem_of_In.
    + by apply NoDup_map_filter.
  - destruct (_ ≫= _); injection H as <-; [by apply edit_ok|done].
Qed.

Lemma fencing_live_iff t leases now i agent token :
  write_fencing_token_is_live t leases now i agent token = true <->
  exists a, get t i = Some a /\ holds_lease leases now agent (uri a) token.
Proof.
  unfold write_fencing_token_is_live, WorkLeaseRepo.check_fencing_token, holds_lease.
  destruct (get t i) as [a|]; [|split; [done|by intros (a & ? & _)]]. cbn zeta.
  case_bool_decide as Hs; cbn [negb].
  2: { split; [done|]. by intros (a' & [= <-] & ? & _). }
  rewrite existsb_exists. setoid_rewrite <- list_elem_of_In. setoid_rewrite LeaseFacts.elem_of_lease_rows. split.
  - intros (l & [j Hj] & Hl). unfold WorkLeaseRepo.live in Hl. bsplit. exists a. split; [done|]. split; [done|].
    exists j, l. do 4 (split; [done|]). lia.
  - intros (a' & [= <-] & _ & j & l & Hj & Ha & Hu & Ht & He). exists l. split; [eauto|].
    unfold WorkLeaseRepo.live. rewrite !bool_decide_eq_true_2 by done. lia.
Qed.

Lemma edit_stored t i at_ f a :
  get t i = Some a -> edit t i at_ f = t <| artifacts := <[i := f a <| updated_at := at_ |>]> (artifacts t) |>.
Proof.
  unfold get, edit. intros Ha.
  assert (E : alter (fun a => f a <| updated_at := at_ |>) i (artifacts t)
              = <[i := f a <| updated_at := at_ |>]> (artifacts t)).
  { apply map_eq. intros j. destruct (decide (j = i)) as [->|Hj].
    - by rewrite lookup_alter_eq, lookup_insert_eq, Ha.
    - by rewrite lookup_alter_ne, lookup_insert_ne. }
  by rewrite E.
Qed.

(** An edit that leaves the mark of the last write. *)
Lemma edit_mark t i at_ f j b :
  (forall a, write_mark (f a) = write_mark a) -> get (edit t i at_ f) j = Some b ->
  exists a, get t j = Some a /\ write_mark b = write_mark a.
Proof.
  intros Hf (a & Ha & [-> | ->])%edit_lookup; exists a; [done|]. split; [done|]. exact (Hf a).
Qed.

(** The marks an event leaves as they are. *)
Definition marks_kept (t t' : ArtifactTables) : Prop :=
  forall j b, get t' j = Some b -> exists a, get t j = Some a /\ write_mark b = write_mark a.
#[local] Instance marks_kept_pre : PreOrder marks_kept.
Proof.
  split; [intros t j b; eauto|]. intros t1 t2 t3 H12 H23 j b (a & (x & Hx & E)%H12 & E')%H23.
  exists x. split; [done|congruence].
Qed.

Lemma other_events_keep_marks t leases now e t' :
  apply_event t leases now e = Ok t' ->
  (forall a, Envelope.payload e <> Event.ArtifactRegistered a) ->
  (forall i agent token ver at_, Envelope.payload e <> Event.ArtifactWriteCommitted i agent token ver at_) ->
  marks_kept t t'.
Proof.
  unfold apply_event. intros H Hr Hw.
  assert (Hedit : forall u i at_ f, (forall a, write_mark (f a) = write_mark a) -> marks_kept u (edit u i at_ f)).
  { intros u i at_ f Hf j b. by apply edit_mark. }
  destruct (Envelope.payload e) eqn:E; try (injection H as <-); try done; try (by apply Hedit).
  - exfalso. by eapply Hr.
  - repeat case_match; first [done | by apply Hedit | etrans; by apply Hedit].
  - exfalso. by eapply Hw.
  - unfold add_relation in H. destruct (existsb _ _); [by injection H as <-|].
    repeat case_match; try done. injection H as <-. intros j b Hb. by exists b.
  - intros j b Hb. by exists b.
  - case_match; injection H as <-; [by apply Hedit|done].
Qed.
End ArtifactFacts.

Section ArtifactProperty.
  Import Artifact ArtifactRepo ArtifactSpec ArtifactFacts.

(** C40: every event keeps the registry sound: ids, URIs and generations of a
    task's role and kind are unique, relations connect registered artifacts and
    are not repeated, even when a registration replaces rows it clashes with.  A
    committed write marks its artifact and nothing else when the agent holds the
    live lease of the artifact's URI under the newest fencing token, and changes
    nothing at all otherwise; apart from that and from a registration, no event
    touches the token or the version of the last write.  The generation proposed
    next for a role is past all recorded ones. *)
Theorem artifact_registry_sound t leases now e t' :
  registry_ok t -> apply_event t leases now e = Ok t' ->
  registry_ok t' /\
  (forall i agent token ver at_, Envelope.payload e = Event.ArtifactWriteCommitted i agent token ver at_ ->
     (exists a, get t i = Some a /\ holds_lease leases now agent (uri a) token /\
        t' = t <| artifacts := <[i := committed_write token ver (Envelope.occurred_at e) a]> (artifacts t) |>) \/
     ((forall a, get t i = Some a -> ~ holds_lease leases now agent (uri a) token) /\ t' = t)) /\
  ((forall a, Envelope.payload e <> Event.ArtifactRegistered a) ->
   (forall i agent token ver at_, Envelope.payload e <> Event.ArtifactWriteCommitted i agent token ver at_) ->
   forall i b, get t' i = Some b -> exists a, get t i = Some a /\ write_mark b = write_mark a) /\
  (forall task r k a i, artifacts t' !! i = Some a -> in_slot task r k a = true ->
     (generation_of a < next_role_generation t' task r k)%Z).
Proof.
  intros Hok H. split; [by eapply artifact_apply_ok|]. split; [|split].
  - intros i agent token ver at_ Hp. unfold apply_event in H. rewrite Hp in H.
    pose proof (fencing_live_iff t leases now i agent token) as Hl.
    destruct (write_fencing_token_is_live t leases now i agent token); injection H as <-; [left|right].
    + destruct (proj1 Hl eq_refl) as (a & Ha & Hh). exists a. split; [done|]. split; [done|].
      by rewrite (edit_stored _ _ _ _ a Ha).
    + split; [|done]. intros a Ha Hh. enough (false = true) by done. apply Hl. eauto.
  - intros Hr Hw. exact (other_events_keep_marks _ _ _ _ _ H Hr Hw).
  - intros task r k a i Ha Hs. unfold next_role_generation.
    assert (Hin : generation_of a ∈ map generation_of (List.filter (in_slot task r k) (rows t'))).
    { apply list_elem_of_fmap_2, list_elem_of_In, filter_In. split; [|done].
      apply list_elem_of_In, elem_of_artifact_rows. eauto. }
    destruct (max_of _) as [m|] eqn:M; cbn; [pose proof (max_of_ge _ _ _ M Hin); lia|].
    destruct (map generation_of _); [by apply elem_of_nil in Hin|done].
Qed.
End ArtifactProperty.

(** Agent 1 holds the lease of the sources and commits a write of them. *)
Definition demo_artifact (n : N) (u : string) : Artifact :=
  Artifact.mk (mkId n) (lit u) [] [] ArtPending None None None None None None 0 0.
Definition demo_registry : ArtifactTables := ArtifactRepo.mkTables {[mkId 3 := demo_artifact 3 "src"]} [].
Definition demo_write (agent : N) : EventEnvelope :=
  Envelope.new (mkId 1) 5 ActorOps.user (Event.ArtifactWriteCommitted (mkId 3) (mkId agent) 1 (Some (lit "v2")) 5).

Lemma demo_registry_ok : ArtifactSpec.registry_ok demo_registry.
Proof.
  split; cbn; [by intros i a [<- <-]%lookup_singleton_Some| | |by intros r ?%elem_of_nil|constructor].
  - by intros i j a b [<- _]%lookup_singleton_Some [<- _]%lookup_singleton_Some.
  - by intros i j a b task r k [<- _]%lookup_singleton_Some [<- _]%lookup_singleton_Some.
Qed.

Lemma artifact_registry_sound_witness :
  ArtifactRepo.apply_event demo_registry demo_leases 5 (demo_write 2) = Ok demo_registry /\
  exists t', ArtifactRepo.apply_event demo_registry demo_leases 5 (demo_write 1) = Ok t' /\
    ArtifactSpec.registry_ok t' /\
    ArtifactRepo.artifacts t'
    = <[mkId 3 := ArtifactSpec.committed_write 1 (Some (lit "v2")) 5 (demo_artifact 3 "src")]>
        (ArtifactRepo.artifacts demo_registry) /\
    ArtifactSpec.holds_lease demo_leases 5 (mkId 1) (lit "src") 1.
Proof.
  split; [vm_compute; reflexivity|].
  destruct (ArtifactRepo.apply_event demo_registry demo_leases 5 (demo_write 1)) as [t'|err] eqn:E;
    [|exfalso; revert E; vm_compute; discriminate].
  exists t'. split; [done|].
  destruct (artifact_registry_sound demo_registry demo_leases 5 (demo_write 1) t' demo_registry_ok E) as (Hok & Hw & _).
  split; [exact Hok|].
  destruct (Hw (mkId 3) (mkId 1) 1%Z (Some (lit "v2")) 5%Z eq_refl) as [(a & [= <-] & Hh & ->)|[_ ->]].
  - split; [done|exact Hh].
  - exfalso. apply (f_equal (fun r => match r with Ok t => Artifact.last_write_token <$> ArtifactRepo.get t (mkId 3) | Err _ => None end)) in E.
    revert E. vm_compute. discriminate.
Defined.
