(* ===== verification/DocumentStore.v ===== *)
(** * storage/document_repo.rs: documents

    Table [documents] (primary key [id]) with its queries, the projection
    [apply_event] and the read tracking.  The [entity_versions] audit rows
    written in the same transactions are not modelled. *)

From S2P Require Import Prelude Shared TaskModel PlanModel RegistryModel Events TaskStore.

Module DocumentRepo.
Abbreviation DocumentTable := (gmap DocumentId Document).

Definition get (t : DocumentTable) (id : DocumentId) : option Document := t !! id.
Definition rows (t : DocumentTable) : list Document := (map_to_list t).*2.

(** [ORDER BY created_at ASC, id ASC]. *)
Definition by_created (a b : Document) : bool :=
  (Document.created_at a <? Document.created_at b)%Z
  || ((Document.created_at a =? Document.created_at b)%Z
      && (as_uuid (Document.id a) <=? as_uuid (Document.id b))%N).
Definition select (t : DocumentTable) (where_ : Document -> bool) : list Document :=
  sort_by by_created (List.filter where_ (rows t)).

Definition list_by_project (t : DocumentTable) (project : ProjectId)
    (kind_filter : option DocumentKind) (include_archived : bool) : list Document :=
  select t (fun d =>
    bool_decide (Document.project_id d = project)
    && match kind_filter with
       | Some k => bool_decide (Document.kind d = k)
       | None => true
       end
    && (include_archived || bool_decide (Document.archived_at d = None))).

(** [status IN ('draft', 'active')]. *)
Definition is_live (d : Document) : bool :=
  bool_decide (Document.status d = DocDraft) || bool_decide (Document.status d = DocActive).

Definition list_live_by_task (t : DocumentTable) (task : TaskId) : list Document :=
  select t (fun d => bool_decide (Document.task_id d = Some task) && is_live d).

Definition anchor_gone (tasks : TaskTable) (d : Document) : bool :=
  match Document.task_id d with
  | None => true
  | Some id => match TaskRepo.get tasks id with
               | None => true
               | Some x => is_terminal (Task.status x)
               end
  end.

Definition list_sweep_candidates (t : DocumentTable) (tasks : TaskTable) : list Document :=
  select t (fun d => is_live d && anchor_gone tasks d).

Definition APPEND_SEPARATOR : Str := [10; 10]%N.

(** Fetch, edit and upsert; an unknown id is skipped. *)
Definition edit (t : DocumentTable) (id : DocumentId) (f : Document -> Document) : DocumentTable :=
  match get t id with
  | Some d => <[Document.id (f d) := f d]> t
  | None => t
  end.

Definition set_status (to : DocumentStatus) (at_ : Z) (d : Document) : Document :=
  let d := d <| Document.status := to |> in
  let d := match bool_decide (to = DocArchived), Document.archived_at d with
           | true, None => d <| Document.archived_at := Some at_ |>
           | false, Some _ => d <| Document.archived_at := None |>
           | _, _ => d
           end in
  d <| Document.updated_at := at_ |>.

Definition apply_event (t : DocumentTable) (e : EventEnvelope) : DocumentTable :=
  match Envelope.payload e with
  | Event.DocumentCreated d => <[Document.id d := d]> t
  | Event.DocumentContentReplaced id content at_ =>
      edit t id (fun d => d <| Document.content := content |> <| Document.updated_at := at_ |>)
  | Event.DocumentContentAppended id append at_ =>
      edit t id (fun d =>
        d <| Document.content := match Document.content d with
                                 | [] => append
                                 | c => c ++ APPEND_SEPARATOR ++ append
                                 end |> <| Document.updated_at := at_ |>)
  | Event.DocumentRenamed id title at_ =>
      edit t id (fun d => d <| Document.title := title |> <| Document.updated_at := at_ |>)
  | Event.DocumentArchived id at_ =>
      edit t id (fun d => d <| Document.archived_at := Some at_ |>
                            <| Document.status := DocArchived |> <| Document.updated_at := at_ |>)
  | Event.DocumentStatusChanged id _ to at_ => edit t id (set_status to at_)
  | Event.DocumentTaskLinkChanged id task at_ =>
      edit t id (fun d => d <| Document.task_id := task |> <| Document.updated_at := at_ |>)
  | _ => t
  end.

(** *** Read tracking

    [NOT (last_read_by = ? AND last_read_at IS NOT NULL AND last_read_at >= ?)]
    in SQL's three-valued logic: a row whose reader is NULL is updated only when
    the other conditions already fail. *)
Definition throttled (actor : Str) (cutoff : Z) (d : Document) : bool :=
  match Document.last_read_at d with
  | None => false
  | Some a => (cutoff <=? a)%Z
              && match Document.last_read_by d with
                 | Some by_ => bool_decide (by_ = actor)
                 | None => true
                 end
  end.

Definition mark_read (t : DocumentTable) (id : DocumentId) (actor : Str) (now throttle : Z)
  : bool * DocumentTable :=
  match get t id with
  | None => (false, t)
  | Some d =>
      if throttled actor (now - throttle) d then (false, t)
      else (true, <[id := d <| Document.last_read_at := Some now |>
                            <| Document.last_read_by := Some actor |>
                            <| Document.read_count := (Document.read_count d + 1)%Z |>]> t)
  end.

(** [ORDER BY last_read_at ASC NULLS FIRST, created_at ASC, id ASC]. *)
Definition by_last_read (a b : Document) : bool :=
  match Document.last_read_at a, Document.last_read_at b with
  | None, None => by_created a b
  | None, Some _ => true
  | Some _, None => false
  | Some x, Some y => (x <? y)%Z || ((x =? y)%Z && by_created a b)
  end.

Definition list_unread_since (t : DocumentTable) (project : ProjectId) (cutoff : Z)
  : list Document :=
  sort_by by_last_read
    (List.filter (fun d =>
       bool_decide (Document.project_id d = project)
       && bool_decide (Document.archived_at d = None)
       && match Document.last_read_at d with
          | None => true
          | Some a => (a <? cutoff)%Z
          end) (rows t)).
End DocumentRepo.
Abbreviation DocumentTable := DocumentRepo.DocumentTable.

(** ** Specification *)
Module DocumentSpec.
  Import DocumentRepo.

Definition keyed (t : DocumentTable) : Prop := map_Forall (fun i d => Document.id d = i) t.

(** The archive time is set exactly on archived documents. *)
Definition coherent (d : Document) : Prop :=
  Document.status d = DocArchived <-> Document.archived_at d <> None.

Definition wf (t : DocumentTable) : Prop := keyed t /\ map_Forall (fun _ => coherent) t.

(** A created document that enters the table is coherent itself. *)
Definition admissible (e : EventEnvelope) : Prop :=
  match Envelope.payload e with
  | Event.DocumentCreated d => coherent d
  | _ => True
  end.
End DocumentSpec.

Module DocumentFacts.
  Import DocumentRepo DocumentSpec.

Lemma elem_of_doc_rows t d : d ∈ rows t <-> exists i, t !! i = Some d.
Proof.
  unfold rows. rewrite list_elem_of_fmap. split.
  - intros ([i d'] & -> & H%elem_of_map_to_list). eauto.
  - intros [i H]. exists (i, d). by rewrite elem_of_map_to_list.
Qed.

Lemma elem_of_live t task d :
  keyed t ->
  d ∈ list_live_by_task t task <->
  t !! Document.id d = Some d /\ Document.task_id d = Some task /\ is_live d = true.
Proof.
  intros Hk. unfold list_live_by_task, select.
  rewrite elem_of_sort_by, list_elem_of_In, filter_In, <- list_elem_of_In, elem_of_doc_rows.
  rewrite andb_true_iff, bool_decide_eq_true. split.
  - intros ([i Hi] & ?). split; [|done]. by rewrite (Hk _ _ Hi).
  - intros (? & ?). eauto.
Qed.

Lemma set_status_coherent to at_ d : coherent (set_status to at_ d).
Proof.
  unfold coherent, set_status. case_bool_decide as E; cbn;
    destruct (Document.archived_at d) eqn:A; cbn; rewrite ?A; naive_solver.
Qed.

Lemma edit_wf t id f :
  (forall d, Document.id (f d) = Document.id d) -> (forall d, coherent d -> coherent (f d)) ->
  wf t -> wf (edit t id f).
Proof.
  intros Hid Hc [Hk Hf]. unfold edit, get. destruct (t !! id) as [d|] eqn:E; [|done].
  split; intros i x [[<- <-]|[_ Hx]]%lookup_insert_Some; [done|by apply Hk| |by apply (Hf i)].
  by apply Hc, (Hf id).
Qed.

Lemma apply_event_wf t e : admissible e -> wf t -> wf (apply_event t e).
Proof.
  unfold admissible, apply_event. intros Ha Hw. destruct (Envelope.payload e); try done;
    try (apply edit_wf; [done|intros d; unfold coherent; cbn; first [done|by split]|done]).
  - destruct Hw as [Hk Hf].
    split; intros i d [[<- <-]|[_ Hx]]%lookup_insert_Some; [done|by apply Hk|done|by apply (Hf i)].
  - apply edit_wf; [|intros; apply set_status_coherent|done].
    intros d. unfold set_status. cbn. by repeat case_match.
Qed.
End DocumentFacts.
