(* ===== verification/RuleStore.v ===== *)
(** * storage/rule_repo.rs, evidence_repo.rs, entity_version.rs: rules and proofs

    The tables the lifecycle gate reads: [lifecycle_rules] with the resolution of
    the rules effective on a scope chain, [evidence] with the match of live
    evidence against a requirement, and the version ledger of documents
    ([entity_versions]) against which a [latest] read is judged. *)

From S2P Require Import Prelude Shared TaskModel PlanModel RegistryModel Events DocumentStore.

(** ** Version ledger

    Of an [entity_versions] row the columns that identify it: entity type and
    id, version number and the event it was written for.  The snapshots and
    their diff are derived text. *)
Module VersionRepo.
Record VersionRow : Type := mkRow {
  entity_type : Str;
  entity_id : Str;
  version_number : Z;
  source_event_id : EventId }.
Definition VersionTable : Type := list VersionRow.

Definition of_entity (ty id : Str) (r : VersionRow) : bool :=
  bool_decide (entity_type r = ty) && bool_decide (entity_id r = id).
(** [MAX(version_number)]; NULL without rows. *)
Definition max_version (t : VersionTable) (ty id : Str) : option Z :=
  max_of (map version_number (List.filter (of_entity ty id) t)).

(** One row per entity and event: a replayed event adds nothing. *)
Definition insert_entity_version (t : VersionTable) (ty id : Str) (e : EventId) : VersionTable :=
  if existsb (fun r => of_entity ty id r && bool_decide (source_event_id r = e)) t then t
  else t ++ [mkRow ty id (default 0%Z (max_version t ty id) + 1) e].

(** The document an event writes, when the projection finds it. *)
Definition document_written (docs : DocumentTable) (e : Event) : option DocumentId :=
  let known (id : DocumentId) := match DocumentRepo.get docs id with Some _ => Some id | None => None end in
  match e with
  | Event.DocumentCreated d => Some (Document.id d)
  | Event.DocumentContentReplaced id _ _ | Event.DocumentContentAppended id _ _
  | Event.DocumentRenamed id _ _ | Event.DocumentArchived id _
  | Event.DocumentStatusChanged id _ _ _ | Event.DocumentTaskLinkChanged id _ _ => known id
  | _ => None
  end.

(** [insert_document_version] in each branch of the document projection. *)
Definition insert_document_version (display : N -> Str) (t : VersionTable) (docs : DocumentTable)
    (e : EventEnvelope) : VersionTable :=
  match document_written docs (Envelope.payload e) with
  | Some id => insert_entity_version t (lit "document") (Ids.display display id) (Envelope.id e)
  | None => t
  end.
End VersionRepo.
Abbreviation VersionTable := VersionRepo.VersionTable.

(** ** Rules *)
Module RuleRepo.
Abbreviation RuleTable := (gmap RuleId Rule).

Definition get (t : RuleTable) (id : RuleId) : option Rule := t !! id.
Definition rows (t : RuleTable) : list Rule := (map_to_list t).*2.
Definition by_key (a b : Rule) : bool := str_le (Rule.rule_key a) (Rule.rule_key b).

Definition list_for_scope (t : RuleTable) (scope : RuleScope) : list Rule :=
  sort_by by_key (List.filter (fun r => bool_decide (Rule.scope r = scope)) (rows t)).

(** The unique index on scope and key, seen from a row to be written. *)
Definition key_taken (t : RuleTable) (id : RuleId) (scope : RuleScope) (key : Str) : bool :=
  existsb (fun r => negb (bool_decide (Rule.id r = id)) && bool_decide (Rule.scope r = scope)
                    && bool_decide (Rule.rule_key r = key)) (rows t).

(** [ON CONFLICT(id) DO UPDATE]: the scope, the trigger and the creation time of
    a known row stay. *)
Definition upsert (t : RuleTable) (rule : Rule) : Result CoreError RuleTable :=
  let next := match get t (Rule.id rule) with
              | Some old => rule <| Rule.scope := Rule.scope old |> <| Rule.trigger := Rule.trigger old |>
                                 <| Rule.created_at := Rule.created_at old |>
              | None => rule
              end in
  if key_taken t (Rule.id next) (Rule.scope next) (Rule.rule_key next)
  then Err (Storage "UNIQUE constraint failed: lifecycle_rules")
  else Ok (<[Rule.id next := next]> t).

Definition apply_event (t : RuleTable) (e : EventEnvelope) : Result CoreError RuleTable :=
  match Envelope.payload e with
  | Event.RuleCreated rule | Event.RuleUpdated rule => upsert t rule
  | Event.RuleDisabled id at_ =>
      Ok (alter (fun r => r <| Rule.enabled := false |> <| Rule.updated_at := at_ |>) id t)
  | Event.RuleDeleted id => Ok (delete id t)
  | _ => Ok t
  end.

(** *** Effective rules of a chain *)
Abbreviation Chosen := (gmap Str (nat * Rule)).

(** One row against the incumbent of its key: the inner scope overrides, unless
    it weakens a rule that forbids it. *)
Definition choose (depth : nat) (chosen : Chosen) (rule : Rule) : Chosen :=
  match chosen !! Rule.rule_key rule with
  | Some (d, incumbent) =>
      if (depth <=? d)%nat then chosen
      else
        let weakens := (strictness (Rule.mode rule) <? strictness (Rule.mode incumbent))%Z in
        if weakens && negb (Rule.override_allowed incumbent) then chosen
        else <[Rule.rule_key rule := (depth, rule)]> chosen
  | None => <[Rule.rule_key rule := (depth, rule)]> chosen
  end.

Definition scope_rows (t : RuleTable) (trigger : RuleTrigger) (scope : RuleScope) : list Rule :=
  List.filter (fun r => bool_decide (Rule.scope r = scope) && bool_decide (Rule.trigger r = trigger)
                        && Rule.enabled r) (rows t).

Fixpoint choose_all (t : RuleTable) (trigger : RuleTrigger) (depth : nat) (chain : list RuleScope)
    (chosen : Chosen) : Chosen :=
  match chain with
  | [] => chosen
  | scope :: chain =>
      choose_all t trigger (S depth) chain (foldl (choose depth) chosen (scope_rows t trigger scope))
  end.

(** [off] winners are dropped. *)
Definition effective_rules (t : RuleTable) (chain : list RuleScope) (trigger : RuleTrigger)
  : list Rule :=
  match chain with
  | [] => []
  | _ => sort_by by_key
           (List.filter (fun r => negb (bool_decide (Rule.mode r = Off)))
              (map snd (map_to_list (choose_all t trigger 0 chain ∅)).*2))
  end.
End RuleRepo.
Abbreviation RuleTable := RuleRepo.RuleTable.

(** ** Evidence *)
Module EvidenceRepo.
Abbreviation EvidenceTable := (gmap EvidenceId Evidence).

Record EvidenceCheck : Type := mkCheck {
  satisfied : bool;
  reason : option Str }.

Definition get (t : EvidenceTable) (id : EvidenceId) : option Evidence := t !! id.
Definition rows (t : EvidenceTable) : list Evidence := (map_to_list t).*2.
Definition is_live (e : Evidence) : bool := bool_decide (Evidence.superseded_by e = None).

(** [ORDER BY recorded_at DESC, id DESC]. *)
Definition newest_first (a b : Evidence) : bool :=
  (Evidence.recorded_at b <? Evidence.recorded_at a)%Z
  || ((Evidence.recorded_at a =? Evidence.recorded_at b)%Z
      && (as_uuid (Evidence.id b) <=? as_uuid (Evidence.id a))%N).

Definition list_for_scope (t : EvidenceTable) (scope : RuleScope) (include_superseded : bool)
  : list Evidence :=
  sort_by newest_first
    (List.filter (fun e => bool_decide (Evidence.scope e = scope) && (include_superseded || is_live e))
       (rows t)).

(** [Value::get] on an object. *)
Fixpoint field (key : Str) (l : list (string * Json)) : option Json :=
  match l with
  | [] => None
  | (k, v) :: l => if bool_decide (lit k = key) then Some v else field key l
  end.
Definition payload_get (j : Json) (key : Str) : option Json :=
  match j with JObj l => field key l | _ => None end.

Definition has_independent_test_verification (t : EvidenceTable) (task_id : TaskId)
    (executor_id : AgentId) (source_revision : Str) : bool :=
  existsb (fun e =>
    bool_decide (Evidence.scope e = ScopeTask task_id)
    && bool_decide (Evidence.kind e = ArtifactCreated)
    && bool_decide (Evidence.target e = Some (lit "test-verification:" ++ source_revision))
    && is_live e
    && match Evidence.authenticated_actor_id e with
       | Some a => bool_decide (ref_id (Evidence.actor e) = Some a) && negb (bool_decide (a = executor_id))
       | None => false
       end
    && match payload_get (Evidence.payload e) (lit "passed") with
       | Some (JBool b) => b
       | _ => false
       end) (rows t).

(** Rows archived before migration 0042 kept their status. *)
Definition task_has_live_document (docs : DocumentTable) (task_id : TaskId) : bool :=
  existsb (fun d => bool_decide (Document.task_id d = Some task_id)
                    && negb (bool_decide (Document.status d = DocArchived))
                    && bool_decide (Document.archived_at d = None)) (DocumentRepo.rows docs).

(** [u64::from_str]: an optional [+], then digits, without overflow. *)
Fixpoint digits (acc : Z) (s : Str) : option Z :=
  match s with
  | [] => Some acc
  | c :: s =>
      if is_ascii_digit c then
        let acc := (acc * 10 + Z.of_N (c - 48))%Z in
        if (acc <? 2 ^ 64)%Z then digits acc s else None
      else None
  end.
Definition parse_u64 (s : Str) : option Z :=
  match (match s with c :: s' => if (c =? 43)%N then s' else s | [] => s end) with
  | [] => None
  | ds => digits 0 ds
  end.
Definition parse_version (version : Str) : option Z :=
  parse_u64 (default version (or_else (strip_prefix (lit "v") version) (strip_prefix (lit "V") version))).

Inductive VersionRule : Type := VAny | VAtLeast (minimum : Z) | VLatest (current : Z).

Definition current_document_version (versions : VersionTable) (doc_ref : Str) : option Z :=
  let entity_id := if starts_with (lit "doc_") doc_ref then doc_ref else lit "doc_" ++ doc_ref in
  VersionRepo.max_version versions (lit "document") entity_id.

(** The scopes of a chain a kind of evidence may be read from. *)
Definition scope_rank (s : RuleScope) : Z :=
  match s with ScopeTenant => 0 | ScopeProject _ => 1 | ScopePlan _ => 2 | ScopeTask _ => 3 end.
Definition reach_ceiling (r : EvidenceReach) : Z :=
  match r with ReachTenant => 0 | ReachProject => 1 | ReachPlan => 2 | ReachSelfOnly => 3 end.
Fixpoint position_from (ceiling : Z) (chain : list RuleScope) : option nat :=
  match chain with
  | [] => None
  | s :: chain =>
      if (ceiling <=? scope_rank s)%Z then Some 0%nat else S <$> position_from ceiling chain
  end.
Definition reachable (chain : list RuleScope) (r : EvidenceReach) : list RuleScope :=
  let last_ := (length chain - 1)%nat in
  match r with
  | ReachSelfOnly => drop last_ chain
  | _ => drop (default last_ (position_from (reach_ceiling r) chain)) chain
  end.

(** A required field is looked up in the payload, and only when absent there in
    the column of its name. *)
Definition blank (o : option Str) : bool := match o with Some (_ :: _) => false | _ => true end.
Definition column_missing (display : N -> Str) (e : Evidence) (f : Str) : bool :=
  if bool_decide (f = lit "reason") then str_is_empty (Evidence.reason e)
  else if bool_decide (f = lit "actor") then
    blank (Ids.display display <$> ref_id (Evidence.actor e)) && blank (ref_name (Evidence.actor e))
  else if bool_decide (f = lit "doc_version") then blank (Evidence.doc_version e)
  else if bool_decide (f = lit "target") then bool_decide (Evidence.target e = None)
  else true.
Definition field_missing (display : N -> Str) (e : Evidence) (f : Str) : bool :=
  match payload_get (Evidence.payload e) f with
  | Some JNull => true
  | Some (JStr s) => str_is_empty s
  | Some _ => false
  | None => column_missing display e f
  end.

Section Matching.
Context (display : N -> Str).
Context (required_fields : option (list Str)) (version_rule : VersionRule).

Definition fields_missing (e : Evidence) : bool := existsb (field_missing display e) (default [] required_fields).

(** Why a candidate is rejected; [None] accepts it. *)
Definition rejection (e : Evidence) : option string :=
  if fields_missing e then Some "evidence payload field `{field}` is missing or empty"%string
  else match version_rule with
       | VAny => None
       | VAtLeast minimum =>
           match Evidence.doc_version e ≫= parse_version with
           | None => Some "evidence doc_version is missing or invalid; expected an integer >= {minimum} with optional v/V prefix"%string
           | Some actual =>
               if (actual <? minimum)%Z
               then Some "evidence doc_version {actual} is older than required {minimum}"%string else None
           end
       | VLatest current =>
           if bool_decide (Evidence.doc_version e ≫= parse_version = Some current) then None
           else Some "evidence doc_version {} is not the current document version {current} required by min_version=latest; re-read the document and record a new document_read_ack with doc_version {current}"%string
       end.

Fixpoint first_accepted (why : option Str) (candidates : list Evidence) : EvidenceCheck :=
  match candidates with
  | [] => mkCheck false why
  | e :: candidates =>
      match rejection e with
      | None => mkCheck true None
      | Some r => first_accepted (Some (default (lit r) why)) candidates
      end
  end.

Definition target_matches (target : option Str) (e : Evidence) : bool :=
  match target, version_rule with
  | Some d, VLatest _ => bool_decide (Evidence.target e = Some d)
  | Some d, _ => bool_decide (Evidence.target e = Some d) || bool_decide (Evidence.target e = None)
  | None, _ => true
  end.

Definition matching (t : EvidenceTable) (scope : RuleScope) (kind : EvidenceKind) (target : option Str)
  : list Evidence :=
  sort_by newest_first
    (List.filter (fun e => bool_decide (Evidence.scope e = scope) && bool_decide (Evidence.kind e = kind)
                           && is_live e && target_matches target e) (rows t)).

(** [LIMIT 20]. *)
Definition scope_has (t : EvidenceTable) (scope : RuleScope) (kind : EvidenceKind) (target : option Str)
  : EvidenceCheck := first_accepted None (take 20 (matching t scope kind target)).

Fixpoint chain_has (t : EvidenceTable) (kind : EvidenceKind) (target : option Str) (why : option Str)
    (scopes : list RuleScope) : EvidenceCheck :=
  match scopes with
  | [] => mkCheck false why
  | scope :: scopes =>
      let check := scope_has t scope kind target in
      if satisfied check then check else chain_has t kind target (or_else why (reason check)) scopes
  end.
End Matching.

Definition version_rule_of (versions : VersionTable) (target min_version : option Str)
  : Result EvidenceCheck VersionRule :=
  match min_version with
  | None => Ok VAny
  | Some v =>
      if bool_decide (v = lit "latest") then
        Ok (match target ≫= current_document_version versions with
            | Some current => VLatest current
            | None => VAny
            end)
      else match parse_version v with
           | Some minimum => Ok (VAtLeast minimum)
           | None => Err (mkCheck false (Some (lit
               "rule min_version `{version}` is invalid; expected an integer with optional v/V prefix")))
           end
  end.

Definition has_live_evidence (display : N -> Str) (versions : VersionTable) (t : EvidenceTable)
    (chain : list RuleScope) (kind : EvidenceKind) (target : option Str)
    (required_fields : option (list Str)) (min_version : option Str) : EvidenceCheck :=
  match version_rule_of versions target min_version with
  | Err check => check
  | Ok rule =>
      let check := chain_has display required_fields rule t kind target None (reachable chain (reach kind)) in
      if satisfied check then check
      else match reason check, rule, target with
           | None, VLatest _, Some _ => mkCheck false (Some (lit
               "requires a document_read_ack targeting `{doc_ref}` with doc_version {current} (current document version, min_version=latest)"))
           | _, _, _ => check
           end
  end.

(** [ON CONFLICT(id) DO NOTHING]: recorded evidence is never edited. *)
Definition insert (t : EvidenceTable) (e : Evidence) : EvidenceTable :=
  match t !! Evidence.id e with Some _ => t | None => <[Evidence.id e := e]> t end.

Definition apply_event (t : EvidenceTable) (e : EventEnvelope) : EvidenceTable :=
  match Envelope.payload e with
  | Event.EvidenceRecorded ev => insert t ev
  | Event.EvidenceSuperseded id by_ _ => alter (fun ev => ev <| Evidence.superseded_by := Some by_ |>) id t
  | _ => t
  end.
End EvidenceRepo.
Abbreviation EvidenceTable := EvidenceRepo.EvidenceTable.

(** ** Specification *)
Module RuleSpec.
  Import RuleRepo.

(** What a table guarantees: rows carry their key, and the unique index. *)
Definition rules_keyed (t : RuleTable) : Prop := map_Forall (fun i r => Rule.id r = i) t.
Definition unique_keys (t : RuleTable) : Prop :=
  forall i j a b, t !! i = Some a -> t !! j = Some b ->
    Rule.scope a = Rule.scope b -> Rule.rule_key a = Rule.rule_key b -> i = j.

(** The rules of one key declared along a chain, outermost first. *)
Definition declared (t : RuleTable) (trigger : RuleTrigger) (chain : list RuleScope) (key : Str)
  : list Rule :=
  concat (map (fun scope => List.filter (fun r => bool_decide (Rule.rule_key r = key))
                              (scope_rows t trigger scope)) chain).

(** The policy on one key: an inner rule replaces the outer one unless it is
    less strict and the outer one forbids that. *)
Definition overriding (outer : option Rule) (inner : Rule) : option Rule :=
  match outer with
  | Some o =>
      if (strictness (Rule.mode inner) <? strictness (Rule.mode o))%Z && negb (Rule.override_allowed o)
      then Some o else Some inner
  | None => Some inner
  end.
Definition winner (rules : list Rule) : option Rule := foldl overriding None rules.
End RuleSpec.

Module RuleFacts.
  Import RuleRepo RuleSpec.

Lemma elem_of_rule_rows t r : r ∈ rows t <-> exists i, t !! i = Some r.
Proof.
  unfold rows. rewrite list_elem_of_fmap. split.
  - intros ([i r'] & -> & H%elem_of_map_to_list). eauto.
  - intros [i H]. exists (i, r). by rewrite elem_of_map_to_list.
Qed.

Lemma elem_of_scope_rows t trigger scope r :
  r ∈ scope_rows t trigger scope <->
  (exists i, t !! i = Some r) /\ Rule.scope r = scope /\ Rule.trigger r = trigger /\ Rule.enabled r = true.
Proof.
  unfold scope_rows. rewrite list_elem_of_In, filter_In, <- list_elem_of_In, elem_of_rule_rows,
    !andb_true_iff, !bool_decide_eq_true. naive_solver.
Qed.

Lemma NoDup_rule_keys t trigger scope :
  unique_keys t -> NoDup (map Rule.rule_key (scope_rows t trigger scope)).
Proof.
  intros Hu. unfold scope_rows, rows.
  assert (H : NoDup (map_to_list t).*1) by apply NoDup_fst_map_to_list.
  assert (Hin : forall i r, (i, r) ∈ map_to_list t -> t !! i = Some r)
    by (intros i r; by rewrite elem_of_map_to_list).
  revert H Hin. generalize (map_to_list t) as l. induction l as [|[i r] l IH]; intros H Hin; cbn; [constructor|].
  apply NoDup_cons in H as [Hi H].
  assert (IH' := IH H (fun i r Hl => Hin i r (list_elem_of_further _ _ _ Hl))).
  destruct (_ && _) eqn:E; cbn; [|exact IH']. apply NoDup_cons. split; [|exact IH'].
  intros (r' & Hk & [Hr' E']%list_elem_of_In%filter_In)%list_elem_of_fmap.
  apply list_elem_of_In, list_elem_of_fmap in Hr' as ([j r''] & -> & Hj). cbn in *.
  bsplit.
  apply Hi. rewrite (Hu i j r r''); [by apply (list_elem_of_fmap_2 fst) in Hj| | |congruence|done].
  - apply Hin, list_elem_of_here.
  - by apply Hin, list_elem_of_further.
Qed.

Lemma choose_other depth chosen r k : Rule.rule_key r <> k -> choose depth chosen r !! k = chosen !! k.
Proof. intros H. unfold choose. repeat case_match; try done; by rewrite lookup_insert_ne. Qed.

Lemma choose_agree depth c c' r k : c !! k = c' !! k -> choose depth c r !! k = choose depth c' r !! k.
Proof.
  intros H. destruct (decide (Rule.rule_key r = k)) as [<-|Hk]; [|by rewrite !choose_other].
  unfold choose. rewrite <- H. repeat case_match; rewrite ?lookup_insert_eq; congruence.
Qed.

(** The lookup of a key after a scope depends on the rows of that key only. *)
Lemma choose_filter depth rows c c' k :
  c !! k = c' !! k ->
  foldl (choose depth) c rows !! k
    = foldl (choose depth) c' (List.filter (fun r => bool_decide (Rule.rule_key r = k)) rows) !! k.
Proof.
  revert c c'. induction rows as [|r rows IH]; intros c c' H; cbn; [done|].
  case_bool_decide as Hk; cbn; apply IH.
  - by apply choose_agree.
  - by rewrite choose_other.
Qed.

Lemma filter_one_key rows k :
  NoDup (map Rule.rule_key rows) ->
  List.filter (fun r => bool_decide (Rule.rule_key r = k)) rows = [] \/
  exists r, Rule.rule_key r = k /\ List.filter (fun r => bool_decide (Rule.rule_key r = k)) rows = [r].
Proof.
  induction rows as [|r rows IH]; cbn; [by left|]. intros [Hr Hnd]%NoDup_cons.
  case_bool_decide as Hk; [|by apply IH]. right. exists r. split; [done|]. f_equal.
  apply filter_none. intros x Hx. apply bool_decide_eq_false. intros Hxk. apply Hr.
  rewrite Hk, <- Hxk. by apply list_elem_of_fmap_2.
Qed.

Definition shallow (depth : nat) (chosen : Chosen) : Prop :=
  forall k d r, chosen !! k = Some (d, r) -> (d < depth)%nat /\ Rule.rule_key r = k.

Lemma choose_key depth chosen k :
  shallow depth chosen -> forall rows,
  shallow (S depth) (foldl (choose depth) chosen rows) /\
  (NoDup (map Rule.rule_key rows) ->
   snd <$> foldl (choose depth) chosen rows !! k
     = foldl overriding (snd <$> chosen !! k)
         (List.filter (fun r => bool_decide (Rule.rule_key r = k)) rows)).
Proof.
  intros Hd rows. split.
  - assert (H : shallow (S depth) chosen) by (intros k' d r E; destruct (Hd _ _ _ E); split; [lia|done]).
    clear Hd. revert chosen H. induction rows as [|r rows IH]; intros chosen H; cbn; [done|]. apply IH.
    intros k' d r' E. unfold choose in E. repeat case_match; try by eapply H.
    all: apply lookup_insert_Some in E as [[<- [= <- <-]]|[_ E]]; [split; [lia|done]|by eapply H].
  - intros Hnd. rewrite (choose_filter depth rows chosen chosen k eq_refl).
    destruct (filter_one_key rows k Hnd) as [->|(r & Hk & ->)]; [done|]. cbn. unfold choose. rewrite Hk.
    destruct (chosen !! k) as [[d i]|] eqn:E; cbn; [|by rewrite lookup_insert_eq].
    destruct (Hd _ _ _ E) as [Hlt _]. rewrite (proj2 (Nat.leb_gt _ _) Hlt).
    unfold overriding. destruct (_ && _); [by rewrite E|by rewrite lookup_insert_eq].
Qed.

Lemma choose_all_winner t trigger chain k depth chosen :
  unique_keys t -> shallow depth chosen ->
  shallow (depth + length chain) (choose_all t trigger depth chain chosen) /\
  snd <$> choose_all t trigger depth chain chosen !! k
    = foldl overriding (snd <$> chosen !! k) (declared t trigger chain k).
Proof.
  intros Hu. revert depth chosen. induction chain as [|scope chain IH]; intros depth chosen Hd; cbn.
  - split; [|done]. by rewrite Nat.add_0_r.
  - destruct (choose_key depth chosen k Hd (scope_rows t trigger scope)) as [Hs Hk].
    destruct (IH (S depth) _ Hs) as [IH1 IH2]. split.
    + by replace (depth + S (length chain))%nat with (S depth + length chain)%nat by lia.
    + rewrite IH2, Hk by by apply NoDup_rule_keys. unfold declared. cbn. by rewrite foldl_app.
Qed.

Lemma elem_of_declared t trigger chain key r :
  r ∈ declared t trigger chain key <->
  Rule.rule_key r = key /\ exists scope, scope ∈ chain /\ r ∈ scope_rows t trigger scope.
Proof.
  unfold declared. induction chain as [|s chain IH]; cbn; [set_solver|].
  rewrite elem_of_app, IH, list_elem_of_In, filter_In, <- list_elem_of_In, bool_decide_eq_true. set_solver.
Qed.

Lemma winner_declared rules w o :
  foldl overriding o rules = Some w -> w ∈ rules \/ o = Some w.
Proof.
  revert o. induction rules as [|r rules IH]; intros o; cbn; [by right|]. intros [H|H]%IH; [left; by right|].
  unfold overriding in H. destruct o as [x|]; [|left; injection H as ->; by left].
  destruct (_ && _); injection H as ->; [by right|left; by left].
Qed.

(** Where nobody allows overriding, strictness only grows. *)
Lemma winner_strictest rules w o :
  (forall r, r ∈ rules -> Rule.override_allowed r = false) ->
  (forall x, o = Some x -> Rule.override_allowed x = false) ->
  foldl overriding o rules = Some w ->
  (forall r, r ∈ rules -> strictness (Rule.mode r) <= strictness (Rule.mode w))%Z /\
  (forall x, o = Some x -> strictness (Rule.mode x) <= strictness (Rule.mode w))%Z.
Proof.
  revert o. induction rules as [|r rules IH]; intros o Hr Ho; cbn.
  { intros ->. split; [set_solver|by intros x [= ->]]. }
  intros H. apply IH in H as [H1 H2]; [|set_solver|].
  2:{ intros x. unfold overriding. destruct o as [y|]; [|intros [= <-]; apply Hr, list_elem_of_here].
      destruct (_ && _); intros [= <-]; [by apply Ho|apply Hr, list_elem_of_here]. }
  unfold overriding in H2. split.
  - intros x [->|Hx]%elem_of_cons; [|by apply H1]. destruct o as [y|]; [|by apply H2].
    rewrite (Ho y eq_refl), andb_true_r in H2. destruct (_ <? _)%Z eqn:E; [|by apply H2].
    apply Z.ltb_lt in E. specialize (H2 y eq_refl). lia.
  - intros x ->. rewrite (Ho x eq_refl), andb_true_r in H2. destruct (_ <? _)%Z eqn:E; [by apply H2|].
    apply Z.ltb_ge in E. specialize (H2 r eq_refl). lia.
Qed.

Lemma effective_winner t chain trigger r :
  unique_keys t ->
  r ∈ effective_rules t chain trigger <->
  winner (declared t trigger chain (Rule.rule_key r)) = Some r /\ Rule.mode r <> Off.
Proof.
  intros Hu. assert (H0 : shallow 0 ∅) by (intros k d x; by rewrite lookup_empty).
  destruct chain as [|s chain].
  { cbn. split; [by intros ?%elem_of_nil|by intros [? _]]. }
  unfold effective_rules. generalize (s :: chain) as ch. intros ch.
  rewrite elem_of_sort_by, list_elem_of_In, filter_In, <- list_elem_of_In, negb_true_iff, bool_decide_eq_false.
  destruct (choose_all_winner t trigger ch (Rule.rule_key r) 0 ∅ Hu H0) as [Hd Hw].
  unfold winner. rewrite lookup_empty in Hw. cbn [fmap option_fmap option_map] in Hw. rewrite <- Hw.
  split; intros [H Hm]; (split; [|done]).
  - apply list_elem_of_fmap in H as ([d x] & -> & H). apply list_elem_of_fmap in H as ([k [d' x']] & [= -> ->] & H).
    apply elem_of_map_to_list in H. cbn. destruct (Hd _ _ _ H) as [_ <-]. by rewrite H.
  - apply fmap_Some in H as ([d x] & H & ->). apply list_elem_of_fmap. exists (d, x). split; [done|].
    apply list_elem_of_fmap. exists (Rule.rule_key x, (d, x)). split; [done|]. by apply elem_of_map_to_list.
Qed.

(** ** The projection keeps the table well formed *)
Definition rules_wf (t : RuleTable) : Prop := rules_keyed t /\ unique_keys t.

Lemma rule_upsert_wf t rule t' : upsert t rule = Ok t' -> rules_wf t -> rules_wf t'.
Proof.
  unfold upsert. set (next := match get t (Rule.id rule) with Some _ => _ | None => _ end).
  destruct (key_taken t _ _ _) eqn:K; [done|]. intros [= <-] [Hk Hu].
  assert (Hfree : forall i r, t !! i = Some r -> Rule.scope r = Rule.scope next ->
            Rule.rule_key r = Rule.rule_key next -> i = Rule.id next).
  { intros i r Hi Hs Hy. destruct (decide (i = Rule.id next)) as [|Hn]; [done|]. exfalso.
    apply not_true_iff_false in K. apply K. apply existsb_exists. exists r. split.
    - apply list_elem_of_In, elem_of_rule_rows. eauto.
    - rewrite (Hk i r Hi), !andb_true_iff, negb_true_iff, bool_decide_eq_false, !bool_decide_eq_true. done. }
  split.
  - intros i r [[<- <-]|[_ H]]%lookup_insert_Some; [done|by apply Hk].
  - intros i j a b [[<- <-]|[Hi Ha]]%lookup_insert_Some [[<- <-]|[Hj Hb]]%lookup_insert_Some Hs Hy; [done|..].
    + symmetry. by eapply Hfree.
    + by eapply Hfree.
    + by eapply Hu.
Qed.

Lemma alter_row (f : Rule -> Rule) (t : RuleTable) i j r :
  alter f i t !! j = Some r -> exists x, t !! j = Some x /\ (r = x \/ r = f x).
Proof. intros [(_ & x & H & ->)|[_ H]]%lookup_alter_Some; eauto. Qed.

Lemma rule_apply_wf t e t' : apply_event t e = Ok t' -> rules_wf t -> rules_wf t'.
Proof.
  unfold apply_event. destruct (Envelope.payload e); try (by intros [= <-]); try apply rule_upsert_wf.
  - intros [= <-] [Hk Hu]. split.
    + intros i r (x & H & Hr)%alter_row. specialize (Hk _ _ H). by destruct Hr as [-> | ->].
    + intros i j a b (x & Ha & Hx)%alter_row (y & Hb & Hy)%alter_row Hs Hkey.
      eapply (Hu i j x y Ha Hb); destruct Hx as [-> | ->], Hy as [-> | ->]; done.
  - intros [= <-] [Hk Hu]. split.
    + intros i r [_ H]%lookup_delete_Some. by apply Hk.
    + intros i j a b [_ Ha]%lookup_delete_Some [_ Hb]%lookup_delete_Some. by eapply Hu.
Qed.
End RuleFacts.

Section RuleProperty.
  Import RuleRepo RuleSpec RuleFacts.

(** C39: the rules a chain of scopes puts in force follow the override policy,
    key by key.  A rule is effective exactly if it wins the fold of the policy
    over the rules of its key declared along the chain, outermost first, and is
    not switched off; effective rules are listed by key, one per key.  Where no
    declared rule of a key allows overriding, no inner scope weakens it: the
    winner is as strict as every rule declared for the key, so a required rule
    of an outer scope leaves a required rule in force. *)
Theorem effective_rules_policy t chain trigger :
  rules_keyed t -> unique_keys t ->
  (forall r, r ∈ effective_rules t chain trigger <->
     winner (declared t trigger chain (Rule.rule_key r)) = Some r /\ Rule.mode r <> Off) /\
  StronglySorted (fun a b => by_key a b = true) (effective_rules t chain trigger) /\
  (forall key, (forall r, r ∈ declared t trigger chain key -> Rule.override_allowed r = false) ->
     forall outer, outer ∈ declared t trigger chain key -> Rule.mode outer <> Off ->
     exists r, r ∈ effective_rules t chain trigger /\ Rule.rule_key r = key /\
       (forall x, x ∈ declared t trigger chain key ->
          strictness (Rule.mode x) <= strictness (Rule.mode r))%Z).
Proof.
  intros _ Hu. split; [intros r; by apply effective_winner|]. split.
  - destruct chain; [constructor|]. apply sort_by_sorted; [intros; apply str_le_total|].
    intros x y z. apply str_le_trans.
  - intros key Hno outer Ho Hm.
    destruct (winner (declared t trigger chain key)) as [w|] eqn:W.
    2:{ exfalso. unfold winner in W. destruct (declared t trigger chain key) as [|r rules]; [by apply elem_of_nil in Ho|].
        cbn in W. clear -W. revert r W. induction rules as [|x rules IH]; intros y; cbn; [done|].
        destruct (_ && _); apply IH. }
    destruct (winner_strictest _ w None Hno (fun x H => ltac:(discriminate H)) W) as [Hmax _].
    destruct (winner_declared _ w None W) as [Hin|]; [|done].
    apply elem_of_declared in Hin as [Hkey _]. exists w. split; [|done].
    apply effective_winner; [done|]. rewrite Hkey. split; [done|]. intros Hoff.
    specialize (Hmax _ Ho). rewrite Hoff in Hmax. by destruct (Rule.mode outer).
Qed.
End RuleProperty.

(** A workspace rule, a project and a task of it. *)
Definition demo_rule (n : N) (scope : RuleScope) (mode : RuleMode) (may_override : bool) : Rule :=
  Rule.mk (mkId n) (lit "k") [] scope TrTaskBeforeStart None OwnerRequired mode [] may_override true 0 0.
Definition demo_chain : list RuleScope := [ScopeTenant; ScopeProject (mkId 1); ScopeTask (mkId 2)].
Definition demo_rules (l : list Rule) : RuleTable := list_to_map (map (fun r => (Rule.id r, r)) l).
Definition guarded : RuleTable :=
  demo_rules [demo_rule 10 ScopeTenant Required false; demo_rule 11 (ScopeTask (mkId 2)) Off false].

Lemma effective_rules_policy_witness :
  RuleRepo.effective_rules guarded demo_chain TrTaskBeforeStart = [demo_rule 10 ScopeTenant Required false] /\
  exists r, r ∈ RuleRepo.effective_rules guarded demo_chain TrTaskBeforeStart /\ Rule.rule_key r = lit "k".
Proof.
  split; [vm_compute; reflexivity|].
  assert (R : forall i r, guarded !! i = Some r ->
            (i = mkId 10 /\ r = demo_rule 10 ScopeTenant Required false) \/
            (i = mkId 11 /\ r = demo_rule 11 (ScopeTask (mkId 2)) Off false)).
  { intros i r. unfold guarded, demo_rules. cbn.
    intros [[<- <-]|[_ [[<- <-]|[_ H]]%lookup_insert_Some]]%lookup_insert_Some; [by left|by right|].
    by rewrite lookup_empty in H. }
  destruct (effective_rules_policy guarded demo_chain TrTaskBeforeStart) as (_ & _ & H).
  - intros i r [[-> ->]|[-> ->]]%R; reflexivity.
  - intros i j a b [[-> ->]|[-> ->]]%R [[-> ->]|[-> ->]]%R Hs _; done.
  - destruct (H (lit "k")) with (outer := demo_rule 10 ScopeTenant Required false) as (r & Hr & Hk & _).
    + intros r (_ & s & _ & ([i Hi] & _)%RuleFacts.elem_of_scope_rows)%RuleFacts.elem_of_declared.
      by apply R in Hi as [[_ ->]|[_ ->]].
    + apply RuleFacts.elem_of_declared. split; [done|]. exists ScopeTenant. split; [by left|].
      apply RuleFacts.elem_of_scope_rows. split; [by exists (mkId 10)|done].
    + done.
    + by exists r.
Defined.

(** The policy looks one level up only: a project that declares the key again, as
    strict but overridable, lets a task switch the workspace rule off. *)
Example two_steps_lift_a_rule :
  RuleRepo.effective_rules
    (demo_rules [demo_rule 10 ScopeTenant Required false; demo_rule 11 (ScopeProject (mkId 1)) Required true;
                 demo_rule 12 (ScopeTask (mkId 2)) Off false]) demo_chain TrTaskBeforeStart = [].
Proof. vm_compute. reflexivity. Qed.

(** A rule created again under a known id stays in its old scope. *)
Example recreated_rule_keeps_scope :
  match RuleRepo.upsert (demo_rules [demo_rule 10 ScopeTenant Required false])
          (demo_rule 10 (ScopeTask (mkId 2)) Off true) with
  | Ok t => Rule.scope <$> RuleRepo.get t (mkId 10)
  | Err _ => None
  end = Some ScopeTenant.
Proof. vm_compute. reflexivity. Qed.

Module EvidenceFacts.
  Import EvidenceRepo.

Lemma position_from_spec ceiling chain n :
  position_from ceiling chain = Some n ->
  exists before s after, chain = before ++ s :: after /\ length before = n /\ (ceiling <= scope_rank s)%Z.
Proof.
  revert n. induction chain as [|s chain IH]; intros n; cbn; [done|]. destruct (_ <=? _)%Z eqn:E.
  - intros [= <-]. apply Z.leb_le in E. by exists [], s, chain.
  - intros (m & Hm & ->)%fmap_Some. destruct (IH m Hm) as (b & x & a & -> & <- & Hx).
    by exists (s :: b), x, a.
Qed.

Lemma drop_last_in (chain : list RuleScope) s : s ∈ drop (length chain - 1) chain -> last chain = Some s.
Proof.
  destruct chain as [|x chain] using rev_ind; [by intros ?%elem_of_nil|].
  rewrite length_app, drop_app_length', last_snoc by (cbn; lia). by intros ->%list_elem_of_singleton.
Qed.

Lemma reachable_spec chain r s :
  StronglySorted (fun a b => (scope_rank a <= scope_rank b)%Z) chain ->
  s ∈ reachable chain r ->
  s ∈ chain /\ (last chain = Some s \/ (r <> ReachSelfOnly /\ (reach_ceiling r <= scope_rank s)%Z)).
Proof.
  intros Hs Hin. split.
  { assert (H : forall n, s ∈ drop n chain -> s ∈ chain).
    { intros n H. rewrite <- (take_drop n chain). apply elem_of_app. by right. }
    unfold reachable in Hin. destruct r; by eapply H. }
  assert (Hlast := drop_last_in chain s).
  assert (Hr : r = ReachSelfOnly \/ r <> ReachSelfOnly) by (destruct r; by auto).
  destruct Hr as [->|Hr]; [left; by apply Hlast|].
  assert (Hin' : s ∈ drop (default (length chain - 1)%nat (position_from (reach_ceiling r) chain)) chain) by (by destruct r).
  destruct (position_from _ chain) as [n|] eqn:P; cbn in Hin'; [|left; by apply Hlast].
  right. split; [done|]. apply position_from_spec in P as (b & x & a & -> & <- & Hx).
  rewrite drop_app_length in Hin'. apply elem_of_cons in Hin' as [->|Ha]; [done|].
  assert (Hxa : Forall (fun y => (scope_rank x <= scope_rank y)%Z) a).
  { clear -Hs. induction b as [|y b IH]; cbn in Hs; apply StronglySorted_inv in Hs as [Hs ?]; auto. }
  rewrite Forall_forall in Hxa. specialize (Hxa s Ha). lia.
Qed.

Section Matching.
Context (display : N -> Str) (fields : option (list Str)) (rule : VersionRule).
Abbreviation rejection := (rejection display fields rule).
Abbreviation matching := (matching rule).
Abbreviation scope_has := (scope_has display fields rule).
Abbreviation chain_has := (chain_has display fields rule).

Lemma first_accepted_iff why candidates :
  satisfied (first_accepted display fields rule why candidates) = true <->
  exists e, e ∈ candidates /\ rejection e = None.
Proof.
  revert why. induction candidates as [|e candidates IH]; intros why; cbn; [set_solver|].
  destruct (EvidenceRepo.rejection _ _ _ e) eqn:E; cbn; [rewrite IH|]; set_solver.
Qed.

Lemma elem_of_matching t scope kind target e :
  e ∈ matching t scope kind target <->
  e ∈ rows t /\ Evidence.scope e = scope /\ Evidence.kind e = kind /\ Evidence.superseded_by e = None /\
  target_matches rule target e = true.
Proof.
  unfold EvidenceRepo.matching, is_live.
  rewrite elem_of_sort_by, list_elem_of_In, filter_In, <- list_elem_of_In, !andb_true_iff, !bool_decide_eq_true.
  tauto.
Qed.

Lemma chain_has_iff t kind target why scopes :
  satisfied (chain_has t kind target why scopes) = true <->
  exists scope e, scope ∈ scopes /\ e ∈ take 20 (matching t scope kind target) /\ rejection e = None.
Proof.
  revert why. induction scopes as [|s scopes IH]; intros why; cbn; [set_solver|].
  destruct (satisfied (EvidenceRepo.scope_has _ _ _ _ _ _ _)) eqn:E.
  - split; [|done]. intros _. apply first_accepted_iff in E as (e & ? & ?). exists s, e. split; [by left|done].
  - rewrite IH. split; [intros (x & e & ? & ?); exists x, e; split; [by right|done]|].
    intros (x & e & [->|Hx]%elem_of_cons & He & Hr); [|by exists x, e]. exfalso.
    assert (H : satisfied (scope_has t s kind target) = true) by (apply first_accepted_iff; eauto).
    congruence.
Qed.
End Matching.
End EvidenceFacts.

Section EvidenceProperty.
  Import EvidenceRepo EvidenceFacts.

(** A requirement is satisfied by evidence exactly when the table holds a
    record of its kind that nobody superseded, with every required field filled
    in, the right target and a recent enough version, in a scope the kind may be
    read from -- among the twenty newest matching records of each scope.  Such a
    scope lies on the chain, and is the innermost one or within the ceiling of
    the kind: a proof given for a wider scope never stands in for one that must
    be given for the task itself. *)
Theorem evidence_check_exact display versions t chain kind target fields min_version rule :
  version_rule_of versions target min_version = Ok rule ->
  let good scope e :=
    scope ∈ reachable chain (reach kind) /\ e ∈ rows t /\ Evidence.scope e = scope /\ Evidence.kind e = kind /\
    Evidence.superseded_by e = None /\ target_matches rule target e = true /\
    rejection display fields rule e = None in
  (satisfied (has_live_evidence display versions t chain kind target fields min_version) = true ->
     exists scope e, good scope e) /\
  ((forall scope, (length (matching rule t scope kind target) <= 20)%nat) ->
   (exists scope e, good scope e) ->
   satisfied (has_live_evidence display versions t chain kind target fields min_version) = true) /\
  (StronglySorted (fun a b => (scope_rank a <= scope_rank b)%Z) chain ->
   forall scope, scope ∈ reachable chain (reach kind) ->
     scope ∈ chain /\ (last chain = Some scope \/
       (reach kind <> ReachSelfOnly /\ (reach_ceiling (reach kind) <= scope_rank scope)%Z))).
Proof.
  intros Hv good. split; [|split].
  - unfold has_live_evidence. rewrite Hv.
    assert (E : forall c : EvidenceCheck,
      satisfied (if satisfied c then c else match reason c, rule, target with
         | None, VLatest _, Some _ => mkCheck false (Some (lit "requires a document_read_ack targeting `{doc_ref}` with doc_version {current} (current document version, min_version=latest)"))
         | _, _, _ => c end) = satisfied c).
    { intros c. destruct (satisfied c) eqn:Hc; [done|]. by repeat case_match. }
    rewrite E. intros (scope & e & Hs & He & Hr)%chain_has_iff.
    assert (He' : e ∈ matching rule t scope kind target).
    { rewrite <- (take_drop 20 (matching _ _ _ _ _)). apply elem_of_app. by left. }
    apply elem_of_matching in He'. exists scope, e. unfold good. tauto.
  - intros Hl (scope & e & Hs & Hrow & H1 & H2 & H3 & H4 & Hr). unfold has_live_evidence. rewrite Hv.
    rewrite (proj2 (chain_has_iff display fields rule t kind target None _)); [|].
    + apply chain_has_iff. exists scope, e. split; [done|]. split; [|done].
      rewrite take_ge by apply Hl. by apply elem_of_matching.
    + exists scope, e. split; [done|]. split; [|done]. rewrite take_ge by apply Hl. by apply elem_of_matching.
  - intros Hs scope. by apply reachable_spec.
Qed.
End EvidenceProperty.

(** A task claimed ready by a tenant-wide statement, and by one of its own. *)
Definition demo_evidence (n : N) (kind : EvidenceKind) (scope : RuleScope) : Evidence :=
  Evidence.mk (mkId n) kind scope None None (mkActorRef "user" None None) None (lit "because") JNull
    None None None None None None (Z.of_N n) None.
Definition demo_proofs : EvidenceTable :=
  list_to_map (map (fun e => (Evidence.id e, e))
    [demo_evidence 1 OwnerAssigned ScopeTenant; demo_evidence 2 OwnerAssigned (ScopeTask (mkId 2))]).

Lemma evidence_check_exact_witness :
  EvidenceRepo.satisfied (EvidenceRepo.has_live_evidence (fun _ => []) [] demo_proofs demo_chain OwnerAssigned
    None None None) = true /\
  EvidenceRepo.satisfied (EvidenceRepo.has_live_evidence (fun _ => []) [] demo_proofs (take 2 demo_chain)
    OwnerAssigned None None None) = false /\
  exists scope e, scope ∈ EvidenceRepo.reachable demo_chain ReachSelfOnly /\ Evidence.scope e = scope.
Proof.
  split; [vm_compute; reflexivity|]. split; [vm_compute; reflexivity|].
  destruct (evidence_check_exact (fun _ => []) [] demo_proofs demo_chain OwnerAssigned None None None
    EvidenceRepo.VAny eq_refl) as (H & _ & _).
  destruct H as (scope & e & H1 & _ & H2 & _); [vm_compute; reflexivity|]. exists scope, e. by split.
Defined.

(** ** The version ledger *)
Module VersionSpec.
  Import VersionRepo.

Definition of_doc (t : VersionTable) (ty id : Str) : list VersionRow := List.filter (of_entity ty id) t.
(** Versions count 1, 2, 3, ... per entity, one per event. *)
Definition ledger_ok (t : VersionTable) : Prop :=
  forall ty id, map version_number (of_doc t ty id) = seqZ 1 (Z.of_nat (length (of_doc t ty id))) /\
                NoDup (map source_event_id (of_doc t ty id)).
End VersionSpec.

Module VersionFacts.
  Import VersionRepo VersionSpec.

Lemma of_entity_spec ty id r : of_entity ty id r = true <-> entity_type r = ty /\ entity_id r = id.
Proof. unfold of_entity. by rewrite andb_true_iff, !bool_decide_eq_true. Qed.

Lemma max_seq n :
  max_of (seqZ 1 (Z.of_nat n))
    = (if (n =? 0)%nat then None else Some (Z.of_nat n)).
Proof.
  assert (H : forall k m, max_of (seqZ m (Z.of_nat k)) = (if (k =? 0)%nat then None else Some (m + Z.of_nat k - 1)%Z)).
  { intros k. induction k as [|k IH]; intros m; [done|].
    rewrite Nat2Z.inj_succ, seqZ_cons by lia. replace (Z.pred (Z.succ (Z.of_nat k))) with (Z.of_nat k) by lia.
    unfold max_of in *. cbn [foldr]. rewrite IH. destruct k; cbn -[Z.of_nat]; f_equal; lia. }
  rewrite H. destruct (n =? 0)%nat; [done|]. f_equal. lia.
Qed.

Lemma max_version_count t ty id :
  ledger_ok t -> default 0%Z (max_version t ty id) = Z.of_nat (length (of_doc t ty id)).
Proof.
  intros H. destruct (H ty id) as [Hn _]. unfold max_version. unfold of_doc in Hn |- *. rewrite Hn, max_seq.
  by destruct (length _).
Qed.
End VersionFacts.

Section VersionProperty.
  Import VersionRepo VersionSpec VersionFacts.

(** The version numbers of an entity count 1, 2, 3, ... without gap, one per
    event.  Writing the version of a new event gives the next number; writing
    the same event again, as a replay does, changes nothing; other entities are
    left alone. *)
Theorem version_ledger_counts t ty id e :
  ledger_ok t ->
  let t' := insert_entity_version t ty id e in
  ledger_ok t' /\ insert_entity_version t' ty id e = t' /\
  (e ∉ map source_event_id (of_doc t ty id) ->
     max_version t' ty id = Some (Z.of_nat (length (of_doc t ty id)) + 1)%Z) /\
  (forall ty2 id2, (ty2, id2) <> (ty, id) -> of_doc t' ty2 id2 = of_doc t ty2 id2).
Proof.
  intros Hok t'. subst t'.
  assert (Hseen : existsb (fun r => of_entity ty id r && bool_decide (source_event_id r = e)) t = true
                  <-> e ∈ map source_event_id (of_doc t ty id)).
  { rewrite existsb_exists, list_elem_of_fmap. unfold of_doc. split.
    - intros (r & Hr & [H1 H2]%andb_prop). bsplit. exists r. split; [done|]. by apply list_elem_of_In, filter_In.
    - intros (r & -> & [H1 H2]%list_elem_of_In%filter_In). exists r. split; [done|].
      rewrite H2. cbn. by apply bool_decide_eq_true. }
  unfold insert_entity_version. destruct (existsb _ t) eqn:S.
  { rewrite S. split; [done|]. split; [done|]. split; [|done]. intros []. by apply Hseen. }
  assert (Hnew : e ∉ map source_event_id (of_doc t ty id)) by (intros H%Hseen; congruence).
  set (row := mkRow ty id _ e). assert (Hrow : version_number row = (Z.of_nat (length (of_doc t ty id)) + 1)%Z).
  { unfold row. cbn. by rewrite max_version_count. }
  assert (Hsame : of_entity ty id row = true) by by apply of_entity_spec.
  assert (Hof : forall ty2 id2, of_doc (t ++ [row]) ty2 id2
            = of_doc t ty2 id2 ++ (if of_entity ty2 id2 row then [row] else [])).
  { intros. unfold of_doc. rewrite List.filter_app. cbn. by destruct (of_entity _ _ row). }
  assert (Hok' : ledger_ok (t ++ [row])).
  { intros ty2 id2. rewrite Hof. destruct (of_entity ty2 id2 row) eqn:E; [|rewrite app_nil_r; apply Hok].
    apply of_entity_spec in E as [E1 E2]. cbn in E1, E2. subst ty2 id2.
    destruct (Hok ty id) as [Hn Hd]. rewrite !map_app, length_app, Hn. cbn [map length]. split.
    - rewrite Hrow, Nat2Z.inj_add, seqZ_app by lia. f_equal. rewrite Z.add_comm. reflexivity.
    - apply NoDup_snoc; [done|]. cbn. exact Hnew. }
  split; [done|]. split; [|split].
  - rewrite existsb_app. cbn. rewrite Hsame. unfold row. cbn. rewrite bool_decide_eq_true_2 by done.
    by rewrite orb_true_r.
  - intros _. destruct (Hok' ty id) as [Hn _]. unfold max_version. fold (of_doc (t ++ [row]) ty id).
    rewrite Hn, max_seq, Hof, Hsame, length_app. cbn [length].
    replace (length (of_doc t ty id) + 1 =? 0)%nat with false by (symmetry; apply Nat.eqb_neq; lia).
    f_equal. lia.
  - intros ty2 id2 Hne. rewrite Hof. destruct (of_entity ty2 id2 row) eqn:E; [|by rewrite app_nil_r].
    apply of_entity_spec in E as [E1 E2]. cbn in E1, E2. by subst.
Qed.
End VersionProperty.

Lemma version_ledger_counts_witness :
  VersionRepo.max_version
    (VersionRepo.insert_entity_version (VersionRepo.insert_entity_version [] (lit "document") (lit "doc_1") (mkId 1))
       (lit "document") (lit "doc_1") (mkId 2)) (lit "document") (lit "doc_1") = Some 2%Z /\
  VersionSpec.ledger_ok
    (VersionRepo.insert_entity_version (VersionRepo.insert_entity_version [] (lit "document") (lit "doc_1") (mkId 1))
       (lit "document") (lit "doc_1") (mkId 2)).
Proof.
  split; [vm_compute; reflexivity|].
  destruct (version_ledger_counts [] (lit "document") (lit "doc_1") (mkId 1)) as [H _].
  - intros ty id. split; [done|constructor].
  - by destruct (version_ledger_counts _ (lit "document") (lit "doc_1") (mkId 2) H).
Defined.
