(* ===== verification/RuleEngine.v ===== *)
(** * core/rule_engine.rs: the rule engine behind the lifecycle gate

    One check of a batch is judged against the rules effective on its scope
    chains: [check_observed] resolves the chains, matches conditions, looks for
    evidence (or counts tasks in progress) and turns what is left into a
    decision.  [World] holds the projections the engine reads; the evidence
    registry is wired, as the server does.  Texts of reasons and notes are the
    format strings of the source. *)

From S2P Require Import Prelude Shared TaskModel PlanModel RegistryModel Events TaskStore PlanStore RunStore DocumentStore RuleStore Gate.

Module RuleEngine.
  Import LifecycleGate.

Record World : Type := mkWorld {
  rules : RuleTable;
  evidence : EvidenceTable;
  versions : VersionTable;
  tasks : TaskTable;
  plans : PlanTables;
  runs : RunTables;
  documents : DocumentTable }.

(** ** Reads of rule_repo.rs on the other projections *)
Definition task_context (w : World) (id : TaskId) : option (option ProjectId * Str) :=
  (fun t => (Task.project_id t, Task.title t)) <$> TaskRepo.get (tasks w) id.
Definition task_plan_ids (w : World) (id : TaskId) : list PlanId :=
  map Plan.id (PlanRepo.list_plans_for_task (plans w) id).
Definition plan_parent_id (w : World) (id : PlanId) : option (option PlanId) :=
  Plan.parent_plan_id <$> PlanRepo.get (plans w) id.
Definition run_plan_id (w : World) (id : RunId) : option PlanId :=
  Run.plan_id <$> RunRepo.get (runs w) id.

(** [ORDER BY started_at ASC, id ASC], NULL first. *)
Definition by_start (a b : Task) : bool :=
  match Task.started_at a, Task.started_at b with
  | None, Some _ => true
  | Some _, None => false
  | None, None => (as_uuid (Task.id a) <=? as_uuid (Task.id b))%N
  | Some x, Some y => (x <? y)%Z || ((x =? y)%Z && (as_uuid (Task.id a) <=? as_uuid (Task.id b))%N)
  end.
Definition in_scope_row (w : World) (scope : RuleScope) (t : Task) : bool :=
  match scope with
  | ScopeTenant => true
  | ScopeProject id => bool_decide (Task.project_id t = Some id)
  | ScopePlan id => bool_decide (is_Some (PlanRepo.plan_tasks (plans w) !! (id, Task.id t)))
  | ScopeTask _ => false
  end.
Definition in_progress_task_ids (w : World) (scope : RuleScope) : list TaskId :=
  map Task.id (sort_by by_start
    (List.filter (fun t => bool_decide (Task.status t = InProgress) && in_scope_row w scope t)
       (map TaskRow.task (TaskRepo.all_rows (tasks w))))).

(** ** Conditions and requirements *)
Definition map_trigger (t : TriggerEvent) : RuleTrigger :=
  match t with
  | ProjectCreated => TrProjectCreated
  | PlanCreated => TrPlanCreated
  | PlanBeforeApprove => TrPlanBeforeApprove
  | TaskCreated => TrTaskCreated
  | TaskBeforeStart => TrTaskBeforeStart
  | TaskBeforeComplete => TrTaskBeforeComplete
  | RunBeforeExecute => TrRunBeforeExecute
  | RunBeforeComplete => TrRunBeforeComplete
  | DocumentCreated => TrDocumentCreated
  | TaskHandoff => TrTaskHandoff
  end.

Definition listed (allowed : option (list Status)) (s : option Status) : bool :=
  match allowed with
  | None => true
  | Some l => match s with Some s => bool_decide (s ∈ l) | None => false end
  end.
Definition condition_matches (condition : option Condition) (c : GateCheck) : bool :=
  match condition with
  | None => true
  | Some cond =>
      if condition_is_empty cond then true
      else listed (RegistryModel.status_from cond) (status_from c)
           && listed (RegistryModel.status_to cond) (status_to c)
           && match title_prefix cond with
              | None => true
              | Some prefixes =>
                  match task_title c with
                  | Some title => existsb (fun p => starts_with p title) prefixes
                  | None => false
                  end
              end
  end.

Definition nonempty_fields (l : list Str) : option (list Str) := match l with [] => None | _ => Some l end.
Definition requirement_evidence (r : Requirement)
  : EvidenceKind * option Str * option (list Str) * option Str :=
  match r with
  | ReadArtifact doc_ref min_version => (DocumentReadAck, Some doc_ref, None, Some min_version)
  | IndependentTestVerification _ rev => (ArtifactCreated, Some (lit "test-verification:" ++ rev), None, None)
  | CreateArtifact kind => (ArtifactCreated, Some kind, None, None)
  | ImpactCheck target fields => (ImpactAssessment, Some target, nonempty_fields fields, None)
  | DecisionRecord fields => (EvDecisionRecord, None, nonempty_fields fields, None)
  | ReqCompletionNote fields => (EvCompletionNote, None, nonempty_fields fields, None)
  | OwnerRequired => (OwnerAssigned, None, None, None)
  | DocumentLinked => (ArtifactCreated, None, None, None)
  | WipLimit _ => (ArtifactCreated, None, None, None)
  | AcceptanceCriteriaRequired => (AcceptanceCriteriaDefined, None, None, None)
  | RiskCheck target fields => (RiskCheckCompleted, Some target, nonempty_fields fields, None)
  end.

Definition is_hexdigit (c : N) : bool :=
  is_ascii_digit c || ((65 <=? c) && (c <=? 70) || (97 <=? c) && (c <=? 102))%N.
Definition valid_revision (rev : Str) : bool :=
  ((byte_len rev =? 40) || (byte_len rev =? 64))%Z && forallb is_hexdigit rev.

Definition verdict (ok : bool) (why : string) : EvidenceRepo.EvidenceCheck :=
  EvidenceRepo.mkCheck ok (if ok then None else Some (lit why)).

Section Engine.
Context (display : N -> Str).

Definition requirement_satisfied (w : World) (rule : Rule) (chain : list RuleScope)
  : EvidenceRepo.EvidenceCheck :=
  match Rule.requirement rule with
  | IndependentTestVerification executor_id source_revision =>
      verdict (match last chain with
               | Some (ScopeTask id) =>
                   valid_revision source_revision
                   && EvidenceRepo.has_independent_test_verification (evidence w) id executor_id source_revision
               | _ => false
               end)
        "requires a live passing test attestation for this task and pinned revision from an authenticated actor other than executor_id"
  | DocumentLinked =>
      verdict (match last chain with
               | Some (ScopeTask id) => EvidenceRepo.task_has_live_document (documents w) id
               | _ => false
               end)
        "requires at least one non-archived document linked to this task"
  | req =>
      let '(kind, target, fields, min_version) := requirement_evidence req in
      EvidenceRepo.has_live_evidence display (versions w) (evidence w) chain kind target fields min_version
  end.

(** ** Work in progress *)
Definition leaves_batch (c : GateCheck) (id : TaskId) : bool :=
  existsb (fun p => bool_decide (p.1 = id) && negb (bool_decide (p.2 = InProgress))) (pending_statuses c).
Definition in_scope_pending (w : World) (scope : RuleScope) (task : TaskId) : bool :=
  match scope with
  | ScopeTenant => true
  | ScopeProject id =>
      match task_context w task with
      | Some (Some project, _) => bool_decide (project = id)
      | _ => false
      end
  | ScopePlan id => bool_decide (id ∈ task_plan_ids w task)
  | ScopeTask _ => false
  end.
Definition occupy (w : World) (scope : RuleScope) (c : GateCheck) (occupied : list TaskId)
    (p : TaskId * Status) : list TaskId :=
  if negb (bool_decide (p.2 = InProgress)) || bool_decide (Some p.1 = task_id c)
     || bool_decide (p.1 ∈ occupied)
  then occupied
  else if in_scope_pending w scope p.1 then occupied ++ [p.1] else occupied.
Definition wip_occupied (w : World) (scope : RuleScope) (c : GateCheck) : list TaskId :=
  foldl (occupy w scope c)
    (List.filter (fun id => negb (bool_decide (Some id = task_id c)) && negb (leaves_batch c id))
       (in_progress_task_ids w scope))
    (pending_statuses c).

(** ** Scope chains *)
Definition parent_of (w : World) (staged : list (PlanId * option PlanId)) (current : PlanId)
  : option PlanId :=
  match find (fun p : PlanId * option PlanId => bool_decide (p.1 = current)) staged with
  | Some p => p.2
  | None => mjoin (plan_parent_id w current)
  end.

(** Every turn adds a plan that has a parent to the path, or the last one:
    [ancestry_enough]. *)
Fixpoint climb (w : World) (staged : list (PlanId * option PlanId)) (fuel : nat) (path : list PlanId)
    (current : PlanId) : Result CoreError (list PlanId) :=
  match fuel with
  | O => Err (Storage "out of fuel")
  | S fuel =>
      match parent_of w staged current with
      | None => Ok path
      | Some parent =>
          if bool_decide (parent ∈ path) then Err (Conflict "cyclic plan scope ancestry at plan {parent}")
          else climb w staged fuel (path ++ [parent]) parent
      end
  end.
Definition ancestry_fuel (w : World) (staged : list (PlanId * option PlanId)) : nat :=
  S (S (length staged + size (PlanRepo.plans (plans w)))).
Definition plan_ancestry (w : World) (plan_id : PlanId) (staged : list (PlanId * option PlanId))
  : Result CoreError (list PlanId) :=
  rbind (climb w staged (ancestry_fuel w staged) [plan_id] plan_id) (fun path => Ok (rev path)).

Definition scope_chain (c : GateCheck) (plans : list PlanId) : list RuleScope :=
  [ScopeTenant]
    ++ match project_id c with Some id => [ScopeProject id] | None => [] end
    ++ map ScopePlan plans
    ++ match task_id c with Some id => [ScopeTask id] | None => [] end.

Definition plan_le (a b : PlanId) : bool := (as_uuid a <=? as_uuid b)%N.
Definition check_plans (w : World) (c : GateCheck) : list PlanId :=
  dedup (sort_by plan_le
    (match plan_id c with
     | Some id => [id]
     | None =>
         match task_id c with
         | Some task => pending_plan_ids c ++ task_plan_ids w task
         | None => match run_id c with
                   | Some run => option_list (run_plan_id w run)
                   | None => []
                   end
         end
     end)).
Fixpoint chains_of (w : World) (c : GateCheck) (ids : list PlanId)
  : Result CoreError (list (list RuleScope)) :=
  match ids with
  | [] => Ok []
  | id :: ids =>
      rbind (plan_ancestry w id (pending_plans c)) (fun ancestry =>
      rbind (chains_of w c ids) (fun rest => Ok (scope_chain c ancestry :: rest)))
  end.
Definition scope_chains (w : World) (c : GateCheck) : Result CoreError (list (list RuleScope)) :=
  match check_plans w c with
  | [] => Ok [scope_chain c []]
  | ids => chains_of w c ids
  end.

(** ** Texts and hints *)
Definition uuid_json {k} (i : Id k) : Json := JStr (display (as_uuid i)).
Definition status_strs (l : list Str) : Json := JArr (map JStr l).
Definition requirement_json (r : Requirement) : Json :=
  let tag := ("type"%string, JStr (lit (type_str r))) in
  match r with
  | ReadArtifact doc_ref min_version =>
      JObj [tag; ("doc_ref"%string, JStr doc_ref); ("min_version"%string, JStr min_version)]
  | CreateArtifact kind => JObj [tag; ("artifact_kind"%string, JStr kind)]
  | ImpactCheck target fields | RiskCheck target fields =>
      JObj [tag; ("target"%string, JStr target); ("required_fields"%string, status_strs fields)]
  | DecisionRecord fields | ReqCompletionNote fields =>
      JObj [tag; ("required_fields"%string, status_strs fields)]
  | OwnerRequired | AcceptanceCriteriaRequired | DocumentLinked => JObj [tag]
  | IndependentTestVerification executor rev =>
      JObj [tag; ("executor_id"%string, uuid_json executor); ("source_revision"%string, JStr rev)]
  | WipLimit n => JObj [tag; ("max_in_progress"%string, JNum n)]
  end.
Definition scope_json (s : RuleScope) : Json :=
  let tag := ("kind"%string, JStr (lit (scope_kind s))) in
  match s with
  | ScopeTenant => JObj [tag]
  | ScopeProject id => JObj [tag; ("id"%string, uuid_json id)]
  | ScopePlan id => JObj [tag; ("id"%string, uuid_json id)]
  | ScopeTask id => JObj [tag; ("id"%string, uuid_json id)]
  end.
Definition text_json (o : option Str) : Json := match o with Some s => JStr s | None => JNull end.
Definition id_str {k} (i : Id k) : Json := JStr (Ids.display display i).
(** [object[key] = value]. *)
Definition jset (j : Json) (key : string) (v : Json) : Json :=
  match j with
  | JObj l => JObj (List.filter (fun p => negb (String.eqb p.1 key)) l ++ [(key, v)])
  | j => j
  end.

Definition warn_message (rule : Rule) : Str :=
  if str_is_empty (trim (Rule.message rule))
  then lit "rule `" ++ Rule.rule_key rule ++ lit "` requires `" ++ lit (type_str (Rule.requirement rule)) ++ lit "`"
  else Rule.message rule.

Definition rule_warning (rule : Rule) : MutationWarning :=
  mkWarning (lit "rule_warning:" ++ Rule.rule_key rule) (warn_message rule)
    (JObj [("rule_id"%string, id_str (Rule.id rule)); ("rule_key"%string, JStr (Rule.rule_key rule));
           ("requirement"%string, requirement_json (Rule.requirement rule))]).

Definition rule_outcome (rule : Rule) (decision : string) (reason : option Str) : Json :=
  let outcome := JObj [("rule_id"%string, id_str (Rule.id rule)); ("rule_key"%string, JStr (Rule.rule_key rule));
                       ("decision"%string, JStr (lit decision)); ("message"%string, JStr (warn_message rule));
                       ("requirement"%string, requirement_json (Rule.requirement rule))] in
  match reason with Some r => jset outcome "reason" (JStr r) | None => outcome end.

Definition blocked_message (blocked : list (Rule * option Str)) : Str :=
  match blocked with
  | [(rule, _)] => warn_message rule
  | _ => lit "{} rules block this transition: {}"
  end.

Definition reach_str (r : EvidenceReach) : string :=
  match r with
  | ReachSelfOnly => "self_only" | ReachPlan => "plan" | ReachProject => "project" | ReachTenant => "tenant"
  end.
Definition creates_innermost (t : TriggerEvent) : bool :=
  match t with ProjectCreated | PlanCreated | TaskCreated => true | _ => false end.
Definition is_staged (staged : list (PlanId * option PlanId)) (s : RuleScope) : bool :=
  match s with ScopePlan id => existsb (fun p => bool_decide (p.1 = id)) staged | _ => false end.
Fixpoint position_by {A} (f : A -> bool) (l : list A) : option nat :=
  match l with
  | [] => None
  | x :: l => if f x then Some 0%nat else S <$> position_by f l
  end.

(** The scope a hint advises: the innermost element of the chain the kind may be
    read from that exists before the batch. *)
Definition advised (kind : EvidenceKind) (chain : list RuleScope) (t : TriggerEvent)
    (staged : list (PlanId * option PlanId)) : option RuleScope :=
  let start := match reach kind with
               | ReachSelfOnly => (length chain - 1)%nat
               | r => default (length chain - 1)%nat
                        (position_by (fun s => (EvidenceRepo.reach_ceiling r <=? EvidenceRepo.scope_rank s)%Z) chain)
               end in
  let end_ := Nat.min (if creates_innermost t then length chain - 1 else length chain)%nat
                (default (length chain) (position_by (is_staged staged) chain)) in
  if (start <=? end_)%nat then last (drop start (take end_ chain)) else None.

Definition wip_note (override_allowed : bool) : string :=
  if override_allowed
  then "no evidence to submit: complete one of in_progress_task_ids or return it to todo, reopen a stuck one without a live claim (daruma_stuck / reconciliation), or pass force + override_reason"
  else "no evidence to submit: complete one of in_progress_task_ids or return it to todo, reopen a stuck one without a live claim (daruma_stuck / reconciliation), this rule forbids override".

Definition unblock_hint (rule : Rule) (chain : list RuleScope) (t : TriggerEvent)
    (staged : list (PlanId * option PlanId)) (occupied : list TaskId) : Json :=
  let '(kind, target, _, _) := requirement_evidence (Rule.requirement rule) in
  let key := ("rule_key"%string, JStr (Rule.rule_key rule)) in
  let kind_json := ("kind"%string, JStr (lit (evidence_kind_as_str kind))) in
  match Rule.requirement rule with
  | IndependentTestVerification executor rev =>
      JObj [key; ("requirement"%string, JStr (lit "independent_test_verification"));
            ("executor_id"%string, uuid_json executor); ("source_revision"%string, JStr rev);
            ("reach"%string, JStr (lit "self_only"));
            ("evidence"%string, JObj [kind_json;
               ("scope"%string, match last chain with Some s => scope_json s | None => JNull end);
               ("target"%string, text_json target); ("payload"%string, JObj [("passed"%string, JBool true)])]);
            ("note"%string, JStr (lit "Verifier submits using its own authenticated identity; payload actor fields do not establish independence."))]
  | DocumentLinked =>
      JObj [key; ("requirement_type"%string, JStr (lit "document_linked")); ("reach"%string, JStr (lit "self_only"));
            ("note"%string, JStr (lit "no evidence to submit: create a document and link it to this task (LinkDocumentToTask / daruma_doc_link_task); archived documents do not count"))]
  | WipLimit n =>
      JObj [key; ("requirement_type"%string, JStr (lit "wip_limit")); ("max_in_progress"%string, JNum n);
            ("scope"%string, scope_json (Rule.scope rule));
            ("in_progress_task_ids"%string, JArr (map uuid_json occupied));
            ("note"%string, JStr (lit (wip_note (Rule.override_allowed rule))))]
  | req =>
      let adv := advised kind chain t staged in
      let evidence := JObj ([kind_json]
        ++ match target with Some d => [("target"%string, JStr d)] | None => [] end
        ++ match adv with Some s => [("scope"%string, scope_json s)] | None => [] end) in
      let hint := JObj [key; ("requirement_type"%string, JStr (lit (type_str req)));
                        ("reach"%string, JStr (lit (reach_str (reach kind)))); ("evidence"%string, evidence)] in
      match adv with
      | Some _ => hint
      | None => jset hint "note" (JStr (lit
          (if Rule.override_allowed rule then "unsatisfiable before creation; requires override"
           else "unsatisfiable before creation and this rule forbids override; the rule must be relaxed or disabled")))
      end
  end.

(** ** One check *)
(** A required rule left unsatisfied: the chain it blocked on and, for a limit
    on work in progress, the tasks that hold its slots. *)
Record Acting : Type := mkActing {
  a_rule : Rule;
  a_reason : option Str;
  a_chain : list RuleScope;
  a_occupied : list TaskId }.
Record Tally : Type := mkTally {
  observations : list RuleObservation;
  warnings : list MutationWarning;
  acting : list Acting;
  override_forbidden : bool }.
Definition no_tally : Tally := mkTally [] [] [] false.

(** The verdict on a requirement: a limit counts the rule's own scope. *)
Definition judge (w : World) (c : GateCheck) (chain : list RuleScope) (rule : Rule)
  : EvidenceRepo.EvidenceCheck * list TaskId :=
  match Rule.requirement rule with
  | WipLimit max_in_progress =>
      let occupied := wip_occupied w (Rule.scope rule) c in
      (verdict (Z.of_nat (length occupied) <? max_in_progress)%Z
         "{} of {max_in_progress} in_progress slots in the {} scope are taken", occupied)
  | _ => (requirement_satisfied w rule chain, [])
  end.

Definition observe (rule : Rule) (obs : list RuleObservation) : list RuleObservation :=
  if bool_decide (Rule.mode rule = Recommendation)
     && negb (existsb (fun o => bool_decide (o_rule_id o = Rule.id rule)) obs)
  then obs ++ [mkObservation (Rule.id rule) (Rule.rule_key rule) (Rule.updated_at rule) false]
  else obs.
(** The first observation of a rule: is it already triggered, and triggered. *)
Definition triggered_before (id : RuleId) (obs : list RuleObservation) : bool :=
  match find (fun o => bool_decide (o_rule_id o = id)) obs with Some o => o_triggered o | None => false end.
Fixpoint set_triggered (id : RuleId) (obs : list RuleObservation) : list RuleObservation :=
  match obs with
  | [] => []
  | o :: obs => if bool_decide (o_rule_id o = id) then (o <| o_triggered := true |>) :: obs
                else o :: set_triggered id obs
  end.
Definition advice (rule : Rule) (verdict : EvidenceRepo.EvidenceCheck) (occupied : list TaskId)
  : MutationWarning :=
  let warning := rule_warning rule in
  match Rule.requirement rule with
  | WipLimit _ =>
      mkWarning (w_code warning) (w_message warning)
        (jset (jset (w_details warning) "in_progress_task_ids" (JArr (map uuid_json occupied)))
           "reason" (text_json (EvidenceRepo.reason verdict)))
  | _ => warning
  end.

Definition weigh (w : World) (c : GateCheck) (chain : list RuleScope) (tally : Tally) (rule : Rule) : Tally :=
  let obs := observe rule (observations tally) in
  let tally := mkTally obs (warnings tally) (acting tally) (override_forbidden tally) in
  if bool_decide (Rule.mode rule = Off) || negb (condition_matches (Rule.condition rule) c) then tally
  else
    let '(check, occupied) := judge w c chain rule in
    if EvidenceRepo.satisfied check then tally
    else match Rule.mode rule with
         | Off => tally
         | Recommendation =>
             if triggered_before (Rule.id rule) obs then tally
             else mkTally (set_triggered (Rule.id rule) obs)
                    (warnings tally ++ [advice rule check occupied]) (acting tally) (override_forbidden tally)
         | Required =>
             if existsb (fun a => bool_decide (Rule.id (a_rule a) = Rule.id rule)) (acting tally) then tally
             else mkTally obs (warnings tally)
                    (acting tally ++ [mkActing rule (EvidenceRepo.reason check) chain occupied])
                    (override_forbidden tally || negb (Rule.override_allowed rule))
         end.

Definition weigh_chain (w : World) (c : GateCheck) (tally : Tally) (chain : list RuleScope) : Tally :=
  foldl (weigh w c chain) tally (RuleRepo.effective_rules (rules w) chain (map_trigger (trigger c))).

(** A task transition names only the task: project and title come from its row. *)
Definition resolved (w : World) (c : GateCheck) : GateCheck :=
  match task_id c with
  | Some task =>
      if bool_decide (project_id c = None) || bool_decide (task_title c = None) then
        match task_context w task with
        | Some (project, title) =>
            c <| project_id := or_else (project_id c) project |>
              <| task_title := Some (default title (task_title c)) |>
        | None => c
        end
      else c
  | None => c
  end.

Definition given_reason (ov : GateOverride) : option Str :=
  match trim <$> override_reason ov with
  | Some (c :: r) => Some (c :: r)
  | _ => None
  end.

Definition warning_outcome (w : MutationWarning) : Json :=
  JObj [("rule_key"%string, JStr (default (w_code w) (strip_prefix (lit "rule_warning:") (w_code w))));
        ("decision"%string, JStr (lit "warning")); ("message"%string, JStr (w_message w))].
Definition hint_of (c : GateCheck) (a : Acting) : Json :=
  let hint := unblock_hint (a_rule a) (a_chain a) (trigger c) (pending_plans c) (a_occupied a) in
  match a_reason a with Some r => jset hint "reason" (JStr r) | None => hint end.

Definition blocked_decision (c : GateCheck) (tally : Tally) (first : Acting) : GateDecision :=
  let blocked := map (fun a => (a_rule a, a_reason a)) (acting tally) in
  Blocked (blocked_message blocked)
    (JObj [("rule_id"%string, id_str (Rule.id (a_rule first)));
           ("rule_key"%string, JStr (Rule.rule_key (a_rule first)));
           ("requirement"%string, requirement_json (Rule.requirement (a_rule first)));
           ("reason"%string, text_json (a_reason first));
           ("outcomes"%string, JArr (map (fun b => rule_outcome b.1 "blocked" b.2) blocked
                                       ++ map warning_outcome (warnings tally)));
           ("unblock"%string, JArr (map (hint_of c) (acting tally)))]).

Definition decide_tally (c : GateCheck) (ov : GateOverride) (tally : Tally) : GateDecision :=
  match acting tally with
  | [] => match warnings tally with [] => Allowed | ws => Warning ws end
  | first :: _ =>
      match force ov, given_reason ov, override_forbidden tally with
      | true, Some reason, false =>
          Overridden (map (fun a => rule_warning (a_rule a)) (acting tally)) (warnings tally) reason
      | _, _, _ => blocked_decision c tally first
      end
  end.

Definition check_observed (w : World) (c : GateCheck) (ov : GateOverride)
  : Result CoreError (GateDecision * list RuleObservation) :=
  let c := resolved w c in
  rbind (scope_chains w c) (fun chains =>
    let tally := foldl (weigh_chain w c) no_tally chains in
    Ok (decide_tally c ov tally, observations tally)).
Definition check (w : World) (c : GateCheck) (ov : GateOverride) : Result CoreError GateDecision :=
  rbind (check_observed w c ov) (fun r => Ok r.1).
End Engine.

(** The engine as a gate over any state the projections can be read from; the
    acting principal does not enter the decision. *)
#[global] Instance rule_engine_gate {W} (display : N -> Str) (world_of : W -> World) : LifecycleGate W := {
  LifecycleGate.check s _ c ov := check display (world_of s) c ov;
  LifecycleGate.check_observed s _ c ov := check_observed display (world_of s) c ov }.
End RuleEngine.

(** ** Specification *)
Module EngineSpec.
  Import LifecycleGate RuleEngine.

(** A required rule of the chain that the check matches and nothing satisfies. *)
Definition acts (display : N -> Str) (w : World) (c : GateCheck) (chain : list RuleScope) (rule : Rule) : Prop :=
  rule ∈ RuleRepo.effective_rules (rules w) chain (map_trigger (trigger c)) /\
  Rule.mode rule = Required /\ condition_matches (Rule.condition rule) c = true /\
  EvidenceRepo.satisfied (judge display w c chain rule).1 = false.

(** A task other than the one being started that holds a slot of a scope once
    the batch lands. *)
Definition holds_slot (w : World) (scope : RuleScope) (c : GateCheck) (x : TaskId) : Prop :=
  Some x <> task_id c /\
  ((exists t, TaskRepo.get (tasks w) x = Some t /\ Task.status t = InProgress /\ in_scope_row w scope t = true /\
      forall st, (x, st) ∈ pending_statuses c -> st = InProgress) \/
   ((x, InProgress) ∈ pending_statuses c /\ in_scope_pending w scope x = true)).

(** The plans from one upwards to a root. *)
Inductive lineage (up : PlanId -> option PlanId) : PlanId -> list PlanId -> Prop :=
| lineage_root p : up p = None -> lineage up p [p]
| lineage_below p q l : up p = Some q -> lineage up q l -> lineage up p (p :: l).
Definition climbs (up : PlanId -> option PlanId) (p q : PlanId) : Prop := up p = Some q.
End EngineSpec.

Module EngineFacts.
  Import LifecycleGate RuleEngine EngineSpec.

(** ** The decision *)
Section Decision.
Context (display : N -> Str) (w : World) (c : GateCheck).
Abbreviation weigh := (weigh display w c).
Abbreviation judge := (judge display w c).

Definition active (chain : list RuleScope) (rule : Rule) : bool :=
  bool_decide (Rule.mode rule = Required) && condition_matches (Rule.condition rule) c
  && negb (EvidenceRepo.satisfied (judge chain rule).1).

Lemma weigh_acting chain tally rule :
  let tally' := weigh chain tally rule in
  if active chain rule && negb (existsb (fun a => bool_decide (Rule.id (a_rule a) = Rule.id rule)) (acting tally))
  then exists a, acting tally' = acting tally ++ [a] /\ a_rule a = rule /\ a_chain a = chain /\
         override_forbidden tally' = override_forbidden tally || negb (Rule.override_allowed rule)
  else acting tally' = acting tally /\ override_forbidden tally' = override_forbidden tally.
Proof.
  unfold active, RuleEngine.weigh. cbn.
  destruct (RuleEngine.judge display w c chain rule) as [check occupied]. cbn.
  destruct (Rule.mode rule), (condition_matches (Rule.condition rule) c), (EvidenceRepo.satisfied check); cbn; try done.
  - by destruct (triggered_before _ _).
  - destruct (existsb _ _); cbn; [done|]. eexists. done.
Qed.

Definition tally_of (pairs : list (list RuleScope * Rule)) (tally : Tally) : Tally :=
  foldl (fun t p => weigh p.1 t p.2) tally pairs.

(** The tally after some pairs of chain and rule. *)
Record tallied (pairs : list (list RuleScope * Rule)) (tally : Tally) : Prop := mkTallied {
  only_active : forall a, a ∈ acting tally -> (a_chain a, a_rule a) ∈ pairs /\ active (a_chain a) (a_rule a) = true;
  all_active : forall p, p ∈ pairs -> active p.1 p.2 = true ->
                 exists a, a ∈ acting tally /\ Rule.id (a_rule a) = Rule.id p.2;
  forbids : override_forbidden tally = existsb (fun a => negb (Rule.override_allowed (a_rule a))) (acting tally) }.

Lemma tallied_all pairs : tallied pairs (tally_of pairs no_tally).
Proof.
  induction pairs as [|[chain rule] pairs IH] using rev_ind.
  { split; [by intros a ?%elem_of_nil|by intros p ?%elem_of_nil|done]. }
  unfold tally_of in *. rewrite foldl_app. cbn [foldl fst snd].
  assert (W := weigh_acting chain (foldl (fun t p => weigh p.1 t p.2) no_tally pairs) rule).
  destruct IH as [IH1 IH2 IH3]. revert W IH1 IH2 IH3. generalize (foldl (fun t p => weigh p.1 t p.2) no_tally pairs) as old. intros old. cbv zeta.
  generalize (weigh chain old rule) as new. intros new.
  destruct (active chain rule) eqn:A; cbn [andb].
  - destruct (existsb _ (acting old)) eqn:X; cbn [negb].
    + intros [Ea Eo] IH1 IH2 IH3. apply existsb_exists in X as (a & Ha & Hid). apply list_elem_of_In in Ha. bsplit.
      split; rewrite Ea, ?Eo; [|intros p [Hp| ->%list_elem_of_singleton]%elem_of_app; [by apply IH2|eauto]|done].
      intros b Hb. destruct (IH1 b Hb). split; [apply elem_of_app; by left|done].
    + intros (a & Ea & <- & <- & Eo) IH1 IH2 IH3. split; rewrite Ea, ?Eo.
      * intros b [Hb| ->%list_elem_of_singleton]%elem_of_app;
          [destruct (IH1 b Hb); split; [apply elem_of_app; by left|done]|].
        split; [|done]. apply elem_of_app. right. by apply list_elem_of_singleton.
      * intros p [Hp| ->%list_elem_of_singleton]%elem_of_app Hact.
        -- destruct (IH2 p Hp Hact) as (b & Hb & ?). exists b. split; [apply elem_of_app; by left|done].
        -- exists a. split; [apply elem_of_app; right; by apply list_elem_of_singleton|done].
      * rewrite existsb_app, IH3. cbn. by rewrite orb_false_r.
  - intros [Ea Eo] IH1 IH2 IH3. split; rewrite Ea, ?Eo; [| |done].
    + intros b Hb. destruct (IH1 b Hb). split; [apply elem_of_app; by left|done].
    + intros p [Hp| ->%list_elem_of_singleton]%elem_of_app Hact; [by apply IH2|cbn in Hact; congruence].
Qed.

Definition pairs_of (chains : list (list RuleScope)) : list (list RuleScope * Rule) :=
  concat (map (fun chain => map (pair chain)
    (RuleRepo.effective_rules (rules w) chain (map_trigger (trigger c)))) chains).

Lemma tally_pairs chains tally : foldl (weigh_chain display w c) tally chains = tally_of (pairs_of chains) tally.
Proof.
  revert tally. induction chains as [|chain chains IH]; intros tally; [done|].
  unfold pairs_of. cbn [map concat foldl]. unfold tally_of. rewrite foldl_app. fold (tally_of (pairs_of chains)).
  rewrite IH. f_equal. unfold weigh_chain. generalize (RuleRepo.effective_rules (rules w) chain (map_trigger (trigger c))).
  intros l. revert tally. clear IH. induction l as [|r l IH]; intros tally; cbn; [done|by rewrite IH].
Qed.

Lemma elem_of_pairs chains chain rule :
  (chain, rule) ∈ pairs_of chains <->
  chain ∈ chains /\ rule ∈ RuleRepo.effective_rules (rules w) chain (map_trigger (trigger c)).
Proof.
  unfold pairs_of. induction chains as [|ch chains IH]; cbn; [set_solver|].
  rewrite elem_of_app, IH, list_elem_of_fmap, elem_of_cons. split.
  - intros [(r & [= -> ->] & Hr)|[? ?]]; [by split; [left|]|by split; [right|]].
  - intros [[-> |Hc] Hr]; [left; by exists rule|by right].
Qed.

Lemma pairs_acts chains chain rule :
  (chain, rule) ∈ pairs_of chains /\ active chain rule = true <-> chain ∈ chains /\ acts display w c chain rule.
Proof.
  rewrite elem_of_pairs. unfold active, acts. rewrite !andb_true_iff, negb_true_iff, bool_decide_eq_true. tauto.
Qed.

Lemma effective_in_table chain trigger rule :
  RuleSpec.unique_keys (rules w) ->
  rule ∈ RuleRepo.effective_rules (rules w) chain trigger -> exists i, rules w !! i = Some rule.
Proof.
  intros Hu [H _]%RuleFacts.effective_winner; [|done].
  apply RuleFacts.winner_declared in H as [H|]; [|done].
  by apply RuleFacts.elem_of_declared in H as (_ & s & _ & (? & _)%RuleFacts.elem_of_scope_rows).
Qed.
End Decision.

(** ** Work in progress *)
Lemma elem_of_in_progress w scope x :
  (forall i r, TaskRepo.rows (tasks w) !! i = Some r -> Task.id (TaskRow.task r) = i) ->
  x ∈ in_progress_task_ids w scope <->
  exists t, TaskRepo.get (tasks w) x = Some t /\ Task.status t = InProgress /\ in_scope_row w scope t = true.
Proof.
  intros Hk. unfold in_progress_task_ids. rewrite list_elem_of_fmap. split.
  - intros (t & -> & H). rewrite elem_of_sort_by, list_elem_of_In, filter_In, <- list_elem_of_In in H.
    destruct H as [H [H1 H2]%andb_prop]. bsplit. exists t. split; [|done].
    apply list_elem_of_fmap in H as (r & -> & H). unfold TaskRepo.all_rows in H.
    apply list_elem_of_fmap in H as ([i r'] & -> & H%elem_of_map_to_list). cbn.
    unfold TaskRepo.get. by rewrite (Hk i r' H), H.
  - intros (t & H & H1 & H2). apply fmap_Some in H as (r & H & ->).
    exists (TaskRow.task r). split; [symmetry; by apply Hk|].
    rewrite elem_of_sort_by, list_elem_of_In, filter_In, <- list_elem_of_In. split.
    + apply list_elem_of_fmap_2. unfold TaskRepo.all_rows. apply list_elem_of_fmap.
      exists (x, r). split; [done|by apply elem_of_map_to_list].
    + rewrite H2, andb_true_r. by apply bool_decide_eq_true.
Qed.

Lemma NoDup_in_progress w scope :
  (forall i r, TaskRepo.rows (tasks w) !! i = Some r -> Task.id (TaskRow.task r) = i) ->
  NoDup (in_progress_task_ids w scope).
Proof.
  intros Hk. unfold in_progress_task_ids. rewrite sort_by_perm. apply NoDup_map_filter.
  unfold TaskRepo.all_rows. rewrite map_map.
  assert (E : map (fun r => Task.id (TaskRow.task r)) (map_to_list (TaskRepo.rows (tasks w))).*2
              = (map_to_list (TaskRepo.rows (tasks w))).*1).
  { assert (Hm : forall i r, (i, r) ∈ map_to_list (TaskRepo.rows (tasks w)) -> Task.id (TaskRow.task r) = i)
      by (intros i r H%elem_of_map_to_list; by apply Hk).
    induction (map_to_list (TaskRepo.rows (tasks w))) as [|[i r] l IH]; cbn; [done|].
    rewrite (Hm i r) by apply list_elem_of_here. f_equal. apply IH. intros j x H. apply Hm. by apply list_elem_of_further. }
  rewrite E. apply NoDup_fst_map_to_list.
Qed.

Lemma occupy_spec w scope c occupied pending :
  NoDup occupied ->
  NoDup (foldl (occupy w scope c) occupied pending) /\
  forall x, x ∈ foldl (occupy w scope c) occupied pending <->
    x ∈ occupied \/ (Some x <> task_id c /\ (x, InProgress) ∈ pending /\ in_scope_pending w scope x = true).
Proof.
  revert occupied. induction pending as [|[y st] pending IH]; intros occupied Hn; cbn [foldl].
  { split; [done|]. intros x. split; [by left|]. intros [?|(_ & ?%elem_of_nil & _)]; done. }
  assert (H : occupy w scope c occupied (y, st) = occupied /\
                (st <> InProgress \/ Some y = task_id c \/ y ∈ occupied \/ in_scope_pending w scope y = false) \/
              (occupy w scope c occupied (y, st) = occupied ++ [y] /\ st = InProgress /\ Some y <> task_id c /\
               y ∉ occupied /\ in_scope_pending w scope y = true)).
  { unfold occupy. cbn. repeat case_bool_decide; cbn; try (left; split; [done|by auto]).
    destruct (in_scope_pending w scope y); [by right|left; auto]. }
  destruct H as [[-> Hno]|(-> & -> & Hy & Hocc & Hsc)].
  - destruct (IH occupied Hn) as [IH1 IH2]. split; [done|]. intros x. rewrite IH2. split; [intros [?|(? & ? & ?)]; [by left|right; set_solver]|].
    intros [?|(Hx & Hin & Hs)]; [by left|]. apply elem_of_cons in Hin as [[= -> <-]|Hin]; [|right; done].
    left. destruct Hno as [?|[?|[?|?]]]; congruence.
  - destruct (IH (occupied ++ [y])) as [IH1 IH2]; [by apply NoDup_snoc|]. split; [done|]. intros x.
    rewrite IH2, elem_of_app, list_elem_of_singleton, elem_of_cons. split.
    + intros [[?| ->]|(? & ? & ?)]; [by left|right|right; auto]. split; [done|]. split; [by left|done].
    + intros [?|(? & [[= ->]|?] & ?)]; [by left; left|by left; right|right; auto].
Qed.

Lemma wip_occupied_spec w scope c :
  (forall i r, TaskRepo.rows (tasks w) !! i = Some r -> Task.id (TaskRow.task r) = i) ->
  NoDup (wip_occupied w scope c) /\ forall x, x ∈ wip_occupied w scope c <-> holds_slot w scope c x.
Proof.
  intros Hk. unfold wip_occupied.
  destruct (occupy_spec w scope c
    (List.filter (fun id => negb (bool_decide (Some id = task_id c)) && negb (leaves_batch c id))
       (in_progress_task_ids w scope)) (pending_statuses c)) as [H1 H2].
  { apply NoDup_list_filter. by apply NoDup_in_progress. }
  split; [exact H1|]. intros x. rewrite H2, list_elem_of_In, filter_In, <- list_elem_of_In,
    elem_of_in_progress, andb_true_iff, !negb_true_iff, bool_decide_eq_false by done.
  assert (L : leaves_batch c x = false <-> forall st, (x, st) ∈ pending_statuses c -> st = InProgress).
  { unfold leaves_batch. rewrite <- not_true_iff_false, existsb_exists. split.
    - intros H st Hst. destruct (decide (st = InProgress)) as [|Hne]; [done|]. destruct H. exists (x, st).
      split; [by apply list_elem_of_In|]. cbn. rewrite bool_decide_eq_true_2 by done. cbn.
      by apply negb_true_iff, bool_decide_eq_false.
    - intros H ([y st] & Hp & Hc). apply list_elem_of_In in Hp. apply andb_prop in Hc as [Hy Hc]. cbn in *. bsplit. subst.
      specialize (H _ Hp). done. }
  rewrite L. unfold holds_slot. naive_solver.
Qed.

(** ** Plan ancestry *)
Section Ancestry.
Context (w : World) (staged : list (PlanId * option PlanId)).
Abbreviation up := (parent_of w staged).
Definition known : gset PlanId := list_to_set (map fst staged) ∪ dom (PlanRepo.plans (plans w)).

Lemma up_known p q : up p = Some q -> p ∈ known.
Proof.
  unfold parent_of, known. destruct (find _ staged) as [[a b]|] eqn:F.
  - apply find_some in F as [Hin Ha]. cbn in Ha. bsplit. subst. intros _. apply elem_of_union. left.
    apply elem_of_list_to_set, list_elem_of_fmap. exists (p, b). split; [done|by apply list_elem_of_In].
  - intros H. apply elem_of_union. right. apply elem_of_dom. unfold plan_parent_id, PlanRepo.get in H.
    destruct (PlanRepo.plans (plans w) !! p); [done|by cbn in H].
Qed.

Lemma size_of_list (l : list PlanId) : (size (list_to_set l : gset PlanId) <= length l)%nat.
Proof.
  induction l as [|x l IH]; cbn; [by rewrite size_empty|]. rewrite size_union_alt, size_singleton.
  assert (size (list_to_set l ∖ {[x]} : gset PlanId) <= size (list_to_set l : gset PlanId))%nat
    by (apply subseteq_size; set_solver). lia.
Qed.

Lemma known_size : (size known <= length staged + size (PlanRepo.plans (plans w)))%nat.
Proof.
  unfold known. rewrite size_union_alt. rewrite <- (length_map fst staged), <- (size_dom (PlanRepo.plans (plans w))).
  apply Nat.add_le_mono; [apply size_of_list|]. apply subseteq_size. set_solver.
Qed.

(** A path of the climb: every plan of it but the last has the next as parent. *)
Definition on_path (path : list PlanId) (current : PlanId) : Prop :=
  exists before, path = before ++ [current] /\ NoDup path /\ Forall (fun p => p ∈ known) before /\
    forall p, p ∈ path -> rtc (climbs up) p current.

Lemma climb_spec fuel path current :
  on_path path current -> (size known + 2 <= fuel + length path)%nat ->
  (exists l, climb w staged fuel path current = Ok (path ++ tl l) /\ lineage up current l) \/
  (climb w staged fuel path current = Err (Conflict "cyclic plan scope ancestry at plan {parent}") /\
   exists q, rtc (climbs up) current q /\ tc (climbs up) q q).
Proof.
  revert path current. induction fuel as [|fuel IH]; intros path current (before & Hp & Hnd & Hb & Hr) Hf.
  { exfalso. assert (length before <= size known)%nat.
    { rewrite <- (size_list_to_set (C := gset PlanId) before).
      - apply subseteq_size. intros x Hx%elem_of_list_to_set. by eapply Forall_forall in Hb.
      - rewrite Hp in Hnd. by apply NoDup_app in Hnd as [? _]. }
    rewrite Hp, length_app in Hf. cbn in Hf. lia. }
  cbn. destruct (up current) as [parent|] eqn:U.
  2:{ left. exists [current]. split; [by rewrite app_nil_r|by apply lineage_root]. }
  case_bool_decide as Hin.
  - right. split; [done|]. exists current. split; [done|]. eapply tc_rtc_r; [apply tc_once; exact U|by apply Hr].
  - destruct (IH (path ++ [parent]) parent) as [(l & Hl & Hlin)|(Hc & q & H1 & H2)].
    + exists path. split; [done|]. split; [by apply NoDup_snoc|]. split.
      * rewrite Hp. apply Forall_app. split; [done|]. constructor; [|done]. by eapply up_known.
      * intros p [Hpp| ->%list_elem_of_singleton]%elem_of_app; [|done].
        etrans; [by apply Hr|]. eapply rtc_once. exact U.
    + rewrite length_app. cbn. lia.
    + left. exists (current :: l). split; [|by eapply lineage_below]. rewrite Hl, <- app_assoc. f_equal. cbn.
      by inversion Hlin.
    + right. split; [done|]. exists q. split; [|done]. eapply rtc_l; [exact U|done].
Qed.
End Ancestry.
End EngineFacts.

Section Properties.
  Import LifecycleGate RuleEngine EngineSpec EngineFacts.

(** C36: the gate decides exactly by the required rules in force.  A check whose
    scopes resolve is blocked when a required rule that matches is unsatisfied on
    one of its chains, unless the caller forces it with a reason that is not
    blank and every such rule allows overriding; then it is let through as
    overridden.  Without such a rule it is allowed, with warnings or without. *)
Theorem gate_decision_exact display w c ov chains :
  RuleSpec.rules_keyed (rules w) -> RuleSpec.unique_keys (rules w) ->
  scope_chains w (resolved w c) = Ok chains ->
  exists decision observations,
    check_observed display w c ov = Ok (decision, observations) /\
    let blocking chain rule := chain ∈ chains /\ acts display w (resolved w c) chain rule in
    let forced := force ov = true /\ given_reason ov <> None /\
                  forall chain rule, blocking chain rule -> Rule.override_allowed rule = true in
    ((exists message details, decision = Blocked message details) <->
       (exists chain rule, blocking chain rule) /\ ~ forced) /\
    ((exists overridden ws reason, decision = Overridden overridden ws reason) <->
       (exists chain rule, blocking chain rule) /\ forced) /\
    (decision = Allowed \/ (exists ws, decision = Warning ws) <-> ~ exists chain rule, blocking chain rule).
Proof.
  intros Hk Hu Hc. unfold check_observed. rewrite Hc. cbn [rbind].
  rewrite tally_pairs. set (c' := resolved w c). set (pairs := pairs_of w c' chains).
  destruct (tallied_all display w c' pairs) as [H1 H2 H3]. set (tally := tally_of display w c' pairs no_tally) in *.
  eexists _, _. split; [reflexivity|]. cbv zeta.
  assert (B : forall chain rule, chain ∈ chains /\ acts display w c' chain rule <->
            (chain, rule) ∈ pairs /\ active display w c' chain rule = true)
    by (intros; symmetry; apply pairs_acts).
  assert (Bex : acting tally <> [] <-> exists chain rule, chain ∈ chains /\ acts display w c' chain rule).
  { split.
    - intros Hne. destruct (acting tally) as [|a l] eqn:E; [done|].
      exists (a_chain a), (a_rule a). apply B. apply H1. rewrite ?E. apply list_elem_of_here.
    - intros (chain & rule & [Hp Ha]%B) Hnil. destruct (H2 _ Hp Ha) as (a & Hin & _).
      rewrite Hnil in Hin. by apply elem_of_nil in Hin. }
  assert (F : override_forbidden tally = false <->
            forall chain rule, chain ∈ chains /\ acts display w c' chain rule -> Rule.override_allowed rule = true).
  { rewrite H3. rewrite <- not_true_iff_false, existsb_exists. split.
    - intros Hno chain rule [Hp Ha]%B. destruct (H2 _ Hp Ha) as (a & Hin & Hid). cbn in Hid.
      assert (E : a_rule a = rule).
      { destruct (H1 a Hin) as [Hpa _]. apply elem_of_pairs in Hpa as [_ Hpa]. apply elem_of_pairs in Hp as [_ Hp].
        apply effective_in_table in Hpa as [i Hi]; [|done]. apply effective_in_table in Hp as [j Hj]; [|done].
        rewrite (Hk i _ Hi), (Hk j _ Hj) in Hid. rewrite Hid in Hi. congruence. }
      subst rule. destruct (Rule.override_allowed (a_rule a)) eqn:O; [done|]. destruct Hno. exists a.
      split; [by apply list_elem_of_In|by rewrite O].
    - intros Hall (a & Hin%list_elem_of_In & Ho). apply negb_true_iff in Ho.
      assert (Ht : Rule.override_allowed (a_rule a) = true) by (eapply Hall, B, H1; exact Hin). congruence. }
  rewrite <- Bex, <- F. unfold decide_tally, blocked_decision. fold c'. fold pairs. fold tally.
  destruct (acting tally) as [|first l] eqn:E.
  - assert (D : forall d, (d = match warnings tally with [] => Allowed | ws => Warning ws end) ->
        d = Allowed \/ exists ws, d = Warning ws).
    { intros d ->. destruct (warnings tally); [by left|by right; eexists]. }
    specialize (D _ eq_refl). split; [|split].
    + split; [intros (m & det & Hd); rewrite Hd in D; by destruct D as [|[? ?]]|by intros [[] _]].
    + split; [intros (o & ws & r & Hd); rewrite Hd in D; by destruct D as [|[? ?]]|by intros [[] _]].
    + split; [by intros _ []|by intros _].
  - assert (N : first :: l <> []) by done.
    destruct (force ov), (given_reason ov) as [r|], (override_forbidden tally);
      (split; [|split]); (split; [intros H; (try (by destruct H as [|(? & ?)])); (try (by destruct H as (? & ? & ?));
        try (by destruct H as (? & ? & ? & ?))); (split; [done|]); naive_solver|]);
      intros H; try (by destruct (H N)); destruct H as [_ H]; naive_solver.
Qed.

(** C37: a work-in-progress limit holds.  When a check passes untouched, every
    required limit in force on its chains that matches leaves a free slot: the
    tasks of the rule's scope that will be in progress once the batch lands --
    the persisted ones the batch does not move, and the ones it starts -- without
    the task being started itself, are fewer than the limit. *)
Theorem wip_limit_respected display w c ov chains decision observations chain rule limit :
  (forall i r, TaskRepo.rows (tasks w) !! i = Some r -> Task.id (TaskRow.task r) = i) ->
  scope_chains w (resolved w c) = Ok chains ->
  check_observed display w c ov = Ok (decision, observations) ->
  (decision = Allowed \/ exists ws, decision = Warning ws) ->
  chain ∈ chains -> rule ∈ RuleRepo.effective_rules (rules w) chain (map_trigger (trigger (resolved w c))) ->
  Rule.mode rule = Required -> Rule.requirement rule = WipLimit limit ->
  condition_matches (Rule.condition rule) (resolved w c) = true ->
  exists held, NoDup held /\ (forall x, x ∈ held <-> holds_slot w (Rule.scope rule) (resolved w c) x) /\
    (Z.of_nat (length held) < limit)%Z.
Proof.
  intros Ht Hc Hd Hpass Hchain Hrule Hm Hr Hcond. set (c' := resolved w c) in *.
  destruct (wip_occupied_spec w (Rule.scope rule) c' Ht) as [Hn Hx].
  exists (wip_occupied w (Rule.scope rule) c'). split; [done|]. split; [done|].
  destruct (Z.ltb_spec (Z.of_nat (length (wip_occupied w (Rule.scope rule) c'))) limit) as [|Hge]; [done|]. exfalso.
  assert (Ha : (chain, rule) ∈ pairs_of w c' chains /\ active display w c' chain rule = true).
  { apply pairs_acts. split; [done|]. split; [done|]. split; [done|]. split; [done|].
    unfold judge. rewrite Hr. cbn. by apply Z.ltb_ge. }
  destruct Ha as [Hp Ha]. unfold check_observed in Hd. fold c' in Hd. rewrite Hc in Hd. cbn [rbind] in Hd.
  rewrite tally_pairs in Hd. destruct (tallied_all display w c' (pairs_of w c' chains)) as [_ H2 _].
  destruct (H2 _ Hp Ha) as (a & Hin & _). injection Hd as Hd _. unfold decide_tally in Hd.
  destruct (acting _) as [|first l]; [by apply elem_of_nil in Hin|].
  assert (N : decision <> Allowed /\ forall ws, decision <> Warning ws).
  { rewrite <- Hd. unfold blocked_decision. by repeat case_match. }
  destruct N as [N1 N2]. by destruct Hpass as [|[ws ?]]; [|eapply N2].
Qed.

(** The walk from a plan to its root always ends.  It returns the plans from
    the root down to the plan itself, following parents staged by the batch
    first, exactly when there is such a lineage; otherwise a plan above is its
    own ancestor, and the walk fails with a conflict rather than looping. *)
Theorem plan_ancestry_terminates w plan staged :
  (exists l, plan_ancestry w plan staged = Ok (rev l) /\ lineage (parent_of w staged) plan l) \/
  (plan_ancestry w plan staged = Err (Conflict "cyclic plan scope ancestry at plan {parent}") /\
   exists q, rtc (climbs (parent_of w staged)) plan q /\ tc (climbs (parent_of w staged)) q q).
Proof.
  unfold plan_ancestry.
  destruct (climb_spec w staged (ancestry_fuel w staged) [plan] plan) as [(l & -> & Hl)|[-> Hc]].
  - exists []. split; [done|]. split; [apply NoDup_singleton|]. split; [done|].
    by intros p ->%list_elem_of_singleton.
  - unfold ancestry_fuel. pose proof (known_size w staged). cbn. lia.
  - left. exists l. split; [|done]. cbn. f_equal. by inversion Hl; subst.
  - by right.
Qed.
End Properties.

(** A task of project 1 is started under the workspace rules of [guarded], and
    under a limit of one task in progress. *)
Definition demo_world (rules : RuleTable) : RuleEngine.World :=
  RuleEngine.mkWorld rules ∅ [] TaskRepo.empty PlanRepo.empty RunRepo.empty ∅.
Definition demo_check : LifecycleGate.GateCheck :=
  LifecycleGate.new LifecycleGate.TaskBeforeStart <| LifecycleGate.project_id := Some (mkId 1) |>
    <| LifecycleGate.task_id := Some (mkId 2) |> <| LifecycleGate.task_title := Some (lit "t") |>
    <| LifecycleGate.pending_statuses := [(mkId 2, InProgress)] |>.
Definition one_at_a_time : Rule :=
  demo_rule 10 ScopeTenant Required false <| Rule.requirement := WipLimit 1 |>.
Definition no_display (_ : N) : Str := [].

Lemma guarded_rows i r :
  guarded !! i = Some r ->
  (i = mkId 10 /\ r = demo_rule 10 ScopeTenant Required false) \/
  (i = mkId 11 /\ r = demo_rule 11 (ScopeTask (mkId 2)) Off false).
Proof.
  unfold guarded, demo_rules. cbn.
  intros [[<- <-]|[_ [[<- <-]|[_ H]]%lookup_insert_Some]]%lookup_insert_Some; [by left|by right|].
  by rewrite lookup_empty in H.
Qed.

Lemma gate_decision_exact_witness :
  RuleEngine.scope_chains (demo_world guarded) demo_check = Ok [demo_chain] /\
  (match RuleEngine.check_observed no_display (demo_world guarded) demo_check LifecycleGate.no_override with
   | Ok (LifecycleGate.Blocked _ _, _) => true | _ => false end) = true /\
  exists decision observations,
    RuleEngine.check_observed no_display (demo_world guarded) demo_check LifecycleGate.no_override
      = Ok (decision, observations) /\
    ((exists m d, decision = LifecycleGate.Blocked m d) ->
     exists chain rule, chain ∈ [demo_chain] /\
       EngineSpec.acts no_display (demo_world guarded) demo_check chain rule).
Proof.
  split; [vm_compute; reflexivity|]. split; [vm_compute; reflexivity|].
  destruct (gate_decision_exact no_display (demo_world guarded) demo_check LifecycleGate.no_override [demo_chain])
    as (d & obs & Hd & H & _).
  - by intros i r [[-> ->]|[-> ->]]%guarded_rows.
  - by intros i j a b [[-> ->]|[-> ->]]%guarded_rows [[-> ->]|[-> ->]]%guarded_rows Hs _.
  - vm_compute. reflexivity.
  - exists d, obs. split; [exact Hd|]. intros Hb. exact (proj1 (proj1 H Hb)).
Defined.

Lemma wip_limit_respected_witness :
  RuleEngine.check_observed no_display (demo_world (demo_rules [one_at_a_time])) demo_check LifecycleGate.no_override
    = Ok (LifecycleGate.Allowed, []) /\
  exists held, NoDup held /\ (Z.of_nat (length held) < 1)%Z /\ forall x, x ∈ held <->
    EngineSpec.holds_slot (demo_world (demo_rules [one_at_a_time])) ScopeTenant demo_check x.
Proof.
  split; [vm_compute; reflexivity|].
  destruct (wip_limit_respected no_display (demo_world (demo_rules [one_at_a_time])) demo_check
    LifecycleGate.no_override [demo_chain] LifecycleGate.Allowed [] demo_chain one_at_a_time 1) as (held & H1 & H2 & H3).
  - intros i r. cbn. by rewrite lookup_empty.
  - vm_compute. reflexivity.
  - vm_compute. reflexivity.
  - by left.
  - apply list_elem_of_here.
  - vm_compute. apply list_elem_of_here.
  - reflexivity.
  - reflexivity.
  - reflexivity.
  - exists held. split; [exact H1|]. split; [exact H3|exact H2].
Defined.
