(* ===== verification/WorkStore.v ===== *)
(** * storage: comments, run notes, sessions, work units, handoffs, settings

    The smaller projections of the handler: [comment_repo.rs],
    [run_note_repo.rs], [session_repo.rs], [project_settings_repo.rs],
    [handoff_repo.rs] and [work_unit_repo.rs] with the atomic claim behind the
    work-unit drain. *)

From S2P Require Import Prelude Shared TaskModel PlanModel RegistryModel Events TaskStore.

(** ** Comments *)
Module CommentRepo.
Abbreviation CommentTable := (gmap CommentId Comment).

Definition get (t : CommentTable) (id : CommentId) : option Comment := t !! id.
Definition rows (t : CommentTable) : list Comment := (map_to_list t).*2.
Definition by_created (a b : Comment) : bool := (Comment.created_at a <=? Comment.created_at b)%Z.
Definition list_for_task (t : CommentTable) (task : TaskId) : list Comment :=
  sort_by by_created
    (List.filter (fun c => bool_decide (Comment.task_id c = task) && bool_decide (Comment.deleted_at c = None))
       (rows t)).
Definition list_all (t : CommentTable) : list Comment := sort_by by_created (rows t).

Definition apply_patch (body : option Str) (edited_at : Z) (c : Comment) : Comment :=
  c <| Comment.body := default (Comment.body c) body |> <| Comment.edited_at := Some edited_at |>.

Definition apply_event (t : CommentTable) (e : EventEnvelope) : CommentTable :=
  match Envelope.payload e with
  | Event.CommentAdded c => <[Comment.id c := c]> t
  | Event.CommentEdited id _ body at_ => alter (apply_patch body at_) id t
  | Event.CommentDeleted id _ at_ => alter (fun c => c <| Comment.deleted_at := Some at_ |>) id t
  | _ => t
  end.
End CommentRepo.
Abbreviation CommentTable := CommentRepo.CommentTable.

(** ** Run notes *)
Module RunNoteRepo.
Abbreviation NoteTable := (gmap RunNoteId RunNote).

Definition get (t : NoteTable) (id : RunNoteId) : option RunNote := t !! id.
(** [ORDER BY created_at ASC, id ASC]. *)
Definition note_le (a b : RunNote) : bool :=
  (rn_created_at a <? rn_created_at b)%Z
  || ((rn_created_at a =? rn_created_at b)%Z && (as_uuid (rn_id a) <=? as_uuid (rn_id b))%N).
Definition notes_of (t : NoteTable) (run : RunId) : list RunNote :=
  sort_by note_le (List.filter (fun n => bool_decide (rn_run_id n = run)) (map_to_list t).*2).
(** [limit.clamp(1, 500)]. *)
Definition page_size (limit : nat) : nat := Nat.min (Nat.max limit 1) 500.
(** The rows strictly after the cursor; an unknown cursor gives no page. *)
Definition list_for_run (t : NoteTable) (run : RunId) (limit : nat) (after : option RunNoteId) : list RunNote :=
  match after with
  | None => take (page_size limit) (notes_of t run)
  | Some id =>
      match List.filter (fun n => bool_decide (rn_id n = id)) (notes_of t run) with
      | cursor :: _ =>
          take (page_size limit) (List.filter (fun n => negb (note_le n cursor)) (notes_of t run))
      | [] => []
      end
  end.

Definition upsert (t : NoteTable) (n : RunNote) : NoteTable := <[rn_id n := n]> t.
Definition apply_event (t : NoteTable) (e : EventEnvelope) : NoteTable :=
  match Envelope.payload e with
  | Event.RunNoteAppended run id body by_ at_ => upsert t (mkRunNote id run body by_ at_)
  | _ => t
  end.
End RunNoteRepo.
Abbreviation NoteTable := RunNoteRepo.NoteTable.

(** ** Agent sessions *)
Module SessionRepo.
Record SessionTables : Type := mk {
  sessions : gmap AgentSessionId AgentSession;
  artifacts : gmap SessionArtifactId SessionArtifact }.
#[global] Instance SessionTables_rebuild : Rebuild SessionTables := fun t => mk (sessions t) (artifacts t).
Definition empty : SessionTables := mk ∅ ∅.

Definition get (t : SessionTables) (id : AgentSessionId) : option AgentSession := sessions t !! id.
Definition by_started (a b : AgentSession) : bool := (as_started_at a <=? as_started_at b)%Z.
Definition list_for_agent (t : SessionTables) (agent : AgentId) : list AgentSession :=
  sort_by by_started (List.filter (fun s => bool_decide (as_agent_id s = agent)) (map_to_list (sessions t)).*2).
Definition list_active (t : SessionTables) : list AgentSession :=
  sort_by by_started (List.filter (fun s => bool_decide (as_ended_at s = None)) (map_to_list (sessions t)).*2).

Definition set_ended (at_ : Z) (s : AgentSession) : AgentSession :=
  mkAgentSession (as_id s) (as_agent_id s) (as_parent_agent_id s) (as_started_at s) (Some at_)
    (as_plan_steps s) (as_metadata s).
Definition set_steps (steps : list AgentSessionPlanStep) (s : AgentSession) : AgentSession :=
  mkAgentSession (as_id s) (as_agent_id s) (as_parent_agent_id s) (as_started_at s) (as_ended_at s)
    steps (as_metadata s).
Definition end_ (t : SessionTables) (id : AgentSessionId) (at_ : Z) : SessionTables :=
  t <| sessions := alter (set_ended at_) id (sessions t) |>.
Definition update_plan_steps (t : SessionTables) (id : AgentSessionId) (steps : list AgentSessionPlanStep)
  : SessionTables := t <| sessions := alter (set_steps steps) id (sessions t) |>.
Definition upsert_session (t : SessionTables) (s : AgentSession) : SessionTables :=
  t <| sessions := <[as_id s := s]> (sessions t) |>.
Definition upsert_artifact (t : SessionTables) (a : SessionArtifact) : SessionTables :=
  t <| artifacts := <[sa_id a := a]> (artifacts t) |>.

Definition apply_event (t : SessionTables) (e : EventEnvelope) : SessionTables :=
  match Envelope.payload e with
  | Event.AgentSessionStarted s => upsert_session t s
  | Event.AgentSessionEnded id at_ => end_ t id at_
  | Event.AgentSessionPlanUpdated id steps => update_plan_steps t id steps
  | Event.SessionArtifactAttached a => upsert_artifact t a
  | _ => t
  end.
End SessionRepo.
Abbreviation SessionTables := SessionRepo.SessionTables.

(** ** Project settings *)
Module ProjectSettingsRepo.
Record SettingsTables : Type := mk {
  auto_append_rows : gmap ProjectId AutoAppendSettings;
  intake_rows : gmap ProjectId IntakeSourcePolicy;
  audit_rows : gmap ProjectId Json }.
#[global] Instance SettingsTables_rebuild : Rebuild SettingsTables := fun t =>
  mk (auto_append_rows t) (intake_rows t) (audit_rows t).
Definition empty : SettingsTables := mk ∅ ∅ ∅.

(** No stored row means both logs on. *)
Definition auto_append (t : SettingsTables) (p : ProjectId) : AutoAppendSettings :=
  default auto_append_default (auto_append_rows t !! p).
Definition intake_source (t : SettingsTables) (p : ProjectId) : option IntakeSourcePolicy := intake_rows t !! p.
Definition audit (t : SettingsTables) (p : ProjectId) : option Json := audit_rows t !! p.

(** Keep, delete or replace. *)
Definition apply_optional_key {A} (p : ProjectId) (patch : option (option A)) (m : gmap ProjectId A)
  : gmap ProjectId A :=
  match patch with
  | None => m
  | Some None => delete p m
  | Some (Some v) => <[p := v]> m
  end.
Definition apply_event (t : SettingsTables) (e : EventEnvelope) : SettingsTables :=
  match Envelope.payload e with
  | Event.ProjectSettingsChanged p aa _ intake audit_patch =>
      mk (<[p := aa]> (auto_append_rows t)) (apply_optional_key p intake (intake_rows t))
         (apply_optional_key p audit_patch (audit_rows t))
  | _ => t
  end.
End ProjectSettingsRepo.
Abbreviation SettingsTables := ProjectSettingsRepo.SettingsTables.

(** ** Handoff contracts *)
Module HandoffRepo.
Abbreviation HandoffTable := (gmap HandoffId HandoffContract).

Definition get (t : HandoffTable) (id : HandoffId) : option HandoffContract := t !! id.
Definition rows (t : HandoffTable) : list HandoffContract := (map_to_list t).*2.
Definition of_pair (from to : WorkUnitId) (h : HandoffContract) : bool :=
  bool_decide (Handoff.from_work_unit_id h = from) && bool_decide (Handoff.to_work_unit_id h = to).
Definition get_by_pair (t : HandoffTable) (from to : WorkUnitId) : option HandoffContract :=
  head (List.filter (of_pair from to) (rows t)).
(** [ORDER BY updated_at DESC, id]. *)
Definition newest_first (a b : HandoffContract) : bool :=
  (Handoff.updated_at b <? Handoff.updated_at a)%Z
  || ((Handoff.updated_at a =? Handoff.updated_at b)%Z
      && (as_uuid (Handoff.id a) <=? as_uuid (Handoff.id b))%N).
Definition list_for_work_unit (t : HandoffTable) (id : WorkUnitId) : list HandoffContract :=
  sort_by newest_first
    (List.filter (fun h => bool_decide (Handoff.from_work_unit_id h = id)
                           || bool_decide (Handoff.to_work_unit_id h = id)) (rows t)).

(** [ON CONFLICT(id)] keeps the pair and the creation time; another contract of
    the same pair violates [UNIQUE(from, to)]. *)
Definition upsert (t : HandoffTable) (h : HandoffContract) : Result CoreError HandoffTable :=
  let next := match get t (Handoff.id h) with
              | Some old => h <| Handoff.from_work_unit_id := Handoff.from_work_unit_id old |>
                              <| Handoff.to_work_unit_id := Handoff.to_work_unit_id old |>
                              <| Handoff.created_at := Handoff.created_at old |>
              | None => h
              end in
  if existsb (fun x => of_pair (Handoff.from_work_unit_id next) (Handoff.to_work_unit_id next) x
                       && negb (bool_decide (Handoff.id x = Handoff.id next))) (rows t)
  then Err (Storage "UNIQUE constraint failed: handoff_contracts")
  else Ok (<[Handoff.id next := next]> t).

Definition apply_event (t : HandoffTable) (e : EventEnvelope) : Result CoreError HandoffTable :=
  match Envelope.payload e with
  | Event.HandoffRequested h => upsert t h
  | Event.HandoffAccepted id by_ notes _ at_ =>
      Ok (alter (fun h => h <| Handoff.status := HoAccepted |> <| Handoff.accepted_by_agent_id := by_ |>
                            <| Handoff.notes := notes |> <| Handoff.required_changes := [] |>
                            <| Handoff.updated_at := at_ |>) id t)
  | Event.HandoffRejected id reason changes _ at_ =>
      Ok (alter (fun h => h <| Handoff.status := HoRejected |> <| Handoff.notes := Some reason |>
                            <| Handoff.required_changes := changes |> <| Handoff.updated_at := at_ |>) id t)
  | _ => Ok t
  end.
End HandoffRepo.
Abbreviation HandoffTable := HandoffRepo.HandoffTable.

(** ** Work units

    The audit columns [completed_by] and [elapsed_ms] are written for mining
    only and not part of the row read back. *)
Module WorkUnitRepo.
Abbreviation UnitTable := (gmap WorkUnitId WorkUnit).

Definition get (t : UnitTable) (id : WorkUnitId) : option WorkUnit := t !! id.
Definition rows (t : UnitTable) : list WorkUnit := (map_to_list t).*2.
Definition by_created (a b : WorkUnit) : bool := (WorkUnit.created_at a <=? WorkUnit.created_at b)%Z.
Definition list_by_task (t : UnitTable) (task : TaskId) : list WorkUnit :=
  sort_by by_created (List.filter (fun u => bool_decide (WorkUnit.task_id u = task)) (rows t)).
Definition list_by_project (t : UnitTable) (tasks : TaskTable) (project : ProjectId)
    (status : option WorkUnitStatus) : list WorkUnit :=
  sort_by by_created
    (List.filter (fun u =>
       match TaskRepo.get tasks (WorkUnit.task_id u) with
       | Some x => bool_decide (Task.project_id x = Some project)
       | None => false
       end && match status with Some s => bool_decide (WorkUnit.status u = s) | None => true end) (rows t)).

(** [status IN ('todo','ready')] and no live claim of another agent. *)
Definition claimable (agent : AgentId) (now : Z) (u : WorkUnit) : bool :=
  WorkUnit.is_dispatchable (WorkUnit.status u)
  && match WorkUnit.owner_agent_id u with
     | None => true
     | Some o => bool_decide (o = agent)
                 || match WorkUnit.claim_expires_at u with Some x => (x <? now)%Z | None => true end
     end.
(** [NOT EXISTS] a handoff to the unit that is not accepted. *)
Definition handed_over (h : HandoffTable) (id : WorkUnitId) : bool :=
  negb (existsb (fun c => bool_decide (Handoff.to_work_unit_id c = id)
                          && Handoff.blocks_dispatch (Handoff.status c)) (HandoffRepo.rows h)).

Section Claim.
(** The best capability score of an agent for a unit is a floating-point number;
    only its order matters here. *)
Context (prefer : AgentId -> WorkUnit -> WorkUnit -> comparison).

(** [ORDER BY score DESC, created_at]. *)
Definition claim_order (agent : AgentId) (a b : WorkUnit) : bool :=
  match prefer agent a b with
  | Lt => false
  | Eq => by_created a b
  | Gt => true
  end.
Definition candidates (t : UnitTable) (h : HandoffTable) (task : TaskId) (agent : AgentId) (now : Z)
  : list WorkUnit :=
  sort_by (claim_order agent)
    (List.filter (fun u => bool_decide (WorkUnit.task_id u = task) && claimable agent now u
                           && handed_over h (WorkUnit.id u)) (rows t)).

Definition try_claim_next (t : UnitTable) (h : HandoffTable) (task : TaskId) (agent : AgentId) (now ttl : Z)
  : option WorkUnit * UnitTable :=
  match candidates t h task agent now with
  | [] => (None, t)
  | u :: _ =>
      let u' := u <| WorkUnit.owner_agent_id := Some agent |> <| WorkUnit.claim_expires_at := Some (now + ttl)%Z |>
                  <| WorkUnit.status := WuInProgress |> <| WorkUnit.updated_at := now |> in
      (Some u', <[WorkUnit.id u := u']> t)
  end.
End Claim.

Definition revert_claim (t : UnitTable) (id : WorkUnitId) (agent : AgentId) (now : Z) : UnitTable :=
  alter (fun u => if bool_decide (WorkUnit.owner_agent_id u = Some agent)
                  then u <| WorkUnit.owner_agent_id := None |> <| WorkUnit.claim_expires_at := None |>
                         <| WorkUnit.status := WuReady |> <| WorkUnit.updated_at := now |>
                  else u) id t.

Definition update_fields (t : UnitTable) (id : WorkUnitId) (at_ : Z) (f : WorkUnit -> WorkUnit) : UnitTable :=
  alter (fun u => f u <| WorkUnit.updated_at := at_ |>) id t.
Definition unowned (u : WorkUnit) : WorkUnit :=
  u <| WorkUnit.owner_agent_id := None |> <| WorkUnit.claim_expires_at := None |>.

Definition apply_event (t : UnitTable) (e : EventEnvelope) : UnitTable :=
  let at_ := Envelope.occurred_at e in
  match Envelope.payload e with
  | Event.WorkUnitCreated u => <[WorkUnit.id u := u]> t
  | Event.WorkUnitClaimed id agent expires =>
      update_fields t id at_ (fun u => u <| WorkUnit.owner_agent_id := Some agent |>
        <| WorkUnit.claim_expires_at := Some expires |> <| WorkUnit.status := WuInProgress |>)
  | Event.WorkUnitStarted id _ => update_fields t id at_ (fun u => u <| WorkUnit.status := WuInProgress |>)
  | Event.WorkUnitBlocked id _ _ => update_fields t id at_ (fun u => u <| WorkUnit.status := WuBlocked |>)
  | Event.WorkUnitCompleted id _ _ _ _ _ _ =>
      update_fields t id at_ (fun u => unowned u <| WorkUnit.status := WuDone |>)
  | Event.WorkUnitReleased id _ =>
      update_fields t id at_ (fun u => unowned u <| WorkUnit.status :=
        if bool_decide (WorkUnit.status u = WuInProgress) then WuReady else WorkUnit.status u |>)
  | _ => t
  end.
End WorkUnitRepo.
Abbreviation UnitTable := WorkUnitRepo.UnitTable.

(** ** Specification *)
Module UnitSpec.
  Import WorkUnitRepo.

Definition units_keyed (t : UnitTable) : Prop := map_Forall (fun i u => WorkUnit.id u = i) t.

(** A unit an agent may take now. *)
Definition free (h : HandoffTable) (task : TaskId) (agent : AgentId) (now : Z) (u : WorkUnit) : Prop :=
  WorkUnit.task_id u = task /\ WorkUnit.is_dispatchable (WorkUnit.status u) = true /\
  (forall o, WorkUnit.owner_agent_id u = Some o -> o <> agent ->
     forall x, WorkUnit.claim_expires_at u = Some x -> (x < now)%Z) /\
  (forall i c, h !! i = Some c -> Handoff.to_work_unit_id c = WorkUnit.id u -> Handoff.status c = HoAccepted).

(** What can happen to the units: claims, reverted claims and events. *)
Inductive UnitOp : Type :=
| OpClaim (h : HandoffTable) (task : TaskId) (agent : AgentId) (now ttl : Z)
| OpRevert (id : WorkUnitId) (agent : AgentId) (now : Z)
| OpEvent (e : EventEnvelope).
Definition unit_step (prefer : AgentId -> WorkUnit -> WorkUnit -> comparison) (t : UnitTable) (op : UnitOp)
  : UnitTable :=
  match op with
  | OpClaim h task agent now ttl => (try_claim_next prefer t h task agent now ttl).2
  | OpRevert id agent now => revert_claim t id agent now
  | OpEvent e => apply_event t e
  end.
(** The operations that make a unit available again. *)
Definition frees (id : WorkUnitId) (op : UnitOp) : bool :=
  match op with
  | OpClaim _ _ _ _ _ => false
  | OpRevert i _ _ => bool_decide (i = id)
  | OpEvent e =>
      match Envelope.payload e with
      | Event.WorkUnitReleased i _ => bool_decide (i = id)
      | Event.WorkUnitCreated u => bool_decide (WorkUnit.id u = id)
      | _ => false
      end
  end.
Definition taken (t : UnitTable) (id : WorkUnitId) : Prop :=
  exists u, t !! id = Some u /\ WorkUnit.is_dispatchable (WorkUnit.status u) = false.
End UnitSpec.

Module UnitFacts.
  Import WorkUnitRepo UnitSpec.

Lemma elem_of_unit_rows t u : u ∈ rows t <-> exists i, t !! i = Some u.
Proof.
  unfold rows. rewrite list_elem_of_fmap. split.
  - intros ([i u'] & -> & H%elem_of_map_to_list). eauto.
  - intros [i H]. exists (i, u). by rewrite elem_of_map_to_list.
Qed.

Lemma handed_over_iff (h : HandoffTable) id :
  handed_over h id = true <->
  forall i c, h !! i = Some c -> Handoff.to_work_unit_id c = id -> Handoff.status c = HoAccepted.
Proof.
  unfold handed_over. rewrite negb_true_iff, <- not_true_iff_false, existsb_exists. split.
  - intros H i c Hi Hto. destruct (Handoff.status c) eqn:E; try done; exfalso; apply H; exists c;
      (split; [apply list_elem_of_In, list_elem_of_fmap; exists (i, c); split; [done|by apply elem_of_map_to_list]|]);
      rewrite E, (bool_decide_eq_true_2 _ Hto); done.
  - intros H (c & Hc & Hb). apply list_elem_of_In, list_elem_of_fmap in Hc as ([i c'] & -> & Hi%elem_of_map_to_list).
    apply andb_prop in Hb as [Hto Hb]. cbn in *. bsplit. by rewrite (H i c' Hi Hto) in Hb.
Qed.

Lemma elem_of_candidates prefer t h task agent now u :
  u ∈ candidates prefer t h task agent now <-> (exists i, t !! i = Some u) /\ free h task agent now u.
Proof.
  unfold candidates, claimable, free.
  rewrite elem_of_sort_by, list_elem_of_In, filter_In, <- list_elem_of_In, elem_of_unit_rows,
    !andb_true_iff, handed_over_iff, bool_decide_eq_true.
  assert (O : (match WorkUnit.owner_agent_id u with
               | None => true
               | Some o => bool_decide (o = agent) ||
                   match WorkUnit.claim_expires_at u with Some x => (x <? now)%Z | None => true end
               end = true) <->
              (forall o, WorkUnit.owner_agent_id u = Some o -> o <> agent ->
                 forall x, WorkUnit.claim_expires_at u = Some x -> (x < now)%Z)).
  { destruct (WorkUnit.owner_agent_id u) as [o|]; [|split; [by intros _ o|done]].
    rewrite orb_true_iff, bool_decide_eq_true. destruct (WorkUnit.claim_expires_at u) as [x|].
    - rewrite Z.ltb_lt. destruct (decide (o = agent)); naive_solver.
    - split; [by intros _ o' _ _ x|by right]. }
  rewrite O. tauto.
Qed.

Lemma unit_keyed prefer t op : units_keyed t -> units_keyed (unit_step prefer t op).
Proof.
  intros Hk. assert (A : forall (f : WorkUnit -> WorkUnit) i, (forall u, WorkUnit.id (f u) = WorkUnit.id u) ->
    units_keyed (alter f i t)).
  { intros f i Hf j u [(-> & x & Hx & ->)|[_ Hu]]%lookup_alter_Some; [rewrite Hf|]; by apply Hk. }
  assert (I : forall u, units_keyed (<[WorkUnit.id u := u]> t)).
  { intros u j x [[<- <-]|[_ Hx]]%lookup_insert_Some; [done|by apply Hk]. }
  destruct op as [h task agent now ttl|id agent now|e]; cbn.
  - unfold try_claim_next. destruct (candidates _ _ _ _ _ _) as [|u l]; [done|].
    match goal with |- units_keyed (snd (_, <[_ := ?x]> t)) => exact (I x) end.
  - apply A. intros u. by case_bool_decide.
  - unfold apply_event, update_fields. destruct (Envelope.payload e); try done; first [by apply A|exact (I _)].
Qed.

Lemma taken_step prefer t id op :
  units_keyed t -> taken t id -> frees id op = false -> taken (unit_step prefer t op) id.
Proof.
  intros Hk (u & Hu & Hd) Hf.
  assert (A : forall (f : WorkUnit -> WorkUnit) i,
    (WorkUnit.is_dispatchable (WorkUnit.status u) = false ->
     WorkUnit.is_dispatchable (WorkUnit.status (f u)) = false) -> taken (alter f i t) id).
  { intros f i Hfu. destruct (decide (i = id)) as [->|].
    - exists (f u). by rewrite lookup_alter_eq, Hu; auto.
    - exists u. by rewrite lookup_alter_ne. }
  destruct op as [h task agent now ttl|i agent now|e]; cbn in Hf |- *.
  - unfold try_claim_next. destruct (candidates _ _ _ _ _ _) as [|x l]; [by exists u|]. cbn.
    destruct (decide (WorkUnit.id x = id)) as [E|].
    + eexists. rewrite E, lookup_insert_eq. done.
    + exists u. by rewrite lookup_insert_ne.
  - bsplit. exists u. split; [|done]. unfold revert_claim. by rewrite lookup_alter_ne.
  - unfold apply_event, update_fields. destruct (Envelope.payload e); try (by exists u); try (by apply A).
    + bsplit. exists u. split; [|done]. by rewrite lookup_insert_ne.
    + bsplit. exists u. split; [|done]. by rewrite lookup_alter_ne.
Qed.

Lemma taken_steps prefer t id ops :
  units_keyed t -> taken t id -> forallb (fun op => negb (frees id op)) ops = true ->
  taken (foldl (unit_step prefer) t ops) id.
Proof.
  revert t. induction ops as [|op ops IH]; intros t Hk Ht; cbn; [done|]. intros [H1 H2]%andb_prop. bsplit.
  apply IH; [by apply unit_keyed|by apply taken_step|done].
Qed.
End UnitFacts.

Section UnitProperty.
  Import WorkUnitRepo UnitSpec UnitFacts.

(** Draining work units.  A claim hands out a unit of the task that was free
    for the agent -- still to do, not under a live claim of somebody else, with
    every handoff to it accepted -- and records the agent as its owner, touching
    no other unit; it hands out nothing only when no unit is free.  Whatever
    happens afterwards, the unit is not handed out again, to anyone, before it is
    released, reverted or created anew. *)
Theorem work_unit_claims_are_exclusive prefer t h task agent now ttl :
  units_keyed t ->
  match try_claim_next prefer t h task agent now ttl with
  | (None, t') => t' = t /\ forall i u, t !! i = Some u -> ~ free h task agent now u
  | (Some u', t') =>
      exists u, t !! WorkUnit.id u' = Some u /\ free h task agent now u /\
        u' = u <| WorkUnit.owner_agent_id := Some agent |> <| WorkUnit.claim_expires_at := Some (now + ttl)%Z |>
               <| WorkUnit.status := WuInProgress |> <| WorkUnit.updated_at := now |> /\
        t' = <[WorkUnit.id u' := u']> t /\
        forall ops h2 task2 agent2 now2 ttl2 again,
          forallb (fun op => negb (frees (WorkUnit.id u') op)) ops = true ->
          (try_claim_next prefer (foldl (unit_step prefer) t' ops) h2 task2 agent2 now2 ttl2).1 = Some again ->
          WorkUnit.id again <> WorkUnit.id u'
  end.
Proof.
  intros Hk. pose proof (unit_keyed prefer t (OpClaim h task agent now ttl) Hk) as Hk'. cbn in Hk'.
  unfold try_claim_next in *. destruct (candidates prefer t h task agent now) as [|u l] eqn:C.
  - split; [done|]. intros i u Hi Hf. assert (Hin : u ∈ []); [|by apply elem_of_nil in Hin].
    rewrite <- C. apply elem_of_candidates. eauto.
  - assert (Hin : u ∈ candidates prefer t h task agent now) by (rewrite C; apply list_elem_of_here).
    apply elem_of_candidates in Hin as [[i Hi] Hfree]. exists u. cbn in Hk' |- *.
    split; [by rewrite (Hk i u Hi)|]. split; [done|]. split; [done|]. split; [done|].
    intros ops h2 task2 agent2 now2 ttl2 again Hops Hagain Heq.
    set (t' := <[WorkUnit.id u := _]> t) in *.
    assert (Ht : taken (foldl (unit_step prefer) t' ops) (WorkUnit.id u)).
    { apply taken_steps; [done| |done]. eexists. split; [apply lookup_insert_eq|done]. }
    destruct Ht as (x & Hx & Hd).
    destruct (candidates prefer (foldl (unit_step prefer) t' ops) h2 task2 agent2 now2) as [|y l'] eqn:C2; [done|].
    injection Hagain as <-. cbn in Heq.
    assert (Hy : y ∈ candidates prefer (foldl (unit_step prefer) t' ops) h2 task2 agent2 now2)
      by (rewrite C2; apply list_elem_of_here).
    apply elem_of_candidates in Hy as [[j Hj] (_ & Hyd & _)].
    assert (Hks : units_keyed (foldl (unit_step prefer) t' ops)).
    { clear -Hk'. revert Hk'. generalize t'. induction ops as [|op ops IH]; intros t1 H; [done|]. by apply IH, unit_keyed. }
    rewrite <- (Hks j y Hj), Heq, Hx in Hj. injection Hj as ->. congruence.
Qed.
End UnitProperty.

Definition demo_unit (n : N) : WorkUnit :=
  WorkUnit.mk (mkId n) (mkId 1) None [n] [] WuTodo priority_default [] None None [] [] (Z.of_N n) 0.
Definition demo_units : UnitTable := list_to_map (map (fun u => (WorkUnit.id u, u)) [demo_unit 1; demo_unit 2]).
Definition no_preference (_ : AgentId) (_ _ : WorkUnit) : comparison := Eq.

Lemma work_unit_claims_are_exclusive_witness :
  WorkUnit.id <$> (WorkUnitRepo.try_claim_next no_preference demo_units ∅ (mkId 1) (mkId 7) 10 5).1
    = Some (mkId 1) /\
  forall again, (WorkUnitRepo.try_claim_next no_preference
      (WorkUnitRepo.try_claim_next no_preference demo_units ∅ (mkId 1) (mkId 7) 10 5).2
      ∅ (mkId 1) (mkId 8) 99 5).1 = Some again -> WorkUnit.id again <> mkId 1.
Proof.
  split; [vm_compute; reflexivity|].
  assert (K : UnitSpec.units_keyed demo_units).
  { intros i u. unfold demo_units. cbn.
    intros [[<- <-]|[_ [[<- <-]|[_ H]]%lookup_insert_Some]]%lookup_insert_Some; [done|done|].
    by rewrite lookup_empty in H. }
  pose proof (work_unit_claims_are_exclusive no_preference demo_units ∅ (mkId 1) (mkId 7) 10 5 K) as H.
  assert (E : WorkUnit.id <$> (WorkUnitRepo.try_claim_next no_preference demo_units ∅ (mkId 1) (mkId 7) 10 5).1
            = Some (mkId 1)) by (vm_compute; reflexivity).
  destruct (WorkUnitRepo.try_claim_next no_preference demo_units ∅ (mkId 1) (mkId 7) 10 5) as [[u|] t']; [|done].
  cbn in E. assert (E' : WorkUnit.id u = mkId 1) by congruence.
  destruct H as (_ & _ & _ & _ & _ & H). rewrite <- E'. intros again.
  exact (H [] ∅ (mkId 1) (mkId 8) 99%Z 5%Z again eq_refl).
Defined.
