(* ===== verification/ProjectStore.v ===== *)
(** * storage/project_repo.rs and storage/tenant_quota_repo.rs

    Table [projects] (primary key [id], [slug] unique) with its identifier
    aliases, and the quota checks over tenants, projects, tasks and plans. *)

From S2P Require Import Prelude Shared TaskModel PlanModel RegistryModel Events TaskStore PlanStore.

Module ProjectRepo.
Record ProjectTables : Type := mk {
  projects : gmap ProjectId Project;
  aliases : gmap Str ProjectId }.
#[global] Instance ProjectTables_rebuild : Rebuild ProjectTables := fun t =>
  mk (projects t) (aliases t).

Definition empty : ProjectTables := mk ∅ ∅.

Definition get (t : ProjectTables) (id : ProjectId) : option Project := projects t !! id.
Definition rows (t : ProjectTables) : list Project := (map_to_list (projects t)).*2.
Definition by_created (a b : Project) : bool :=
  (Project.created_at a <=? Project.created_at b)%Z.
Definition list_all (t : ProjectTables) : list Project := sort_by by_created (rows t).
Definition list_by_tenant (t : ProjectTables) (tenant : Str) : list Project :=
  sort_by by_created
    (List.filter (fun p => bool_decide (Project.tenant_id p = Some tenant)) (rows t)).

(** A slug names its project before any alias does. *)
Definition find_by_slug (t : ProjectTables) (slug : Str) : option Project :=
  match List.filter (fun p => bool_decide (Project.slug p = slug)) (rows t) with
  | p :: _ => Some p
  | [] => aliases t !! slug ≫= get t
  end.

(** [INSERT OR REPLACE]: a row that holds the slug under another id is
    replaced too.  A missing tenant is stored as the default one. *)
Definition upsert_project (t : ProjectTables) (p : Project) : ProjectTables :=
  let p := p <| Project.tenant_id := Some (default Project.DEFAULT_TENANT_ID (Project.tenant_id p)) |> in
  t <| projects := <[Project.id p := p]>
         (filter (fun '(_, q) => Project.slug q <> Project.slug p) (projects t)) |>.

(** [INSERT OR IGNORE]. *)
Definition insert_alias (t : ProjectTables) (alias : Str) (id : ProjectId) : ProjectTables :=
  match aliases t !! alias with
  | Some _ => t
  | None => t <| aliases := <[alias := id]> (aliases t) |>
  end.

Definition delete (t : ProjectTables) (id : ProjectId) : bool * ProjectTables :=
  (bool_decide (is_Some (get t id)), t <| projects := base.delete id (projects t) |>).

Definition set_triage_enabled (now : Z) (t : ProjectTables) (id : ProjectId) (enabled : bool)
  : option Project * ProjectTables :=
  let t := t <| projects := alter (fun p => p <| Project.triage_enabled := enabled |>
                                              <| Project.updated_at := now |>) id (projects t) |> in
  (get t id, t).

Definition apply_event (t : ProjectTables) (e : EventEnvelope) : ProjectTables :=
  match Envelope.payload e with
  | Event.ProjectCreated p => upsert_project t p
  | Event.ProjectUpdated id title description =>
      match get t id with
      | None => t
      | Some p =>
          let '(t, p) :=
            match title with
            | Some new_title =>
                let t := insert_alias t (Project.slug p) id in
                let t := insert_alias t (Project.slugify_title (Project.title p)) id in
                let t := insert_alias t (Project.slugify_title new_title) id in
                (t, p <| Project.title := new_title |>)
            | None => (t, p)
            end in
          let p := match description with
                   | Some d => p <| Project.description := d |>
                   | None => p
                   end in
          upsert_project t (p <| Project.updated_at := Envelope.occurred_at e |>)
      end
  | Event.ProjectDeleted id => (delete t id).2
  | _ => t
  end.
End ProjectRepo.
Abbreviation ProjectTables := ProjectRepo.ProjectTables.

Module TenantQuotaRepo.
(** The limits of table [tenants]. *)
Record TenantRow : Type := mkTenant {
  max_tasks : option Z;
  max_plans : option Z;
  max_storage_mb : option Z }.
Abbreviation TenantTable := (gmap Str TenantRow).

Definition set_limits (t : TenantTable) (tenant : Str) (tasks plans storage : option Z)
  : TenantTable :=
  alter (fun _ => mkTenant tasks plans storage) tenant t.

Section Checks.
Context (tenants : TenantTable) (projects : ProjectTables).

Definition tenant_for_project (project : option ProjectId) : option Str :=
  match project with
  | None => Some Project.DEFAULT_TENANT_ID
  | Some p => ProjectRepo.get projects p ≫= Project.tenant_id
  end.

Definition tenant_of (project : option ProjectId) : Str :=
  default Project.DEFAULT_TENANT_ID (tenant_for_project project).

Definition in_tenant (tenant : Str) (project : option ProjectId) : bool :=
  match project ≫= ProjectRepo.get projects with
  | Some p => bool_decide (Project.tenant_id p = Some tenant)
  | None => false
  end.

Definition all_tasks (tasks : TaskTable) : list Task := map TaskRow.task (TaskRepo.all_rows tasks).

Definition count_self_hosted_tasks (tasks : TaskTable) : Z :=
  Z.of_nat (length (List.filter (fun x =>
    bool_decide (Task.project_id x = None)
    || in_tenant Project.DEFAULT_TENANT_ID (Task.project_id x)) (all_tasks tasks))).
Definition count_tenant_tasks (tasks : TaskTable) (tenant : Str) : Z :=
  Z.of_nat (length (List.filter (fun x => in_tenant tenant (Task.project_id x))
                                (all_tasks tasks))).
Definition count_tenant_plans (plans : PlanTables) (tenant : Str) : Z :=
  Z.of_nat (length (List.filter (fun p => in_tenant tenant (Some (Plan.project_id p)))
                                (PlanRepo.all_plans plans))).

Definition reject_if_full (resource : string) (limit current : Z) : Result CoreError unit :=
  if (limit <=? current)%Z then Err (QuotaExceeded resource limit current) else Ok tt.

Definition check_task_quota (tasks : TaskTable) (project : option ProjectId)
  : Result CoreError unit :=
  let tenant := tenant_of project in
  match tenants !! tenant ≫= max_tasks with
  | None => Ok tt
  | Some limit =>
      reject_if_full "tasks" limit
        (if bool_decide (tenant = Project.DEFAULT_TENANT_ID) then count_self_hosted_tasks tasks
         else count_tenant_tasks tasks tenant)
  end.

Definition check_plan_quota (plans : PlanTables) (project : ProjectId) : Result CoreError unit :=
  let tenant := tenant_of (Some project) in
  match tenants !! tenant ≫= max_plans with
  | None => Ok tt
  | Some limit => reject_if_full "plans" limit (count_tenant_plans plans tenant)
  end.
End Checks.
End TenantQuotaRepo.
Abbreviation TenantTable := TenantQuotaRepo.TenantTable.
