(* ===== verification/SnapshotStore.v ===== *)
(** * storage/snapshot_repo.rs: bootstrap snapshots

    The state a device replica keeps -- tasks, projects, comments --, its fold
    from the event log in a database of its own ([ProjectionFold]), and table
    [snapshots].  A snapshot promises that every event up to its [seq] is in its
    payload. *)

From S2P Require Import Prelude Shared TaskModel PlanModel RegistryModel Events EventStore TaskStore PlanStore ProjectStore WorkStore.

Module Snapshot.
Record ProjectionSnapshot : Type := mkPayload {
  p_tasks : list Task;
  p_projects : list Project;
  p_comments : list Comment }.

Record Snapshot : Type := mk {
  id : Str;
  seq : Z;
  created_at : Z;
  payload : ProjectionSnapshot;
  cut_version : Z }.

Definition SNAPSHOT_CUT_VERSION : Z := 1.
Definition is_consistent (s : Snapshot) : bool := (cut_version s =? SNAPSHOT_CUT_VERSION)%Z.
End Snapshot.
Abbreviation ProjectionSnapshot := Snapshot.ProjectionSnapshot.
Abbreviation Snapshot := Snapshot.Snapshot.

Module ProjectionFold.
Import Snapshot.

(** The tables of the three projectors. *)
Record Fold : Type := mk {
  tasks : TaskTable;
  projects : ProjectTables;
  comments : CommentTable }.

Definition empty : Fold := mk TaskRepo.empty ProjectRepo.empty ∅.

Definition upsert_comment (t : CommentTable) (c : Comment) : CommentTable := <[Comment.id c := c]> t.
Fixpoint upsert_tasks (t : TaskTable) (xs : list Task) : Result CoreError TaskTable :=
  match xs with
  | [] => Ok t
  | x :: xs => rbind (TaskRepo.upsert_task_tx t x) (fun t => upsert_tasks t xs)
  end.

(** The rows of a payload, parents before children. *)
Definition restore (f : Fold) (base : ProjectionSnapshot) : Result CoreError Fold :=
  let projects := foldl ProjectRepo.upsert_project (projects f) (p_projects base) in
  rbind (upsert_tasks (tasks f) (p_tasks base)) (fun tasks =>
  Ok (mk tasks projects (foldl upsert_comment (comments f) (p_comments base)))).

Definition new (base : option ProjectionSnapshot) : Result CoreError Fold :=
  match base with
  | None => Ok empty
  | Some base => restore empty base
  end.

Definition state (f : Fold) : ProjectionSnapshot :=
  mkPayload (TaskRepo.list_all (tasks f)) (ProjectRepo.list_all (projects f))
            (CommentRepo.list_all (comments f)).

(** [fresh] and [now]: the id of a logged task that carries none, and the clock;
    neither is used for the events the handler logs. *)
Section Apply.
Context (fresh : TaskId) (now : Z).

Definition apply (f : Fold) (e : EventEnvelope) : Result CoreError Fold :=
  rbind (TaskRepo.apply_event_tx fresh now (tasks f) e) (fun tasks =>
  Ok (mk tasks (ProjectRepo.apply_event (projects f) e) (CommentRepo.apply_event (comments f) e))).

Fixpoint apply_all (f : Fold) (es : list EventEnvelope) : Result CoreError Fold :=
  match es with
  | [] => Ok f
  | e :: es => rbind (apply f e) (fun f => apply_all f es)
  end.
End Apply.
End ProjectionFold.

Module SnapshotRepo.
Import ProjectionFold.
Abbreviation SnapshotTable := (list Snapshot).

Definition newest_first (a b : Snapshot) : bool := (Snapshot.seq b <=? Snapshot.seq a)%Z.
Definition consistent (t : SnapshotTable) : list Snapshot :=
  sort_by newest_first (List.filter Snapshot.is_consistent t).
Definition latest (t : SnapshotTable) : option Snapshot := head (consistent t).

Definition insert (id : Str) (now : Z) (t : SnapshotTable) (seq : Z) (payload : ProjectionSnapshot)
  : Snapshot * SnapshotTable :=
  let s := Snapshot.mk id seq now payload Snapshot.SNAPSHOT_CUT_VERSION in (s, t ++ [s]).

Definition prune_keep_latest (t : SnapshotTable) (keep : nat) : nat * SnapshotTable :=
  let kept := map Snapshot.id (take keep (consistent t)) in
  (length (List.filter (fun s => negb (bool_decide (Snapshot.id s ∈ kept))) t),
   List.filter (fun s => bool_decide (Snapshot.id s ∈ kept)) t).

Definition FOLD_PAGE_SIZE : nat := 1000.

Section Write.
Context (fresh : TaskId) (now : Z).

(** The events of a page up to [target]; the first one past it ends the log. *)
Fixpoint up_to (target : Z) (page : list EventEnvelope) : list EventEnvelope :=
  match page with
  | [] => []
  | e :: page => if (target <? Envelope.seq e)%Z then [] else e :: up_to target page
  end.

(** ['log]: the page loop.  Each round but the last moves the cursor, so the
    rows of the log are rounds enough. *)
Fixpoint fold_log (fuel : nat) (l : EventLog) (target cursor : Z) (f : Fold)
  : option (Result CoreError Fold) :=
  match fuel with
  | O => None
  | S fuel =>
      if (cursor <? target)%Z then
        match EventStore.load_since l cursor FOLD_PAGE_SIZE with
        | [] => Some (Ok f)
        | page =>
            let es := up_to target page in
            match apply_all fresh now f es with
            | Err e => Some (Err e)
            | Ok f =>
                if (length es <? length page)%nat then Some (Ok f)
                else fold_log fuel l target (match last es with Some e => Envelope.seq e | None => cursor end) f
            end
        end
      else Some (Ok f)
  end.

(** [None] is out of fuel; [Ok None] says that no snapshot was due. *)
Definition write_if_due (id : Str) (t : SnapshotTable) (l : EventLog) (min_events : Z)
  : option (Result CoreError (option Z) * SnapshotTable) :=
  let target := EventStore.latest_seq l in
  let base := latest t in
  let cursor := match base with Some s => Snapshot.seq s | None => 0%Z end in
  if (Z.max 0 (target - cursor) <? min_events)%Z then Some (Ok None, t)
  else match new (Snapshot.payload <$> base) with
       | Err e => Some (Err e, t)
       | Ok f =>
           r ← fold_log (S (length (EventStore.rows l))) l target cursor f;
           match r with
           | Err e => Some (Err e, t)
           | Ok f =>
               let '(s, t) := insert id now t target (state f) in Some (Ok (Some (Snapshot.seq s)), t)
           end
       end.
End Write.
End SnapshotRepo.
Abbreviation SnapshotTable := SnapshotRepo.SnapshotTable.

(** ** Tables that hold the same rows

    A snapshot carries the domain structs only, so a restored table agrees with
    the original one up to the columns outside them ([position],
    [status_changed_at], notices, aliases).  No projector reads those. *)
Definition agree {A} (R : relation A) (x y : Result CoreError A) : Prop :=
  match x, y with
  | Ok a, Ok b => R a b
  | Err e, Err e' => e = e'
  | _, _ => False
  end.
Lemma agree_bind {A B} (R : relation A) (S : relation B) x y f g :
  agree R x y -> (forall a b, R a b -> agree S (f a) (g b)) -> agree S (rbind x f) (rbind y g).
Proof. destruct x, y; cbn; intros H Hf; try done. by apply Hf. Qed.
Lemma agree_ok {A} (R : relation A) x y a : agree R x y -> x = Ok a -> exists b, y = Ok b /\ R a b.
Proof. destruct x, y; cbn; intros H [= <-]; [eauto|done]. Qed.
#[export] Instance agree_equivalence {A} (R : relation A) : Equivalence R -> Equivalence (agree R).
Proof.
  intros HR. split.
  - intros []; cbn; done.
  - intros [] []; cbn; by intros.
  - intros [] [] []; cbn; try done; [by intros; etrans|congruence].
Qed.

#[export] Instance TaskTable_equiv : Equiv TaskTable := fun t t' =>
  forall id, TaskRepo.get t id = TaskRepo.get t' id.
#[export] Instance TaskTable_equivalence : Equivalence (≡@{TaskTable}).
Proof. split; [done|by intros t t' H id|intros t t' t'' H H' id; by rewrite H]. Qed.

#[export] Instance Fold_equiv : Equiv ProjectionFold.Fold := fun f g =>
  ProjectionFold.tasks f ≡ ProjectionFold.tasks g /\
  ProjectRepo.projects (ProjectionFold.projects f) = ProjectRepo.projects (ProjectionFold.projects g) /\
  ProjectionFold.comments f = ProjectionFold.comments g.
#[export] Instance Fold_equivalence : Equivalence (≡@{ProjectionFold.Fold}).
Proof.
  split; [by intros ?|intros f g (? & ? & ?); by split; [|split]|].
  intros f g h (? & ? & ?) (? & ? & ?). split; [by etrans|split; by etrans].
Qed.

(** Payloads list the same rows; rows created together come in any order. *)
#[export] Instance Payload_equiv : Equiv ProjectionSnapshot := fun p q =>
  Snapshot.p_tasks p ≡ₚ Snapshot.p_tasks q /\ Snapshot.p_projects p ≡ₚ Snapshot.p_projects q /\
  Snapshot.p_comments p ≡ₚ Snapshot.p_comments q.
#[export] Instance Payload_equivalence : Equivalence (≡@{ProjectionSnapshot}).
Proof.
  split; [by intros ?|intros f g (? & ? & ?); by split; [|split]|].
  intros f g h (? & ? & ?) (? & ? & ?). split; [by etrans|split; by etrans].
Qed.

Module SameTasks.
Import TaskRepo TaskTableSpec TaskTableFacts.

Lemma key_taken_same t t' x : t ≡ t' -> key_taken t x = key_taken t' x.
Proof.
  intros H. unfold key_taken. destruct (Task.external_key x); [|done].
  apply eq_true_iff_eq. rewrite !existsb_exists.
  split; intros (y & [id Hy]%elem_of_tasks & Hk); exists y; (split; [|done]);
    apply elem_of_tasks; exists id; [by rewrite <- H|by rewrite H].
Qed.

Lemma upsert_same t t' x : t ≡ t' -> agree (≡) (upsert_task_tx t x) (upsert_task_tx t' x).
Proof.
  intros H. destruct (upsert_task_tx t x) as [u|e] eqn:U, (upsert_task_tx t' x) as [u'|e'] eqn:U'; cbn.
  - intros id. by rewrite (upsert_get _ _ _ _ U), (upsert_get _ _ _ _ U'), H.
  - revert U U'. unfold upsert_task_tx. rewrite (key_taken_same _ _ _ H). by case_match.
  - revert U U'. unfold upsert_task_tx. rewrite (key_taken_same _ _ _ H). by case_match.
  - revert U U'. unfold upsert_task_tx. rewrite (key_taken_same _ _ _ H). case_match; congruence.
Qed.

Lemma with_task_same t t' id f : t ≡ t' -> agree (≡) (with_task t id f) (with_task t' id f).
Proof.
  intros H. unfold with_task. rewrite <- H. destruct (get t id); [by apply upsert_same|done].
Qed.

Lemma stamp_status_same t t' id a : t ≡ t' -> stamp_status_changed_at t id a ≡ stamp_status_changed_at t' id a.
Proof. intros H j. by rewrite !get_stamp_status. Qed.
Lemma stamp_position_same t t' id p : t ≡ t' -> stamp_pipeline_position t id p ≡ stamp_pipeline_position t' id p.
Proof. intros H j. by rewrite !get_stamp_position. Qed.

Lemma create_split_same e fresh ns t t' :
  t ≡ t' -> agree (≡) (create_split t e fresh ns) (create_split t' e fresh ns).
Proof.
  revert t t'. induction ns as [|n ns IH]; intros t t' H; cbn; [done|].
  eapply agree_bind; [by apply upsert_same|]. intros a b Hab. by apply IH.
Qed.

#[local] Hint Resolve upsert_same with_task_same stamp_status_same stamp_position_same create_split_same : same.

Lemma apply_event_same fresh now e t t' :
  t ≡ t' -> agree (≡) (apply_event_tx fresh now t e) (apply_event_tx fresh now t' e).
Proof.
  intros H. unfold apply_event_tx. destruct (Envelope.payload e); eauto with same;
    try (by cbn).
  - eapply agree_bind; [eauto with same|]. intros a b Hab. cbn. auto with same.
  - eapply agree_bind; [eauto with same|]. intros a b Hab. cbn.
    destruct (TaskPatch.pipeline_position _); auto with same.
  - eapply agree_bind; [eauto with same|]. intros a b Hab. cbn. auto with same.
  - eapply agree_bind; [eauto with same|]. intros a b Hab. cbn. rewrite <- H.
    destruct (get t task_id) as [x|]; [|done]. destruct (negb _); auto with same.
  - cbn. intros j. rewrite !delete_get. by case_bool_decide.
Qed.

(** The tables list the same tasks. *)
Lemma elem_of_list_all t x : x ∈ list_all t <-> exists id, get t id = Some x.
Proof.
  unfold list_all, list_all_filtered, select. rewrite elem_of_sort_by, filter_all by done.
  rewrite list_elem_of_In. apply elem_of_tasks.
Qed.

Lemma NoDup_ids t : keyed t -> NoDup (map Task.id (list_all t)).
Proof.
  intros Hk. unfold list_all, list_all_filtered, select.
  assert (Hp : forall l, map Task.id (sort_by by_created l) ≡ₚ map Task.id l).
  { intros l. apply Permutation_map, sort_by_perm. }
  rewrite Hp, filter_all by done. unfold all_rows.
  replace (map Task.id _) with (map_to_list (rows t)).*1; [apply NoDup_fst_map_to_list|].
  change (map TaskRow.task (map_to_list (rows t)).*2) with (TaskRow.task <$> (map_to_list (rows t)).*2).
  change (map Task.id ?l) with (Task.id <$> l). rewrite <- !list_fmap_compose.
  apply list_fmap_ext. intros i [id r] Hr. cbn. symmetry. apply Hk.
  apply list_elem_of_lookup_2, elem_of_map_to_list in Hr. unfold get. by rewrite Hr.
Qed.

Lemma list_all_same t t' : keyed t -> keyed t' -> t ≡ t' -> list_all t ≡ₚ list_all t'.
Proof.
  intros Hk Hk' H. apply NoDup_Permutation.
  - by eapply NoDup_fmap_1, (NoDup_ids t).
  - by eapply NoDup_fmap_1, (NoDup_ids t').
  - intros x. rewrite !elem_of_list_all. split; intros [id Hx]; exists id; [by rewrite <- H|by rewrite H].
Qed.
End SameTasks.

Module FoldSpec.
Import ProjectionFold.

(** Rows under their own id, unique keys and slugs, every project in a tenant. *)
Record projects_wf (t : ProjectTables) : Prop := mkProjectsWf {
  pw_keyed : forall id p, ProjectRepo.get t id = Some p -> Project.id p = id;
  pw_slugs : forall i j p q, ProjectRepo.get t i = Some p -> ProjectRepo.get t j = Some q ->
    Project.slug p = Project.slug q -> i = j;
  pw_tenant : forall id p, ProjectRepo.get t id = Some p -> is_Some (Project.tenant_id p) }.
Definition comments_wf (t : CommentTable) : Prop :=
  forall id c, t !! id = Some c -> Comment.id c = id.
Record wf (f : Fold) : Prop := mkWf {
  wf_tasks : TaskTableSpec.wf (tasks f);
  wf_projects : projects_wf (projects f);
  wf_comments : comments_wf (comments f) }.
End FoldSpec.

Module FoldFacts.
Import ProjectionFold FoldSpec SameTasks.

(** *** Projects *)
Definition in_tenant (p : Project) : Project :=
  p <| Project.tenant_id := Some (default Project.DEFAULT_TENANT_ID (Project.tenant_id p)) |>.
Lemma in_tenant_some p : is_Some (Project.tenant_id p) -> in_tenant p = p.
Proof. intros [t Ht]. unfold in_tenant. rewrite Ht. cbn. by destruct p; cbn in *; subst. Qed.

Lemma upsert_project_get t p j :
  ProjectRepo.get (ProjectRepo.upsert_project t p) j =
  if bool_decide (j = Project.id p) then Some (in_tenant p)
  else q ← ProjectRepo.get t j; if bool_decide (Project.slug q = Project.slug p) then None else Some q.
Proof.
  unfold ProjectRepo.get, ProjectRepo.upsert_project. cbn. change (Project.id (p <| _ := _ |>)) with (Project.id p).
  case_bool_decide as Hj; [subst; by rewrite lookup_insert_eq|]. rewrite lookup_insert_ne by done.
  rewrite map_lookup_filter. destruct (ProjectRepo.projects t !! j) as [q|]; cbn; [|done].
  case_guard as Hs; case_bool_decide as Hb; cbn; done.
Qed.

Lemma upsert_project_wf t p : projects_wf t -> projects_wf (ProjectRepo.upsert_project t p).
Proof.
  intros [Hk Hs Ht]. split.
  - intros id q. rewrite upsert_project_get. case_bool_decide; [by intros [= <-]|].
    destruct (ProjectRepo.get t id) eqn:E; cbn; [|done]. case_bool_decide; [done|]. intros [= <-]. by apply Hk.
  - intros i j a b. rewrite !upsert_project_get.
    repeat case_bool_decide; subst; try done; intros Ha Hb Hab.
    + injection Ha as <-. destruct (ProjectRepo.get t j); cbn in Hb; [|done]. case_bool_decide; [done|].
      by injection Hb as ->.
    + injection Hb as <-. destruct (ProjectRepo.get t i); cbn in Ha; [|done]. case_bool_decide; [done|].
      by injection Ha as ->.
    + destruct (ProjectRepo.get t i) eqn:Ei; cbn in Ha; [|done]. destruct (ProjectRepo.get t j) eqn:Ej; cbn in Hb; [|done].
      repeat case_bool_decide; try done. injection Ha as ->. injection Hb as ->. by eapply Hs.
  - intros id q. rewrite upsert_project_get. case_bool_decide; [intros [= <-]; eauto|].
    destruct (ProjectRepo.get t id) eqn:E; cbn; [|done]. case_bool_decide; [done|]. intros [= <-]. by eapply Ht.
Qed.

Lemma upsert_project_rows t u p :
  ProjectRepo.projects t = ProjectRepo.projects u ->
  ProjectRepo.projects (ProjectRepo.upsert_project t p) = ProjectRepo.projects (ProjectRepo.upsert_project u p).
Proof. intros H. unfold ProjectRepo.upsert_project. cbn. by rewrite H. Qed.
Lemma insert_alias_rows t a id : ProjectRepo.projects (ProjectRepo.insert_alias t a id) = ProjectRepo.projects t.
Proof. unfold ProjectRepo.insert_alias. by case_match. Qed.

(** What a project event does to the rows. *)
Definition renamed (e : EventEnvelope) (title : option Str) (description : option (option Str)) (p : Project) : Project :=
  let p := match title with Some t => p <| Project.title := t |> | None => p end in
  let p := match description with Some d => p <| Project.description := d |> | None => p end in
  p <| Project.updated_at := Envelope.occurred_at e |>.
Lemma project_updated t e id title description p :
  Envelope.payload e = Event.ProjectUpdated id title description -> ProjectRepo.get t id = Some p ->
  ProjectRepo.projects (ProjectRepo.apply_event t e) =
  ProjectRepo.projects (ProjectRepo.upsert_project t (renamed e title description p)).
Proof.
  intros He Hg. unfold ProjectRepo.apply_event. rewrite He, Hg.
  destruct title; [|done]. apply upsert_project_rows. by rewrite !insert_alias_rows.
Qed.

Lemma same_rows_wf t u : ProjectRepo.projects t = ProjectRepo.projects u -> projects_wf t -> projects_wf u.
Proof.
  intros H [Hk Hs Ht]. assert (Hg : forall j, ProjectRepo.get u j = ProjectRepo.get t j) by (intros; unfold ProjectRepo.get; by rewrite H).
  split; intros *; rewrite !Hg; eauto.
Qed.

Lemma project_event_same t u e :
  ProjectRepo.projects t = ProjectRepo.projects u ->
  ProjectRepo.projects (ProjectRepo.apply_event t e) = ProjectRepo.projects (ProjectRepo.apply_event u e).
Proof.
  intros H. destruct (Envelope.payload e) eqn:He;
    try (unfold ProjectRepo.apply_event; rewrite He; done).
  - unfold ProjectRepo.apply_event. rewrite He. by apply upsert_project_rows.
  - assert (Hg : ProjectRepo.get t project_id = ProjectRepo.get u project_id) by (unfold ProjectRepo.get; by rewrite H).
    destruct (ProjectRepo.get t project_id) as [p|] eqn:E.
    + rewrite (project_updated _ _ _ _ _ _ He E), (project_updated u _ _ _ _ _ He (eq_sym Hg)).
      by apply upsert_project_rows.
    + unfold ProjectRepo.apply_event. by rewrite He, E, <- Hg.
  - unfold ProjectRepo.apply_event. rewrite He. cbn. by rewrite H.
Qed.

Lemma project_event_wf t e : projects_wf t -> projects_wf (ProjectRepo.apply_event t e).
Proof.
  intros Hw. destruct (Envelope.payload e) eqn:He; try (unfold ProjectRepo.apply_event; rewrite He; done).
  - unfold ProjectRepo.apply_event. rewrite He. by apply upsert_project_wf.
  - destruct (ProjectRepo.get t project_id) as [p|] eqn:E.
    + eapply same_rows_wf; [symmetry; by eapply project_updated|]. by apply upsert_project_wf.
    + unfold ProjectRepo.apply_event. by rewrite He, E.
  - unfold ProjectRepo.apply_event. rewrite He. destruct Hw as [Hk Hs Ht]. unfold ProjectRepo.get in *. cbn.
    split; cbn; unfold ProjectRepo.get; cbn.
    + intros id p [_ H]%lookup_delete_Some. eauto.
    + intros i j p q [_ H]%lookup_delete_Some [_ H']%lookup_delete_Some. eauto.
    + intros id p [_ H]%lookup_delete_Some. eauto.
Qed.

(** *** Comments *)
Lemma comment_event_wf t e : comments_wf t -> comments_wf (CommentRepo.apply_event t e).
Proof.
  intros Hw. unfold CommentRepo.apply_event. destruct (Envelope.payload e); try done.
  - intros id c. destruct (decide (id = Comment.id comment)) as [->|]; [rewrite lookup_insert_eq; by intros [= <-]|].
    rewrite lookup_insert_ne by done. apply Hw.
  - intros id c [(-> & x & Hx & ->)|[_ H]]%lookup_alter_Some; [by apply (Hw _ x)|by apply Hw].
  - intros id c [(-> & x & Hx & ->)|[_ H]]%lookup_alter_Some; [by apply (Hw _ x)|by apply Hw].
Qed.

(** *** The fold *)
Lemma empty_wf : wf empty.
Proof. split; [split; by intros ?|split; by intros ?|by intros ?]. Qed.

Section Apply.
Context (fresh : TaskId) (now : Z).

Lemma task_event_wf t e t' :
  TaskTableSpec.wf t -> TaskRepo.apply_event_tx fresh now t e = Ok t' -> TaskTableSpec.wf t'.
Proof.
  intros Hw [Hg|id f t1 H1 _ _ _ Hg|Hwf _ _]%TaskTableFacts.apply_event_effect; [..|auto].
  - by eapply TaskTableFacts.wf_same_get.
  - eapply TaskTableFacts.wf_same_get; [exact Hg|]. by eapply TaskTableFacts.with_task_wf.
Qed.

Lemma apply_wf f e g : wf f -> apply fresh now f e = Ok g -> wf g.
Proof.
  intros [Ht Hp Hc] (t & H & [= <-])%rbind_ok. split; cbn.
  - by eapply task_event_wf.
  - by apply project_event_wf.
  - by apply comment_event_wf.
Qed.
Lemma apply_all_wf f es g : wf f -> apply_all fresh now f es = Ok g -> wf g.
Proof.
  revert f. induction es as [|e es IH]; cbn; intros f Hw; [by intros [= <-]|].
  intros (h & H & Hg)%rbind_ok. eapply IH; [|exact Hg]. by eapply apply_wf.
Qed.

(** Projecting respects [≡]: [apply] and [apply_all] are proper. *)
Lemma apply_same f g e : f ≡ g -> agree (≡) (apply fresh now f e) (apply fresh now g e).
Proof.
  intros (Ht & Hp & Hc). eapply agree_bind; [by apply apply_event_same|]. intros t u Htu.
  split; [done|]. split; [by apply project_event_same|]. cbn. by rewrite Hc.
Qed.
Lemma apply_all_same f g es : f ≡ g -> agree (≡) (apply_all fresh now f es) (apply_all fresh now g es).
Proof.
  revert f g. induction es as [|e es IH]; intros f g H; cbn; [done|].
  eapply agree_bind; [by apply apply_same|]. intros a b Hab. by apply IH.
Qed.
#[global] Instance apply_all_proper : Proper ((≡) ==> eq ==> agree (≡)) (apply_all fresh now).
Proof. intros f g H es ? <-. by apply apply_all_same. Qed.

Lemma apply_all_app f es es' :
  apply_all fresh now f (es ++ es') = rbind (apply_all fresh now f es) (fun g => apply_all fresh now g es').
Proof. revert f. induction es as [|e es IH]; intros f; cbn; [done|]. by destruct (apply fresh now f e); cbn. Qed.

(** Telemetry is not projected. *)
Lemma apply_telemetry f e : Event.class_ (Envelope.payload e) = Telemetry -> apply fresh now f e = Ok f.
Proof.
  unfold apply, TaskRepo.apply_event_tx, ProjectRepo.apply_event, CommentRepo.apply_event.
  destruct (Envelope.payload e); cbn; try done. by destruct f.
Qed.
Lemma apply_all_filter f es (p : EventEnvelope -> bool) :
  (forall e, e ∈ es -> p e = false -> Event.class_ (Envelope.payload e) = Telemetry) ->
  apply_all fresh now f (List.filter p es) = apply_all fresh now f es.
Proof.
  revert f. induction es as [|e es IH]; intros f H; cbn; [done|].
  assert (IH' : forall f, apply_all fresh now f (List.filter p es) = apply_all fresh now f es).
  { intros f'. apply IH. intros. apply H; [by right|done]. }
  destruct (p e) eqn:E; cbn; [by destruct (apply fresh now f e); cbn|].
  rewrite apply_telemetry by (apply H; [by left|done]). apply IH'.
Qed.
End Apply.

(** *** Restoring a payload *)
Import TaskRepo TaskTableSpec TaskTableFacts.
Lemma upsert_tasks_get xs t t' :
  NoDup (map Task.id xs) -> upsert_tasks t xs = Ok t' ->
  (forall x, x ∈ xs -> get t' (Task.id x) = Some x) /\
  (forall j, j ∉ map Task.id xs -> get t' j = get t j).
Proof.
  revert t. induction xs as [|x xs IH]; intros t Hn; cbn in *.
  { intros [= <-]. split; [by intros ? ?%elem_of_nil|done]. }
  apply NoDup_cons in Hn as [Hx Hn]. intros (u & Hu & H)%rbind_ok.
  destruct (IH _ Hn H) as [H1 H2]. split.
  - intros y [->|Hy]%elem_of_cons; [|by apply H1].
    rewrite H2, (upsert_get _ _ _ _ Hu), bool_decide_eq_true_2; done.
  - intros j Hj. rewrite H2, (upsert_get _ _ _ _ Hu), bool_decide_eq_false_2; [done|set_solver|set_solver].
Qed.

Lemma upsert_tasks_ok xs t :
  wf t -> (forall x y k, x ∈ xs -> y ∈ xs \/ (exists i, get t i = Some y) ->
    Task.external_key x = Some k -> Task.external_key y = Some k -> Task.id y = Task.id x) ->
  exists t', upsert_tasks t xs = Ok t'.
Proof.
  revert t. induction xs as [|x xs IH]; intros t Hw Hk; cbn; [eauto|].
  assert (Hf : key_taken t x = false).
  { unfold key_taken. destruct (Task.external_key x) as [k|] eqn:E; [|done].
    apply not_true_iff_false. intros (y & Hy & Hb)%existsb_exists. apply elem_of_tasks in Hy. bsplit.
    match goal with H : _ <> _ |- _ => apply H end. eapply (Hk x y k); eauto. by left. }
  destruct (upsert_task_tx t x) as [u|e] eqn:U; [|by unfold upsert_task_tx in U; rewrite Hf in U].
  cbn. apply IH; [by eapply upsert_wf|]. intros a b k Ha Hb. eapply Hk; [by right|].
  destruct Hb as [Hb|[i Hi]]; [left; by right|]. rewrite (upsert_get _ _ _ _ U) in Hi.
  case_bool_decide; [injection Hi as ->; left; by left|eauto].
Qed.

Lemma upsert_projects_get xs t :
  NoDup (map Project.id xs) ->
  (forall p q, p ∈ xs -> q ∈ xs -> Project.slug p = Project.slug q -> Project.id p = Project.id q) ->
  (forall p, p ∈ xs -> in_tenant p = p) ->
  (forall p, p ∈ xs -> ProjectRepo.get (foldl ProjectRepo.upsert_project t xs) (Project.id p) = Some p) /\
  (forall j, j ∉ map Project.id xs ->
     ProjectRepo.get (foldl ProjectRepo.upsert_project t xs) j = None \/
     ProjectRepo.get (foldl ProjectRepo.upsert_project t xs) j = ProjectRepo.get t j).
Proof.
  induction xs as [|x xs IH] using rev_ind; intros Hn Hs Ht.
  { split; [by intros ? ?%elem_of_nil|auto]. }
  rewrite map_app in Hn. apply NoDup_app in Hn as (Hn & Hx & _).
  destruct IH as [H1 H2]; [done|intros; apply Hs; set_solver|intros; apply Ht; set_solver|].
  rewrite foldl_snoc. split.
  - intros p Hp. rewrite upsert_project_get. case_bool_decide as E.
    + apply elem_of_app in Hp as [Hp| ->%list_elem_of_singleton]; [|by rewrite Ht by set_solver].
      exfalso. apply (Hx (Project.id p)); [by apply list_elem_of_fmap_2|]. cbn. rewrite E. set_solver.
    + apply elem_of_app in Hp as [Hp| ->%list_elem_of_singleton]; [|done]. rewrite H1 by done. cbn.
      rewrite bool_decide_eq_false_2; [done|]. intros Hsl. apply E, Hs; set_solver.
  - intros j Hj. rewrite map_app in Hj. rewrite upsert_project_get, bool_decide_eq_false_2 by set_solver.
    destruct (H2 j) as [-> | ->]; [set_solver|by left|]. destruct (ProjectRepo.get t j); cbn; [|by left].
    case_bool_decide; auto.
Qed.

Lemma upsert_comments_get xs t :
  NoDup (map Comment.id xs) ->
  (forall c, c ∈ xs -> foldl upsert_comment t xs !! Comment.id c = Some c) /\
  (forall j, j ∉ map Comment.id xs -> foldl upsert_comment t xs !! j = t !! j).
Proof.
  induction xs as [|x xs IH] using rev_ind; intros Hn; [split; [by intros ? ?%elem_of_nil|done]|].
  rewrite map_app in Hn. apply NoDup_app in Hn as (Hn & Hx & _). destruct (IH Hn) as [H1 H2].
  rewrite foldl_snoc. unfold upsert_comment at 1 3. split.
  - intros c Hc. destruct (decide (Comment.id c = Comment.id x)) as [E|Hne].
    + rewrite E, lookup_insert_eq. apply elem_of_app in Hc as [Hc| ->%list_elem_of_singleton]; [|done].
      exfalso. apply (Hx (Comment.id c)); [by apply list_elem_of_fmap_2|]. rewrite E. set_solver.
    + rewrite lookup_insert_ne by done. apply H1. set_solver.
  - intros j Hj. rewrite map_app in Hj. rewrite lookup_insert_ne by set_solver. apply H2. set_solver.
Qed.

(** Rows are the elements of the lists of a state. *)
Lemma elem_of_projects t p : p ∈ ProjectRepo.list_all t <-> exists id, ProjectRepo.get t id = Some p.
Proof.
  unfold ProjectRepo.list_all, ProjectRepo.rows, ProjectRepo.get. rewrite elem_of_sort_by. split.
  - intros ([id q] & -> & H)%list_elem_of_fmap. exists id. by apply elem_of_map_to_list.
  - intros [id H]. apply list_elem_of_fmap. exists (id, p). split; [done|]. by apply elem_of_map_to_list.
Qed.
Lemma elem_of_comments t c : c ∈ CommentRepo.list_all t <-> exists id, t !! id = Some c.
Proof.
  unfold CommentRepo.list_all, CommentRepo.rows. rewrite elem_of_sort_by. split.
  - intros ([id q] & -> & H)%list_elem_of_fmap. exists id. by apply elem_of_map_to_list.
  - intros [id H]. apply list_elem_of_fmap. exists (id, c). split; [done|]. by apply elem_of_map_to_list.
Qed.

Lemma get_restored {K V} (look : K -> option V) (id_of : V -> K) (xs : list V) (orig look' : K -> option V) :
  (forall x, x ∈ xs <-> exists i, orig i = Some x) ->
  (forall i x, orig i = Some x -> id_of x = i) ->
  (forall x, x ∈ xs -> look' (id_of x) = Some x) ->
  (forall j, j ∉ map id_of xs -> look' j = look j) ->
  (forall j, look j = None \/ is_Some (orig j)) -> forall j, look' j = orig j.
Proof.
  intros Hin Hid H1 H2 Hn j. destruct (orig j) as [x|] eqn:E.
  - rewrite <- (Hid _ _ E). apply H1, Hin. eauto.
  - rewrite H2; [destruct (Hn j) as [?|[? ?]]; [done|congruence]|].
    intros (x & -> & Hx)%list_elem_of_fmap. apply Hin in Hx as [i Hi]. rewrite (Hid _ _ Hi) in E. congruence.
Qed.

Lemma NoDup_keyed {K V} `{Countable K} (m : gmap K V) (id_of : V -> K) :
  (forall i x, m !! i = Some x -> id_of x = i) -> NoDup (map id_of (map_to_list m).*2).
Proof.
  intros Hid. replace (map id_of _) with (map_to_list m).*1; [apply NoDup_fst_map_to_list|].
  change (map id_of ?l) with (id_of <$> l). rewrite <- list_fmap_compose.
  apply list_fmap_ext. intros i [k x] Hx. cbn. symmetry. apply Hid.
  by apply list_elem_of_lookup_2, elem_of_map_to_list in Hx.
Qed.

Lemma new_state f p : FoldSpec.wf f -> p ≡ state f -> exists g, new (Some p) = Ok g /\ g ≡ f /\ FoldSpec.wf g.
Proof.
  intros [[Htk Htu] [Hpk Hps Hpt] Hcw] (Pt & Pp & Pc). cbn in Pt, Pp, Pc.
  assert (Et : forall x, x ∈ Snapshot.p_tasks p <-> exists i, get (tasks f) i = Some x).
  { intros x. rewrite Pt. apply elem_of_list_all. }
  assert (Ep : forall x, x ∈ Snapshot.p_projects p <-> exists i, ProjectRepo.get (projects f) i = Some x).
  { intros x. rewrite Pp. apply elem_of_projects. }
  assert (Ec : forall x, x ∈ Snapshot.p_comments p <-> exists i, comments f !! i = Some x).
  { intros x. rewrite Pc. apply elem_of_comments. }
  assert (Nt : NoDup (map Task.id (Snapshot.p_tasks p))) by (rewrite Pt; by apply NoDup_ids).
  assert (Np : NoDup (map Project.id (Snapshot.p_projects p))).
  { rewrite Pp. unfold ProjectRepo.list_all. rewrite sort_by_perm. by apply NoDup_keyed. }
  assert (Nc : NoDup (map Comment.id (Snapshot.p_comments p))).
  { rewrite Pc. unfold CommentRepo.list_all. rewrite sort_by_perm. by apply NoDup_keyed. }
  destruct (upsert_tasks_ok (Snapshot.p_tasks p) TaskRepo.empty) as [t' Ht'].
  { split; by intros ?. }
  { intros x y k [i Hi]%Et [[j Hj]%Et|[? [=]]] Kx Ky.
    rewrite (Htk _ _ Hi), (Htk _ _ Hj). symmetry. by eapply Htu. }
  destruct (upsert_tasks_get _ _ _ Nt Ht') as [T1 T2].
  destruct (upsert_projects_get (Snapshot.p_projects p) ProjectRepo.empty Np) as [P1 P2].
  { intros a b [i Hi]%Ep [j Hj]%Ep Hs. rewrite (Hpk _ _ Hi), (Hpk _ _ Hj). by eapply Hps. }
  { intros a [i Hi]%Ep. apply in_tenant_some. by eapply Hpt. }
  destruct (upsert_comments_get (Snapshot.p_comments p) ∅ Nc) as [C1 C2].
  eexists. split.
  { unfold new, restore. change (tasks ProjectionFold.empty) with TaskRepo.empty. by rewrite Ht'. }
  set (g := ProjectionFold.mk _ _ _).
  assert (Hg : g ≡ f).
  { split; [|split].
    - intros id. by eapply (get_restored (get TaskRepo.empty) Task.id); eauto.
    - apply map_eq. intros id. change (ProjectRepo.get (projects g) id = ProjectRepo.get (projects f) id).
      eapply (get_restored (ProjectRepo.get ProjectRepo.empty) Project.id); eauto.
      intros j Hj. by destruct (P2 j Hj) as [E|E].
    - apply map_eq. intros id. eapply (get_restored (fun j => (∅ : CommentTable) !! j) Comment.id (Snapshot.p_comments p) (fun j => comments f !! j) (fun j => comments g !! j)); eauto. }
  split; [done|]. destruct Hg as (G1 & G2 & G3). split.
  - eapply wf_same_get; [exact G1|]. by split.
  - eapply same_rows_wf; [symmetry; exact G2|]. by split.
  - intros id c Hc. rewrite G3 in Hc. by eapply Hcw.
Qed.

Lemma state_same f g : FoldSpec.wf f -> FoldSpec.wf g -> f ≡ g -> state f ≡ state g.
Proof.
  intros [[Hk _] _ _] [[Hk' _] _ _] (Ht & Hp & Hc). split; [by apply list_all_same|]. cbn.
  unfold ProjectRepo.list_all, ProjectRepo.rows, CommentRepo.list_all, CommentRepo.rows. by rewrite Hp, Hc.
Qed.
End FoldFacts.

(** ** Specification: a snapshot is the fold of the log up to its [seq] *)
Module SnapshotSpec.
Import ProjectionFold.

(** The handler names a task before it logs its creation. *)
Definition addressed (e : EventEnvelope) : Prop :=
  match Envelope.payload e with
  | Event.TaskCreated n => is_Some (NewTask.id n)
  | Event.TaskSplitGenerated _ ns => Forall (fun n => is_Some (NewTask.id n)) ns
  | _ => True
  end.

Definition prefix (l : EventLog) (s : Z) : list EventEnvelope :=
  List.filter (fun e => Envelope.seq e <=? s)%Z (EventStore.rows l).
Definition covers (fresh : TaskId) (now : Z) (l : EventLog) (s : Snapshot) : Prop :=
  (Snapshot.seq s <= EventStore.latest_seq l)%Z /\
  exists f, apply_all fresh now empty (prefix l (Snapshot.seq s)) = Ok f /\ Snapshot.payload s ≡ state f.

(** The server: commands append, the retention job purges, the snapshot job
    writes and prunes. *)
Inductive step : SnapshotTable * EventLog -> SnapshotTable * EventLog -> Prop :=
| step_append t l es out l' :
    Forall addressed es -> EventStore.append_batch l es = (Ok out, l') -> step (t, l) (t, l')
| step_purge t l cutoff : step (t, l) (t, (EventStore.purge_telemetry_before l cutoff).2)
| step_write fresh now id n t l r t' :
    SnapshotRepo.write_if_due fresh now id t l n = Some (r, t') -> step (t, l) (t', l)
| step_prune t l keep : step (t, l) ((SnapshotRepo.prune_keep_latest t keep).2, l).
End SnapshotSpec.

Module SnapshotFacts.
Import ProjectionFold SnapshotSpec FoldFacts EventStore EventLogSpec EventLogFacts.

(** *** What a process draws does not matter *)
Lemma created_addressed e fresh fresh' source n :
  is_Some (NewTask.id n) -> TaskRepo.created_task e fresh source n = TaskRepo.created_task e fresh' source n.
Proof. intros [i Hi]. unfold TaskRepo.created_task. by rewrite Hi. Qed.
Lemma split_addressed t e fresh fresh' ns :
  Forall (fun n => is_Some (NewTask.id n)) ns ->
  TaskRepo.create_split t e fresh ns = TaskRepo.create_split t e fresh' ns.
Proof.
  intros H. revert t. induction H as [|n ns Hn _ IH]; intros t; cbn; [done|].
  rewrite (created_addressed _ fresh fresh') by done. by destruct (TaskRepo.upsert_task_tx _ _); cbn.
Qed.

Lemma task_drawn fresh fresh' now now' t e :
  addressed e -> TaskRepo.apply_event_tx fresh now t e = TaskRepo.apply_event_tx fresh' now' t e.
Proof.
  unfold TaskRepo.apply_event_tx, addressed. intros Ha. destruct (Envelope.payload e); try done.
  - by rewrite (created_addressed e fresh fresh').
  - by apply split_addressed.
Qed.
Lemma apply_drawn fresh fresh' now now' f e :
  addressed e -> apply fresh now f e = apply fresh' now' f e.
Proof. intros Ha. unfold apply. by rewrite (task_drawn fresh fresh' now now'). Qed.
Lemma apply_all_drawn fresh fresh' now now' f es :
  Forall addressed es -> apply_all fresh now f es = apply_all fresh' now' f es.
Proof.
  intros H. revert f. induction H as [|e es He _ IH]; intros f; cbn; [done|].
  rewrite (apply_drawn fresh fresh' now now') by done. by destruct (apply fresh' now' f e); cbn.
Qed.

(** *** The page loop reads the events up to the target *)
Definition between (l : EventLog) (a b : Z) : list EventEnvelope :=
  List.filter (fun e => (a <? Envelope.seq e) && (Envelope.seq e <=? b))%Z (rows l).

Lemma between_filter l a b :
  between l a b = List.filter (fun e => Envelope.seq e <=? b)%Z (List.filter (fun e => a <? Envelope.seq e)%Z (rows l)).
Proof.
  unfold between. induction (rows l) as [|e r IH]; cbn; [done|].
  destruct (a <? Envelope.seq e)%Z; cbn; [|done]. by destruct (Envelope.seq e <=? b)%Z; rewrite IH.
Qed.
Lemma prefix_between l a b : wf l -> (a <= b)%Z -> prefix l b = prefix l a ++ between l a b.
Proof.
  intros [Hs _ _ _] Hab. unfold prefix, between. induction Hs as [|e r Hr IH He]; cbn; [done|].
  destruct (Z.leb_spec (Envelope.seq e) a).
  - rewrite (proj2 (Z.leb_le _ b)), (proj2 (Z.ltb_ge a _)) by lia. cbn. by f_equal.
  - rewrite (proj2 (Z.ltb_lt a _)) by done.
    assert (Hn : List.filter (fun x => Envelope.seq x <=? a)%Z r = []).
    { apply filter_none. intros x Hx. rewrite Forall_forall in He. specialize (He x Hx). apply Z.leb_gt. lia. }
    rewrite Hn in IH |- *. cbn in *. by destruct (Envelope.seq e <=? b)%Z; rewrite IH.
Qed.

Lemma up_to_filter target page :
  StronglySorted (fun a b => Envelope.seq a < Envelope.seq b)%Z page ->
  SnapshotRepo.up_to target page = List.filter (fun e => Envelope.seq e <=? target)%Z page.
Proof.
  induction 1 as [|e page Hs IH He]; cbn; [done|].
  destruct (Z.ltb_spec target (Envelope.seq e)).
  - rewrite (proj2 (Z.leb_gt _ _)) by done. symmetry. apply filter_none. intros x Hx.
    rewrite Forall_forall in He. specialize (He x Hx). apply Z.leb_gt. lia.
  - rewrite (proj2 (Z.leb_le _ _)) by done. by f_equal.
Qed.

Lemma filter_length_full {A} (p : A -> bool) l : length (List.filter p l) = length l -> List.filter p l = l.
Proof.
  induction l as [|x l IH]; cbn; [done|]. pose proof (List.filter_length_le p l).
  destruct (p x); cbn; intros H'; [by rewrite IH by lia|lia].
Qed.

Lemma page_size_pos : (0 < SnapshotRepo.FOLD_PAGE_SIZE)%nat.
Proof. unfold SnapshotRepo.FOLD_PAGE_SIZE. apply Nat.lt_0_succ. Qed.

Section Write.
Context (fresh : TaskId) (now : Z).

Lemma fold_log_reads fuel l target cursor f :
  wf l -> (length (List.filter (fun e => cursor <? Envelope.seq e)%Z (rows l)) < fuel)%nat ->
  SnapshotRepo.fold_log fresh now fuel l target cursor f =
  Some (apply_all fresh now f (between l cursor target)).
Proof.
  intros Hwf. revert cursor f. induction fuel as [|fuel IH]; intros cursor f Hf; [lia|].
  cbn [SnapshotRepo.fold_log]. destruct (Z.ltb_spec cursor target) as [Hct|Hct].
  2: { unfold between. rewrite filter_none; [done|]. intros e _.
       destruct (Z.ltb_spec cursor (Envelope.seq e)); [cbn; apply Z.leb_gt; lia|done]. }
  rewrite between_filter. destruct (load_since l cursor SnapshotRepo.FOLD_PAGE_SIZE) as [|e0 page] eqn:P.
  { by rewrite (page_empty l cursor SnapshotRepo.FOLD_PAGE_SIZE page_size_pos P). }
  destruct (last (e0 :: page)) as [e|] eqn:L; [|by apply last_None in L].
  pose proof L as L'. rewrite <- P in L'. pose proof (page_rest _ _ _ _ Hwf L') as Hrest. rewrite P in Hrest.
  assert (Hsort : StronglySorted (fun a b => Envelope.seq a < Envelope.seq b)%Z
    ((e0 :: page) ++ List.filter (fun x => Envelope.seq e <? Envelope.seq x)%Z (rows l))).
  { rewrite <- Hrest. by apply StronglySorted_list_filter, wf_sorted. }
  apply StronglySorted_app in Hsort as (Hcross & Hpage & _).
  rewrite Hrest in Hf |- *. rewrite length_app in Hf. cbn [length] in Hf.
  rewrite List.filter_app, up_to_filter by done. set (es := List.filter _ (e0 :: page)).
  destruct (apply_all fresh now f es) as [g|err] eqn:A; [|by rewrite apply_all_app, A].
  pose proof (List.filter_length_le (fun e => Envelope.seq e <=? target)%Z (e0 :: page)) as Hle. fold es in Hle.
  destruct (Nat.ltb_spec (length es) (length (e0 :: page))) as [Hlt|Hge].
  - rewrite (filter_none _ (List.filter _ (rows l))), app_nil_r, A; [done|].
    intros x Hx. apply Z.leb_gt. destruct (decide (Envelope.seq x <= target)%Z) as [Hxt|]; [|lia]. exfalso.
    enough (es = e0 :: page) as E by (rewrite E in Hlt; lia). apply filter_all. intros y Hy.
    apply Z.leb_le. specialize (Hcross y x Hy Hx). lia.
  - assert (E : es = e0 :: page) by (apply filter_length_full; fold es; lia). rewrite E, L.
    rewrite IH, between_filter, apply_all_app by lia. rewrite <- E, A. done.
Qed.

(** A snapshot taken from a covering base covers the whole log. *)
Lemma write_covers id t l n r t' :
  wf l -> Forall (fun s => Snapshot.is_consistent s = true -> covers fresh now l s) t ->
  SnapshotRepo.write_if_due fresh now id t l n = Some (r, t') ->
  Forall (fun s => Snapshot.is_consistent s = true -> covers fresh now l s) t'.
Proof.
  intros Hwf Hall. unfold SnapshotRepo.write_if_due. destruct (_ <? n)%Z; [by intros [= <- <-]|].
  assert (Hbase : exists f g, new (Snapshot.payload <$> SnapshotRepo.latest t) = Ok g /\ g ≡ f /\ FoldSpec.wf g /\
    (match SnapshotRepo.latest t with Some s => Snapshot.seq s | None => 0 end <= latest_seq l)%Z /\
    apply_all fresh now ProjectionFold.empty (prefix l (match SnapshotRepo.latest t with Some s => Snapshot.seq s | None => 0 end)%Z) = Ok f).
  { destruct (SnapshotRepo.latest t) as [s|] eqn:E; cbn.
    - assert (Hs : s ∈ t /\ Snapshot.is_consistent s = true).
      { unfold SnapshotRepo.latest in E. apply head_Some_elem_of in E. unfold SnapshotRepo.consistent in E.
        rewrite elem_of_sort_by, list_elem_of_In, filter_In, <- list_elem_of_In in E. done. }
      rewrite Forall_forall in Hall. destruct (Hall s (proj1 Hs) (proj2 Hs)) as (Hle & f & Hf & Hp).
      destruct (new_state f (Snapshot.payload s)) as (g & Hg & Hgf & Hgw); [by eapply apply_all_wf, Hf; apply empty_wf|done|].
      exists f, g. done.
    - exists ProjectionFold.empty, ProjectionFold.empty. split; [done|]. split; [done|]. split; [apply empty_wf|]. split; [by apply wf_high|].
      unfold prefix. rewrite filter_none; [done|]. intros e He. apply Z.leb_gt.
      pose proof (wf_low _ Hwf) as Hlow. rewrite Forall_forall in Hlow. specialize (Hlow e He). lia. }
  destruct Hbase as (f & g & -> & Hgf & Hgw & Hle & Hf). set (cursor := match SnapshotRepo.latest t with Some _ => _ | None => _ end) in *.
  rewrite fold_log_reads; [|done|].
  2: { apply Nat.lt_succ_r. apply List.filter_length_le. }
  cbn. destruct (apply_all fresh now g (between l cursor (latest_seq l))) as [h|err] eqn:Hh; [|by intros [= <- <-]].
  intros [= <- <-]. apply Forall_app. split; [done|]. constructor; [|constructor]. intros _. split; [done|]. cbn.
  destruct (agree_ok _ _ _ _ (apply_all_same fresh now g f _ Hgf) Hh) as (h' & Hh' & Hhh).
  exists h'. rewrite (prefix_between l cursor) by done. rewrite apply_all_app, Hf. split; [done|].
  apply state_same; [by eapply apply_all_wf, Hh| |done].
  eapply apply_all_wf; [|exact Hh']. eapply apply_all_wf; [apply empty_wf|exact Hf].
Qed.
End Write.

Lemma prefix_rest l n :
  wf l -> rows l = prefix l n ++ List.filter (fun e => n <? Envelope.seq e)%Z (rows l).
Proof.
  intros [Hs _ _ _]. unfold prefix. induction Hs as [|e r Hr IH He]; cbn; [done|].
  destruct (Z.leb_spec (Envelope.seq e) n).
  - rewrite (proj2 (Z.ltb_ge n _)) by done. cbn. by rewrite <- IH.
  - rewrite (proj2 (Z.ltb_lt n _)) by done. rewrite filter_none; cbn.
    + f_equal. symmetry. apply filter_all. intros x Hx. rewrite Forall_forall in He. specialize (He x Hx).
      apply Z.ltb_lt. lia.
    + intros x Hx. rewrite Forall_forall in He. specialize (He x Hx). apply Z.leb_gt. lia.
Qed.

(** *** The invariant of the server *)
Definition honest (fresh : TaskId) (now : Z) (c : SnapshotTable * EventLog) : Prop :=
  wf c.2 /\ Forall addressed (rows c.2) /\
  Forall (fun s => Snapshot.is_consistent s = true -> covers fresh now c.2 s) c.1.

Lemma Forall_prefix (P : EventEnvelope -> Prop) l n : Forall P (rows l) -> Forall P (prefix l n).
Proof. apply Forall_list_filter. Qed.

Lemma covers_drawn fresh fresh' now now' l s :
  Forall addressed (rows l) -> covers fresh now l s -> covers fresh' now' l s.
Proof.
  intros Ha [Hle (f & Hf & Hp)]. split; [done|]. exists f. split; [|done].
  rewrite <- Hf. apply apply_all_drawn. by apply Forall_prefix.
Qed.

Lemma covers_append fresh now l es out l' s :
  append_batch l es = (Ok out, l') -> covers fresh now l s -> covers fresh now l' s.
Proof.
  intros [(o & [= ->] & Ha)|(? & ? & _)]%append_batch_inv [Hle Hc]; [|done].
  apply append_all_ok in Ha as [-> ->]. unfold latest_seq in *. split; [cbn; lia|].
  enough (prefix (mk (rows l ++ numbered (high_water l + 1) es) (high_water l + Z.of_nat (length es)))
    (Snapshot.seq s) = prefix l (Snapshot.seq s)) as -> by done.
  unfold prefix. cbn. rewrite List.filter_app, (filter_none _ (numbered _ _)); [apply app_nil_r|].
  intros e He%numbered_seqs. apply Z.leb_gt. lia.
Qed.

Lemma covers_purge fresh now l cutoff s :
  covers fresh now l s -> covers fresh now (purge_telemetry_before l cutoff).2 s.
Proof.
  intros [Hle (f & Hf & Hp)]. split; [done|]. exists f. split; [|done]. rewrite <- Hf. unfold prefix. cbn.
  rewrite <- (apply_all_filter fresh now ProjectionFold.empty (List.filter _ (rows l)) (fun e => negb (purged cutoff e))).
  - f_equal. clear. induction (rows l) as [|e r IH]; cbn; [done|].
    destruct (negb (purged cutoff e)) eqn:P; cbn; destruct (Envelope.seq e <=? Snapshot.seq s)%Z; cbn;
      rewrite ?P; by rewrite IH.
  - intros e _ [P _]%negb_false_iff%andb_prop. by bsplit.
Qed.

Lemma numbered_addressed n es : Forall addressed es -> Forall addressed (numbered n es).
Proof. intros He. revert n. induction He as [|e es He _ IH]; intros n; cbn; constructor; auto. Qed.

Lemma step_honest fresh now c c' : honest fresh now c -> SnapshotSpec.step c c' -> honest fresh now c'.
Proof.
  intros Hh Hs. revert Hh. destruct Hs as [t l es out l' He Hb|t l cutoff|fresh' now' id n t l r t' Hw|t l keep]; intros (Hwf & Ha & Hc); cbn in *.
  - pose proof Hb as Hb'. apply append_batch_inv in Hb' as [(o & [= ->] & Hall)|(? & ? & _)]; [|done].
    split; [exact (append_all_wf _ _ _ _ Hwf Hall)|]. split.
    + apply append_all_ok in Hall as [-> ->]. cbn. apply Forall_app. split; [done|]. by apply numbered_addressed.
    + eapply Forall_impl; [exact Hc|]. intros s Hs Hcons. eapply covers_append; eauto.
  - split; [by apply purge_wf|]. split; [by apply Forall_list_filter|].
    eapply Forall_impl; [exact Hc|]. intros s Hs Hcons. apply covers_purge. auto.
  - split; [done|]. split; [done|].
    assert (Hc' : Forall (fun s => Snapshot.is_consistent s = true -> covers fresh' now' l s) t).
    { eapply Forall_impl; [exact Hc|]. intros s Hs Hcons. eapply covers_drawn; eauto. }
    eapply Forall_impl; [exact (write_covers _ _ _ _ _ _ _ _ Hwf Hc' Hw)|].
    intros s Hs Hcons. eapply covers_drawn; eauto.
  - split; [done|]. split; [done|]. by apply Forall_list_filter.
Qed.
End SnapshotFacts.

Section Property.
  Import ProjectionFold SnapshotSpec SnapshotFacts FoldFacts EventStore.

(** C25: a served snapshot keeps the promise of its [seq].  Whatever commands,
    telemetry purges, snapshot writes and prunes follow, from a table that holds
    no consistent snapshot, the newest snapshot holds exactly the effect of every
    event up to its [seq]: a device that restores it and replays the events after
    it ends -- in the same rows, or at the same error -- where a replay of the
    whole log ends.  The writing job never runs out of rounds. *)
Theorem snapshot_bootstrap_is_replay fresh now t0 l0 t l :
  EventLogSpec.wf l0 -> Forall addressed (rows l0) ->
  Forall (fun s => Snapshot.is_consistent s = false) t0 ->
  rtc SnapshotSpec.step (t0, l0) (t, l) ->
  (forall id n, is_Some (SnapshotRepo.write_if_due fresh now id t l n)) /\
  forall s, SnapshotRepo.latest t = Some s ->
    exists f, new (Some (Snapshot.payload s)) = Ok f /\
      agree (≡) (apply_all fresh now f (List.filter (fun e => Snapshot.seq s <? Envelope.seq e)%Z (rows l)))
                (apply_all fresh now ProjectionFold.empty (rows l)).
Proof.
  intros Hwf Ha Hc Hsteps.
  assert (H0 : honest fresh now (t0, l0)).
  { split; [done|]. split; [done|]. eapply Forall_impl; [exact Hc|]. cbn. intros s -> [=]. }
  assert (Hh : honest fresh now (t, l)).
  { revert H0. generalize (t0, l0), (t, l), Hsteps. clear. intros c c' Hs.
    induction Hs as [|c c1 c' H1 _ IH]; [done|]. intros H. apply IH. by eapply step_honest. }
  destruct Hh as (Hwf' & _ & Hcov); cbn in *. split.
  - intros id n. unfold SnapshotRepo.write_if_due. destruct (_ <? n)%Z; [by eexists|].
    destruct (new _) as [f|]; [|by eexists]. rewrite fold_log_reads; [|done|].
    + cbn. by destruct (apply_all _ _ _ _); eexists.
    + apply Nat.lt_succ_r. apply List.filter_length_le.
  - intros s Hl. apply head_Some_elem_of in Hl. unfold SnapshotRepo.consistent in Hl.
    rewrite elem_of_sort_by, list_elem_of_In, filter_In, <- list_elem_of_In in Hl. destruct Hl as [Hin Hs].
    rewrite Forall_forall in Hcov. destruct (Hcov s Hin Hs) as (Hle & f & Hf & Hp).
    destruct (new_state f (Snapshot.payload s)) as (g & Hg & Hgf & _).
    { eapply apply_all_wf; [apply empty_wf|exact Hf]. } { done. }
    exists g. split; [done|]. rewrite (prefix_rest l (Snapshot.seq s)) at 2 by done.
    rewrite apply_all_app, Hf. by apply apply_all_same.
Qed.
End Property.

(** *** A created task, a snapshot, and a change after it *)
Definition created : EventEnvelope :=
  Envelope.new (mkId 101) 5 ActorOps.user
    (Event.TaskCreated (NewTask.new (lit "write") <| NewTask.id := Some (mkId 1) |>)).
Definition moved : EventEnvelope :=
  Envelope.new (mkId 102) 7 ActorOps.user (Event.TaskStatusChanged (mkId 1) Todo Done).
Definition log_before : EventLog := (EventStore.append_batch EventStore.empty [created]).2.
Definition log_after : EventLog := (EventStore.append_batch log_before [moved]).2.
Definition served : SnapshotTable :=
  match SnapshotRepo.write_if_due (mkId 0) 6 (lit "s") [] log_before 1 with Some (_, t) => t | None => [] end.

Lemma snapshot_bootstrap_is_replay_witness :
  exists s f, SnapshotRepo.latest served = Some s /\ Snapshot.seq s = 1%Z /\
    ProjectionFold.new (Some (Snapshot.payload s)) = Ok f /\
    agree (≡) (ProjectionFold.apply_all (mkId 0) 0 f
                 (List.filter (fun e => Snapshot.seq s <? Envelope.seq e)%Z (EventStore.rows log_after)))
              (ProjectionFold.apply_all (mkId 0) 0 ProjectionFold.empty (EventStore.rows log_after)).
Proof.
  destruct (snapshot_bootstrap_is_replay (mkId 0) 0 [] EventStore.empty served log_after) as [_ H].
  - apply wf_empty_log.
  - constructor.
  - constructor.
  - eapply rtc_l; [apply (SnapshotSpec.step_append [] EventStore.empty [created]
      (match EventStore.append_batch EventStore.empty [created] with (Ok o, _) => o | _ => [] end) log_before);
      [repeat constructor; by eexists|by vm_compute]|].
    eapply rtc_l; [apply (SnapshotSpec.step_write (mkId 0) 6 (lit "s") 1 [] log_before (Ok (Some 1%Z)) served);
      by vm_compute|].
    eapply rtc_l; [apply (SnapshotSpec.step_append served log_before [moved]
      (match EventStore.append_batch log_before [moved] with (Ok o, _) => o | _ => [] end) log_after);
      [repeat constructor|by vm_compute]|]. apply rtc_refl.
  - destruct (SnapshotRepo.latest served) as [s|] eqn:E; [|by vm_compute in E].
    destruct (H s eq_refl) as (f & Hf & Ha). exists s, f. split; [done|]. split; [|by split].
    revert E. vm_compute. by intros [= <-].
Defined.
