(* ===== verification/Outbox.v ===== *)
(** * apps/desktop: the database of a device, its outbox and the flush

    A device works on a replica of the server's projections in one SQLite file
    ([Device]).  Local commands write through [OutboundStore], which queues every
    event with its commit ([Outbox], outbox.rs); [flush_pending] (flush.rs) pushes
    the queue to the server.  [M] is the state and error monad of the client: a
    state that holds what the network does next where a function talks to the
    server, and [None] where a loop over the server's pages ran out of fuel. *)

From S2P Require Import Prelude Shared TaskModel PlanModel RegistryModel Events EventStore TaskStore PlanStore RunStore ActivityStore WorkStore ProjectStore SnapshotStore.

Create HintDb client.

(** ** The monad *)
Module Client.
Definition M (S A : Type) : Type := S -> option (Result CoreError A * S).

#[global] Instance M_ret S : MRet (M S) := fun A a s => Some (Ok a, s).
#[global] Instance M_bind S : MBind (M S) := fun A B f m s =>
  match m s with
  | Some (Ok a, s) => f a s
  | Some (Err e, s) => Some (Err e, s)
  | None => None
  end.

Section Ops.
Context {S : Type}.
Definition fail {A} (e : CoreError) : M S A := fun s => Some (Err e, s).
Definition gets {A} (f : S -> A) : M S A := fun s => Some (Ok (f s), s).
Definition modify (f : S -> S) : M S unit := fun s => Some (Ok tt, f s).
Definition lift {A} (r : Result CoreError A) : M S A := fun s => Some (r, s).
Definition some_or {A} (e : CoreError) (o : option A) : M S A :=
  match o with Some a => mret a | None => fail e end.
Definition guard_ (b : bool) (e : CoreError) : M S unit := if b then mret tt else fail e.
Definition stuck {A} : M S A := fun _ => None.
(** A transaction that commits at its end: an error rolls it back. *)
Definition transaction {A} (m : M S A) : M S A := fun s =>
  match m s with
  | Some (Err e, _) => Some (Err e, s)
  | r => r
  end.

Fixpoint forM {A} (f : A -> M S unit) (l : list A) : M S unit :=
  match l with
  | [] => mret tt
  | x :: l => _ ← f x; forM f l
  end.
End Ops.

(** The client's state: the world outside, then its own database. *)
Definition on_world {W D A} (m : M W A) : M (W * D) A := fun s =>
  match m s.1 with
  | Some (r, w) => Some (r, (w, s.2))
  | None => None
  end.
Definition on_device {W D A} (m : M D A) : M (W * D) A := fun s =>
  match m s.2 with
  | Some (r, d) => Some (r, (s.1, d))
  | None => None
  end.

(** What a client does stays within a relation on its state. *)
Definition within {S A} (R : relation S) (m : M S A) : Prop :=
  forall s r s', m s = Some (r, s') -> R s s'.
End Client.

Module ClientFacts.
Import Client.

Section Within.
Context {S : Type} (R : relation S) `{!PreOrder R}.

Lemma within_ret {A} (a : A) : within R (mret a).
Proof. by intros s r s' [= <- <-]. Qed.
Lemma within_bind {A B} (m : M S A) (f : A -> M S B) :
  within R m -> (forall a, within R (f a)) -> within R (m ≫= f).
Proof.
  intros Hm Hf s r s'. unfold mbind, M_bind. destruct (m s) as [[[a|e] s1]|] eqn:E; [|by intros [= <- <-]; eapply Hm|done].
  intros H. etrans; [by eapply Hm|by eapply Hf].
Qed.
Lemma within_fail {A} e : within R (fail (A := A) e).
Proof. by intros s r s' [= <- <-]. Qed.
Lemma within_gets {A} (f : S -> A) : within R (gets f).
Proof. by intros s r s' [= <- <-]. Qed.
Lemma within_lift {A} (r : Result CoreError A) : within R (lift r).
Proof. by intros s r' s' [= <- <-]. Qed.
Lemma within_some_or {A} e (o : option A) : within R (some_or e o).
Proof. destruct o; [apply within_ret|apply within_fail]. Qed.
Lemma within_guard b e : within R (guard_ b e).
Proof. destruct b; [apply within_ret|apply within_fail]. Qed.
Lemma within_modify f : (forall s, R s (f s)) -> within R (modify f).
Proof. intros Hf s r s' [= <- <-]. apply Hf. Qed.
Lemma within_stuck {A} : within R (stuck (A := A)).
Proof. done. Qed.
Lemma within_transaction {A} (m : M S A) : within R m -> within R (transaction m).
Proof.
  intros Hm s r s'. unfold transaction. destruct (m s) as [[[a|e] s1]|] eqn:E; intros [= <- <-]; [by eapply Hm|done].
Qed.
Lemma within_forM {A} (f : A -> M S unit) l : (forall a, within R (f a)) -> within R (forM f l).
Proof. intros Hf. induction l; cbn [forM]; [apply within_ret|]. apply within_bind; auto. Qed.
Lemma within_if {A} (b : bool) (m m' : M S A) : within R m -> within R m' -> within R (if b then m else m').
Proof. by destruct b. Qed.
End Within.

Lemma within_on_world {W D A} (R : relation (W * D)) (m : M W A) :
  (forall d, within (fun w w' => R (w, d) (w', d)) m) -> within R (on_world m).
Proof.
  intros Hm [w d] r [w' d']. unfold on_world. cbn. destruct (m w) as [[r1 w1]|] eqn:E; [|done].
  intros [= <- <- <-]. exact (Hm d _ _ _ E).
Qed.
Lemma within_on_device {W D A} (R : relation (W * D)) (m : M D A) :
  (forall w, within (fun d d' => R (w, d) (w, d')) m) -> within R (on_device m).
Proof.
  intros Hm [w d] r [w' d']. unfold on_device. cbn. destruct (m d) as [[r1 d1]|] eqn:E; [|done].
  intros [= <- <- <-]. exact (Hm w _ _ _ E).
Qed.
Lemma PreOrder_eq_on {S B} (f : S -> B) : PreOrder (fun s s' : S => f s' = f s).
Proof. split; [done|]. intros s1 s2 s3 H1 H2. congruence. Qed.
Lemma within_mono {S A} (R R' : relation S) (m : M S A) :
  (forall s s', R s s' -> R' s s') -> within R m -> within R' m.
Proof. intros HR Hm s r s' H. by eapply HR, Hm. Qed.

(** Follow the structure of a monadic term; lemmas in [client] are its leaves. *)
Ltac frame := repeat first
  [ solve [eauto 2 with client]
  | lazymatch goal with
    | |- within _ (_ ≫= _) => eapply within_bind; [apply _| |intros ?]
    | |- within _ (transaction _) => eapply within_transaction; [apply _|]
    | |- within _ (forM _ _) => eapply within_forM; [apply _|intros ?]
    | |- within _ (mret _) => apply within_ret; apply _
    | |- within _ (fail _) => apply within_fail; apply _
    | |- within _ (gets _) => apply within_gets; apply _
    | |- within _ (lift _) => apply within_lift; apply _
    | |- within _ (guard_ _ _) => apply within_guard; apply _
    | |- within _ (some_or _ _) => apply within_some_or; apply _
    | |- within _ (modify _) => apply within_modify; intros; done
    | |- within _ (match ?x with _ => _ end) => destruct x
    end ].
End ClientFacts.


(** ** The database of a device *)
Module OutboxRow.
Record OutboxRow : Type := mk {
  id : Z;
  origin_device_id : DeviceId;
  origin_seq : Z;
  envelope : EventEnvelope;
  flushed_at : option Z }.
#[global] Instance OutboxRow_rebuild : Rebuild OutboxRow := fun r =>
  mk (id r) (origin_device_id r) (origin_seq r) (envelope r) (flushed_at r).
End OutboxRow.
Abbreviation OutboxRow := OutboxRow.OutboxRow.

Module Device.
(** [tables] holds the rows of the projectors a device runs besides the feed;
    [outbox], [rejected], [unprojected], [unechoed] and [unconfirmed] are the
    tables [desktop_outbox], [desktop_outbox_rejected] and so on, [device_id] and
    [log_checked] the row of [desktop_device], [no_owner] whether
    [desktop_no_owner] has its row, the rest the row of [desktop_replica_state]. *)
Record Device : Type := mk {
  log : EventLog;
  tables : ProjectionFold.Fold;
  activity : ActivityRepo.ActivityTable;
  outbox : list OutboxRow;
  rejected : gmap Z (Z * Str);
  unprojected : gset EventId;
  unechoed : gset EventId;
  unconfirmed : gset EventId;
  device_id : DeviceId;
  log_checked : bool;
  no_owner : bool;
  server_seq : Z;
  baseline_verified : bool;
  projections_verified : bool;
  order_verified : bool;
  ordered_local_seq : Z }.
#[global] Instance Device_rebuild : Rebuild Device := fun d =>
  mk (log d) (tables d) (activity d) (outbox d) (rejected d) (unprojected d) (unechoed d) (unconfirmed d)
     (device_id d) (log_checked d) (no_owner d) (server_seq d) (baseline_verified d) (projections_verified d)
     (order_verified d) (ordered_local_seq d).

(** [ensure_schema] of the outbox and of the replica on a new file. *)
Definition fresh (id : DeviceId) : Device :=
  mk EventStore.empty ProjectionFold.empty [] [] ∅ ∅ ∅ ∅ id false false 0 false false false 0.
End Device.
Abbreviation Device := Device.Device.

(** ** The server as the client sees it: replica.rs [ReplicaSource], flush.rs
    [RemoteEventSink].  A request may change the world even when it fails. *)
Inductive PushOutcome : Type :=
| Accepted
| Rejected (status : Z) (code : Str).

Class ReplicaSource (W : Type) : Type := {
  fetch_events : Z -> nat -> Client.M W (list EventEnvelope);
  fetch_snapshot : Client.M W (option Snapshot) }.
Class RemoteEventSink (W : Type) : Type := {
  push : EventEnvelope -> Client.M W PushOutcome }.

Module Outbox.
Import Client Device.

(** *** Whose replica this is *)
Definition note_if_empty : M Device unit :=
  modify (fun d =>
    if (server_seq d =? 0)%Z && bool_decide (EventStore.rows (log d) = [])
       && bool_decide (TaskRepo.rows (ProjectionFold.tasks (tables d)) = ∅)
       && bool_decide (ProjectRepo.projects (ProjectionFold.projects (tables d)) = ∅)
       && bool_decide (length (outbox d) = 0%nat) && bool_decide (rejected d = ∅)
    then d <| no_owner := true |> else d).
Definition note_owner : M Device unit := modify (fun d => d <| no_owner := false |>).

Definition is_flushed (r : OutboxRow) : bool := bool_decide (is_Some (OutboxRow.flushed_at r)).
Definition has_unknown_past : M Device bool :=
  gets (fun d => negb (no_owner d) || (0 <? server_seq d)%Z || existsb is_flushed (outbox d)
                 || negb (bool_decide (rejected d = ∅))).

(** *** The queue *)
Definition has_origin (dev : DeviceId) (seq : Z) (r : OutboxRow) : bool :=
  bool_decide (OutboxRow.origin_device_id r = dev) && (OutboxRow.origin_seq r =? seq)%Z.

(** [INSERT OR IGNORE]; no row is ever deleted, so the row ids count up. *)
Definition enqueue_on (dev : DeviceId) (seq : Z) (e : EventEnvelope) : M Device bool := fun d =>
  let e := e <| Envelope.origin_device_id := Some dev |> <| Envelope.origin_seq := seq |> in
  if existsb (has_origin dev seq) (outbox d) then Some (Ok false, d)
  else Some (Ok true,
    d <| outbox := outbox d ++ [OutboxRow.mk (Z.of_nat (length (outbox d)) + 1) dev seq e None] |>).

Definition last_origin_seq (d : Device) (dev : DeviceId) : option Z :=
  max_of (map OutboxRow.origin_seq
    (List.filter (fun r => bool_decide (OutboxRow.origin_device_id r = dev)) (outbox d))).
Definition enqueue_next (dev : DeviceId) (e : EventEnvelope) : M Device unit :=
  last ← gets (fun d => last_origin_seq d dev);
  queued ← enqueue_on dev (Z.max 0 (default 0%Z last) + 1) e;
  guard_ queued (Storage "outbox already holds {origin_device_id} seq {origin_seq}").

Definition is_pending (d : Device) (r : OutboxRow) : bool :=
  negb (is_flushed r) && bool_decide (rejected d !! OutboxRow.id r = None).
(** [ORDER BY seq, origin_device_id, origin_seq]: the text of a uuid has a fixed
    width, so it sorts as its number. *)
Definition pending_le (a b : OutboxRow) : bool :=
  let sa := Envelope.seq (OutboxRow.envelope a) in
  let sb := Envelope.seq (OutboxRow.envelope b) in
  let da := as_uuid (OutboxRow.origin_device_id a) in
  let db := as_uuid (OutboxRow.origin_device_id b) in
  (sa <? sb)%Z
  || ((sa =? sb)%Z
      && ((da <? db)%N || ((da =? db)%N && (OutboxRow.origin_seq a <=? OutboxRow.origin_seq b)%Z))).
Definition all_pending (d : Device) : list OutboxRow :=
  sort_by pending_le (List.filter (is_pending d) (outbox d)).
Definition pending (limit : nat) : M Device (list OutboxRow) :=
  gets (fun d => take (Nat.max 1 limit) (all_pending d)).

(** *** What an older binary may have lost *)
Definition OLD_BINARY_KINDS : list string :=
  ["task_created"; "task_status_changed"; "task_completed"; "task_closed"; "task_deleted"]%string.

Definition queued_ids (d : Device) : list EventId :=
  map (fun r => Envelope.id (OutboxRow.envelope r)) (outbox d).
Definition lost_candidates (d : Device) (local_tip : Z) : list EventId :=
  map Envelope.id (List.filter (fun e =>
    (Envelope.seq e <=? local_tip)%Z
    && bool_decide (Envelope.origin_device_id e = None)
    && bool_decide (Envelope.actor e = ActorOps.user)
    && bool_decide (Event.kind (Envelope.payload e) ∈ OLD_BINARY_KINDS)
    && negb (bool_decide (Envelope.id e ∈ queued_ids d))) (EventStore.rows (log d))).

(** [unconfirmed]: the rows of the log on record, in log order. *)
Definition unconfirmed_events (d : Device) : list EventEnvelope :=
  List.filter (fun e => bool_decide (Envelope.id e ∈ unconfirmed d)) (EventStore.rows (log d)).

(** [entry(task).or_insert(seq)]. *)
Fixpoint held_from (d : Device) (held : gmap TaskId Z) (es : list EventEnvelope)
  : Result CoreError (gmap TaskId Z) :=
  match es with
  | [] => Ok held
  | u :: es =>
      match EventStore.load_by_id (log d) (Envelope.id u) with
      | None => Err (Storage "{} left the log")
      | Some e =>
          held_from d
            match Event.target_task (Envelope.payload e) with
            | Some t => match held !! t with Some _ => held | None => <[t := Envelope.seq e]> held end
            | None => held
            end es
      end
  end.
Definition held_tasks : M Device (gmap TaskId Z) := fun d =>
  Some (held_from d ∅ (unconfirmed_events d), d).

Definition waits_for_held (held : gmap TaskId Z) (r : OutboxRow) : bool :=
  match Event.target_task (Envelope.payload (OutboxRow.envelope r)) with
  | Some t => match held !! t with
              | Some first => (first <? Envelope.seq (OutboxRow.envelope r))%Z
              | None => false
              end
  | None => false
  end.

(** [pending(u32::MAX)] is the whole queue. *)
Definition sendable (limit : nat) : M Device (list OutboxRow) :=
  held ← held_tasks;
  if bool_decide (held = ∅) then pending limit
  else gets (fun d =>
    take (Nat.max 1 limit) (List.filter (fun r => negb (waits_for_held held r)) (all_pending d))).

Definition held_back : M Device nat :=
  held ← held_tasks;
  gets (fun d => length (List.filter (waits_for_held held) (all_pending d))).

Section Remote.
Context {W : Type} `{ReplicaSource W}.

(** The page loop over the whole server log. *)
Fixpoint all_ids (fuel : nat) (limit : nat) (since : Z) (ids : gset EventId) : M W (gset EventId) :=
  match fuel with
  | O => stuck
  | S fuel =>
      page ← fetch_events since limit;
      match last page with
      | None => mret ids
      | Some e => all_ids fuel limit (Envelope.seq e) (ids ∪ list_to_set (map Envelope.id page))
      end
  end.
Definition server_event_ids (fuel : nat) (limit : nat) (cursor : Z) : M W (gset EventId) :=
  ids ← all_ids fuel limit 0 ∅;
  _ ← guard_ (negb ((0 <? cursor)%Z && bool_decide (ids = ∅)))
        (Sync "server log is empty but the replica cursor is at {cursor}");
  mret ids.

Definition find_lost (fuel limit : nat) : M (W * Device) unit :=
  d ← on_device (gets id);
  if log_checked d then mret tt
  else
    let local_tip := default 0%Z (max_of (map Envelope.seq (EventStore.rows (log d)))) in
    server_ids ← match lost_candidates d local_tip with
                 | [] => mret ∅
                 | _ => on_world (server_event_ids fuel limit (server_seq d))
                 end;
    on_device (modify (fun d =>
      let lost := List.filter (fun i => negb (bool_decide (i ∈ server_ids))) (lost_candidates d local_tip) in
      d <| unconfirmed := unconfirmed d ∪ list_to_set lost |> <| log_checked := true |>)).

Definition requeue_unconfirmed (dev : DeviceId) (server_ids : gset EventId) (u : EventEnvelope)
  : M Device unit :=
  if bool_decide (Envelope.id u ∈ server_ids) then mret tt
  else
    logged ← gets (fun d => EventStore.load_by_id (log d) (Envelope.id u));
    event ← some_or (Storage "{} left the log") logged;
    enqueue_next dev event.

Definition restore_lost (fuel limit : nat) : M (W * Device) nat :=
  d ← on_device (gets id);
  if bool_decide (length (unconfirmed_events d) = 0%nat) then mret 0%nat
  else
    server_ids ← on_world (server_event_ids fuel limit (server_seq d));
    on_device (transaction (
      us ← gets unconfirmed_events;
      _ ← forM (requeue_unconfirmed (device_id d) server_ids) us;
      _ ← modify (fun d => d <| unconfirmed := ∅ |>);
      mret (length (List.filter (fun u => negb (bool_decide (Envelope.id u ∈ server_ids))) us)))).
End Remote.

(** *** Answers of the server *)
Definition mark_projected (es : list EventEnvelope) : M Device unit :=
  modify (fun d => d <| unprojected := unprojected d ∖ list_to_set (map Envelope.id es) |>).

Definition mark_flushed (now : Z) (id : Z) : M Device bool := fun d =>
  let hit r := bool_decide (OutboxRow.id r = id) && negb (is_flushed r) in
  Some (Ok (existsb hit (outbox d)),
    d <| outbox := map (fun r => if hit r then r <| OutboxRow.flushed_at := Some now |> else r) (outbox d) |>).

(** [INSERT OR IGNORE]; the foreign key is checked all the same. *)
Definition mark_rejected (id status : Z) (code : Str) : M Device unit := fun d =>
  if existsb (fun r => bool_decide (OutboxRow.id r = id)) (outbox d) then
    Some (Ok tt, match rejected d !! id with
                 | Some _ => d
                 | None => d <| rejected := <[id := (status, code)]> (rejected d) |>
                 end)
  else Some (Err (Storage "FOREIGN KEY constraint failed"), d).

Definition requeue_rejected : M Device nat :=
  n ← gets (fun d => size (rejected d));
  _ ← modify (fun d => d <| rejected := ∅ |>);
  mret n.
Definition rejected_count : M Device nat := gets (fun d => size (rejected d)).
End Outbox.

(** ** The store of local commands *)
Module OutboundStore.
Import Client Device Outbox.

Definition append_tx (e : EventEnvelope) : M Device EventEnvelope := fun d =>
  match EventStore.append (log d) e with
  | Ok (e, l) => Some (Ok e, d <| log := l |>)
  | Err err => Some (Err err, d)
  end.
(** [INSERT] into a table whose primary key is the event id. *)
Definition insert_id (get : Device -> gset EventId) (set : gset EventId -> Device -> Device) (id : EventId)
  : M Device unit := fun d =>
  if bool_decide (id ∈ get d) then Some (Err (Storage "UNIQUE constraint failed: event_id"), d)
  else Some (Ok tt, set ({[id]} ∪ get d) d).

Definition append_one (e : EventEnvelope) : M Device EventEnvelope :=
  e ← append_tx e;
  dev ← gets device_id;
  _ ← enqueue_next dev e;
  _ ← insert_id unprojected (fun s d => d <| unprojected := s |>) (Envelope.id e);
  _ ← insert_id unechoed (fun s d => d <| unechoed := s |>) (Envelope.id e);
  mret e.
Fixpoint append_each (es : list EventEnvelope) : M Device (list EventEnvelope) :=
  match es with
  | [] => mret []
  | e :: es => p ← append_one e; ps ← append_each es; mret (p :: ps)
  end.
Definition append_batch (es : list EventEnvelope) : M Device (list EventEnvelope) :=
  transaction (append_each es).
End OutboundStore.

(** ** local_executor.rs: a local command

    [es] are the events its handler made; the projectors of the device run over
    them after the commit, and [mark_projected] records that they did. *)
Module LocalExecutor.
Import Client Device.

Section Execute.
Context (display : N -> Str) (serde : Serde) (fresh : TaskId) (now : Z).

Definition project_tables (e : EventEnvelope) : M Device unit := fun d =>
  match ProjectionFold.apply fresh now (tables d) e with
  | Ok f => Some (Ok tt, d <| tables := f |>)
  | Err err => Some (Err err, d)
  end.
(** No command of a device touches plans and runs, which only the feed reads. *)
Definition project_activity (e : EventEnvelope) : M Device unit :=
  modify (fun d => d <| activity :=
    ActivityRepo.apply_event display serde PlanRepo.empty RunRepo.empty (activity d) e |>).
Definition project (e : EventEnvelope) : M Device unit :=
  _ ← project_tables e; project_activity e.

Definition dispatch (es : list EventEnvelope) : M Device (list EventEnvelope) :=
  persisted ← OutboundStore.append_batch es;
  _ ← forM project persisted;
  _ ← Outbox.mark_projected persisted;
  mret persisted.
End Execute.
End LocalExecutor.

(** ** flush.rs *)
Module Flush.
Import Client Device.

Record FlushStats : Type := mkStats {
  attempted : nat;
  flushed : nat;
  rejected : nat }.

Section Flush.
Context {W : Type} `{RemoteEventSink W} (now : Z).

Fixpoint flush_entries (entries : list OutboxRow) (flushed rejected : nat) : M (W * Device) (nat * nat) :=
  match entries with
  | [] => mret (flushed, rejected)
  | r :: entries =>
      outcome ← on_world (push (OutboxRow.envelope r));
      match outcome with
      | Accepted =>
          hit ← on_device (Outbox.mark_flushed now (OutboxRow.id r));
          flush_entries entries (if (hit : bool) then S flushed else flushed) rejected
      | Rejected status code =>
          _ ← on_device (Outbox.mark_rejected (OutboxRow.id r) status code);
          flush_entries entries flushed (S rejected)
      end
  end.
Definition flush_pending (limit : nat) : M (W * Device) FlushStats :=
  pending ← on_device (Outbox.sendable limit);
  n ← flush_entries pending 0 0;
  mret (mkStats (length pending) (fst n) (snd n)).
End Flush.
End Flush.
