(* ===== verification/Replica.v ===== *)
(** * apps/desktop/replica.rs: catch-up from the server's log

    A device reads the server's log behind its own cursor and applies it to its
    projections.  [catch_up] bootstraps a new device from a snapshot, repairs a
    device whose rows may not match its cursor ([rebuild_from_log]) and applies
    what is new ([apply_remote_event]).  Every write transaction is one
    [transaction]; one sync runs at a time. *)

From S2P Require Import Prelude Shared TaskModel PlanModel RegistryModel Events EventStore TaskStore PlanStore RunStore ActivityStore WorkStore ProjectStore SnapshotStore Outbox.

Module Replica.
Import Client Device.

Definition LOCAL_LOG_PAGE_SIZE : nat := 1000.

Record CatchUpStats : Type := mkStats {
  fetched : nat;
  applied : nat;
  server_seq_reached : Z }.

(** SQL [VERIFIED]. *)
Definition verified (d : Device) : bool :=
  baseline_verified d && projections_verified d && order_verified d.

Definition advance_server_seq (seq : Z) : M Device unit :=
  modify (fun d => d <| server_seq := Z.max (server_seq d) seq |>).
Definition mark_verified_baseline (seq : Z) : M Device unit :=
  modify (fun d => d <| server_seq := seq |> <| baseline_verified := true |> <| projections_verified := true |>
                     <| order_verified := true |> <| ordered_local_seq := 0%Z |>).

(** ** Order *)
Definition same_subject (a b : Event) : bool :=
  let same {A} `{EqDecision A} (x y : option A) := bool_decide (is_Some x) && bool_decide (x = y) in
  same (Event.target_task a) (Event.target_task b) || same (Event.target_project a) (Event.target_project b).

(** [overtaken]: the page loop; each page moves the position, so the rows of
    the log are rounds enough. *)
Fixpoint overtaken_from (fuel : nat) (d : Device) (echo : EventEnvelope) (ordered local_seq : Z) : bool :=
  match fuel with
  | O => false
  | S fuel =>
      if (local_seq <? ordered)%Z then
        let page := EventStore.load_since (log d) local_seq LOCAL_LOG_PAGE_SIZE in
        match last page with
        | None => false
        | Some e =>
            existsb (fun x => (Envelope.seq x <=? ordered)%Z
                              && same_subject (Envelope.payload echo) (Envelope.payload x)
                              && negb (bool_decide (Envelope.id x ∈ unechoed d))) page
            || overtaken_from fuel d echo ordered (Envelope.seq e)
        end
      else false
  end.
Definition overtaken (d : Device) (echo : EventEnvelope) (ordered : Z) : bool :=
  overtaken_from (S (length (EventStore.rows (log d)))) d echo ordered (Envelope.seq echo).

(** ** The rows of a fold in place of those of the device *)
Definition delete_task (t : TaskTable) (id : TaskId) : TaskTable :=
  TaskRepo.mk (delete id (TaskRepo.rows t)) (delete id (TaskRepo.notified t)).
Definition restore_snapshot (payload : ProjectionSnapshot) : M Device unit := fun d =>
  match ProjectionFold.restore (tables d) payload with
  | Ok f => Some (Ok tt, d <| tables := f |>)
  | Err e => Some (Err e, d)
  end.
(** The rows a replica keeps; the rest of the restored state is written over them. *)
Definition drop_stale (f : ProjectionFold.Fold) (state : ProjectionSnapshot) : ProjectionFold.Fold :=
  let kept_tasks := map Task.id (Snapshot.p_tasks state) in
  let kept_projects := map Project.id (Snapshot.p_projects state) in
  let stale_tasks := List.filter (fun i => negb (bool_decide (i ∈ kept_tasks)))
                       (map_to_list (TaskRepo.rows (ProjectionFold.tasks f))).*1 in
  let stale_projects := List.filter (fun i => negb (bool_decide (i ∈ kept_projects)))
                          (map_to_list (ProjectRepo.projects (ProjectionFold.projects f))).*1 in
  ProjectionFold.mk (foldl delete_task (ProjectionFold.tasks f) stale_tasks)
    (foldl (fun t i => (ProjectRepo.delete t i).2) (ProjectionFold.projects f) stale_projects) ∅.
Definition replace_projections (state : ProjectionSnapshot) : M Device unit :=
  _ ← modify (fun d => d <| tables := drop_stale (tables d) state |>);
  restore_snapshot state.

Section Texts.
Context (display : N -> Str) (serde : Serde) (fresh : TaskId) (now : Z).

(** [replace_activity]: the page loop over the whole local log. *)
Fixpoint feed_from (fuel : nat) (l : EventLog) (local_seq : Z) (t : ActivityRepo.ActivityTable)
  : ActivityRepo.ActivityTable :=
  match fuel with
  | O => t
  | S fuel =>
      let page := EventStore.load_since l local_seq LOCAL_LOG_PAGE_SIZE in
      match last page with
      | None => t
      | Some e => feed_from fuel l (Envelope.seq e)
                    (foldl (ActivityRepo.apply_event display serde PlanRepo.empty RunRepo.empty) t page)
      end
  end.
Definition replace_activity : M Device unit :=
  modify (fun d => d <| activity := feed_from (S (length (EventStore.rows (log d)))) (log d) 0 [] |>).

(** ** The repair *)

(** [fold_local_only] and the loop around it: the position reached and the fold. *)
Fixpoint fold_local (fuel : nat) (l : EventLog) (server_ids : gset EventId) (local_seq : Z)
    (f : ProjectionFold.Fold) : Result CoreError (Z * ProjectionFold.Fold) :=
  match fuel with
  | O => Ok (local_seq, f)
  | S fuel =>
      let page := EventStore.load_since l local_seq LOCAL_LOG_PAGE_SIZE in
      match last page with
      | None => Ok (local_seq, f)
      | Some e =>
          rbind (ProjectionFold.apply_all fresh now f
                   (List.filter (fun x => negb (bool_decide (Envelope.id x ∈ server_ids))) page))
                (fun f => fold_local fuel l server_ids (Envelope.seq e) f)
      end
  end.
Definition fold_local_only (d : Device) (server_ids : gset EventId) (local_seq : Z) (f : ProjectionFold.Fold)
  : Result CoreError (Z * ProjectionFold.Fold) :=
  fold_local (S (length (EventStore.rows (log d)))) (log d) server_ids local_seq f.

(** The write transaction that puts the fold in place; what other processes
    logged or read since [cursor] was taken is looked at again. *)
Definition adopt_fold (cursor : Z) (server_ids : gset EventId) (folded : Z * ProjectionFold.Fold)
  : M Device unit :=
  transaction (
    d ← gets id;
    if verified d then mret tt
    else
      folded ← lift (fold_local_only d server_ids (fst folded) (snd folded));
      _ ← replace_projections (ProjectionFold.state (snd folded));
      _ ← replace_activity;
      _ ← modify (fun d => d <| unprojected := ∅ |>);
      let current := Z.max 0 (server_seq d) in
      _ ← mark_verified_baseline (Z.max current cursor);
      if (cursor <? current)%Z then modify (fun d => d <| order_verified := false |>) else mret tt).

Section Remote.
Context {W : Type} `{ReplicaSource W}.

(** The server log up to [cursor], read in pages; a page of a server moves the
    position, so [cursor] bounds the rounds. *)
Fixpoint fold_server (fuel : nat) (limit : nat) (cursor since : Z) (f : ProjectionFold.Fold)
    (ids : gset EventId) : M W (ProjectionFold.Fold * gset EventId) :=
  match fuel with
  | O => stuck
  | S fuel =>
      if (since <? cursor)%Z then
        page ← fetch_events since limit;
        match last page with
        | None => mret (f, ids)
        | Some e =>
            let taken := List.filter (fun x => (Envelope.seq x <=? cursor)%Z) page in
            f ← lift (ProjectionFold.apply_all fresh now f taken);
            fold_server fuel limit cursor (Envelope.seq e) f (ids ∪ list_to_set (map Envelope.id taken))
        end
      else mret (f, ids)
  end.

Definition rebuild_from_log (limit : nat) : M (W * Device) nat :=
  cursor ← on_device (gets (fun d => Z.max 0 (server_seq d)));
  read ← on_world (fold_server (S (Z.to_nat cursor)) limit cursor 0 ProjectionFold.empty ∅);
  let server_ids := snd read in
  if (0 <? cursor)%Z && bool_decide (server_ids = ∅)
  then fail (Sync "server log is empty but the replica cursor is at {cursor}")
  else
    d ← on_device (gets id);
    folded ← lift (fold_local_only d server_ids 0 (fst read));
    _ ← on_device (adopt_fold cursor server_ids folded);
    mret (size server_ids).

(** ** First catch-up *)
Definition bootstrap_from_snapshot (s : Snapshot) : M Device unit :=
  transaction (_ ← restore_snapshot (Snapshot.payload s); mark_verified_baseline (Snapshot.seq s)).

(** ** One server event *)
Definition apply_echo (server_seq_ : Z) (echo : EventEnvelope) : M Device (option Z) :=
  d ← gets id;
  let behind := (Z.max 0 (server_seq d) <? server_seq_)%Z in
  _ ← (if behind && order_verified d && overtaken d echo (Z.max 0 (ordered_local_seq d))
       then modify (fun d => d <| order_verified := false |>) else mret tt);
  _ ← modify (fun d => d <| unechoed := unechoed d ∖ {[Envelope.id echo]} |>);
  mret (if behind then Some (Envelope.seq echo) else None).
Definition apply_new (event : EventEnvelope) : M Device (option Z) :=
  persisted ← OutboundStore.append_tx (event <| Envelope.seq := 0%Z |>);
  _ ← LocalExecutor.project display serde fresh now persisted;
  mret (Some (Envelope.seq persisted)).
Definition apply_remote_event (event : EventEnvelope) : M Device bool :=
  transaction (
    logged ← gets (fun d => EventStore.load_by_id (log d) (Envelope.id event));
    local_seq ← match logged with
                | Some echo => apply_echo (Envelope.seq event) echo
                | None => apply_new event
                end;
    _ ← advance_server_seq (Envelope.seq event);
    _ ← modify (fun d => d <| ordered_local_seq := Z.max (ordered_local_seq d) (default 0%Z local_seq) |>);
    mret (match logged with Some _ => false | None => true end)).

Fixpoint apply_each (events : list EventEnvelope) (applied : nat) (max_server_seq : Z)
  : M Device (nat * Z) :=
  match events with
  | [] => mret (applied, max_server_seq)
  | e :: events =>
      unseen ← apply_remote_event e;
      apply_each events (if (unseen : bool) then S applied else applied) (Z.max max_server_seq (Envelope.seq e))
  end.
Definition apply_remote_events (events : list EventEnvelope) : M Device CatchUpStats :=
  seq ← gets (fun d => Z.max 0 (server_seq d));
  r ← apply_each events 0 seq;
  mret (mkStats (length events) (fst r) (snd r)).

(** ** catch_up *)
Definition distrust_unprojected : M Device unit :=
  modify (fun d => if bool_decide (unprojected d = ∅) then d else d <| projections_verified := false |>).

Definition first_catch_up : M (W * Device) Z :=
  snapshot ← on_world fetch_snapshot;
  match snapshot with
  | Some s =>
      if Snapshot.is_consistent s
      then _ ← on_device (bootstrap_from_snapshot s); mret (Snapshot.seq s)
      else _ ← on_device (mark_verified_baseline 0); mret 0%Z
  | None => _ ← on_device (mark_verified_baseline 0); mret 0%Z
  end.

Definition repair (limit : nat) (always : bool) : M (W * Device) nat :=
  d ← on_device (gets id);
  if negb (verified d) && (always || (0 <? Z.max 0 (server_seq d))%Z || (0 <? EventStore.latest_seq (log d))%Z)
  then rebuild_from_log limit else mret 0%nat.

Definition catch_up (limit : nat) : M (W * Device) CatchUpStats :=
  _ ← on_device distrust_unprojected;
  repaired ← repair limit false;
  since ← on_device (gets (fun d => Z.max 0 (server_seq d)));
  since ← (if (since =? 0)%Z then first_catch_up else mret since);
  events ← on_world (fetch_events since limit);
  stats ← on_device (apply_remote_events events);
  reordered ← repair limit true;
  mret (mkStats (fetched stats + (repaired + reordered)) (applied stats) (server_seq_reached stats)).
End Remote.
End Texts.
End Replica.
