(* ===== verification/Delivery.v ===== *)
(** * What the outbox promises

    Every event a local command commits has one queue entry, which waits, or is a
    dead letter the server refused, or was accepted by the server, whatever
    commands, flushes, syncs and network failures follow; and a flush takes the
    head of the queue in the order of the log and does to each entry what the
    server answered.  [Logged] keeps the answers of a server next to it. *)

From Stdlib Require Import ZifyBool.
From S2P Require Import Prelude Shared TaskModel PlanModel RegistryModel Events EventStore TaskStore PlanStore RunStore ActivityStore WorkStore ProjectStore SnapshotStore Outbox Replica.

(** What the queue relies on: a push the server acknowledged is stored there, and
    no request takes an event away. *)
Class DeliveryLaws (W : Type) `{ReplicaSource W, RemoteEventSink W} : Type := {
  has : W -> EventId -> Prop;
  push_accepted e w w' : push e w = Some (Ok Accepted, w') -> has w' (Envelope.id e);
  push_keeps e w r w' i : push e w = Some (r, w') -> has w i -> has w' i;
  fetch_keeps since limit w r w' i : fetch_events since limit w = Some (r, w') -> has w i -> has w' i;
  snapshot_keeps w r w' i : fetch_snapshot w = Some (r, w') -> has w i -> has w' i }.

(** A record of the answers to the pushes so far, which requests only extend. *)
Class AnswerRecord (W : Type) `{ReplicaSource W, RemoteEventSink W} : Type := {
  answered : W -> EventId -> PushOutcome -> Prop;
  push_answered e w o w' : push e w = Some (Ok o, w') -> answered w' (Envelope.id e) o;
  push_recalls e w r w' i o : push e w = Some (r, w') -> answered w i o -> answered w' i o;
  fetch_recalls since limit w r w' i o :
    fetch_events since limit w = Some (r, w') -> answered w i o -> answered w' i o;
  snapshot_recalls w r w' i o : fetch_snapshot w = Some (r, w') -> answered w i o -> answered w' i o }.

(** Any server with the list of the answers it gave.  The instances are for those
    who ask for them: a search for an unknown server would build records of
    records without end. *)
Record Logged (W : Type) : Type := mkLogged {
  inner : W;
  replies : list (EventId * PushOutcome) }.
Arguments mkLogged {W} inner replies.
Arguments inner {W} l.
Arguments replies {W} l.
Section Logged.
Context {W : Type} `{ReplicaSource W, RemoteEventSink W}.

Definition logging {A} (note : A -> list (EventId * PushOutcome)) (m : Client.M W A) : Client.M (Logged W) A :=
  fun l => match m (inner l) with
           | Some (Ok a, w) => Some (Ok a, mkLogged w (replies l ++ note a))
           | Some (Err e, w) => Some (Err e, mkLogged w (replies l))
           | None => None
           end.
Definition logged_source : ReplicaSource (Logged W) := {|
  fetch_events since limit := logging (fun _ => []) (fetch_events since limit);
  fetch_snapshot := logging (fun _ => []) fetch_snapshot |}.
Definition logged_sink : RemoteEventSink (Logged W) := {|
  push e := logging (fun o => [(Envelope.id e, o)]) (push e) |}.

Lemma logging_inv {A} note (m : Client.M W A) l r l' :
  logging note m l = Some (r, l') ->
  m (inner l) = Some (r, inner l') /\
  replies l' = replies l ++ match r with Ok a => note a | Err _ => [] end.
Proof.
  unfold logging. destruct (m (inner l)) as [[[a|e] w]|]; intros [= <- <-]; [done|]. by rewrite app_nil_r.
Qed.
Lemma logging_recalls {A} note (m : Client.M W A) l r l' x :
  logging note m l = Some (r, l') -> x ∈ replies l -> x ∈ replies l'.
Proof. intros [_ ->]%logging_inv Hx. apply elem_of_app. by left. Qed.
#[local] Existing Instances logged_source logged_sink.
Definition logged_answers : AnswerRecord (Logged W).
Proof.
  refine {| answered := fun l i o => (i, o) ∈ replies l |}.
  - intros e l o l' [_ ->]%logging_inv. apply elem_of_app. right. left.
  - intros e l r l' i o. apply logging_recalls.
  - intros since limit l r l' i o. apply logging_recalls.
  - intros l r l' i o. apply logging_recalls.
Defined.
Definition logged_delivers `{!DeliveryLaws W} : DeliveryLaws (Logged W).
Proof.
  refine {| has := fun l i => has (inner l) i |}.
  - intros e l l' [E _]%logging_inv. by eapply push_accepted.
  - intros e l r l' i [E _]%logging_inv. by eapply push_keeps.
  - intros since limit l r l' i [E _]%logging_inv. by eapply fetch_keeps.
  - intros l r l' i [E _]%logging_inv. by eapply snapshot_keeps.
Defined.
End Logged.

Module DeliverySpec.
Import Client Device Outbox.

(** A queue entry without the mark of its delivery. *)
Definition entry (r : OutboxRow) : OutboxRow := r <| OutboxRow.flushed_at := None |>.
(** Where a row stands: pending, or a dead letter with the refusal of the server,
    or taken by the server, which has it. *)
Definition safe {W} `{ReplicaSource W} `{RemoteEventSink W} `{!DeliveryLaws W} `{!AnswerRecord W}
    (w : W) (d : Device) (r : OutboxRow) : Prop :=
  let i := Envelope.id (OutboxRow.envelope r) in
  r ∈ all_pending d
  \/ (exists status code, rejected d !! OutboxRow.id r = Some (status, code) /\ answered w i (Rejected status code))
  \/ (is_flushed r = true /\ answered w i Accepted /\ has w i).
(** The envelope as it travels: stamped with its device and number. *)
Definition stamped (dev : DeviceId) (e : EventEnvelope) (r : OutboxRow) : Prop :=
  OutboxRow.origin_device_id r = dev /\
  OutboxRow.envelope r =
    e <| Envelope.origin_device_id := Some dev |> <| Envelope.origin_seq := OutboxRow.origin_seq r |>.

Section Step.
Context {W : Type} `{ReplicaSource W} `{RemoteEventSink W} `{!DeliveryLaws W} `{!AnswerRecord W}.

(** What a device does, with every outcome, and what happens to the server. *)
Inductive step : W * Device -> W * Device -> Prop :=
| step_command display serde fresh now es r w d d' :
    LocalExecutor.dispatch display serde fresh now es d = Some (r, d') -> step (w, d) (w, d')
| step_flush now limit r s s' : Flush.flush_pending now limit s = Some (r, s') -> step s s'
| step_sync display serde fresh now limit r s s' :
    Replica.catch_up display serde fresh now limit s = Some (r, s') -> step s s'
| step_find_lost fuel limit r s s' : find_lost fuel limit s = Some (r, s') -> step s s'
| step_restore_lost fuel limit r s s' : restore_lost fuel limit s = Some (r, s') -> step s s'
| step_requeue r w d d' : requeue_rejected d = Some (r, d') -> step (w, d) (w, d')
| step_world w w' d :
    (forall i, has w i -> has w' i) -> (forall i o, answered w i o -> answered w' i o) -> step (w, d) (w', d).

(** The pushes of a flush and their answers, in order. *)
Inductive pushes : W -> list OutboxRow -> list PushOutcome -> W -> Prop :=
| pushes_nil w : pushes w [] [] w
| pushes_cons w r rs o os w1 w2 :
    push (OutboxRow.envelope r) w = Some (Ok o, w1) -> pushes w1 rs os w2 -> pushes w (r :: rs) (o :: os) w2.
End Step.

(** What a flush sends: the head of the queue, without what waits for a held event. *)
Definition sent (d : Device) (limit : nat) (held : gmap TaskId Z) : list OutboxRow :=
  take (Nat.max 1 limit) (List.filter (fun r => negb (waits_for_held held r)) (all_pending d)).
(** What the answers [os] to the pushes of [q] do to the device: an accepted entry
    is marked with the time, a refused one is a dead letter with the refusal. *)
Definition delivered (q : list OutboxRow) (os : list PushOutcome) : list Z :=
  omap (fun ro => match ro.2 with Accepted => Some (OutboxRow.id ro.1) | Rejected _ _ => None end) (zip q os).
Definition refused (q : list OutboxRow) (os : list PushOutcome) : list (Z * (Z * Str)) :=
  omap (fun ro => match ro.2 with
                  | Accepted => None
                  | Rejected status code => Some (OutboxRow.id ro.1, (status, code))
                  end) (zip q os).
Definition settled (now : Z) (q : list OutboxRow) (os : list PushOutcome) (d : Device) : Device :=
  d <| outbox := map (fun r => if bool_decide (OutboxRow.id r ∈ delivered q os)
                               then r <| OutboxRow.flushed_at := Some now |> else r) (outbox d) |>
    <| rejected := list_to_map (refused q os) ∪ rejected d |>.
(** The rows not among [rs]. *)
Definition others (rs l : list OutboxRow) : list OutboxRow :=
  List.filter (fun x => negb (bool_decide (OutboxRow.id x ∈ map OutboxRow.id rs))) l.
End DeliverySpec.

Module DeliveryFacts.
Import Client Device Outbox DeliverySpec ClientFacts.

(** *** The replica does not touch the queue *)
Definition log_ids (d : Device) : list EventId := map Envelope.id (EventStore.rows (log d)).
Definition log_grows (d d' : Device) : Prop :=
  (EventLogSpec.wf (log d) -> EventLogSpec.wf (log d')) /\ forall i, i ∈ log_ids d -> i ∈ log_ids d'.
Definition same_outbox (d d' : Device) : Prop :=
  (outbox d', rejected d', unconfirmed d') = (outbox d, rejected d, unconfirmed d) /\ log_grows d d'.
#[local] Instance same_outbox_pre : PreOrder same_outbox.
Proof.
  split; [by intros d|]. intros d1 d2 d3 [E [W K]] [E' [W' K']]. split; [by rewrite E'|]. split; auto.
Qed.

Section Frame.
Context (display : N -> Str) (serde : Serde) (fresh : TaskId) (now : Z).

Lemma append_tx_frame e : within same_outbox (OutboundStore.append_tx e).
Proof.
  intros d r d'. unfold OutboundStore.append_tx. destruct (EventStore.append (log d) e) as [[p l]|err] eqn:A;
    intros [= <- <-]; [|done]. split; [done|]. split; cbn; [intros Hw; by eapply EventLogFacts.append_wf|].
  apply EventLogFacts.append_ok in A as (_ & _ & ->). intros i Hi. unfold log_ids. cbn. rewrite map_app.
  apply elem_of_app. by left.
Qed.
Lemma project_tables_frame e : within same_outbox (LocalExecutor.project_tables fresh now e).
Proof. intros d r d'. unfold LocalExecutor.project_tables. by case_match; intros [= <- <-]. Qed.
#[local] Hint Resolve append_tx_frame project_tables_frame : client.
Lemma project_frame e : within same_outbox (LocalExecutor.project display serde fresh now e).
Proof.
  unfold LocalExecutor.project, LocalExecutor.project_activity. frame.
Qed.
Lemma restore_frame p : within same_outbox (Replica.restore_snapshot p).
Proof. intros d r d'. unfold Replica.restore_snapshot. by case_match; intros [= <- <-]. Qed.
#[local] Hint Resolve project_frame restore_frame : client.
Lemma adopt_frame c ids f : within same_outbox (Replica.adopt_fold display serde fresh now c ids f).
Proof.
  unfold Replica.adopt_fold, Replica.replace_projections, Replica.replace_activity, Replica.mark_verified_baseline.
  frame.
Qed.
Lemma apply_remote_frame e : within same_outbox (Replica.apply_remote_event display serde fresh now e).
Proof.
  unfold Replica.apply_remote_event, Replica.apply_echo, Replica.apply_new, Replica.advance_server_seq. frame.
Qed.
#[local] Hint Resolve adopt_frame apply_remote_frame : client.
Lemma apply_remote_events_frame es : within same_outbox (Replica.apply_remote_events display serde fresh now es).
Proof.
  unfold Replica.apply_remote_events. frame. generalize 0%nat, a. clear a.
  induction es as [|e es IH]; intros n m; cbn [Replica.apply_each]; frame; apply IH.
Qed.
Lemma bootstrap_frame s : within same_outbox (Replica.bootstrap_from_snapshot s).
Proof. unfold Replica.bootstrap_from_snapshot, Replica.mark_verified_baseline. frame. Qed.
End Frame.

(** *** The queue only grows *)
Definition entries (d : Device) : list OutboxRow := map entry (outbox d).
Lemma entry_id r : OutboxRow.id (entry r) = OutboxRow.id r.
Proof. done. Qed.
Lemma entries_outbox d r : r ∈ outbox d -> entry r ∈ entries d.
Proof. intros Hr. apply list_elem_of_fmap. eauto. Qed.

Section Queue.
Context {W : Type} `{ReplicaSource W} `{RemoteEventSink W} `{!DeliveryLaws W} `{!AnswerRecord W}.

(** What the server has and said stays. *)
Definition remembers (w w' : W) : Prop :=
  (forall i, has w i -> has w' i) /\ forall i o, answered w i o -> answered w' i o.
#[local] Instance remembers_pre : PreOrder remembers.
Proof. split; [by intros w|]. intros w1 w2 w3 [A B] [A' B']. split; auto. Qed.

(** Row ids count up, a delivered event was accepted and is at the server, and a
    dead letter is an entry the server refused. *)
Record queue_ok (w : W) (d : Device) : Prop := mkOk {
  ok_ids : map OutboxRow.id (outbox d) = map (fun n => Z.of_nat n + 1)%Z (seq 0 (length (outbox d)));
  ok_flushed : forall r, r ∈ outbox d -> is_flushed r = true ->
    answered w (Envelope.id (OutboxRow.envelope r)) Accepted /\ has w (Envelope.id (OutboxRow.envelope r));
  ok_rejected : forall k status code, rejected d !! k = Some (status, code) ->
    exists r, r ∈ outbox d /\ OutboxRow.id r = k /\
      answered w (Envelope.id (OutboxRow.envelope r)) (Rejected status code) }.

Definition next (s s' : W * Device) : Prop :=
  entries s.2 `prefix_of` entries s'.2 /\ remembers s.1 s'.1 /\ (queue_ok s.1 s.2 -> queue_ok s'.1 s'.2).
#[local] Instance next_pre : PreOrder next.
Proof.
  split; [by intros s|]. intros s1 s2 s3 (P & K & Q) (P' & K' & Q'). split; [by etrans|]. split; [by etrans|auto].
Qed.
#[local] Instance next_at w : PreOrder (fun d d' => next (w, d) (w, d')).
Proof. split; [done|]. intros d1 d2 d3 Ha Hb. by etrans. Qed.
#[local] Instance next_with d : PreOrder (fun w w' => next (w, d) (w', d)).
Proof. split; [done|]. intros w1 w2 w3 Ha Hb. by etrans. Qed.

Lemma queue_ok_later w w' d d' :
  remembers w w' -> outbox d' = outbox d -> rejected d' = rejected d -> queue_ok w d -> queue_ok w' d'.
Proof.
  intros [Kh Ka] Eo Er [Hi Hf Hr]. split; rewrite ?Eo, ?Er; [done|..].
  - intros r Hin Hfl. destruct (Hf r Hin Hfl). auto.
  - intros k st c Hk. destruct (Hr k st c Hk) as (r & Hin & Hid & Ha). eauto.
Qed.
Definition same_queue (d d' : Device) : Prop := (outbox d', rejected d') = (outbox d, rejected d).
Lemma same_outbox_queue d d' : same_outbox d d' -> same_queue d d'.
Proof. intros [[= Eo Er _] _]. unfold same_queue. congruence. Qed.
Lemma next_frame w w' d d' : remembers w w' -> same_queue d d' -> next (w, d) (w', d').
Proof.
  intros K [= Eo Er]. split; [cbn; unfold entries; by rewrite Eo|]. split; [done|].
  by apply queue_ok_later.
Qed.
Lemma frame_next {A} w (m : M Device A) :
  within same_outbox m -> within (fun d d' => next (w, d) (w, d')) m.
Proof. apply within_mono. intros d d' E. by apply next_frame, same_outbox_queue. Qed.
Lemma queue_next {A} w (m : M Device A) :
  within same_queue m -> within (fun d d' => next (w, d) (w, d')) m.
Proof. apply within_mono. intros d d' E. by apply next_frame. Qed.
Lemma world_next {A} d (m : M W A) :
  (forall w r w', m w = Some (r, w') -> remembers w w') -> within (fun w w' => next (w, d) (w', d)) m.
Proof. intros Hm w r w' E. apply next_frame; [|done]. by eapply Hm. Qed.
Lemma fetch_later since limit w r w' : fetch_events since limit w = Some (r, w') -> remembers w w'.
Proof. intros E. split; intros *; [by eapply fetch_keeps|by eapply fetch_recalls]. Qed.
Lemma snapshot_later w r w' : fetch_snapshot w = Some (r, w') -> remembers w w'.
Proof. intros E. split; intros *; [by eapply snapshot_keeps|by eapply snapshot_recalls]. Qed.
Lemma push_remembers e w r w' : push e w = Some (r, w') -> remembers w w'.
Proof. intros E. split; intros *; [by eapply push_keeps|by eapply push_recalls]. Qed.
Lemma fetch_next d since limit : within (fun w w' => next (w, d) (w', d)) (fetch_events since limit).
Proof. apply world_next, fetch_later. Qed.
Lemma snapshot_next d : within (fun w w' => next (w, d) (w', d)) fetch_snapshot.
Proof. apply world_next, snapshot_later. Qed.
Lemma push_next d e : within (fun w w' => next (w, d) (w', d)) (push e).
Proof. apply world_next. intros w r w'. apply push_remembers. Qed.

Lemma ids_snoc d r :
  OutboxRow.id r = (Z.of_nat (length (outbox d)) + 1)%Z ->
  map OutboxRow.id (outbox d) = map (fun n => Z.of_nat n + 1)%Z (seq 0 (length (outbox d))) ->
  map OutboxRow.id (outbox d ++ [r]) = map (fun n => Z.of_nat n + 1)%Z (seq 0 (length (outbox d ++ [r]))).
Proof. intros Hr Hd. rewrite length_app, Nat.add_comm. cbn [length Nat.add]. rewrite seq_S, !map_app, Hd. cbn. by rewrite Hr. Qed.

Lemma enqueue_on_next w dev n e : within (fun d d' => next (w, d) (w, d')) (enqueue_on dev n e).
Proof.
  intros d r d'. unfold enqueue_on. destruct (existsb _ _); intros [= <- <-]; [done|].
  split; [|split; [done|]]; cbn.
  - exists [entry (OutboxRow.mk (Z.of_nat (length (outbox d)) + 1) dev n
      (e <| Envelope.origin_device_id := Some dev |> <| Envelope.origin_seq := n |>) None)].
    unfold entries. cbn. by rewrite map_app.
  - intros [Hi Hf Hr]. split; cbn; [by apply ids_snoc|..].
    + intros r [Hin| ->%list_elem_of_singleton]%elem_of_app; [auto|done].
    + intros k st c Hk. destruct (Hr k st c Hk) as (r & Hin & Hid). exists r. split; [|done]. apply elem_of_app. by left.
Qed.
Lemma enqueue_next_next w dev e : within (fun d d' => next (w, d) (w, d')) (enqueue_next dev e).
Proof. unfold enqueue_next. frame. apply enqueue_on_next. Qed.
Lemma append_batch_next w es : within (fun d d' => next (w, d) (w, d')) (OutboundStore.append_batch es).
Proof.
  unfold OutboundStore.append_batch. apply within_transaction; [apply _|].
  induction es as [|e es IH]; cbn [OutboundStore.append_each]; frame.
  unfold OutboundStore.append_one. frame.
  - apply frame_next, append_tx_frame.
  - apply enqueue_next_next.
  - apply frame_next. intros d r d'. unfold OutboundStore.insert_id. case_match; by intros [= <- <-].
  - apply frame_next. intros d r d'. unfold OutboundStore.insert_id. case_match; by intros [= <- <-].
Qed.
Lemma dispatch_next display serde fresh now w es :
  within (fun d d' => next (w, d) (w, d')) (LocalExecutor.dispatch display serde fresh now es).
Proof.
  unfold LocalExecutor.dispatch, mark_projected. frame.
  - apply append_batch_next.
  - apply frame_next, project_frame.
  - apply frame_next. by apply within_modify.
Qed.

(** *** Marks *)
Lemma row_unique w d r r' :
  queue_ok w d -> r ∈ outbox d -> r' ∈ outbox d -> OutboxRow.id r = OutboxRow.id r' -> r = r'.
Proof.
  intros [Hi _ _] [i Hr]%list_elem_of_lookup [j Hr']%list_elem_of_lookup E.
  assert (Hn : forall k x, outbox d !! k = Some x -> OutboxRow.id x = (Z.of_nat k + 1)%Z).
  { intros k x Hx. assert (Hl : map OutboxRow.id (outbox d) !! k = Some (OutboxRow.id x)).
    { change (map ?f ?l) with (f <$> l). by rewrite list_lookup_fmap, Hx. }
    rewrite Hi in Hl. change (map ?f ?l) with (f <$> l) in Hl. rewrite list_lookup_fmap in Hl.
    destruct (seq 0 _ !! k) as [m|] eqn:M; [|done]. injection Hl as <-.
    apply lookup_seq in M as [-> _]. lia. }
  rewrite (Hn _ _ Hr), (Hn _ _ Hr') in E. assert (i = j) as -> by lia. congruence.
Qed.
Lemma entry_in d r : entry r ∈ entries d -> exists r', r' ∈ outbox d /\ entry r' = entry r.
Proof. intros (r' & E & Hr)%list_elem_of_fmap. eauto. Qed.

Definition flush_row (now id : Z) (r : OutboxRow) : OutboxRow :=
  if bool_decide (OutboxRow.id r = id) && negb (is_flushed r) then r <| OutboxRow.flushed_at := Some now |> else r.
Lemma entry_flush now id r : entry (flush_row now id r) = entry r.
Proof. unfold flush_row. by destruct (_ && _). Qed.

Lemma entry_envelope d r :
  entry r ∈ entries d -> exists r', r' ∈ outbox d /\ OutboxRow.id r' = OutboxRow.id r /\
    OutboxRow.envelope r' = OutboxRow.envelope r.
Proof.
  intros (r' & Hr' & E)%entry_in. exists r'. split; [done|]. split.
  - change (OutboxRow.id (entry r') = OutboxRow.id (entry r)). by rewrite E.
  - change (OutboxRow.envelope (entry r') = OutboxRow.envelope (entry r)). by rewrite E.
Qed.
Lemma mark_flushed_next w now r :
  answered w (Envelope.id (OutboxRow.envelope r)) Accepted -> has w (Envelope.id (OutboxRow.envelope r)) ->
  forall d b d', entry r ∈ entries d -> mark_flushed now (OutboxRow.id r) d = Some (b, d') -> next (w, d) (w, d').
Proof.
  intros Ha Hh d b d' Hr [= <- <-]. change (map _ (outbox d)) with (map (flush_row now (OutboxRow.id r)) (outbox d)).
  split; [|split; [done|]]; cbn.
  - unfold entries. cbn. rewrite map_map. by rewrite (map_ext _ _ (entry_flush now (OutboxRow.id r))).
  - intros Hok. split; cbn.
    + rewrite map_map, length_map, <- (ok_ids _ _ Hok). apply map_ext. intros x. unfold flush_row. by destruct (_ && _).
    + intros x (y & -> & Hy)%list_elem_of_fmap Hx. unfold flush_row in *.
      destruct (bool_decide (OutboxRow.id y = OutboxRow.id r) && negb (is_flushed y)) eqn:E; [|by apply Hok].
      apply andb_prop in E as [E%bool_decide_eq_true _]. cbn. destruct (entry_envelope _ _ Hr) as (r' & Hr' & Ei & Ee).
      assert (y = r') as ->; [|by rewrite Ee]. eapply row_unique; [done..|congruence].
    + intros k st c Hk. destruct (ok_rejected _ _ Hok k st c Hk) as (x & Hx & Hid & Hans).
      exists (flush_row now (OutboxRow.id r) x). split; [by apply list_elem_of_fmap_2|]. unfold flush_row. by destruct (_ && _).
Qed.
Lemma mark_rejected_next w st c r :
  answered w (Envelope.id (OutboxRow.envelope r)) (Rejected st c) ->
  forall d b d', entry r ∈ entries d -> mark_rejected (OutboxRow.id r) st c d = Some (b, d') ->
  next (w, d) (w, d') /\ outbox d' = outbox d.
Proof.
  intros Ha d b d' Hr. unfold mark_rejected. destruct (existsb _ _); [|by intros [= <- <-]].
  destruct (rejected d !! OutboxRow.id r) as [v|] eqn:R; intros [= <- <-]; [done|]. split; [|done].
  split; [done|]. split; [done|]. intros [Hi Hf Hrej]. split; [done..|]. intros k st' c'. cbn.
  intros [[<- [= <- <-]]|[_ Hk]]%lookup_insert_Some; [|by apply Hrej].
  destruct (entry_envelope _ _ Hr) as (r' & Hr' & Ei & Ee). exists r'. by rewrite Ee.
Qed.
Lemma flush_entries_next now rs a b s r s' :
  (forall x, x ∈ rs -> entry x ∈ entries s.2) ->
  Flush.flush_entries now rs a b s = Some (r, s') -> next s s'.
Proof.
  revert a b s. induction rs as [|x rs IH]; intros a b [w d] Hin; cbn [Flush.flush_entries]; [by intros [= <- <-]|].
  unfold mbind at 1, M_bind at 1, on_world. cbn.
  destruct (push (OutboxRow.envelope x) w) as [[[o|e] w1]|] eqn:P; [|intros [= <- <-]|done].
  2: { eapply (push_next d); exact P. }
  assert (H01 : next (w, d) (w1, d)) by (eapply (push_next d); exact P). destruct o as [|st c].
  - unfold mbind, M_bind, on_device. cbn [fst snd]. destruct (mark_flushed now (OutboxRow.id x) d) as [[[u|e] d1]|] eqn:F; [|done|done].
    intros H2. assert (H12 : next (w1, d) (w1, d1)).
    { eapply mark_flushed_next; [by eapply push_answered|by eapply push_accepted| |exact F]. apply Hin. left. }
    etrans; [exact H01|]. etrans; [exact H12|]. eapply IH; [|exact H2]. intros y Hy. cbn.
    destruct H12 as [[more Hm] _]. cbn in Hm. rewrite Hm. apply elem_of_app. left. apply Hin. by right.
  - unfold mbind, M_bind, on_device. cbn [fst snd].
    destruct (mark_rejected (OutboxRow.id x) st c d) as [[u d1]|] eqn:F; [|done].
    destruct (mark_rejected_next w1 st c x (push_answered _ _ _ _ P) d u d1) as [H12 E]; [apply Hin; left|exact F|].
    destruct u as [u|e]; [|by intros [= <- <-]; etrans]. intros H2.
    etrans; [exact H01|]. etrans; [exact H12|]. eapply IH; [|exact H2].
    intros y Hy. cbn. unfold entries. rewrite E. apply Hin. by right.
Qed.

Lemma elem_of_pending d r : r ∈ all_pending d <-> r ∈ outbox d /\ is_pending d r = true.
Proof. unfold all_pending. by rewrite elem_of_sort_by, list_elem_of_In, filter_In, <- list_elem_of_In. Qed.
Lemma elem_of_take {A} (l : list A) n x : x ∈ take n l -> x ∈ l.
Proof. intros Hx. rewrite <- (take_drop n l). apply elem_of_app. by left. Qed.

Lemma waits_empty r : waits_for_held ∅ r = false.
Proof. unfold waits_for_held. case_match; [|done]. by rewrite lookup_empty. Qed.
Lemma sendable_sent d limit :
  sendable limit d = Some (rbind (held_from d ∅ (unconfirmed_events d)) (fun held => Ok (sent d limit held)), d).
Proof.
  unfold sendable, held_tasks, mbind, M_bind. destruct (held_from _ _ _) as [held|e]; [|done]. cbn.
  case_bool_decide as E; [|done]. subst. unfold pending, gets, sent. rewrite filter_all; [done|].
  intros x _. by rewrite waits_empty.
Qed.
Lemma sent_pending d limit held r : r ∈ sent d limit held -> r ∈ all_pending d.
Proof.
  intros Hr%elem_of_take. rewrite list_elem_of_In, filter_In, <- list_elem_of_In in Hr. by destruct Hr.
Qed.
Lemma sent_entries d limit held r : r ∈ sent d limit held -> entry r ∈ entries d.
Proof. intros [Hr _]%sent_pending%elem_of_pending. by apply entries_outbox. Qed.

Lemma flush_next now limit : within next (Flush.flush_pending now limit).
Proof.
  intros [w d] r s'. unfold Flush.flush_pending. unfold mbind at 1, M_bind at 1, on_device at 1. cbn [fst snd].
  rewrite sendable_sent. destruct (held_from _ _ _) as [held|e]; cbn [rbind]; [|by intros [= <- <-]].
  unfold mbind, M_bind. destruct (Flush.flush_entries _ _ _ _ _) as [[[n|e] s1]|] eqn:F; [..|done].
  - intros [= <- <-]. eapply flush_entries_next; [|exact F]. cbn. apply sent_entries.
  - intros [= <- <-]. eapply flush_entries_next; [|exact F]. cbn. apply sent_entries.
Qed.

(** *** Syncs *)
#[local] Hint Resolve fetch_next snapshot_next enqueue_next_next : client.
Ltac on_state := repeat first
  [ progress frame
  | lazymatch goal with
    | |- within _ (on_world _) => apply within_on_world; intros ?
    | |- within _ (on_device _) => apply within_on_device; intros ?
    | |- within _ (modify _) => apply queue_next; apply within_modify; intros; done
    end ].

Lemma server_ids_next d fuel limit cursor :
  within (fun w w' => next (w, d) (w', d)) (server_event_ids fuel limit cursor).
Proof.
  unfold server_event_ids. frame. generalize 0%Z, (∅ : gset EventId).
  induction fuel as [|fuel IH]; intros since ids; cbn [all_ids]; [done|]. frame.
Qed.
#[local] Hint Resolve server_ids_next : client.
Lemma find_lost_next fuel limit : within next (find_lost fuel limit).
Proof.
  unfold find_lost. on_state.
Qed.
Lemma restore_lost_next fuel limit : within next (restore_lost fuel limit).
Proof.
  unfold restore_lost, requeue_unconfirmed. on_state.
Qed.

Section Catch.
Context (display : N -> Str) (serde : Serde) (fresh : TaskId) (now : Z).

Lemma fold_server_next d fuel limit cursor since f ids :
  within (fun w w' => next (w, d) (w', d)) (Replica.fold_server fresh now fuel limit cursor since f ids).
Proof.
  revert since f ids. induction fuel as [|fuel IH]; intros since f ids; cbn [Replica.fold_server]; [done|].
  frame.
Qed.
#[local] Hint Resolve fold_server_next : client.
Lemma repair_next limit b : within next (Replica.repair display serde fresh now limit b).
Proof.
  unfold Replica.repair, Replica.rebuild_from_log. on_state. apply frame_next, adopt_frame.
Qed.
#[local] Hint Resolve repair_next : client.
Lemma catch_up_next limit : within next (Replica.catch_up display serde fresh now limit).
Proof.
  unfold Replica.catch_up, Replica.first_catch_up, Replica.distrust_unprojected, Replica.mark_verified_baseline.
  on_state.
  - apply queue_next, within_modify. intros d. by case_bool_decide.
  - apply frame_next, bootstrap_frame.
  - apply frame_next, apply_remote_events_frame.
Qed.
End Catch.

Lemma step_next s s' : step s s' -> next s s'.
Proof.
  intros [display serde fresh now es r w d d' E|now limit r s1 s2 E|display serde fresh now limit r s1 s2 E
    |fuel limit r s1 s2 E|fuel limit r s1 s2 E|r w d d' E|w w' d Kh Ka].
  - by eapply dispatch_next.
  - by eapply flush_next.
  - by eapply catch_up_next.
  - by eapply find_lost_next.
  - by eapply restore_lost_next.
  - revert E. cbn. intros [= <- <-]. split; [done|]. split; [done|]. intros [Hi Hf _]. by split.
  - by apply next_frame.
Qed.
Lemma steps_next s s' : rtc step s s' -> next s s'.
Proof. induction 1; [done|]. etrans; [by apply step_next|done]. Qed.
Lemma fresh_queue_ok w dev : queue_ok w (Device.fresh dev).
Proof. split; [done|by intros r Hr%elem_of_nil|]. intros k st c. cbn. by rewrite lookup_empty. Qed.

Lemma row_safe w d r : queue_ok w d -> r ∈ outbox d -> safe w d r.
Proof.
  intros Hok Hr. unfold safe. rewrite elem_of_pending. unfold is_pending. cbn zeta.
  destruct (is_flushed r) eqn:F; [right; right; split; [done|]; by apply Hok|]. cbn.
  destruct (rejected d !! OutboxRow.id r) as [[st c]|] eqn:R.
  - right. left. exists st, c. split; [done|]. destruct (ok_rejected _ _ Hok _ _ _ R) as (r' & Hr' & Hid & Ha).
    by rewrite (row_unique _ _ _ _ Hok Hr Hr' (eq_sym Hid)).
  - left. split; [done|]. by apply bool_decide_eq_true.
Qed.
End Queue.

(** *** What a command commits *)
Lemma last_origin_free d dev n r :
  (default 0 (last_origin_seq d dev) < n)%Z -> r ∈ outbox d -> has_origin dev n r = false.
Proof.
  intros Hn Hr. unfold has_origin. destruct (bool_decide _) eqn:E; [|done]. apply bool_decide_eq_true in E. cbn.
  apply Z.eqb_neq. intros <-. unfold last_origin_seq in Hn.
  assert (Hin : OutboxRow.origin_seq r ∈ map OutboxRow.origin_seq
    (List.filter (fun r => bool_decide (OutboxRow.origin_device_id r = dev)) (outbox d))).
  { apply list_elem_of_fmap. exists r. split; [done|]. rewrite list_elem_of_In, filter_In, <- list_elem_of_In.
    split; [done|]. by apply bool_decide_eq_true. }
  destruct (max_of _) as [m|] eqn:M.
  - pose proof (max_of_ge _ _ _ M Hin). cbn in Hn. lia.
  - unfold max_of in M. destruct (map _ _); [by apply elem_of_nil in Hin|done].
Qed.
Lemma enqueue_next_ok dev e d :
  exists r, enqueue_next dev e d = Some (Ok tt, d <| outbox := outbox d ++ [r] |>) /\ stamped dev e r.
Proof.
  unfold enqueue_next, mbind, M_bind, gets, enqueue_on. set (n := (Z.max 0 _ + 1)%Z).
  assert (E : existsb (has_origin dev n) (outbox d) = false).
  { destruct (existsb _ _) eqn:X; [|done]. apply existsb_exists in X as (r & Hr%list_elem_of_In & Hx).
    rewrite (last_origin_free d) in Hx; [done| |done]. unfold n. lia. }
  rewrite E. cbn. eexists. split; [done|]. by split.
Qed.

(** What a commit leaves alone. *)
Definition rest (d : Device) :=
  (tables d, device_id d, server_seq d, baseline_verified d, projections_verified d, order_verified d, ordered_local_seq d,
   unconfirmed d).
Lemma append_one_inv e d r d' :
  OutboundStore.append_one e d = Some (r, d') ->
  (exists err, r = Err err) \/
  exists p l row, r = Ok p /\ EventStore.append (log d) e = Ok (p, l) /\ log d' = l /\ rest d' = rest d /\
    outbox d' = outbox d ++ [row] /\ stamped (device_id d) p row /\
    unprojected d' = {[Envelope.id p]} ∪ unprojected d /\ unechoed d' = {[Envelope.id p]} ∪ unechoed d.
Proof.
  unfold OutboundStore.append_one, OutboundStore.append_tx. unfold mbind at 1, M_bind at 1.
  destruct (EventStore.append (log d) e) as [[p l]|err] eqn:A; [|intros [= <- <-]; eauto].
  unfold mbind at 1, M_bind at 1, gets. cbn [device_id].
  destruct (enqueue_next_ok (device_id d) p (d <| log := l |>)) as (row & E & Hs).
  change (device_id (d <| log := l |>)) with (device_id d).
  unfold mbind at 1, M_bind at 1. rewrite E. unfold mbind, M_bind, OutboundStore.insert_id.
  case_bool_decide; [intros [= <- <-]; eauto|]. case_bool_decide; [intros [= <- <-]; eauto|].
  intros [= <- <-]. right. exists p, l, row. by do 7 (split; [done|]).
Qed.
Lemma append_each_inv es d r d' :
  OutboundStore.append_each es d = Some (r, d') ->
  (exists err, r = Err err) \/
  exists ps more, r = Ok ps /\ EventStore.append_all (log d) es = Ok (ps, log d') /\ rest d' = rest d /\
    outbox d' = outbox d ++ more /\ Forall2 (stamped (device_id d)) ps more /\
    unprojected d' = unprojected d ∪ list_to_set (map Envelope.id ps) /\
    unechoed d' = unechoed d ∪ list_to_set (map Envelope.id ps).
Proof.
  revert d r d'. induction es as [|e es IH]; intros d r d'; cbn [OutboundStore.append_each].
  { intros [= <- <-]. right. exists [], []. rewrite app_nil_r. do 4 (split; [done|]). split; [constructor|].
    split; set_solver. }
  unfold mbind at 1, M_bind at 1. destruct (OutboundStore.append_one e d) as [[r1 d1]|] eqn:A; [|done].
  apply append_one_inv in A as [[err ->]|(p & l & row & -> & Hl & El & Ed & Eo & Hs & Eu & Ee)]; [intros [= <- <-]; eauto|].
  unfold mbind, M_bind. destruct (OutboundStore.append_each es d1) as [[r2 d2]|] eqn:B; [|done].
  apply IH in B as [[err ->]|(ps & more & -> & Ha & Ed' & Eo' & Hss & Eu' & Ee')]; [intros [= <- <-]; eauto|].
  intros [= <- <-]. right. exists (p :: ps), (row :: more). cbn. rewrite Hl. cbn. rewrite <- El, Ha. cbn.
  split; [done|]. split; [done|]. split; [congruence|]. split; [by rewrite Eo', Eo, <- app_assoc|].
  split; [|split; [rewrite Eu', Eu; set_solver|rewrite Ee', Ee; set_solver]].
  constructor; [done|]. unfold rest in Ed. injection Ed as _ Hdev _ _ _ _ _ _. by rewrite <- Hdev.
Qed.

(** The device after a commit, whatever its projectors then did. *)
Definition after_commit (d d' : Device) : Prop :=
  log d' = log d /\ outbox d' = outbox d /\ device_id d' = device_id d.
#[local] Instance after_commit_pre : PreOrder after_commit.
Proof. split; [by intros d|]. intros d1 d2 d3 (A & B & C) (A' & B' & C'). repeat split; congruence. Qed.
Lemma dispatch_inv display serde fresh now es d r d' :
  LocalExecutor.dispatch display serde fresh now es d = Some (r, d') ->
  (exists err, r = Err err /\ d' = d) \/
  exists ps more, EventStore.append_all (log d) es = Ok (ps, log d') /\
    outbox d' = outbox d ++ more /\ Forall2 (stamped (device_id d)) ps more.
Proof.
  unfold LocalExecutor.dispatch. unfold mbind at 1, M_bind at 1, OutboundStore.append_batch, transaction.
  destruct (OutboundStore.append_each es d) as [[r1 d1]|] eqn:A; [|done].
  apply append_each_inv in A as [[err ->]|(ps & more & -> & Ha & Ed & Eo & Hs & _)]; [intros [= <- <-]; eauto|].
  intros H. right. exists ps, more. enough (after_commit d1 d') as (-> & -> & _) by done. revert H.
  assert (Hw : within after_commit (_ ← forM (LocalExecutor.project display serde fresh now) ps;
    _ ← mark_projected ps; mret ps)); [|by intros H; eapply Hw].
  unfold mark_projected, LocalExecutor.project, LocalExecutor.project_activity. frame.
  intros x r2 x'. unfold LocalExecutor.project_tables. by case_match; intros [= <- <-].
Qed.

(** *** One entry for an event *)

(** Queued and held events are in the log, and none is queued twice or both. *)
Record once_ok (d : Device) : Prop := mkOnce {
  on_log : EventLogSpec.wf (log d);
  on_queued : NoDup (queued_ids d);
  on_logged : forall i, i ∈ queued_ids d -> i ∈ log_ids d;
  on_held : forall i, i ∈ unconfirmed d -> i ∈ log_ids d /\ i ∉ queued_ids d }.
Definition once (d d' : Device) : Prop := once_ok d -> once_ok d'.
#[local] Instance once_pre : PreOrder once.
Proof. split; [by intros d H|]. intros d1 d2 d3 H1 H2 H. by apply H2, H1. Qed.
#[local] Instance once_pre_client W : PreOrder (fun s s' : W * Device => once s.2 s'.2).
Proof. split; [by intros s H|]. intros s1 s2 s3 H1 H2 H. by apply H2, H1. Qed.

Lemma once_kept d d' :
  queued_ids d' = queued_ids d -> unconfirmed d' = unconfirmed d -> log_grows d d' -> once d d'.
Proof.
  intros Eq Eu [Hw Hl] [H1 H2 H3 H4]. split; [auto|by rewrite Eq|intros i; rewrite Eq; auto|].
  intros i. rewrite Eq, Eu. intros Hi%H4. naive_solver.
Qed.
Lemma same_outbox_once d d' : same_outbox d d' -> once d d'.
Proof. intros [[= Eo _ Eu] Hl]. apply once_kept; [unfold queued_ids; by rewrite Eo|done|done]. Qed.
Lemma frame_once {A} (m : M Device A) : within same_outbox m -> within once m.
Proof. apply within_mono, same_outbox_once. Qed.
Lemma modify_once f :
  (forall d, (outbox (f d), unconfirmed (f d), log (f d)) = (outbox d, unconfirmed d, log d)) -> within once (modify f).
Proof.
  intros Hf d r d' [= <- <-]. specialize (Hf d). injection Hf as Eo Eu El.
  apply once_kept; [unfold queued_ids; by rewrite Eo|done|]. unfold log_grows, log_ids. by rewrite El.
Qed.

Lemma stamped_id dev e r : stamped dev e r -> Envelope.id (OutboxRow.envelope r) = Envelope.id e.
Proof. by intros [_ ->]. Qed.
Lemma stamped_ids dev ps more :
  Forall2 (stamped dev) ps more -> map (fun r => Envelope.id (OutboxRow.envelope r)) more = map Envelope.id ps.
Proof. induction 1 as [|p r ps more Hs _ IH]; [done|]. cbn. by rewrite (stamped_id _ _ _ Hs), IH. Qed.

Lemma append_batch_once es : within once (OutboundStore.append_batch es).
Proof.
  intros d r d'. unfold OutboundStore.append_batch, transaction.
  destruct (OutboundStore.append_each es d) as [[r1 d1]|] eqn:A; [|done].
  apply append_each_inv in A as [[err ->]|(ps & more & -> & Ha & Er & Eo & Hs & _)]; [by intros [= <- <-]|].
  intros [= <- <-] [H1 H2 H3 H4]. unfold rest in Er. injection Er as _ _ _ _ _ _ _ Eu.
  pose proof (EventLogFacts.append_all_wf _ _ _ _ H1 Ha) as Hw.
  assert (El : log_ids d1 = log_ids d ++ map Envelope.id ps).
  { apply EventLogFacts.append_all_ok in Ha as [_ Ha]. unfold log_ids. rewrite Ha. cbn. by rewrite map_app. }
  assert (Eq : queued_ids d1 = queued_ids d ++ map Envelope.id ps).
  { unfold queued_ids. by rewrite Eo, map_app, (stamped_ids _ _ _ Hs). }
  pose proof (EventLogSpec.wf_ids _ Hw) as Hnd. fold (log_ids d1) in Hnd. rewrite El in Hnd.
  apply NoDup_app in Hnd as (_ & Hnew & Hps). split; [done|..].
  - rewrite Eq. apply NoDup_app. split; [done|]. split; [|done]. intros i Hi. by apply Hnew, H3.
  - intros i. rewrite Eq, El, !elem_of_app. intros [Hi|Hi]; auto.
  - intros i. rewrite Eu, Eq, El. intros [Hl Hq]%H4. split; [apply elem_of_app; by left|].
    intros [Hi|Hi]%elem_of_app; [done|]. by apply (Hnew i).
Qed.
Lemma dispatch_once display serde fresh now es : within once (LocalExecutor.dispatch display serde fresh now es).
Proof.
  unfold LocalExecutor.dispatch, mark_projected. frame.
  - apply append_batch_once.
  - apply frame_once, project_frame.
  - by apply modify_once.
Qed.

(** What an older binary lost is in the log and not in the queue. *)
Lemma held_events d :
  once_ok d -> NoDup (map Envelope.id (unconfirmed_events d)) /\
  forall u, u ∈ unconfirmed_events d -> Envelope.id u ∉ queued_ids d.
Proof.
  intros [H1 _ _ H4]. unfold unconfirmed_events. split; [apply NoDup_map_filter, (EventLogSpec.wf_ids _ H1)|].
  intros u. rewrite list_elem_of_In, filter_In. intros [_ Hu]. bsplit. by apply H4.
Qed.
Lemma requeue_each dev server_ids us d r d' :
  forM (requeue_unconfirmed dev server_ids) us d = Some (Ok r, d') ->
  NoDup (map Envelope.id us) -> (forall u, u ∈ us -> Envelope.id u ∉ queued_ids d) ->
  NoDup (queued_ids d) -> (forall i, i ∈ queued_ids d -> i ∈ log_ids d) ->
  log d' = log d /\ NoDup (queued_ids d') /\ forall i, i ∈ queued_ids d' -> i ∈ log_ids d'.
Proof.
  revert d. induction us as [|u us IH]; intros d; cbn [forM map]; [by intros [= <- <-]|].
  unfold mbind at 1, M_bind at 1. destruct (requeue_unconfirmed dev server_ids u d) as [[[[]|e] d1]|] eqn:Q; [|done..].
  intros Hf [Hu Hnd]%NoDup_cons Hfree Hq Hl. revert Q. unfold requeue_unconfirmed.
  case_bool_decide; [intros [= <-]; apply (IH d Hf Hnd); [intros v Hv; apply Hfree; by right|done|done]|].
  unfold mbind at 1, M_bind at 1, gets. destruct (EventStore.load_by_id _ _) as [e|] eqn:L; [|done].
  apply EventLogFacts.load_by_id_some in L as [He Ei]. cbn [some_or]. unfold mbind, M_bind, mret, M_ret.
  destruct (enqueue_next_ok dev e d) as (row & -> & Hs). intros [= <-].
  assert (Eq : queued_ids (d <| outbox := outbox d ++ [row] |>) = queued_ids d ++ [Envelope.id u]).
  { unfold queued_ids. cbn. rewrite map_app. cbn. by rewrite (stamped_id _ _ _ Hs), Ei. }
  apply (IH _ Hf Hnd); rewrite Eq.
  - intros v Hv [Hi| Hi%list_elem_of_singleton]%elem_of_app; [by apply (Hfree v); [right|]|].
    apply Hu. rewrite <- Hi. by apply list_elem_of_fmap_2.
  - apply NoDup_snoc; [done|]. apply Hfree. left.
  - intros i [Hi| ->%list_elem_of_singleton]%elem_of_app; [by apply Hl|].
    rewrite <- Ei. unfold log_ids. cbn. by apply list_elem_of_fmap_2.
Qed.

Section OnceClient.
Context {W : Type} `{ReplicaSource W} `{RemoteEventSink W}.
Abbreviation once_client := (fun s s' : W * Device => once s.2 s'.2).

Lemma world_once {A} (m : M W A) : within once_client (on_world m).
Proof. apply within_on_world. by intros d w r w' _. Qed.
Lemma device_once {A} (m : M Device A) : within once m -> within once_client (on_device m).
Proof. intros Hm. by apply within_on_device. Qed.
#[local] Hint Resolve world_once device_once : client.

Lemma flush_entries_once now rs m n : within once_client (Flush.flush_entries now rs m n).
Proof.
  revert m n. induction rs as [|x rs IH]; intros m n; cbn [Flush.flush_entries]; frame; try apply IH; apply device_once.
  - intros d r d' [= <- <-]. apply once_kept; [|done|done]. unfold queued_ids. cbn.
    rewrite map_map. apply map_ext. intros y. by destruct (_ && _).
  - intros d r d'. unfold mark_rejected. destruct (existsb _ _); [|by intros [= <- <-] H'].
    by destruct (rejected d !! _); intros [= <- <-] [].
Qed.
Lemma flush_once now limit : within once_client (Flush.flush_pending now limit).
Proof.
  unfold Flush.flush_pending. frame; [|apply flush_entries_once].
  apply device_once. intros d r d'. rewrite sendable_sent. by intros [= <- <-] H'.
Qed.
Lemma find_lost_once fuel limit : within once_client (find_lost fuel limit).
Proof.
  unfold find_lost. frame; try (apply device_once; by frame). apply device_once. intros d r d' [= <- <-] [H1 H2 H3 H4].
  split; [done..|]. intros i. cbn. rewrite elem_of_union. intros [Hi|Hi]; [by apply H4|].
  apply elem_of_list_to_set in Hi. rewrite list_elem_of_In, filter_In, <- list_elem_of_In in Hi. destruct Hi as [Hi _].
  unfold lost_candidates in Hi. apply list_elem_of_fmap in Hi as (e & -> & He). rewrite list_elem_of_In, filter_In in He.
  destruct He as [He Hc]. bsplit. split; [by apply list_elem_of_fmap_2, list_elem_of_In|done].
Qed.
Lemma restore_lost_once fuel limit : within once_client (restore_lost fuel limit).
Proof.
  unfold restore_lost. frame; try (apply device_once; by frame). apply device_once. intros d r d'.
  unfold transaction. unfold mbind at 1, M_bind at 1, gets. unfold mbind at 1, M_bind at 1.
  destruct (forM _ _ d) as [[[u|e] d1]|] eqn:F; [|by intros [= <- <-]|done]. intros [= <- <-] Hok.
  destruct (held_events d Hok) as [Hnd Hfree]. destruct Hok as [H1 H2 H3 H4].
  destruct (requeue_each _ _ _ _ _ _ F Hnd Hfree H2 H3) as (El & Hq & Hl). split; cbn; [by rewrite El|done|done|set_solver].
Qed.
Lemma catch_up_once display serde fresh now limit : within once_client (Replica.catch_up display serde fresh now limit).
Proof.
  assert (Hrepair : forall b, within once_client (Replica.repair display serde fresh now limit b)).
  { intros b. unfold Replica.repair, Replica.rebuild_from_log. frame; apply device_once;
      first [apply frame_once, adopt_frame | by frame]. }
  unfold Replica.catch_up, Replica.first_catch_up, Replica.distrust_unprojected, Replica.mark_verified_baseline.
  frame; try apply Hrepair; apply device_once;
    first [ apply frame_once, bootstrap_frame | apply frame_once, apply_remote_events_frame | idtac ]; try (by frame);
    apply modify_once; intros d; by try case_bool_decide.
Qed.
End OnceClient.

Lemma step_once {W} `{ReplicaSource W} `{RemoteEventSink W} `{!DeliveryLaws W} `{!AnswerRecord W} (s s' : W * Device) :
  step s s' -> once s.2 s'.2.
Proof.
  intros [display serde fresh now es r w d d' E|now limit r s1 s2 E|display serde fresh now limit r s1 s2 E
    |fuel limit r s1 s2 E|fuel limit r s1 s2 E|r w d d' E|w w' d Kh Ka].
  - by eapply dispatch_once.
  - by eapply flush_once.
  - by eapply catch_up_once.
  - by eapply find_lost_once.
  - by eapply restore_lost_once.
  - revert E. cbn. intros [= <- <-]. by apply once_kept.
  - by intros H'.
Qed.
Lemma steps_once {W} `{ReplicaSource W} `{RemoteEventSink W} `{!DeliveryLaws W} `{!AnswerRecord W} (s s' : W * Device) :
  rtc step s s' -> once s.2 s'.2.
Proof. induction 1; [by intros H'|]. etrans; [by apply step_once|done]. Qed.
Lemma fresh_once dev : once_ok (Device.fresh dev).
Proof.
  split; cbn; [apply wf_empty_log|constructor|by intros i ?%elem_of_nil|set_solver].
Qed.
(** The entry of an event is the only one with its id. *)
Lemma one_entry d r r' :
  once_ok d -> r ∈ outbox d -> r' ∈ outbox d ->
  Envelope.id (OutboxRow.envelope r) = Envelope.id (OutboxRow.envelope r') -> r = r'.
Proof.
  intros [_ Hnd _ _] [i Hi]%list_elem_of_lookup [j Hj]%list_elem_of_lookup E.
  assert (i = j) as ->; [|congruence]. eapply NoDup_lookup; [exact Hnd|..]; unfold queued_ids.
  - change (map ?f ?l) with (f <$> l). by rewrite list_lookup_fmap, Hi.
  - change (map ?f ?l) with (f <$> l). rewrite list_lookup_fmap, Hj. cbn. by rewrite E.
Qed.

(** *** What a flush settles *)
Definition queue (d : Device) : list OutboxRow := List.filter (is_pending d) (outbox d).
Lemma in_queue d r : r ∈ queue d <-> r ∈ outbox d /\ is_pending d r = true.
Proof. unfold queue. by rewrite list_elem_of_In, filter_In, <- list_elem_of_In. Qed.
Lemma others_cons r rs l : others (r :: rs) l = others rs (others [r] l).
Proof.
  unfold others. cbn [map]. induction l as [|x l IH]; cbn [List.filter]; [done|].
  destruct (decide (OutboxRow.id x = OutboxRow.id r)) as [E|E].
  - rewrite !bool_decide_eq_true_2 by set_solver. cbn [negb]. done.
  - rewrite (bool_decide_eq_false_2 (_ ∈ [_])) by set_solver. cbn [negb List.filter].
    rewrite (bool_decide_ext (OutboxRow.id x ∈ OutboxRow.id r :: map OutboxRow.id rs) (OutboxRow.id x ∈ map OutboxRow.id rs)) by set_solver.
    destruct (negb _); by rewrite IH.
Qed.
Lemma others_none l : others [] l = l.
Proof. apply filter_all. intros x _. by rewrite bool_decide_eq_false_2 by set_solver. Qed.
Lemma in_others rs l x : x ∈ others rs l <-> x ∈ l /\ OutboxRow.id x ∉ map OutboxRow.id rs.
Proof.
  unfold others. rewrite list_elem_of_In, filter_In, <- list_elem_of_In, negb_true_iff. by rewrite bool_decide_eq_false.
Qed.
Lemma pending_flush now i d x :
  is_pending d (flush_row now i x) = is_pending d x && negb (bool_decide (OutboxRow.id x = i)).
Proof.
  unfold flush_row, is_pending. destruct (is_flushed x) eqn:F; [by rewrite andb_false_r, F|].
  case_bool_decide; cbn [andb negb]; [|by rewrite F, andb_true_r].
  unfold is_flushed. cbn. by rewrite andb_false_r.
Qed.
Lemma queue_marked now d r :
  queue (d <| outbox := map (flush_row now (OutboxRow.id r)) (outbox d) |>) = others [r] (queue d).
Proof.
  unfold queue, others. cbn [outbox set_field].
  change (is_pending (d <| outbox := _ |>)) with (is_pending d).
  induction (outbox d) as [|x l IH]; cbn [map List.filter]; [done|]. rewrite pending_flush, IH.
  destruct (is_pending d x); cbn [andb List.filter]; [|done].
  destruct (decide (OutboxRow.id x = OutboxRow.id r)) as [E|E].
  - rewrite bool_decide_eq_true_2 by done. by rewrite bool_decide_eq_true_2 by set_solver.
  - rewrite bool_decide_eq_false_2 by done. rewrite bool_decide_eq_false_2 by set_solver. cbn [negb]. f_equal.
    unfold flush_row. by rewrite bool_decide_eq_false_2.
Qed.
Lemma queue_rejected d r v :
  rejected d !! OutboxRow.id r = None ->
  queue (d <| rejected := <[OutboxRow.id r := v]> (rejected d) |>) = others [r] (queue d).
Proof.
  intros _. unfold queue, others, is_pending. cbn [outbox rejected set_field].
  induction (outbox d) as [|x l IH]; cbn [List.filter]; [done|].
  destruct (decide (OutboxRow.id x = OutboxRow.id r)) as [E|E].
  - rewrite E, lookup_insert_eq, (bool_decide_eq_false_2 (Some v = None)) by done. rewrite andb_false_r, IH.
    destruct (_ && _); cbn [List.filter]; [|done]. by rewrite bool_decide_eq_true_2 by set_solver.
  - rewrite lookup_insert_ne by done. rewrite IH. destruct (_ && _); cbn [List.filter]; [|done].
    by rewrite bool_decide_eq_false_2 by set_solver.
Qed.

(** *** One answer at a time *)
Lemma settled_nil now d : settled now [] [] d = d.
Proof.
  unfold settled. cbn. rewrite (left_id_L ∅ (∪)).
  assert (E : map (fun r => if bool_decide (OutboxRow.id r ∈ @nil Z) then r <| OutboxRow.flushed_at := Some now |> else r)
                (outbox d) = outbox d).
  { rewrite <- (map_id (outbox d)) at 2. apply map_ext. intros r. by rewrite bool_decide_eq_false_2 by apply not_elem_of_nil. }
  rewrite E. by destruct d.
Qed.
Lemma delivered_cons x q o os :
  delivered (x :: q) (o :: os) = match o with Accepted => [OutboxRow.id x] | Rejected _ _ => [] end ++ delivered q os.
Proof. by destruct o. Qed.
Lemma refused_cons x q o os :
  refused (x :: q) (o :: os)
  = match o with Accepted => [] | Rejected st c => [(OutboxRow.id x, (st, c))] end ++ refused q os.
Proof. by destruct o. Qed.
Lemma refused_ids q os k : k ∈ (refused q os).*1 -> k ∈ map OutboxRow.id q.
Proof.
  revert os. induction q as [|x q IH]; intros [|o os]; try (by intros ?%elem_of_nil).
  rewrite refused_cons, fmap_app, elem_of_app. cbn [map]. intros [Hk|Hk]; [|by right; eapply IH].
  destruct o; cbn in Hk; [by apply elem_of_nil in Hk|]. apply list_elem_of_singleton in Hk as ->. left.
Qed.

Section Settle.
Context (now : Z) (d : Device) (x : OutboxRow).
Context (ids : NoDup (map OutboxRow.id (outbox d))) (stored : x ∈ outbox d) (open : is_flushed x = false).

Lemma same_row r : r ∈ outbox d -> OutboxRow.id r = OutboxRow.id x -> r = x.
Proof using ids stored.
  intros [i Hi]%list_elem_of_lookup E. apply list_elem_of_lookup in stored as [j Hj].
  assert (i = j) as ->; [|congruence]. eapply NoDup_lookup; [exact ids|..].
  - change (map ?f ?l) with (f <$> l). by rewrite list_lookup_fmap, Hi.
  - change (map ?f ?l) with (f <$> l). rewrite list_lookup_fmap, Hj. cbn. by rewrite E.
Qed.
Lemma settled_accept q os :
  settled now (x :: q) (Accepted :: os) d
  = settled now q os (d <| outbox := map (flush_row now (OutboxRow.id x)) (outbox d) |>).
Proof using ids stored open.
  unfold settled. rewrite delivered_cons, refused_cons. cbn [app]. unfold set_field, Setter. cbn. f_equal.
  rewrite map_map. apply map_ext_in. intros r Hr%list_elem_of_In. unfold flush_row.
  destruct (decide (OutboxRow.id r = OutboxRow.id x)) as [E|E].
  - rewrite (same_row r Hr E). rewrite open, (bool_decide_eq_true_2 (OutboxRow.id x ∈ _)) by left.
    rewrite (bool_decide_eq_true_2 (OutboxRow.id x = _)) by done. cbn. by case_bool_decide.
  - rewrite (bool_decide_eq_false_2 _ E). cbn. rewrite (bool_decide_ext (OutboxRow.id r ∈ OutboxRow.id x :: delivered q os) (OutboxRow.id r ∈ delivered q os));
      [done|set_solver].
Qed.
Lemma settled_refuse q os st c :
  OutboxRow.id x ∉ map OutboxRow.id q ->
  settled now (x :: q) (Rejected st c :: os) d
  = settled now q os (d <| rejected := <[OutboxRow.id x := (st, c)]> (rejected d) |>).
Proof.
  intros Hx. unfold settled. rewrite delivered_cons, refused_cons. cbn [app]. unfold set_field, Setter. cbn. f_equal.
  rewrite <- insert_union_l. apply insert_union_r. apply not_elem_of_list_to_map_1. by intros Hk%refused_ids.
Qed.
End Settle.

Section Flush.
Context {W : Type} `{ReplicaSource W} `{RemoteEventSink W} `{!DeliveryLaws W} `{!AnswerRecord W}.

(** What the loop has done when it stops, after the answers [os]. *)
Definition loop_done (now : Z) (rs : list OutboxRow) (a b : nat) (w : W) (d : Device)
    (res : Result CoreError (nat * nat)) (w' : W) (d' : Device) : Prop :=
  exists os w1, let taken := take (length os) rs in
    pushes w taken os w1 /\ (length os <= length rs)%nat /\
    queue d' = others taken (queue d) /\ d' = settled now taken os d /\
    match res with
    | Ok n => length os = length rs /\ w1 = w' /\
        n.1 = (a + length (delivered rs os))%nat /\ n.2 = (b + length (refused rs os))%nat
    | Err e => exists r, rs !! length os = Some r /\ push (OutboxRow.envelope r) w1 = Some (Err e, w')
    end.

Lemma loop_answered now x rs a b w w1 d o d1 res w' d' :
  push (OutboxRow.envelope x) w = Some (Ok o, w1) -> OutboxRow.id x ∉ map OutboxRow.id rs ->
  queue d1 = others [x] (queue d) ->
  (forall q os, OutboxRow.id x ∉ map OutboxRow.id q -> settled now (x :: q) (o :: os) d = settled now q os d1) ->
  loop_done now rs (a + match o with Accepted => 1 | _ => 0 end) (b + match o with Accepted => 0 | _ => 1 end)
    w1 d1 res w' d' ->
  loop_done now (x :: rs) a b w d res w' d'.
Proof.
  intros P Hx Hq Hs (os & w2 & Hp & Hl & Hq' & Hd & Hm). exists (o :: os), w2. cbn [length take].
  split; [by econstructor|]. split; [cbn; lia|]. split; [by rewrite others_cons, <- Hq|].
  split. { rewrite Hs; [done|]. intros Hin. apply Hx. rewrite <- (take_drop (length os) rs), map_app. apply elem_of_app. by left. }
  destruct res as [n|e]; [|exact Hm]. rewrite delivered_cons, refused_cons, !length_app.
  destruct Hm as (-> & -> & -> & ->). split; [done|]. split; [done|]. destruct o; cbn; lia.
Qed.

Lemma flush_entries_settle now rs a b w d res w' d' :
  NoDup (map OutboxRow.id (outbox d)) -> (forall x, x ∈ rs -> x ∈ queue d) -> NoDup (map OutboxRow.id rs) ->
  Flush.flush_entries now rs a b (w, d) = Some (res, (w', d')) -> loop_done now rs a b w d res w' d'.
Proof.
  revert a b w d. induction rs as [|x rs IH]; intros a b w d Hids Hin Hnd; cbn [Flush.flush_entries].
  { intros [= <- <- <-]. exists [], w. cbn. rewrite others_none, settled_nil. split; [constructor|]. split; [lia|].
    do 4 (split; [done|]). cbn. lia. }
  cbn [map] in Hnd. apply NoDup_cons in Hnd as [Hx Hnd].
  unfold mbind at 1, M_bind at 1, on_world. cbn [fst snd].
  destruct (push (OutboxRow.envelope x) w) as [[[o|e] w1]|] eqn:P; [|intros [= <- <- <-]|done].
  2: { exists [], w. cbn. rewrite others_none, settled_nil. split; [constructor|]. split; [lia|]. do 2 (split; [done|]). by exists x. }
  assert (Hxq : x ∈ queue d) by (apply Hin; left). apply in_queue in Hxq as [Hxo Hxp].
  unfold is_pending in Hxp. apply andb_prop in Hxp as [Hxf%negb_true_iff Hxr%bool_decide_eq_true].
  assert (Hrest : forall d1, queue d1 = others [x] (queue d) -> forall y, y ∈ rs -> y ∈ queue d1).
  { intros d1 Hq y Hy. rewrite Hq, in_others. split; [apply Hin; by right|]. cbn.
    intros E%list_elem_of_singleton. apply Hx. rewrite <- E. apply list_elem_of_fmap. eauto. }
  destruct o as [|st c].
  - unfold mbind, M_bind, on_device, mark_flushed. cbn [fst snd].
    assert (Hhit : existsb (fun r => bool_decide (OutboxRow.id r = OutboxRow.id x) && negb (is_flushed r)) (outbox d) = true).
    { apply existsb_exists. exists x. split; [by apply list_elem_of_In|]. rewrite bool_decide_eq_true_2 by done. by rewrite Hxf. }
    rewrite Hhit. fold (flush_row now (OutboxRow.id x)). intros Hf.
    eapply (loop_answered now x rs a b w w1 d Accepted); [exact P|exact Hx|apply (queue_marked now d x)|intros q os _; by apply settled_accept|].
    rewrite Nat.add_1_r, Nat.add_0_r. eapply IH; [|apply Hrest, queue_marked|done|exact Hf].
    cbn. rewrite map_map. rewrite (map_ext _ OutboxRow.id); [done|]. intros r. unfold flush_row. by destruct (_ && _).
  - unfold mbind, M_bind, on_device, mark_rejected. cbn [fst snd].
    assert (Hhit : existsb (fun r => bool_decide (OutboxRow.id r = OutboxRow.id x)) (outbox d) = true).
    { apply existsb_exists. exists x. split; [by apply list_elem_of_In|]. by apply bool_decide_eq_true_2. }
    rewrite Hhit, Hxr. intros Hf.
    eapply (loop_answered now x rs a b w w1 d (Rejected st c)); [exact P|exact Hx|by apply queue_rejected|intros q os Hq; by apply settled_refuse|].
    rewrite Nat.add_1_r, Nat.add_0_r. eapply IH; [done|by apply Hrest, queue_rejected|done|exact Hf].
Qed.

Lemma NoDup_outbox w d : queue_ok w d -> NoDup (map OutboxRow.id (outbox d)).
Proof.
  intros [-> _ _]. change (map ?f ?l) with (f <$> l). apply NoDup_fmap_2; [intros x y; lia|apply NoDup_seq].
Qed.
Lemma NoDup_queue w d : queue_ok w d -> NoDup (map OutboxRow.id (queue d)).
Proof.
  intros Hok%NoDup_outbox. unfold queue. by apply NoDup_map_filter.
Qed.
End Flush.

Lemma pending_le_total a b : pending_le a b = true \/ pending_le b a = true.
Proof. unfold pending_le. lia. Qed.
Lemma pending_le_trans a b c : pending_le a b = true -> pending_le b c = true -> pending_le a c = true.
Proof. unfold pending_le. lia. Qed.
Lemma sent_in_order d limit held :
  StronglySorted (fun a b => Envelope.seq (OutboxRow.envelope a) <= Envelope.seq (OutboxRow.envelope b))%Z (sent d limit held).
Proof.
  assert (Hs : StronglySorted (fun a b => pending_le a b = true) (sent d limit held)).
  { unfold sent. set (l := List.filter _ _). assert (Hl : StronglySorted (fun a b => pending_le a b = true) l).
    { apply StronglySorted_list_filter, sort_by_sorted; [apply pending_le_total|apply pending_le_trans]. }
    rewrite <- (take_drop (Nat.max 1 limit) l) in Hl. by apply StronglySorted_app in Hl as (_ & Hl & _). }
  induction Hs as [|a l Hl IH Ha]; constructor; [done|]. eapply Forall_impl; [exact Ha|].
  intros b. unfold pending_le. lia.
Qed.

Lemma sent_queue d limit held x : x ∈ sent d limit held -> x ∈ queue d.
Proof. intros Hx%sent_pending. by apply in_queue, elem_of_pending. Qed.
Lemma NoDup_sent {W} `{ReplicaSource W} `{RemoteEventSink W} `{!DeliveryLaws W} `{!AnswerRecord W} (w : W) d limit held :
  queue_ok w d -> NoDup (map OutboxRow.id (sent d limit held)).
Proof.
  intros Hok%NoDup_queue. unfold sent. set (l := List.filter _ _).
  assert (Hl : NoDup (map OutboxRow.id l)).
  { apply NoDup_map_filter. unfold all_pending. by rewrite (Permutation_map _ (sort_by_perm _ _)). }
  rewrite <- (take_drop (Nat.max 1 limit) l), map_app in Hl. by apply NoDup_app in Hl as [Hl _].
Qed.
Lemma others_perm rs l l' : l ≡ₚ l' -> others rs l ≡ₚ others rs l'.
Proof. unfold others. induction 1; cbn; repeat case_match; by econstructor. Qed.
Lemma others_length rs l :
  NoDup (map OutboxRow.id l) -> NoDup (map OutboxRow.id rs) -> (forall x, x ∈ rs -> x ∈ l) ->
  (length (others rs l) + length rs)%nat = length l.
Proof.
  intros Hl Hrs Hin. rewrite Nat.add_comm, <- length_app. apply Permutation_length, NoDup_Permutation.
  - apply NoDup_app. split; [by eapply NoDup_fmap_1|]. split.
    + intros x Hx Ho%in_others. apply (proj2 Ho). apply list_elem_of_fmap. eauto.
    + apply NoDup_list_filter. by eapply NoDup_fmap_1.
  - by eapply NoDup_fmap_1.
  - intros x. rewrite elem_of_app, in_others. split; [intros [?|[? _]]; auto|].
    intros Hx. destruct (decide (OutboxRow.id x ∈ map OutboxRow.id rs)) as [Hd|]; [left|by right].
    apply list_elem_of_fmap in Hd as (y & E & Hy). enough (x = y) as -> by done.
    apply Hin in Hy as Hy'. apply list_elem_of_lookup in Hx as [i Hi]. apply list_elem_of_lookup in Hy' as [j Hj].
    assert (i = j) as ->; [|congruence]. eapply NoDup_lookup; [exact Hl|..].
    + change (map ?f ?l) with (f <$> l). by rewrite list_lookup_fmap, Hi.
    + change (map ?f ?l) with (f <$> l). rewrite list_lookup_fmap, Hj. cbn. by rewrite E.
Qed.
End DeliveryFacts.

Section Property.
  Import EventStore EventLogSpec Client Device Outbox DeliverySpec DeliveryFacts.
  Context {W : Type} `{DeliveryLaws W}.
  #[local] Existing Instances logged_source logged_sink logged_answers logged_delivers.

(** C8: a local change is never lost on its way.  A command commits its events
    with their queue entries or leaves the device as it was; and whatever
    commands, flushes, syncs, recoveries and network failures follow, each of its
    events still has exactly one entry, stamped with this device, which is pending,
    or a dead letter with the very refusal the server answered, or marked as
    delivered, and then the server accepted the event and has it.  [Logged W] is
    any server together with the answers it gave to pushes so far. *)
Theorem outbox_loses_nothing display serde fresh now dev es (w0 w : Logged W) d r d1 :
  rtc step (w0, Device.fresh dev) (w, d) ->
  LocalExecutor.dispatch display serde fresh now es d = Some (r, d1) ->
  (exists err, r = Err err /\ d1 = d) \/
  let made := numbered (latest_seq (log d) + 1) es in
  rows (log d1) = rows (log d) ++ made /\
  forall w2 d2, rtc step (w, d1) (w2, d2) ->
    forall e, e ∈ made -> exists row, row ∈ outbox d2 /\ stamped (device_id d) e row /\ safe w2 d2 row /\
      forall row', row' ∈ outbox d2 -> Envelope.id (OutboxRow.envelope row') = Envelope.id e -> row' = row.
Proof.
  intros Hr Hd. pose proof Hd as [(err & -> & ->)|(ps & more & Ha & Ho & Hs)]%dispatch_inv; [eauto|].
  right. apply EventLogFacts.append_all_ok in Ha as [-> El]. intros made. split; [by rewrite El|].
  intros w2 d2 Hsteps e He.
  assert (Hall : rtc step (w0, Device.fresh dev) (w2, d2)).
  { etrans; [exact Hr|]. eapply rtc_l; [by eapply step_command|exact Hsteps]. }
  assert (Hok2 : queue_ok w2 d2) by (apply (steps_next _ _ Hall), fresh_queue_ok).
  pose proof (steps_once _ _ Hall (fresh_once dev)) as Honce. cbn in Honce.
  destruct (steps_next _ _ Hsteps) as ([rest Hp] & _ & _). cbn in Hp.
  apply list_elem_of_lookup in He as [i Hi]. destruct (Forall2_lookup_l _ _ _ _ _ Hs Hi) as (row & Hrow & Hst).
  assert (Hin : entry row ∈ entries d2).
  { rewrite Hp. apply elem_of_app. left. apply entries_outbox. rewrite Ho. apply elem_of_app. right.
    by eapply list_elem_of_lookup_2. }
  apply entry_in in Hin as (row' & Hrow' & E). exists row'. split; [done|].
  assert (Hst' : stamped (device_id d) e row').
  { destruct Hst as [Hdev Henv]. destruct row, row'; cbn in *. by injection E as -> -> -> ->. }
  split; [exact Hst'|]. split; [by apply row_safe|]. intros x Hx Ex.
  eapply one_entry; [done..|]. by rewrite (stamped_id _ _ _ Hst').
Qed.

(** C9: a flush empties the queue from its head.  It pushes the oldest pending
    events in the order of the local log, none that follows a held event of its
    task, until one gets no answer.  Each answered entry is settled as the server
    answered: an accepted one is marked with the time, a refused one becomes a dead
    letter with the status and code of the refusal, and nothing else on the device
    changes; so the answered entries, and no others, leave the queue.  A flush
    that succeeds was answered for all it sent and counts what was accepted and
    what was refused. *)
Theorem flush_settles_queue_head now limit dev (w0 w : Logged W) d r w' d' :
  rtc step (w0, Device.fresh dev) (w, d) ->
  Flush.flush_pending now limit (w, d) = Some (r, (w', d')) ->
  match held_from d ∅ (unconfirmed_events d) with
  | Err e => r = Err e /\ w' = w /\ d' = d
  | Ok held =>
      let q := sent d limit held in
      StronglySorted (fun a b => Envelope.seq (OutboxRow.envelope a) <= Envelope.seq (OutboxRow.envelope b))%Z q /\
      Forall (fun x => waits_for_held held x = false) q /\
      exists os w1, let taken := take (length os) q in
        pushes w taken os w1 /\ d' = settled now taken os d /\
        all_pending d' ≡ₚ others taken (all_pending d) /\
        match r with
        | Ok stats => length os = length q /\ w1 = w' /\ Flush.attempted stats = length q /\
            Flush.flushed stats = length (delivered q os) /\ Flush.rejected stats = length (refused q os) /\
            (length (all_pending d') + length q)%nat = length (all_pending d)
        | Err e => exists row, q !! length os = Some row /\ push (OutboxRow.envelope row) w1 = Some (Err e, w')
        end
  end.
Proof.
  intros Hr. unfold Flush.flush_pending. unfold mbind at 1, M_bind at 1, on_device at 1. cbn [fst snd].
  rewrite sendable_sent. destruct (held_from _ _ _) as [held|e]; cbn [rbind]; [|by intros [= <- <- <-]].
  assert (Hok : queue_ok w d) by (apply (steps_next _ _ Hr), fresh_queue_ok).
  intros Hf. set (q := sent d limit held) in *. split; [apply sent_in_order|]. split.
  { apply Forall_forall. intros x Hx%elem_of_take. rewrite list_elem_of_In, filter_In in Hx. by apply negb_true_iff, (proj2 Hx). }
  pose proof (sent_queue d limit held) as Hq. fold q in Hq.
  assert (Hnd : NoDup (map OutboxRow.id q)) by (by eapply NoDup_sent).
  unfold mbind, M_bind in Hf. destruct (Flush.flush_entries _ _ _ _ _) as [[res [w2 d2]]|] eqn:F; [|done].
  destruct (flush_entries_settle _ _ _ _ _ _ _ _ _ (NoDup_outbox _ _ Hok) Hq Hnd F) as (os & w1 & Hp & Hl & Hqq & Hs & Hm).
  assert (Hperm : all_pending d2 ≡ₚ others (take (length os) q) (all_pending d)).
  { unfold all_pending. rewrite sort_by_perm. fold (queue d) (queue d2). rewrite Hqq. unfold others.
    apply others_perm. by rewrite sort_by_perm. }
  exists os, w1. destruct res as [n|e]; injection Hf as <- <- <-; (split; [exact Hp|]; split; [exact Hs|]; split; [exact Hperm|]); [|done].
  destruct Hm as (Hlen & -> & Ha & Hb). do 3 (split; [done|]). split; [exact Ha|]. split; [exact Hb|].
  rewrite Hperm, Hlen, firstn_all. apply others_length; [|done|].
  - unfold all_pending. rewrite (Permutation_map _ (sort_by_perm _ _)). by eapply NoDup_queue.
  - intros x Hx%Hq%in_queue. by apply elem_of_pending.
Qed.
End Property.
