(* ===== verification/Mirror.v ===== *)
(** * One task row as a device and its server see it

    [apply_event_tx] works on a table; here is what it does to the row of one task
    ([row_step]), and the order in which a device has applied the events of that
    task ([placed]).  The number an event has in a log differs between a device
    and its server, so rows are compared without it ([blur]). *)

From S2P Require Import Prelude Shared TaskModel PlanModel RegistryModel Events EventStore TaskStore PlanStore WorkStore ProjectStore SnapshotStore.

Module RowSpec.
Import TaskRepo.

Definition blur (x : Task) : Task := x <| Task.updated_event_seq := None |>.
Definition view (k : TaskId) (t : TaskTable) : option Task := blur <$> get t k.

(** Whether an event may write the row of [k], and whether it creates it as a part
    of a split. *)
Definition about (k : TaskId) (e : Event) : bool := bool_decide (k ∈ TaskTableSpec.written (mkId 0) e).
Definition splits (k : TaskId) (e : Event) : Prop :=
  match e with
  | Event.TaskSplitGenerated _ ns => Some k ∈ map NewTask.id ns
  | _ => False
  end.

Definition edit (k id : TaskId) (f : Task -> Task) (r : option Task) : option Task :=
  if bool_decide (id = k) then (fun x => blur (f x)) <$> r else r.
Definition row_step (k : TaskId) (r : option Task) (e : EventEnvelope) : option Task :=
  match Envelope.payload e with
  | Event.TaskCreated n =>
      if bool_decide (NewTask.id n = Some k)
      then Some (blur (created_task e (mkId 0) (NewTask.source_event_id n) n)) else r
  | Event.TaskUpdated id patch => edit k id (on_updated e 0 patch) r
  | Event.TaskStatusChanged id _ to => edit k id (on_status_changed e to) r
  | Event.TaskPriorityChanged id _ to => edit k id (on_priority_changed e to) r
  | Event.TaskCompleted id at_ _ => edit k id (on_completed e at_) r
  | Event.TaskDeleted id => if bool_decide (id = k) then None else r
  | Event.TaskReopened id _ at_ => edit k id (on_reopened e at_) r
  | Event.TaskClosed id _ at_ => edit k id (on_closed e at_) r
  | _ => r
  end.

(** The same event, whatever numbers two logs gave it. *)
Definition same_event (a b : EventEnvelope) : Prop :=
  Envelope.id a = Envelope.id b /\ Envelope.actor a = Envelope.actor b /\
  Envelope.occurred_at a = Envelope.occurred_at b /\ Envelope.payload a = Envelope.payload b.
End RowSpec.

Module RowFacts.
Import TaskRepo TaskTableSpec TaskTableFacts RowSpec SnapshotSpec.

Lemma about_target k e :
  about k e = true -> ~ splits k e -> (forall n, e = Event.TaskCreated n -> is_Some (NewTask.id n)) ->
  (forall p ns, e = Event.TaskSplitGenerated p ns -> Forall (fun n => is_Some (NewTask.id n)) ns) ->
  Event.target_task e = Some k.
Proof.
  unfold about. rewrite bool_decide_eq_true. destruct e; cbn [written Event.target_task];
    try (by intros ?%elem_of_nil); try (by intros ->%list_elem_of_singleton).
  - intros E%list_elem_of_singleton _ Ha _. destruct (Ha _ eq_refl) as [i Hi]. rewrite Hi in *. by cbn in E; subst.
  - intros (n & E & Hn)%list_elem_of_fmap Hs _ Ha. exfalso. apply Hs. cbn.
    pose proof (Ha _ _ eq_refl) as Hall. rewrite Forall_forall in Hall. destruct (Hall n Hn) as [i Hi].
    rewrite Hi in E. cbn in E. subst i. apply list_elem_of_fmap. eauto.
Qed.

Lemma blur_updated e p x : blur (on_updated e 0 p x) = blur (on_updated e 0 p (blur x)).
Proof. destruct x, p. unfold on_updated, TaskPatch.apply. cbn. repeat case_match; reflexivity. Qed.
Lemma blur_status e to x : blur (on_status_changed e to x) = blur (on_status_changed e to (blur x)).
Proof. destruct x. unfold on_status_changed. by repeat case_match. Qed.

Lemma edit_view k id f t t' :
  wf t -> keeps_id f -> (forall x, blur (f x) = blur (f (blur x))) -> with_task t id f = Ok t' ->
  view k t' = edit k id f (view k t).
Proof.
  intros Hw Hi Hb H. unfold view, edit. rewrite (with_task_get _ _ _ _ k Hw Hi H).
  destruct (decide (k = id)) as [->|].
  - rewrite !bool_decide_eq_true_2 by done. destruct (get t id); cbn; [by rewrite Hb|done].
  - by rewrite !bool_decide_eq_false_2 by congruence.
Qed.

Lemma view_same k t t' : (forall j, get t' j = get t j) -> view k t' = view k t.
Proof. intros H. unfold view. by rewrite H. Qed.

Lemma row_view k fresh now t e t' :
  wf t -> addressed e -> ~ splits k (Envelope.payload e) ->
  apply_event_tx fresh now t e = Ok t' -> view k t' = row_step k (view k t) e.
Proof.
  intros Hw Ha Hs. rewrite (SnapshotFacts.task_drawn fresh (mkId 0) now 0) by done.
  unfold apply_event_tx, row_step, addressed in *.
  destruct (Envelope.payload e) eqn:He; try (by intros [= <-]); try (intros (t1 & H1 & [= <-])%rbind_ok).
  - (* TaskCreated *)
    destruct Ha as [i Hi]. rewrite (view_same k t1) by (intros; apply get_stamp_status). unfold view.
    rewrite (upsert_get _ _ _ k H1). cbn. rewrite Hi. cbn.
    destruct (decide (k = i)) as [->|]; [by rewrite !bool_decide_eq_true_2|].
    by rewrite !bool_decide_eq_false_2 by congruence.
  - (* TaskUpdated *)
    erewrite <- edit_view; [|exact Hw| |by apply blur_updated|exact H1]; [|by apply keeps_id_updated].
    destruct (TaskPatch.pipeline_position patch); [|done]. apply view_same. intros. apply get_stamp_position.
  - rewrite (view_same k t1) by (intros; apply get_stamp_status).
    eapply edit_view; [exact Hw|apply keeps_id_status|apply blur_status|exact H1].
  - intros H1. by eapply edit_view; [exact Hw|..|exact H1].
  - erewrite <- edit_view; [|exact Hw| | |exact H1]; [|done|done].
    apply view_same. intros j. destruct (match get t _ with Some _ => _ | None => _ end); [by rewrite get_stamp_status|done].
  - (* TaskDeleted *)
    intros [= <-]. unfold view. rewrite delete_get. destruct (decide (k = task_id)) as [->|].
    + by rewrite !bool_decide_eq_true_2.
    + by rewrite !bool_decide_eq_false_2 by congruence.
  - (* TaskSplitGenerated *)
    intros H1. unfold view. f_equal. eapply create_split_get; [exact H1|]. intros (n & E & Hn)%list_elem_of_fmap.
    apply Hs. cbn. rewrite Forall_forall in Ha. destruct (Ha n Hn) as [i Hi]. rewrite Hi in E. cbn in E. subst i.
    apply list_elem_of_fmap. eauto.
  - intros H1. by eapply edit_view; [exact Hw|..|exact H1].
  - intros H1. by eapply edit_view; [exact Hw|..|exact H1].
Qed.

Lemma row_step_other k r e : about k (Envelope.payload e) = false -> addressed e -> row_step k r e = r.
Proof.
  unfold about, row_step, edit, addressed. rewrite bool_decide_eq_false. intros Hn Ha.
  destruct (Envelope.payload e); cbn in Hn; try done;
    try (rewrite bool_decide_eq_false_2 by (intros ->; apply Hn, list_elem_of_singleton; done); done).
  destruct Ha as [i Hi]. rewrite Hi in *. cbn in Hn.
  rewrite bool_decide_eq_false_2; [done|]. intros [= ->]. by apply Hn, list_elem_of_singleton.
Qed.

Lemma row_fold_filter k r es :
  Forall addressed es -> foldl (row_step k) r es = foldl (row_step k) r (List.filter (fun e => about k (Envelope.payload e)) es).
Proof.
  intros Ha. revert r. induction Ha as [|e es He _ IH]; intros r; cbn; [done|].
  destruct (about k _) eqn:A; cbn; [apply IH|]. by rewrite row_step_other.
Qed.

Lemma fold_view k fresh now f es g :
  FoldSpec.wf f -> Forall addressed es -> Forall (fun e => ~ splits k (Envelope.payload e)) es ->
  ProjectionFold.apply_all fresh now f es = Ok g ->
  view k (ProjectionFold.tasks g) =
  foldl (row_step k) (view k (ProjectionFold.tasks f)) (List.filter (fun e => about k (Envelope.payload e)) es).
Proof.
  intros Hw Ha Hs H. rewrite <- row_fold_filter by done. revert f Hw H.
  induction es as [|e es IH]; intros f Hw; cbn [ProjectionFold.apply_all foldl]; [by intros [= <-]|].
  apply Forall_cons in Ha as [He Ha]. apply Forall_cons in Hs as [Hse Hs].
  intros (h & H1 & H2)%rbind_ok. rewrite (IH Ha Hs h); [|by eapply FoldFacts.apply_wf|done]. f_equal.
  apply rbind_ok in H1 as (t & Ht & [= <-]). cbn. eapply row_view; [apply Hw|done..|exact Ht].
Qed.

Lemma row_step_same k r e e' : same_event e e' -> row_step k r e = row_step k r e'.
Proof.
  destruct e as [i s o a od os p], e' as [i' s' o' a' od' os' p']. intros (Hi & Ha & Ho & Hp). cbn in *. subst.
  unfold row_step, edit. cbn [Envelope.payload]. destruct p'; try done; try (case_bool_decide; [|done]); try done.
  all: destruct r as [x|]; [cbn|done]; f_equal; unfold on_status_changed; by repeat case_match.
Qed.

Lemma row_fold_same k r es es' : Forall2 same_event es es' -> foldl (row_step k) r es = foldl (row_step k) r es'.
Proof. intros H. revert r. induction H as [|e e' es es' He _ IH]; intros r; cbn; [done|]. rewrite (row_step_same k r _ _ He). apply IH. Qed.
End RowFacts.

(** ** The order of the events of one task on a device

    [ids]: the events of the task the server has put in its order, up to the
    device's cursor; [L]: those of the local log, in log order; [Q]: the events in
    the order their effects took.  [Q] holds the server's events in the server's
    order and the waiting ones in the local order; one of the server's that took
    effect after a waiting one is seen as ahead of it in the local log: it comes
    later there, no further than [ordered], and waits for no echo. *)
Module Placing.
Section Placing.
Context (ids : list EventId).
Definition known (e : EventEnvelope) : bool := bool_decide (Envelope.id e ∈ ids).
Definition waiting (e : EventEnvelope) : bool := negb (known e).

Record placed (L : list EventEnvelope) (ordered : Z) (unechoed : gset EventId) (Q : list EventEnvelope) : Prop := mkPlaced {
  pl_known : map Envelope.id (List.filter known Q) = ids;
  pl_waiting : List.filter waiting Q = List.filter waiting L;
  pl_ahead Q1 b Q2 a : Q = Q1 ++ b :: Q2 -> waiting b = true -> a ∈ Q2 -> known a = true ->
    exists a', a' ∈ L /\ Envelope.id a' = Envelope.id a /\
      (Envelope.seq b < Envelope.seq a' <= ordered)%Z /\ Envelope.id a' ∉ unechoed }.
End Placing.

Lemma known_app ids ids' e : known (ids ++ ids') e = known ids e || known ids' e.
Proof.
  unfold known. apply eq_true_iff_eq. rewrite orb_true_iff, !bool_decide_eq_true. apply elem_of_app.
Qed.
Lemma filter_ext_in {A} (p q : A -> bool) l : (forall x, x ∈ l -> p x = q x) -> List.filter p l = List.filter q l.
Proof.
  intros H. induction l as [|x l IH]; cbn; [done|]. rewrite H, IH by set_solver. done.
Qed.

Lemma split_app {A} (Q ps Q1 Q2 : list A) b :
  Q ++ ps = Q1 ++ b :: Q2 ->
  (exists Q3, Q = Q1 ++ b :: Q3 /\ Q2 = Q3 ++ ps) \/ (exists Q3, Q1 = Q ++ Q3 /\ ps = Q3 ++ b :: Q2).
Proof.
  intros [l [[-> HQ]|[-> HQ]]]%app_eq_app.
  - destruct l as [|y l]; cbn in HQ; [right; exists []; rewrite !app_nil_r; by subst|].
    left. injection HQ as <- ->. by exists l.
  - right. by exists l.
Qed.

Section Steps.
Context (ids : list EventId).
Implicit Types (L Q : list EventEnvelope) (o : Z) (E : gset EventId).

Lemma placed_in L o E Q e : placed ids L o E Q -> e ∈ Q -> known ids e = true \/ e ∈ L.
Proof.
  intros H He. destruct (known ids e) eqn:K; [by left|right].
  assert (Hw : e ∈ List.filter (waiting ids) Q).
  { rewrite list_elem_of_In, filter_In, <- list_elem_of_In. split; [done|]. unfold waiting. by rewrite K. }
  rewrite (pl_waiting _ _ _ _ _ H), list_elem_of_In, filter_In, <- list_elem_of_In in Hw. by destruct Hw.
Qed.

(** Nothing new about the task. *)
Lemma placed_weaken L o E Q o' E' : placed ids L o E Q -> (o <= o')%Z -> E' ⊆ E -> placed ids L o' E' Q.
Proof.
  intros [Hk Hw Ha] Ho HE. split; [done..|]. intros * HQ Hb Hin Hka.
  destruct (Ha _ _ _ _ HQ Hb Hin Hka) as (a' & ? & ? & ? & ?). exists a'. split; [done|]. split; [done|]. split; [lia|set_solver].
Qed.

(** After a repair, or a snapshot: the server's events, then the waiting ones. *)
Lemma placed_start A L E :
  map Envelope.id A = ids -> placed ids L 0 E (A ++ List.filter (waiting ids) L).
Proof.
  intros HA. assert (HK : forall x, x ∈ A -> known ids x = true).
  { intros x Hx. apply bool_decide_eq_true_2. rewrite <- HA. apply list_elem_of_fmap. eauto. }
  assert (HN : forall x, x ∈ List.filter (waiting ids) L -> waiting ids x = true).
  { intros x Hx. rewrite list_elem_of_In, filter_In in Hx. by destruct Hx. }
  split.
  - rewrite List.filter_app, filter_all, filter_none, app_nil_r; [done| |done].
    intros x Hx%HN. by apply negb_true_iff.
  - rewrite List.filter_app, filter_none, (filter_all _ (List.filter _ _)); [done|done|].
    intros x Hx%HK. unfold waiting. by rewrite Hx.
  - intros Q1 b Q2 a HQ Hb Hin Hka. exfalso.
    assert (Hx : a ∈ List.filter (waiting ids) L).
    { apply split_app in HQ as [(Q3 & HA3 & _)|(Q3 & _ & ->)].
      - unfold waiting in Hb. rewrite (HK b) in Hb; [done|]. rewrite HA3. apply elem_of_app. right. left.
      - apply elem_of_app. right. by right. }
    apply HN in Hx. unfold waiting in Hx. by rewrite Hka in Hx.
Qed.

(** Local events that no server has seen. *)
Lemma placed_local L o E E' Q ps :
  placed ids L o E Q -> (forall p, p ∈ ps -> Envelope.id p ∉ ids) ->
  (forall a, a ∈ L -> Envelope.id a ∈ E' -> Envelope.id a ∈ E) ->
  placed ids (L ++ ps) o E' (Q ++ ps).
Proof.
  intros [Hk Hw Ha] Hps HE'. assert (HP : forall p, p ∈ ps -> known ids p = false).
  { intros p Hp. by apply bool_decide_eq_false_2, (Hps p Hp). }
  assert (HF : List.filter (waiting ids) ps = ps).
  { apply filter_all. intros p Hp%HP. unfold waiting. by rewrite Hp. }
  split.
  - by rewrite List.filter_app, (filter_none _ ps), app_nil_r.
  - by rewrite !List.filter_app, Hw.
  - intros Q1 b Q2 a HQ Hb Hin Hka.
    assert (exists Q3, Q = Q1 ++ b :: Q3 /\ a ∈ Q3) as (Q3 & HQ3 & Ha3).
    { apply split_app in HQ as [(Q3 & HQ & ->)|(Q3 & _ & HQ)].
      - exists Q3. split; [done|]. apply elem_of_app in Hin as [|Hx%HP]; [done|congruence].
      - exfalso. assert (a ∈ ps) as Hx%HP; [|congruence]. rewrite HQ. apply elem_of_app. right. by right. }
    destruct (Ha _ _ _ _ HQ3 Hb Ha3 Hka) as (a' & Hl & Hi & Hseq & HE). exists a'.
    split; [apply elem_of_app; by left|]. split; [done|]. split; [done|]. intros Hin'. by apply HE, HE'.
Qed.

(** A server event that was not here yet. *)
Lemma placed_new L o E Q p :
  placed ids L o E Q -> Envelope.id p ∉ ids -> Envelope.id p ∉ map Envelope.id L -> Envelope.id p ∉ E ->
  (forall x, x ∈ L -> Envelope.seq x < Envelope.seq p)%Z ->
  placed (ids ++ [Envelope.id p]) (L ++ [p]) (Z.max o (Envelope.seq p)) E (Q ++ [p]).
Proof.
  intros H Hi HL HE Hseq. set (i := Envelope.id p) in *.
  assert (Hne : forall x, x ∈ L -> Envelope.id x <> i).
  { intros x Hx Ex. apply HL. rewrite <- Ex. apply list_elem_of_fmap. eauto. }
  assert (HneQ : forall x, x ∈ Q -> Envelope.id x <> i).
  { intros x Hx. destruct (placed_in _ _ _ _ _ H Hx) as [K|]; [|auto]. intros Ex. apply Hi. rewrite <- Ex.
    by apply bool_decide_eq_true in K. }
  assert (Hk : forall x, Envelope.id x <> i -> known (ids ++ [i]) x = known ids x).
  { intros x Hx. rewrite known_app. unfold known at 2. rewrite bool_decide_eq_false_2, orb_false_r by set_solver. done. }
  assert (Hp : known (ids ++ [i]) p = true).
  { rewrite known_app. apply orb_true_iff. right. apply bool_decide_eq_true_2. set_solver. }
  destruct H as [Hkn Hw Ha]. split.
  - rewrite List.filter_app, map_app, (filter_ext_in _ (known ids)) by auto. rewrite Hkn. f_equal. cbn. by rewrite Hp.
  - assert (Hwp : List.filter (waiting (ids ++ [i])) [p] = []) by (cbn; unfold waiting; by rewrite Hp).
    rewrite !List.filter_app, Hwp, !app_nil_r.
    rewrite !(filter_ext_in (waiting (ids ++ [i])) (waiting ids)); [done|..]; intros x Hx; unfold waiting; rewrite Hk; auto.
  - intros Q1 b Q2 a [(Q3 & HQ & ->)|(Q3 & _ & HQ)]%split_app Hb Hin Hka.
    + assert (HbQ : b ∈ Q) by (rewrite HQ; apply elem_of_app; right; left).
      unfold waiting in Hb. rewrite Hk in Hb by auto. apply elem_of_app in Hin as [Hin| ->%list_elem_of_singleton].
      * assert (HaQ : a ∈ Q) by (rewrite HQ; apply elem_of_app; right; by right). rewrite Hk in Hka by auto.
        destruct (Ha _ _ _ _ HQ Hb Hin Hka) as (a' & ? & ? & ? & ?). exists a'.
        split; [apply elem_of_app; by left|]. split; [done|]. split; [lia|done].
      * exists p. split; [apply elem_of_app; right; left|]. split; [done|]. split; [|done].
        assert (HbL : b ∈ List.filter (waiting ids) L).
        { rewrite <- Hw, list_elem_of_In, filter_In, <- list_elem_of_In. done. }
        rewrite list_elem_of_In, filter_In, <- list_elem_of_In in HbL. specialize (Hseq b (proj1 HbL)). lia.
    + exfalso. destruct Q3 as [|y [|z Q3]]; cbn in HQ; [|done..]. injection HQ as <- <-. by apply elem_of_nil in Hin.
Qed.

Lemma placed_NoDup L o E Q :
  placed ids L o E Q -> NoDup ids -> NoDup (map Envelope.id L) -> NoDup (map Envelope.id Q).
Proof.
  intros H Hi HL. assert (HP : Q ≡ₚ List.filter (known ids) Q ++ List.filter (waiting ids) Q).
  { clear. unfold waiting. induction Q as [|x Q IH]; cbn; [done|]. destruct (known ids x); cbn; [by constructor|].
    rewrite <- Permutation_middle. by constructor. }
  rewrite (Permutation_map _ HP), map_app, (pl_known _ _ _ _ _ H), (pl_waiting _ _ _ _ _ H).
  apply NoDup_app. split; [done|]. split; [|by apply NoDup_map_filter].
  intros i Hin (x & -> & Hx)%list_elem_of_fmap. rewrite list_elem_of_In, filter_In in Hx.
  destruct Hx as [_ Hx]. unfold waiting, known in Hx. by rewrite bool_decide_eq_true_2 in Hx.
Qed.

(** The echo of a waiting event that nothing has overtaken. *)
Lemma placed_echo L o E Q l :
  placed ids L o E Q -> NoDup ids -> NoDup (map Envelope.id L) ->
  StronglySorted (fun a b => Envelope.seq a < Envelope.seq b)%Z L ->
  l ∈ L -> Envelope.id l ∉ ids ->
  (forall x, x ∈ L -> (Envelope.seq l < Envelope.seq x <= o)%Z -> Envelope.id x ∈ E) ->
  placed (ids ++ [Envelope.id l]) L (Z.max o (Envelope.seq l)) (E ∖ {[Envelope.id l]}) Q.
Proof.
  intros H Hnd HndL Hsort Hl Hi Hover. set (i := Envelope.id l) in *.
  pose proof (placed_NoDup _ _ _ _ H Hnd HndL) as HndQ.
  assert (Hk : forall x, known (ids ++ [i]) x = known ids x || bool_decide (Envelope.id x = i)).
  { intros x. rewrite known_app. f_equal. unfold known. apply bool_decide_ext. set_solver. }
  assert (Hlw : l ∈ List.filter (waiting ids) Q).
  { rewrite (pl_waiting _ _ _ _ _ H), list_elem_of_In, filter_In, <- list_elem_of_In. split; [done|].
    unfold waiting, known. by rewrite bool_decide_eq_false_2. }
  rewrite list_elem_of_In, filter_In, <- list_elem_of_In in Hlw. destruct Hlw as [HlQ Hlw].
  assert (Huniq : forall x, x ∈ Q -> Envelope.id x = i -> x = l).
  { intros x Hx Ex. apply list_elem_of_lookup in Hx as [n Hn]. apply list_elem_of_lookup in HlQ as [m Hm].
    assert (n = m) as ->; [|congruence]. eapply NoDup_lookup; [exact HndQ|..]; change (map ?f ?q) with (f <$> q);
      rewrite list_lookup_fmap, ?Hn, ?Hm; cbn; by rewrite ?Ex. }
  destruct H as [Hkn Hw Ha]. apply list_elem_of_split in HlQ as (Q1 & Q2 & HQ).
  assert (H2 : forall x, x ∈ Q2 -> known ids x = false).
  { intros x Hx. destruct (known ids x) eqn:K; [|done]. exfalso.
    destruct (Ha _ _ _ _ HQ Hlw Hx K) as (a' & Ha' & _ & Hs & HE). by apply HE, Hover. }
  assert (Hn1 : forall x, x ∈ Q1 ++ Q2 -> Envelope.id x <> i).
  { intros x Hx Ex. rewrite HQ, map_app in HndQ. cbn in HndQ. apply NoDup_app in HndQ as (_ & Hd & Hn).
    apply NoDup_cons in Hn as [Hn _]. apply elem_of_app in Hx as [Hx|Hx].
    - apply (Hd (Envelope.id l)); [|left]. unfold i in Ex. rewrite <- Ex. apply list_elem_of_fmap. eauto.
    - apply Hn. unfold i in Ex. rewrite <- Ex. apply list_elem_of_fmap. eauto. }
  split.
  - assert (Hids : map Envelope.id (List.filter (known ids) Q1) = ids).
    { rewrite <- Hkn at 2. rewrite HQ, List.filter_app, map_app. cbn [List.filter].
      unfold waiting in Hlw. apply negb_true_iff in Hlw. rewrite Hlw, (filter_none _ Q2) by done. cbn. by rewrite app_nil_r. }
    rewrite HQ, List.filter_app, map_app. cbn [List.filter]. rewrite (Hk l), (bool_decide_eq_true_2 (_ = i)), orb_true_r by done.
    rewrite (filter_ext_in _ (known ids) Q1), Hids, (filter_none _ Q2); [done|..].
    + intros x Hx. rewrite Hk, H2 by done. apply bool_decide_eq_false_2, Hn1, elem_of_app. by right.
    + intros x Hx. rewrite Hk, bool_decide_eq_false_2, orb_false_r; [done|]. apply Hn1, elem_of_app. by left.
  - assert (HF : forall q, List.filter (waiting (ids ++ [i])) q =
      List.filter (fun x => negb (bool_decide (Envelope.id x = i))) (List.filter (waiting ids) q)).
    { intros q. induction q as [|x q IH]; cbn [List.filter]; [done|].
      assert (Hx : waiting (ids ++ [i]) x = waiting ids x && negb (bool_decide (Envelope.id x = i)))
        by (unfold waiting; by rewrite Hk, negb_orb).
      rewrite Hx, IH. by destruct (waiting ids x); cbn. }
    by rewrite !HF, Hw.
  - intros Qa b Qb a HQ' Hb Hin Hka. unfold waiting in Hb. rewrite Hk, negb_orb in Hb. apply andb_prop in Hb as [Hb Hbi].
    rewrite Hk in Hka. apply orb_prop in Hka as [Hka|Hai%bool_decide_eq_true].
    + destruct (Ha _ _ _ _ HQ' Hb Hin Hka) as (a' & ? & ? & ? & ?). exists a'.
      split; [done|]. split; [done|]. split; [lia|set_solver].
    + assert (a = l) as ->. { apply Huniq; [|done]. rewrite HQ'. apply elem_of_app. right. by right. }
      exists l. split; [done|]. split; [done|]. split; [|set_solver]. enough (Envelope.seq b < Envelope.seq l)%Z by lia.
      assert (Hss : StronglySorted (fun a b => Envelope.seq a < Envelope.seq b)%Z (List.filter (waiting ids) Q)).
      { rewrite Hw. by apply StronglySorted_list_filter. }
      rewrite HQ', List.filter_app in Hss. apply StronglySorted_app in Hss as (_ & _ & Hss). cbn [List.filter] in Hss.
      unfold waiting at 1 in Hss. rewrite Hb in Hss. apply StronglySorted_inv in Hss as [_ Hss].
      rewrite Forall_forall in Hss. apply Hss. rewrite list_elem_of_In, filter_In, <- list_elem_of_In. done.
Qed.
End Steps.
End Placing.
