(* ===== verification/Convergence.v ===== *)
(** * A device and its server converge

    What the catch-up promises about one task: after a sync, the row of a device is
    the fold of the server's events up to its cursor, in the server's order, and
    of its own events that still wait for their place; with nothing left waiting,
    it is the server's row. *)

From S2P Require Import Prelude Shared TaskModel PlanModel RegistryModel Events EventStore TaskStore PlanStore RunStore ActivityStore WorkStore ProjectStore SnapshotStore Outbox Replica Delivery Mirror.

(** ** Logs and pages *)
Module PageFacts.
Import EventStore EventLogSpec EventLogFacts.

Lemma page_last l since limit :
  wf l -> (0 < limit)%nat ->
  match last (load_since l since limit) with
  | None => load_since l since limit = [] /\ List.filter (fun x => since <? Envelope.seq x)%Z (rows l) = []
  | Some e => (since < Envelope.seq e)%Z /\
      List.filter (fun x => since <? Envelope.seq x)%Z (rows l) =
      load_since l since limit ++ List.filter (fun x => Envelope.seq e <? Envelope.seq x)%Z (rows l)
  end.
Proof.
  intros Hwf Hl. destruct (last (load_since l since limit)) as [e|] eqn:L.
  - split; [|by apply page_rest]. apply last_Some_elem_of, elem_of_take in L as (i & L & _).
    apply list_elem_of_lookup_2 in L. rewrite list_elem_of_In, filter_In in L. by apply Z.ltb_lt, (proj2 L).
  - apply last_None in L. split; [done|]. by eapply page_empty.
Qed.
Lemma page_shorter l since limit e :
  wf l -> last (load_since l since limit) = Some e ->
  (length (List.filter (fun x => Envelope.seq e <? Envelope.seq x)%Z (rows l)) <
   length (List.filter (fun x => since <? Envelope.seq x)%Z (rows l)))%nat.
Proof.
  intros Hwf L. rewrite (page_rest _ _ _ _ Hwf L), length_app.
  destruct (load_since l since limit); [done|]. cbn. lia.
Qed.

(** The check for a place lost sees the whole stretch. *)
Lemma overtaken_from_all fuel d echo ordered since :
  wf (Device.log d) ->
  (length (List.filter (fun x => since <? Envelope.seq x)%Z (rows (Device.log d))) < fuel)%nat ->
  Replica.overtaken_from fuel d echo ordered since =
  existsb (fun x => (Envelope.seq x <=? ordered)%Z
                    && Replica.same_subject (Envelope.payload echo) (Envelope.payload x)
                    && negb (bool_decide (Envelope.id x ∈ Device.unechoed d)))
          (List.filter (fun x => since <? Envelope.seq x)%Z (rows (Device.log d))).
Proof.
  intros Hwf. revert since. induction fuel as [|fuel IH]; intros since Hf; [lia|]. cbn [Replica.overtaken_from].
  destruct (Z.ltb_spec since ordered) as [|Ho].
  - pose proof (page_last (Device.log d) since Replica.LOCAL_LOG_PAGE_SIZE Hwf) as HP.
    pose proof (page_shorter (Device.log d) since Replica.LOCAL_LOG_PAGE_SIZE) as HS.
    destruct (last (load_since _ _ _)) as [e|].
    + destruct HP as [_ ->]; [unfold Replica.LOCAL_LOG_PAGE_SIZE; lia|]. rewrite existsb_app. f_equal. apply IH.
      specialize (HS e Hwf eq_refl). lia.
    + destruct HP as [_ ->]; [unfold Replica.LOCAL_LOG_PAGE_SIZE; lia|done].
  - symmetry. apply not_true_iff_false. intros (x & Hx & Hb)%existsb_exists. rewrite filter_In in Hx.
    destruct Hx as [_ Hx%Z.ltb_lt]. bsplit. apply Z.leb_le in H. lia.
Qed.
Lemma overtaken_all d echo ordered :
  wf (Device.log d) ->
  Replica.overtaken d echo ordered = true <->
  exists x, x ∈ rows (Device.log d) /\ (Envelope.seq echo < Envelope.seq x <= ordered)%Z /\
    Replica.same_subject (Envelope.payload echo) (Envelope.payload x) = true /\ Envelope.id x ∉ Device.unechoed d.
Proof.
  intros Hwf. unfold Replica.overtaken. rewrite overtaken_from_all; [|done|].
  2: { pose proof (List.filter_length_le (fun x => Envelope.seq echo <? Envelope.seq x)%Z (rows (Device.log d))). lia. }
  rewrite existsb_exists. split.
  - intros (x & Hx & Hb). rewrite filter_In, <- list_elem_of_In in Hx. destruct Hx as [Hx Hs%Z.ltb_lt]. bsplit.
    exists x. apply Z.leb_le in H. done.
  - intros (x & Hx & Hs & Hsub & HE). exists x. rewrite filter_In, <- list_elem_of_In. split.
    + split; [done|]. apply Z.ltb_lt. lia.
    + rewrite Hsub, bool_decide_eq_false_2 by done. rewrite !andb_true_r. apply Z.leb_le. lia.
Qed.

(** The local log, folded without what the server has. *)
Section Fold.
Context (fresh : TaskId) (now : Z).

Lemma fold_local_all fuel l ids since f :
  wf l -> (length (List.filter (fun x => since <? Envelope.seq x)%Z (rows l)) < fuel)%nat ->
  let es := List.filter (fun x => negb (bool_decide (Envelope.id x ∈ ids)))
              (List.filter (fun x => since <? Envelope.seq x)%Z (rows l)) in
  match Replica.fold_local fresh now fuel l ids since f with
  | Ok (p, g) => ProjectionFold.apply_all fresh now f es = Ok g /\ (since <= p)%Z /\
      List.filter (fun x => p <? Envelope.seq x)%Z (rows l) = []
  | Err e => ProjectionFold.apply_all fresh now f es = Err e
  end.
Proof.
  intros Hwf. revert since f. induction fuel as [|fuel IH]; intros since f Hf; [lia|]. cbn [Replica.fold_local].
  pose proof (page_last l since Replica.LOCAL_LOG_PAGE_SIZE Hwf) as HP.
  pose proof (page_shorter l since Replica.LOCAL_LOG_PAGE_SIZE) as HS.
  destruct (last (load_since _ _ _)) as [e|].
  - destruct HP as [Hse ->]; [unfold Replica.LOCAL_LOG_PAGE_SIZE; lia|]. rewrite List.filter_app, FoldFacts.apply_all_app.
    destruct (ProjectionFold.apply_all _ _ f _) as [g|err]; cbn; [|done].
    specialize (HS e Hwf eq_refl). specialize (IH (Envelope.seq e) g). destruct (Replica.fold_local _ _ _ _ _ _ _) as [[p h]|err].
    + destruct IH as (? & ? & ?); [lia|]. split; [done|]. split; [lia|done].
    + apply IH. lia.
  - destruct HP as [_ ->]; [unfold Replica.LOCAL_LOG_PAGE_SIZE; lia|]. cbn. split; [done|]. split; [lia|done].
Qed.
End Fold.

(** What a server that grows keeps. *)
Lemma purged_telemetry cutoff e : purged cutoff e = true -> Event.class_ (Envelope.payload e) = Telemetry.
Proof. unfold purged. intros H. by bsplit. Qed.
Lemma grown l l' (p : EventEnvelope -> bool) :
  wf l -> rtc step l l' -> (forall e, p e = true -> Event.class_ (Envelope.payload e) = Domain) ->
  wf l' /\ (latest_seq l <= latest_seq l')%Z /\
  forall c, (c <= latest_seq l)%Z ->
    List.filter (fun e => (Envelope.seq e <=? c)%Z && p e) (rows l') =
    List.filter (fun e => (Envelope.seq e <=? c)%Z && p e) (rows l).
Proof.
  intros Hwf Hs Hp. induction Hs as [l|l l1 l' H1 _ IH]; [split; [done|]; split; [lia|done]|].
  destruct (step_history _ _ Hwf H1) as (Hwf1 & Hle & _ & _). destruct (IH Hwf1) as (Hwf' & Hle' & Hc').
  split; [done|]. unfold latest_seq in *. split; [lia|]. intros c Hc. rewrite Hc' by lia. destruct H1 as [es out l1 H1|cutoff].
  - apply append_batch_inv in H1 as [(o & [= ->] & Ha)|(? & ? & _)]; [|done]. apply append_all_ok in Ha as [-> ->]. cbn.
    rewrite List.filter_app, (filter_none _ (numbered _ _)); [by rewrite app_nil_r|].
    intros e He%numbered_seqs. by rewrite (proj2 (Z.leb_gt _ _)) by lia.
  - cbn. induction (rows l) as [|e r IHr]; cbn; [done|]. destruct (purged cutoff e) eqn:P; cbn.
    + apply purged_telemetry in P. destruct (p e) eqn:E; [by rewrite Hp in P|]. rewrite andb_false_r. apply IHr.
    + by rewrite IHr.
Qed.
End PageFacts.

(** ** What a device relies on

    [minted]: what an event id was drawn for; an honest envelope carries it.  A
    sound server keeps an honest log that only grows, answers with a page of it,
    and hands out snapshots that cover it; a request ends, at worst with an error. *)
Definition honest (minted : EventId -> Actor * Z * Event) (e : EventEnvelope) : Prop :=
  minted (Envelope.id e) = (Envelope.actor e, Envelope.occurred_at e, Envelope.payload e) /\ SnapshotSpec.addressed e.

Class MirrorLaws (minted : EventId -> Actor * Z * Event) (W : Type) `{ReplicaSource W, RemoteEventSink W} : Type := {
  server_log : W -> EventLog;
  sound : W -> Prop;
  later w w' := sound w' /\ rtc EventLogSpec.step (server_log w) (server_log w');
  sound_log w : sound w -> EventLogSpec.wf (server_log w) /\ Forall (honest minted) (EventStore.rows (server_log w));
  fetch_events_law since limit w r w' : sound w -> fetch_events since limit w = Some (r, w') ->
    later w w' /\ forall es, r = Ok es -> es = EventStore.load_since (server_log w') since (Nat.min limit 1000);
  fetch_snapshot_law w r w' : sound w -> fetch_snapshot w = Some (r, w') ->
    later w w' /\ forall s, r = Ok (Some s) -> Snapshot.is_consistent s = true ->
      (0 <= Snapshot.seq s)%Z /\ exists fresh now, SnapshotSpec.covers fresh now (server_log w') s;
  push_law e w r w' : sound w -> honest minted e -> push e w = Some (r, w') -> later w w';
  answers w : sound w ->
    (forall since limit, is_Some (fetch_events since limit w)) /\ is_Some (fetch_snapshot w) }.

Module ConvergenceSpec.
Import Client Device RowSpec Placing.

Section Spec.
Context {minted : EventId -> Actor * Z * Event} {W : Type} `{MirrorLaws minted W}.

(** The rows match the cursor, and every local event has been projected. *)
Definition settled (d : Device) : Prop := Replica.verified d = true /\ unprojected d = ∅.

(** New events of a local command: drawn here, so no server has them. *)
Definition drawn_here (w : W) (es : list EventEnvelope) : Prop :=
  forall e, e ∈ es -> honest minted e /\ Envelope.id e ∉ map Envelope.id (EventStore.rows (server_log w)).
(** A first sync finds an empty device, or no snapshot to restore over it. *)
Definition first_sync_is_clean (d : Device) : Prop :=
  server_seq d = 0%Z -> EventStore.latest_seq (log d) = 0%Z \/
  forall (w w' : W) s, fetch_snapshot w = Some (Ok (Some s), w') -> Snapshot.is_consistent s = false.

(** A command that completes, one whose process stops after its commit, a sync,
    and the operations of the queue; other clients write to the server. *)
Inductive run : W * Device -> W * Device -> Prop :=
| run_command display serde fresh now es r w d d' :
    drawn_here w es -> LocalExecutor.dispatch display serde fresh now es d = Some (r, d') -> run (w, d) (w, d')
| run_stopped display serde fresh now es n ps r w d d1 d' :
    drawn_here w es -> OutboundStore.append_batch es d = Some (Ok ps, d1) -> (n < length ps)%nat ->
    forM (LocalExecutor.project display serde fresh now) (take n ps) d1 = Some (r, d') -> run (w, d) (w, d')
| run_sync display serde fresh now limit r w d s' :
    first_sync_is_clean d -> Replica.catch_up display serde fresh now limit (w, d) = Some (r, s') -> run (w, d) s'
| run_flush now limit r s s' : Flush.flush_pending now limit s = Some (r, s') -> run s s'
| run_find_lost fuel limit r s s' : Outbox.find_lost fuel limit s = Some (r, s') -> run s s'
| run_restore_lost fuel limit r s s' : Outbox.restore_lost fuel limit s = Some (r, s') -> run s s'
| run_requeue r w d d' : Outbox.requeue_rejected d = Some (r, d') -> run (w, d) (w, d')
| run_server w w' d : later w w' -> run (w, d) (w', d).

Section Task.
Context (k : TaskId).
Definition mine (e : EventEnvelope) : bool := about k (Envelope.payload e).

(** The task's events on the server up to a number, and in a local log. *)
Definition on_server (l : EventLog) (c : Z) : list EventEnvelope :=
  List.filter (fun e => (Envelope.seq e <=? c)%Z && mine e) (EventStore.rows l).
Definition ids_upto (w : W) (d : Device) : list EventId := map Envelope.id (on_server (server_log w) (server_seq d)).
Definition local (d : Device) : list EventEnvelope := List.filter mine (EventStore.rows (log d)).

(** [Q]: the order in which the row of the task got its effects. *)
Definition row_order (w : W) (d : Device) (Q : list EventEnvelope) : Prop :=
  placed (ids_upto w d) (local d) (ordered_local_seq d) (unechoed d) Q /\
  Forall (fun e => honest minted e /\ mine e = true) Q /\
  view k (ProjectionFold.tasks (tables d)) = foldl (row_step k) None Q.

Record inv (w : W) (d : Device) : Prop := mkInv {
  i_log : EventLogSpec.wf (log d);
  i_rows : Forall (honest minted) (EventStore.rows (log d));
  i_box : Forall (fun r => honest minted (OutboxRow.envelope r)) (outbox d);
  i_unprojected i : i ∈ unprojected d -> i ∈ map Envelope.id (EventStore.rows (log d));
  i_unechoed i : i ∈ unechoed d -> i ∈ map Envelope.id (EventStore.rows (log d));
  i_cursor : (0 <= server_seq d <= EventStore.latest_seq (server_log w))%Z;
  i_new : EventStore.latest_seq (log d) = 0%Z -> server_seq d = 0%Z -> tables d = ProjectionFold.empty;
  i_tasks : TaskTableSpec.wf (ProjectionFold.tasks (tables d));
  i_order : settled d -> exists Q, row_order w d Q }.
End Task.
End Spec.
End ConvergenceSpec.

Module ConvergenceFacts.
Import EventStore EventLogSpec Client Device RowSpec Placing RowFacts ClientFacts PageFacts DeliveryFacts ConvergenceSpec.

Lemma mine_domain k e : mine k e = true -> Event.class_ (Envelope.payload e) = Domain.
Proof. unfold mine, about. rewrite bool_decide_eq_true. destruct (Envelope.payload e); cbn; try done. by intros ?%elem_of_nil. Qed.

Section Facts.
Context {minted : EventId -> Actor * Z * Event} {W : Type} `{MirrorLaws minted W}.
Context (k : TaskId) (Hwhole : forall i, ~ splits k (minted i).2).
Abbreviation inv := (inv (minted := minted) k).
Abbreviation row_order := (row_order (minted := minted) k).

Lemma honest_target e : honest minted e -> mine k e = true -> Event.target_task (Envelope.payload e) = Some k.
Proof.
  intros [Hm Ha] Hk. apply about_target; [done|..].
  - intros Hs. apply (Hwhole (Envelope.id e)). by rewrite Hm.
  - intros n E. unfold SnapshotSpec.addressed in Ha. by rewrite E in Ha.
  - intros p ns E. unfold SnapshotSpec.addressed in Ha. by rewrite E in Ha.
Qed.
Lemma honest_unsplit e : honest minted e -> ~ splits k (Envelope.payload e).
Proof. intros [Hm _] Hs. apply (Hwhole (Envelope.id e)). by rewrite Hm. Qed.
Lemma honest_same a b : honest minted a -> honest minted b -> Envelope.id a = Envelope.id b -> same_event a b.
Proof. intros [Ha _] [Hb _] E. rewrite E, Hb in Ha. injection Ha as E1 E2 E3. by repeat split. Qed.
Lemma same_mine a b : same_event a b -> mine k a = mine k b.
Proof. intros (_ & _ & _ & E). unfold mine. by rewrite E. Qed.
Lemma same_subject_mine a b :
  honest minted a -> honest minted b -> mine k a = true -> mine k b = true ->
  Replica.same_subject (Envelope.payload a) (Envelope.payload b) = true.
Proof.
  intros Ha Hb Hka Hkb. unfold Replica.same_subject. rewrite (honest_target a), (honest_target b) by done.
  by rewrite (bool_decide_eq_true_2 (is_Some (Some k))), (bool_decide_eq_true_2 (Some k = Some k)) by eauto.
Qed.

(** *** The server goes on *)
Lemma later_ids w w' d : sound w -> later w w' -> (server_seq d <= latest_seq (server_log w))%Z ->
  ids_upto k w' d = ids_upto k w d.
Proof.
  intros Hs [_ Hg] Hc. destruct (sound_log w Hs) as [Hwf _].
  destruct (grown _ _ (mine k) Hwf Hg (mine_domain k)) as (_ & _ & E). unfold ids_upto, on_server. by rewrite E.
Qed.
Lemma later_refl w : sound w -> later w w.
Proof. by split. Qed.
Lemma later_trans w1 w2 w3 : later w1 w2 -> later w2 w3 -> later w1 w3.
Proof. intros [_ G] [S G']. split; [done|]. by etrans. Qed.
Lemma inv_later w w' d : sound w -> later w w' -> inv w d -> inv w' d.
Proof.
  intros Hs Hl [i1 i2 i3 i4 i5 i6 i7 i8 i9]. split; try done.
  - destruct Hl as [_ Hg]. destruct (sound_log w Hs) as [Hwf _].
    destruct (grown _ _ (mine k) Hwf Hg (mine_domain k)) as (_ & Hle & _). lia.
  - intros Hset. destruct (i9 Hset) as (Q & Hp & Hq). exists Q. split; [|done].
    by rewrite (later_ids w w') by (done || lia).
Qed.

(** *** The operations of the queue *)
Definition replica_part (d : Device) :=
  (log d, tables d, unprojected d, unechoed d, server_seq d, baseline_verified d, projections_verified d,
   order_verified d, ordered_local_seq d).
Lemma inv_queue w d d' :
  replica_part d' = replica_part d -> Forall (fun r => honest minted (OutboxRow.envelope r)) (outbox d') ->
  inv w d -> inv w d'.
Proof.
  destruct d, d'. cbn. intros [= -> -> -> -> -> -> -> -> ->] Hb [i1 i2 i3 i4 i5 i6 i7 i8 i9]. by split.
Qed.

(** *** A local command *)
Definition but_tables (d : Device) :=
  (log d, outbox d, unprojected d, unechoed d, server_seq d, baseline_verified d, projections_verified d,
   order_verified d, ordered_local_seq d).
Lemma project_inv display serde fresh now e d r d' :
  LocalExecutor.project display serde fresh now e d = Some (r, d') ->
  but_tables d' = but_tables d /\
  match ProjectionFold.apply fresh now (tables d) e with
  | Ok f => r = Ok tt /\ tables d' = f
  | Err err => r = Err err /\ tables d' = tables d
  end.
Proof.
  unfold LocalExecutor.project, LocalExecutor.project_tables, mbind, M_bind.
  destruct (ProjectionFold.apply _ _ _ _); by intros [= <- <-].
Qed.
Lemma apply_tasks_wf fresh now f e g :
  TaskTableSpec.wf (ProjectionFold.tasks f) -> ProjectionFold.apply fresh now f e = Ok g ->
  TaskTableSpec.wf (ProjectionFold.tasks g).
Proof. intros Hw (t & Ht & [= <-])%rbind_ok. by eapply FoldFacts.task_event_wf. Qed.
Lemma project_all_inv display serde fresh now es d r d' :
  forM (LocalExecutor.project display serde fresh now) es d = Some (r, d') ->
  but_tables d' = but_tables d /\
  (TaskTableSpec.wf (ProjectionFold.tasks (tables d)) -> TaskTableSpec.wf (ProjectionFold.tasks (tables d'))) /\
  match r with
  | Ok _ => ProjectionFold.apply_all fresh now (tables d) es = Ok (tables d')
  | Err _ => es <> []
  end.
Proof.
  revert d. induction es as [|e es IH]; intros d; cbn [forM]; [by intros [= <- <-]|].
  unfold mbind, M_bind. destruct (LocalExecutor.project _ _ _ _ e d) as [[r1 d1]|] eqn:P; [|done].
  apply project_inv in P as [E1 P]. cbn [ProjectionFold.apply_all].
  destruct (ProjectionFold.apply _ _ _ _) as [f|err] eqn:A; destruct P as [-> E2].
  - intros (E3 & Hw & Hr)%IH. split; [congruence|]. rewrite E2 in *. split; [|by destruct r].
    intros Hwd. apply Hw. by eapply apply_tasks_wf.
  - intros [= <- <-]. split; [done|]. by rewrite E2.
Qed.

Lemma view_apply_all fresh now f es g :
  TaskTableSpec.wf (ProjectionFold.tasks f) -> Forall (honest minted) es ->
  ProjectionFold.apply_all fresh now f es = Ok g ->
  view k (ProjectionFold.tasks g) = foldl (row_step k) (view k (ProjectionFold.tasks f)) (List.filter (mine k) es) /\
  TaskTableSpec.wf (ProjectionFold.tasks g).
Proof.
  intros Hw Hh. revert f Hw. induction Hh as [|e es He _ IH]; intros f Hw; cbn [ProjectionFold.apply_all List.filter].
  { by intros [= <-]. }
  intros (h & Hh1 & Hh2)%rbind_ok. destruct (IH h) as [-> Hg]; [by eapply apply_tasks_wf|done|]. split; [|done].
  apply rbind_ok in Hh1 as (t & Ht & [= <-]). cbn [ProjectionFold.tasks].
  rewrite (row_view k _ _ _ _ _ Hw (proj2 He) (honest_unsplit e He) Ht).
  destruct (mine k e) eqn:M; cbn [foldl]; [done|]. by rewrite row_step_other by (done || apply He).
Qed.

Lemma stamped_honest dev e r : DeliverySpec.stamped dev e r -> honest minted e -> honest minted (OutboxRow.envelope r).
Proof. intros [_ ->] [Hm Ha]. by split. Qed.

(** After a commit, before any projector. *)
Lemma commit_inv w d es ps d1 :
  inv w d -> drawn_here w es -> OutboundStore.append_batch es d = Some (Ok ps, d1) ->
  EventLogSpec.wf (log d1) /\ rows (log d1) = rows (log d) ++ ps /\ Forall (honest minted) ps /\
  (forall p, p ∈ ps -> Envelope.id p ∉ map Envelope.id (rows (log d)) /\
                       Envelope.id p ∉ map Envelope.id (rows (server_log w))) /\
  (latest_seq (log d) <= latest_seq (log d1))%Z /\ (latest_seq (log d1) = 0%Z -> ps = []) /\
  Forall (fun r => honest minted (OutboxRow.envelope r)) (outbox d1) /\ DeliveryFacts.rest d1 = DeliveryFacts.rest d /\
  unprojected d1 = unprojected d ∪ list_to_set (map Envelope.id ps) /\
  unechoed d1 = unechoed d ∪ list_to_set (map Envelope.id ps).
Proof.
  intros [i1 i2 i3 i4 i5 i6 i7 i8 i9] Hes. unfold OutboundStore.append_batch, transaction.
  destruct (OutboundStore.append_each es d) as [[r d0]|] eqn:A; [|done].
  apply append_each_inv in A as [[err ->]|(ps' & more & -> & Ha & Er & Eo & Hst & Eu & Ee)]; [done|].
  intros [= <- <-]. pose proof (EventLogFacts.append_all_wf _ _ _ _ i1 Ha) as Hwf.
  apply EventLogFacts.append_all_ok in Ha as [Eps El].
  assert (Hps : forall p, p ∈ ps' -> exists e, e ∈ es /\ same_event e p).
  { intros p. rewrite Eps. generalize (high_water (log d) + 1)%Z. clear. induction es as [|e es IH]; intros n; cbn.
    - by intros ?%elem_of_nil.
    - intros [->|(e' & He' & Hs)%IH]%elem_of_cons; [exists e; by split; [left|]|]. exists e'. by split; [right|]. }
  assert (Hh : Forall (honest minted) ps').
  { apply Forall_forall. intros p (e & He & Hi & Ha & Ho & Hp)%Hps. destruct (Hes e He) as [[Hm Had] _].
    split; [by rewrite <- Hi, Hm, Ha, Ho, Hp|]. unfold SnapshotSpec.addressed in *. by rewrite <- Hp. }
  split; [done|]. rewrite El. cbn. split; [done|]. split; [done|]. split.
  - intros p Hp. split.
    + pose proof (wf_ids _ Hwf) as Hnd. rewrite El in Hnd. cbn in Hnd. rewrite map_app in Hnd.
      apply NoDup_app in Hnd as (_ & Hnd & _). intros Hin. apply (Hnd _ Hin). apply list_elem_of_fmap. eauto.
    + destruct (Hps p Hp) as (e & He & <- & _). by apply Hes.
  - unfold latest_seq. cbn. split; [lia|]. split.
    { pose proof (wf_high _ i1). intros E0. rewrite Eps. destruct es; [done|]. cbn in E0. lia. }
    split; [|done]. rewrite Eo. apply Forall_app. split; [done|]. clear - Hst Hh.
    induction Hst; constructor; apply Forall_cons in Hh as [? ?]; [by eapply stamped_honest|auto].
Qed.

Lemma latest_zero l : EventLogSpec.wf l -> latest_seq l = 0%Z -> rows l = [].
Proof.
  intros Hwf Hz. pose proof (wf_low _ Hwf) as Hl. unfold latest_seq in Hz. rewrite Hz in Hl.
  destruct (rows l) as [|e r]; [done|]. apply Forall_cons in Hl as [Hl _]. lia.
Qed.
Lemma verified_but_tables d d' : but_tables d' = but_tables d -> Replica.verified d' = Replica.verified d.
Proof. intros [= _ _ _ _ _ E1 E2 E3 _]. unfold Replica.verified. by rewrite E1, E2, E3. Qed.

Lemma inv_after fresh now w d es ps d1 d' :
  inv w d -> sound w -> drawn_here w es -> OutboundStore.append_batch es d = Some (Ok ps, d1) ->
  log d' = log d1 -> outbox d' = outbox d1 -> unechoed d' = unechoed d1 -> unprojected d' ⊆ unprojected d1 ->
  server_seq d' = server_seq d -> ordered_local_seq d' = ordered_local_seq d ->
  TaskTableSpec.wf (ProjectionFold.tasks (tables d')) ->
  (ps = [] -> tables d' = tables d) ->
  (settled d' -> settled d /\ ProjectionFold.apply_all fresh now (tables d) ps = Ok (tables d')) ->
  inv w d'.
Proof.
  intros Hinv Hs Hes Hb El Eo Ee Hu Ec Eord Hw Hnil Hset.
  destruct (commit_inv _ _ _ _ _ Hinv Hes Hb) as (Hwf & Er & Hh & Hnew & Hle & Hz & Hbox & _ & Eu & Eun).
  destruct Hinv as [i1 i2 i3 i4 i5 i6 i7 i8 i9].
  assert (Hids : forall i, i ∈ map Envelope.id (rows (log d)) \/ i ∈ map Envelope.id ps ->
    i ∈ map Envelope.id (rows (log d'))).
  { intros i Hi. rewrite El, Er, map_app. by apply elem_of_app. }
  split.
  - by rewrite El.
  - rewrite El, Er. by apply Forall_app.
  - by rewrite Eo.
  - intros i Hi%Hu. rewrite Eu in Hi. apply Hids. apply elem_of_union in Hi as [Hi|Hi%elem_of_list_to_set]; auto.
  - intros i. rewrite Ee, Eun. intros [Hi|Hi%elem_of_list_to_set]%elem_of_union; auto.
  - by rewrite Ec.
  - rewrite El, Ec. intros Hz' Hc. pose proof (wf_high _ i1). unfold latest_seq in *. rewrite Hnil by auto.
    apply i7; [lia|done].
  - done.
  - intros Hst. destruct (Hset Hst) as [Hd Ha]. destruct (i9 Hd) as (Q & Hp & Hq & Hv).
    exists (Q ++ List.filter (mine k) ps). split; [|split].
    + unfold ids_upto, local. rewrite El, Er, Ec, Eord, List.filter_app, Ee, Eun. fold (local k d).
      apply placed_local with (E := unechoed d); [exact Hp|..].
      * intros p Hpp. rewrite list_elem_of_In, filter_In, <- list_elem_of_In in Hpp. destruct (Hnew p (proj1 Hpp)) as [_ Hn].
        intros Hin. apply Hn. unfold ids_upto, on_server in Hin. apply list_elem_of_fmap in Hin as (x & -> & Hx).
        rewrite list_elem_of_In, filter_In, <- list_elem_of_In in Hx. apply list_elem_of_fmap. exists x. by destruct Hx.
      * intros a Ha'. rewrite elem_of_union, elem_of_list_to_set. intros [|(p & Ep & Hpp)%list_elem_of_fmap]; [done|].
        destruct (Hnew p Hpp) as [Hn _]. exfalso. apply Hn. rewrite <- Ep. apply list_elem_of_fmap. exists a. split; [done|].
        unfold local in Ha'. rewrite list_elem_of_In, filter_In, <- list_elem_of_In in Ha'. by destruct Ha'.
    + apply Forall_app. split; [done|]. apply Forall_forall. intros p Hpp.
      rewrite list_elem_of_In, filter_In, <- list_elem_of_In in Hpp. rewrite Forall_forall in Hh. destruct Hpp. split; auto.
    + rewrite foldl_app, <- Hv. by apply (view_apply_all fresh now).
Qed.

Lemma inv_command display serde fresh now es r w d d' :
  inv w d -> sound w -> drawn_here w es -> LocalExecutor.dispatch display serde fresh now es d = Some (r, d') -> inv w d'.
Proof.
  intros Hinv Hs Hes. unfold LocalExecutor.dispatch. unfold mbind at 1, M_bind at 1.
  destruct (OutboundStore.append_batch es d) as [[[ps|err] d1]|] eqn:Hb; [| |done].
  2: { intros [= <- <-]. revert Hb. unfold OutboundStore.append_batch, transaction.
       destruct (OutboundStore.append_each es d) as [[[?|?] ?]|]; intros [=]; by subst. }
  destruct (commit_inv _ _ _ _ _ Hinv Hes Hb) as (_ & _ & _ & Hnew & _ & _ & _ & Er & Eu & _).
  unfold DeliveryFacts.rest in Er. injection Er as Et Edev Ec Eb Epr Eord Eol Euc.
  unfold mbind, M_bind, Outbox.mark_projected, modify.
  destruct (forM _ ps d1) as [[r2 d2]|] eqn:P; [|done]. apply project_all_inv in P as (E2 & Hw & Hr).
  pose proof (verified_but_tables _ _ E2) as Ev2. unfold but_tables in E2. injection E2 as E2l E2o E2u E2e E2c _ _ _ E2ol.
  assert (Hv : Replica.verified d2 = Replica.verified d).
  { rewrite Ev2. unfold Replica.verified. by rewrite Eb, Epr, Eord. }
  rewrite Et in *. specialize (Hw (i_tasks _ _ _ Hinv)). destruct r2 as [u|err]; intros [= <- <-].
  - eapply (inv_after fresh now); eauto; cbn; [rewrite E2u; set_solver|congruence|congruence|..].
    + intros ->. cbn in Hr. by injection Hr.
    + intros [Hsv Hsu]. split; [|done]. split; [by rewrite <- Hv|]. cbn in Hsu. rewrite E2u, Eu in Hsu.
      apply set_eq. intros i. split; [|set_solver]. intros Hi. rewrite <- Hsu. apply elem_of_difference. split; [set_solver|].
      rewrite elem_of_list_to_set. intros (p & -> & Hp)%list_elem_of_fmap. apply (proj1 (Hnew p Hp)).
      by apply (i_unprojected _ _ _ Hinv).
  - eapply (inv_after fresh now); eauto; [by rewrite E2u|congruence|congruence|by intros ->|].
    intros [_ Hsu]. rewrite E2u, Eu in Hsu. destruct ps as [|p ps]; [done|]. set_solver.
Qed.

Lemma inv_stopped display serde fresh now es n ps r w d d1 d' :
  inv w d -> sound w -> drawn_here w es -> OutboundStore.append_batch es d = Some (Ok ps, d1) -> (n < length ps)%nat ->
  forM (LocalExecutor.project display serde fresh now) (take n ps) d1 = Some (r, d') -> inv w d'.
Proof.
  intros Hinv Hs Hes Hb Hn P. destruct (commit_inv _ _ _ _ _ Hinv Hes Hb) as (_ & _ & _ & _ & _ & _ & _ & Er & Eu & _).
  unfold DeliveryFacts.rest in Er. injection Er as Et Edev Ec Eb Epr Eord Eol Euc.
  apply project_all_inv in P as (E2 & Hw & Hr). unfold but_tables in E2. injection E2 as E2l E2o E2u E2e E2c _ _ _ E2ol.
  rewrite Et in *. specialize (Hw (i_tasks _ _ _ Hinv)).
  eapply (inv_after fresh now); eauto; [by rewrite E2u|congruence|congruence|by intros ->; cbn in Hn; lia|].
  intros [_ Hsu]. rewrite E2u, Eu in Hsu. destruct ps as [|p ps]; [cbn in Hn; lia|]. set_solver.
Qed.

(** *** One server event *)
Lemma on_server_next l c e more :
  EventLogSpec.wf l -> List.filter (fun x => c <? Envelope.seq x)%Z (rows l) = e :: more ->
  (c < Envelope.seq e)%Z /\ e ∈ rows l /\
  List.filter (fun x => Envelope.seq e <? Envelope.seq x)%Z (rows l) = more /\
  on_server k l (Envelope.seq e) = on_server k l c ++ (if mine k e then [e] else []).
Proof.
  intros Hwf Hf. assert (He : e ∈ List.filter (fun x => c <? Envelope.seq x)%Z (rows l)) by (rewrite Hf; left).
  rewrite list_elem_of_In, filter_In, <- list_elem_of_In in He. destruct He as [He Hc%Z.ltb_lt].
  split; [done|]. split; [done|].
  assert (HP : forall x, x ∈ SnapshotSpec.prefix l c -> (Envelope.seq x <= c)%Z).
  { intros x Hx. unfold SnapshotSpec.prefix in Hx. rewrite list_elem_of_In, filter_In in Hx. by apply Z.leb_le, (proj2 Hx). }
  pose proof (wf_sorted _ Hwf) as Hsort. pose proof (SnapshotFacts.prefix_rest l c Hwf) as Hrows. rewrite Hf in Hrows.
  set (P := SnapshotSpec.prefix l c) in *. clearbody P. unfold on_server. rewrite Hrows in *.
  apply StronglySorted_app in Hsort as (_ & _ & Hsort). apply StronglySorted_inv in Hsort as [_ Hm].
  rewrite Forall_forall in Hm. rewrite !List.filter_app. cbn [List.filter].
  rewrite Z.ltb_irrefl, Z.leb_refl, (proj2 (Z.leb_gt _ c)) by lia. cbn [andb]. split.
  - rewrite filter_none; [|intros x Hx%HP; apply Z.ltb_ge; lia]. apply filter_all. intros x Hx%Hm. by apply Z.ltb_lt.
  - rewrite !(filter_none _ more); [|intros x Hx%Hm; rewrite (proj2 (Z.leb_gt _ _)) by lia; done..].
    rewrite app_nil_r. f_equal.
    apply filter_ext_in. intros x Hx%HP. rewrite !(proj2 (Z.leb_le _ _)) by lia. done.
Qed.

Lemma remote_inv display serde fresh now e d r d' :
  Replica.apply_remote_event display serde fresh now e d = Some (r, d') ->
  (exists err, r = Err err /\ d' = d) \/
  let behind := (Z.max 0 (server_seq d) <? Envelope.seq e)%Z in
  is_ok r = true /\ outbox d' = outbox d /\ unprojected d' = unprojected d /\ baseline_verified d' = baseline_verified d /\
  projections_verified d' = projections_verified d /\ server_seq d' = Z.max (server_seq d) (Envelope.seq e) /\
  ((exists echo, load_by_id (log d) (Envelope.id e) = Some echo /\ log d' = log d /\ tables d' = tables d /\
     unechoed d' = unechoed d ∖ {[Envelope.id echo]} /\
     order_verified d' = order_verified d && negb (behind && order_verified d && Replica.overtaken d echo (Z.max 0 (ordered_local_seq d))) /\
     ordered_local_seq d' = Z.max (ordered_local_seq d) (if behind then Envelope.seq echo else 0%Z)) \/
   (exists p l f, load_by_id (log d) (Envelope.id e) = None /\ EventStore.append (log d) (e <| Envelope.seq := 0%Z |>) = Ok (p, l) /\
     ProjectionFold.apply fresh now (tables d) p = Ok f /\ log d' = l /\ tables d' = f /\ unechoed d' = unechoed d /\
     order_verified d' = order_verified d /\ ordered_local_seq d' = Z.max (ordered_local_seq d) (Envelope.seq p))).
Proof.
  unfold Replica.apply_remote_event, transaction. unfold mbind at 1, M_bind at 1, gets at 1.
  destruct (load_by_id (log d) (Envelope.id e)) as [echo|] eqn:L.
  - unfold Replica.apply_echo. unfold mbind, M_bind, gets, modify, mret, M_ret, Replica.advance_server_seq.
    unfold id. destruct (Z.max 0 (server_seq d) <? Envelope.seq e)%Z, (order_verified d) eqn:V,
      (Replica.overtaken d echo (Z.max 0 (ordered_local_seq d))) eqn:O; intros [= <- <-]; right; cbv zeta;
      rewrite ?V; repeat (split; [done|]); left; exists echo; rewrite O; by repeat (split; [done|]).
  - unfold Replica.apply_new, OutboundStore.append_tx, mbind, M_bind, gets, modify, mret, M_ret, Replica.advance_server_seq.
    destruct (EventStore.append _ _) as [[p l]|err] eqn:A; [|intros [= <- <-]; eauto].
    destruct (LocalExecutor.project _ _ _ _ p _) as [[r1 d1]|] eqn:P; [|done].
    apply project_inv in P as [E P]. cbn [tables set_field] in P. unfold but_tables in E. injection E as E1 E2 E3 E4 E5 E6 E7 E8 E9.
    cbn in *. destruct (ProjectionFold.apply _ _ _ _) as [f|err] eqn:F; destruct P as [-> Et]; [|intros [= <- <-]; eauto].
    intros [= <- <-]. right. cbn. repeat (split; [done || congruence|]). right. exists p, l, f.
    repeat (split; [done || congruence|]). congruence.
Qed.

Lemma in_local d e : e ∈ local k d <-> e ∈ rows (log d) /\ mine k e = true.
Proof. unfold local. by rewrite list_elem_of_In, filter_In, <- list_elem_of_In. Qed.
Lemma local_NoDup d : EventLogSpec.wf (log d) -> NoDup (map Envelope.id (local k d)).
Proof. intros Hwf. by apply NoDup_map_filter, wf_ids. Qed.
Lemma server_NoDup w c : sound w -> NoDup (map Envelope.id (on_server k (server_log w) c)).
Proof. intros Hs. destruct (sound_log w Hs) as [Hwf _]. by apply NoDup_map_filter, wf_ids. Qed.
(** A server event past the cursor is not among those up to it. *)
Lemma past_cursor w d e :
  sound w -> e ∈ rows (server_log w) -> (server_seq d < Envelope.seq e)%Z -> Envelope.id e ∉ ids_upto k w d.
Proof.
  intros Hs He Hc. destruct (sound_log w Hs) as [Hwf _]. intros (x & Ex & Hx)%list_elem_of_fmap.
  unfold on_server in Hx. rewrite list_elem_of_In, filter_In, <- list_elem_of_In in Hx. destruct Hx as [Hx Hxc].
  apply andb_prop in Hxc as [Hxc%Z.leb_le _]. enough (x = e) as -> by lia.
  apply list_elem_of_lookup in Hx as [i Hi]. apply list_elem_of_lookup in He as [j Hj].
  assert (i = j) as ->; [|congruence]. eapply NoDup_lookup; [exact (wf_ids _ Hwf)|..];
    change (map ?f ?q) with (f <$> q); rewrite list_lookup_fmap, ?Hi, ?Hj; cbn; by rewrite ?Ex.
Qed.

(** The parts of the invariant an applied event moves on its own. *)
Lemma order_echo w d d' e echo more :
  inv w d -> sound w -> List.filter (fun x => server_seq d <? Envelope.seq x)%Z (rows (server_log w)) = e :: more ->
  load_by_id (log d) (Envelope.id e) = Some echo ->
  log d' = log d -> tables d' = tables d -> unechoed d' = unechoed d ∖ {[Envelope.id echo]} ->
  server_seq d' = Envelope.seq e -> ordered_local_seq d' = Z.max (ordered_local_seq d) (Envelope.seq echo) ->
  Replica.overtaken d echo (Z.max 0 (ordered_local_seq d)) = false ->
  (exists Q, row_order w d Q) -> exists Q, row_order w d' Q.
Proof.
  intros [i1 i2 i3 i4 i5 i6 i7 i8 i9] Hs Hnext Hl El Et Ee Ec Eo Hov (Q & Hp & Hq & Hv).
  destruct (sound_log w Hs) as [Hwf Hsh]. destruct (on_server_next _ _ _ _ Hwf Hnext) as (Hc & He & _ & Hon).
  destruct (EventLogFacts.load_by_id_some _ _ _ Hl) as [Hecho Hid].
  rewrite Forall_forall in i2, Hsh. pose proof (honest_same _ _ (i2 _ Hecho) (Hsh _ He) Hid) as Hsame.
  exists Q. split; [|split; [done|by rewrite Et]]. unfold ids_upto, local. rewrite El, Ec, Ee, Eo, Hon, map_app.
  fold (ids_upto k w d) (local k d). destruct (mine k e) eqn:M; cbn [map].
  - rewrite <- Hid. apply placed_echo; [exact Hp|by apply server_NoDup|by apply local_NoDup| | | |].
    + by apply StronglySorted_list_filter, wf_sorted.
    + apply in_local. split; [done|]. by rewrite (same_mine _ _ Hsame).
    + rewrite Hid. by apply past_cursor.
    + intros x [Hx Hmx]%in_local Hsx. destruct (decide (Envelope.id x ∈ unechoed d)) as [|Hn]; [done|]. exfalso.
      enough (Replica.overtaken d echo (Z.max 0 (ordered_local_seq d)) = true) as E by (rewrite E in Hov; discriminate Hov).
      apply overtaken_all; [done|]. exists x. split; [done|]. split; [lia|]. split; [|done].
      apply same_subject_mine; auto. by rewrite (same_mine _ _ Hsame).
  - rewrite app_nil_r. eapply placed_weaken; [exact Hp|lia|set_solver].
Qed.
Lemma order_new fresh now w d d' e p l f more :
  inv w d -> sound w -> List.filter (fun x => server_seq d <? Envelope.seq x)%Z (rows (server_log w)) = e :: more ->
  load_by_id (log d) (Envelope.id e) = None ->
  EventStore.append (log d) (e <| Envelope.seq := 0%Z |>) = Ok (p, l) ->
  ProjectionFold.apply fresh now (tables d) p = Ok f ->
  log d' = l -> tables d' = f -> unechoed d' = unechoed d ->
  server_seq d' = Envelope.seq e -> ordered_local_seq d' = Z.max (ordered_local_seq d) (Envelope.seq p) ->
  (exists Q, row_order w d Q) -> exists Q, row_order w d' Q.
Proof.
  intros [i1 i2 i3 i4 i5 i6 i7 i8 i9] Hs Hnext Hl Ha Hf El Et Ee Ec Eo (Q & Hp & Hq & Hv).
  destruct (sound_log w Hs) as [Hwf Hsh]. destruct (on_server_next _ _ _ _ Hwf Hnext) as (Hc & He & _ & Hon).
  rewrite Forall_forall in Hsh. pose proof (EventLogFacts.load_by_id_none _ _ Hl) as Hnew.
  apply EventLogFacts.append_ok in Ha as (_ & Ep & Elog).
  assert (Hsame : same_event p e) by (rewrite Ep; done).
  assert (Hhp : honest minted p).
  { destruct (Hsh _ He) as [Hm Had]. rewrite Ep. by split. }
  assert (Hwp : tables d' = f /\ view k (ProjectionFold.tasks f) = foldl (row_step k) (view k (ProjectionFold.tasks (tables d))) (List.filter (mine k) [p])).
  { split; [done|]. apply (view_apply_all fresh now); [done|by constructor|]. cbn. by rewrite Hf. }
  destruct Hwp as [_ Hwp]. cbn [List.filter] in Hwp. rewrite (same_mine _ _ Hsame) in Hwp.
  assert (Hloc : local k d' = local k d ++ (if mine k e then [p] else [])).
  { unfold local. rewrite El, Elog. cbn [rows]. rewrite List.filter_app. cbn [List.filter]. by rewrite (same_mine _ _ Hsame). }
  exists (Q ++ (if mine k e then [p] else [])). split; [|split].
  - rewrite Hloc. unfold ids_upto. rewrite Ec, Ee, Eo, Hon, map_app. fold (ids_upto k w d).
    assert (Hid : Envelope.id p = Envelope.id e) by apply Hsame.
    destruct (mine k e) eqn:M; cbn [map]; [|rewrite !app_nil_r; eapply placed_weaken; [exact Hp|lia|done]].
    rewrite <- Hid. apply placed_new; [exact Hp|..]; rewrite ?Hid.
    + by apply past_cursor.
    + intros (x & Ex & Hx%in_local)%list_elem_of_fmap. apply Hnew. rewrite Ex. apply list_elem_of_fmap. exists x. by destruct Hx.
    + intros Hin. by apply Hnew, i5.
    + intros x [Hx _]%in_local. pose proof (wf_low _ i1) as Hlow. rewrite Forall_forall in Hlow. specialize (Hlow x Hx).
      rewrite Ep. cbn. lia.
  - apply Forall_app. split; [done|]. destruct (mine k e) eqn:M; [|done]. constructor; [|done].
    split; [done|]. by rewrite (same_mine _ _ Hsame).
  - rewrite Et, Hwp, Hv, foldl_app. by destruct (mine k e).
Qed.

Lemma inv_remote display serde fresh now w d e more r d' :
  inv w d -> sound w -> List.filter (fun x => server_seq d <? Envelope.seq x)%Z (rows (server_log w)) = e :: more ->
  Replica.apply_remote_event display serde fresh now e d = Some (r, d') ->
  inv w d' /\ match r with Ok _ => server_seq d' = Envelope.seq e | Err _ => d' = d end.
Proof.
  intros Hinv Hs Hnext Hr. pose proof Hinv as [i1 i2 i3 i4 i5 i6 i7 i8 i9].
  destruct (sound_log w Hs) as [Hwf Hsh]. destruct (on_server_next _ _ _ _ Hwf Hnext) as (Hc & He & _ & Hon).
  assert (Hub : (Envelope.seq e <= latest_seq (server_log w))%Z).
  { pose proof (wf_low _ Hwf) as Hlow. rewrite Forall_forall in Hlow. by apply Hlow. }
  pose proof (wf_high _ i1) as Hhw.
  apply remote_inv in Hr as [(err & -> & ->)|(Eok & Eo & Eu & Eb & Ep & Ec & Hcase)]; [done|].
  rewrite Z.max_r in Ec by lia. assert (Ebh : (Z.max 0 (server_seq d) <? Envelope.seq e)%Z = true) by (apply Z.ltb_lt; lia).
  rewrite Ebh in Hcase. cbn [andb] in Hcase.
  destruct r as [b|err]; [|done]. split; [|exact Ec].
  assert (Hset : settled d' -> (order_verified d' = order_verified d) -> settled d).
  { intros [Hv Hu] Hov. unfold settled, Replica.verified in *. by rewrite <- Eb, <- Ep, <- Hov, <- Eu. }
  destruct Hcase as [(echo & Hl & El & Et & Ee & Ev & Eord)|(p & l & f & Hl & Ha & Hf & El & Et & Ee & Ev & Eord)].
  - split; rewrite ?El, ?Et, ?Eo, ?Eu, ?Ee, ?Ec; try done; [|lia|lia|].
    + intros i Hi. apply i5. set_solver.
    + intros Hst. assert (Hov : order_verified d = true /\ Replica.overtaken d echo (Z.max 0 (ordered_local_seq d)) = false).
      { destruct Hst as [Hv _]. unfold Replica.verified in Hv. bsplit. rewrite Ev in *.
        destruct (order_verified d), (Replica.overtaken _ _ _); try done. }
      destruct Hov as [Hov1 Hov2]. eapply order_echo; eauto. apply i9, Hset; [done|]. rewrite Ev, Hov1, Hov2. done.
  - pose proof (EventLogFacts.append_wf _ _ _ _ i1 Ha) as Hwf'. pose proof (EventLogFacts.append_ok _ _ _ _ Ha) as (_ & Epp & Ell).
    rewrite Forall_forall in Hsh. destruct (Hsh _ He) as [Hm Had].
    assert (Hrows : rows (log d') = rows (log d) ++ [p]) by (by rewrite El, Ell).
    assert (Hin : forall i, i ∈ map Envelope.id (rows (log d)) -> i ∈ map Envelope.id (rows (log d'))).
    { intros i Hi. rewrite Hrows, map_app. apply elem_of_app. by left. }
    split; rewrite ?Hrows, ?Eo, ?Eu, ?Ee, ?Ec; try done; [by rewrite El| | | |lia| | |].
    + apply Forall_app. split; [done|]. constructor; [|done]. rewrite Epp. by split.
    + intros i Hi. rewrite <- Hrows. auto.
    + intros i Hi. rewrite <- Hrows. auto.
    + intros Hz. rewrite El, Ell in Hz. cbn in Hz. lia.
    + rewrite Et. eapply apply_tasks_wf; [exact i8|exact Hf].
    + intros Hst. eapply order_new; eauto.
Qed.

Lemma inv_apply_each display serde fresh now n es a m w d r d' :
  inv w d -> sound w -> es = take n (List.filter (fun x => server_seq d <? Envelope.seq x)%Z (rows (server_log w))) ->
  Replica.apply_each display serde fresh now es a m d = Some (r, d') -> inv w d' /\ unprojected d' = unprojected d.
Proof.
  intros Hinv Hs. revert n a m d Hinv. induction es as [|e es IH]; intros n a m d Hinv Hes; cbn [Replica.apply_each].
  { by intros [= <- <-]. }
  destruct n as [|n]; [done|]. destruct (List.filter _ _) as [|e' more] eqn:Hnext; [done|]. cbn [take] in Hes.
  injection Hes as <- Hes. unfold mbind, M_bind.
  destruct (Replica.apply_remote_event display serde fresh now e d) as [[r1 d1]|] eqn:R; [|done].
  destruct (inv_remote _ _ _ _ _ _ _ _ _ _ Hinv Hs Hnext R) as [Hinv1 Hr1].
  assert (Eu : unprojected d1 = unprojected d) by (by apply remote_inv in R as [(? & _ & ->)|(_ & _ & ? & _)]).
  destruct r1 as [b|err]; [|by intros [= <- <-]]. intros Hrest.
  destruct (sound_log w Hs) as [Hwf _]. destruct (on_server_next _ _ _ _ Hwf Hnext) as (_ & _ & Hm & _).
  destruct (IH n (if b then S a else a) (Z.max m (Envelope.seq e)) d1) as [Hi Hu]; [done|by rewrite Hr1, Hm|exact Hrest|]. split; [done|congruence].
Qed.

(** *** Reading the server's log *)
Definition span (l : EventLog) (a b : Z) : list EventEnvelope :=
  List.filter (fun e => (Envelope.seq e <=? b)%Z && ((a <? Envelope.seq e)%Z && mine k e)) (rows l).
Lemma filter_and {A} (p q : A -> bool) l : List.filter p (List.filter q l) = List.filter (fun x => q x && p x) l.
Proof. induction l as [|x l IH]; cbn; [done|]. destruct (q x); cbn; [|done]. by rewrite IH. Qed.
Lemma span_all l c : EventLogSpec.wf l -> span l 0 c = on_server k l c.
Proof.
  intros Hwf. pose proof (wf_low _ Hwf) as Hl. rewrite Forall_forall in Hl. unfold span, on_server.
  apply filter_ext_in. intros x Hx. rewrite (proj2 (Z.ltb_lt 0 _)); [done|]. by apply Hl.
Qed.
Lemma span_page l since limit e c :
  EventLogSpec.wf l -> last (load_since l since limit) = Some e ->
  span l since c = List.filter (mine k) (List.filter (fun x => Envelope.seq x <=? c)%Z (load_since l since limit))
    ++ span l (Envelope.seq e) c.
Proof.
  intros Hwf L. assert (E : forall a, span l a c =
    List.filter (fun x => (Envelope.seq x <=? c)%Z && mine k x) (List.filter (fun x => a <? Envelope.seq x)%Z (rows l))).
  { intros a. unfold span. rewrite filter_and. apply filter_ext_in. intros x _. by destruct (_ <=? _)%Z, (_ <? _)%Z. }
  by rewrite !E, (EventLogFacts.page_rest _ _ _ _ Hwf L), List.filter_app, (filter_and (mine k)).
Qed.
Lemma span_later w w' a c :
  sound w -> later w w' -> (c <= latest_seq (server_log w))%Z -> span (server_log w') a c = span (server_log w) a c.
Proof.
  intros Hs [_ Hg] Hc. destruct (sound_log w Hs) as [Hwf _].
  assert (Hd : forall e, (a <? Envelope.seq e)%Z && mine k e = true -> Event.class_ (Envelope.payload e) = Domain).
  { intros e He. bsplit. by apply (mine_domain k). }
  destruct (grown _ _ _ Hwf Hg Hd) as (_ & _ & E). by apply E.
Qed.
Lemma span_none l a c : (c <= a)%Z -> span l a c = [].
Proof. intros Hac. apply filter_none. intros x _. destruct (Z.leb_spec (Envelope.seq x) c), (Z.ltb_spec a (Envelope.seq x)); cbn; try done. lia. Qed.

Lemma fold_server_reads fresh now fuel limit cursor since f ids w r w' :
  sound w -> (cursor <= latest_seq (server_log w))%Z -> (0 < limit)%nat \/ (cursor <= since)%Z ->
  Replica.fold_server fresh now fuel limit cursor since f ids w = Some (r, w') ->
  later w w' /\ forall g ids', r = Ok (g, ids') -> exists P,
    Forall (honest minted) P /\ ProjectionFold.apply_all fresh now f P = Ok g /\
    ids' = ids ∪ list_to_set (map Envelope.id P) /\ List.filter (mine k) P = span (server_log w') since cursor /\
    ((cursor <= since)%Z -> P = []).
Proof.
  revert since f ids w. induction fuel as [|fuel IH]; intros since f ids w Hs Hc Hlim; [done|]. cbn [Replica.fold_server].
  destruct (Z.ltb_spec since cursor) as [Hlt|Hge].
  2: { intros [= <- <-]. split; [by apply later_refl|]. intros g ids' [= <- <-]. exists []. cbn.
       split; [done|]. split; [done|]. split; [set_solver|]. split; [by rewrite span_none|done]. }
  destruct Hlim as [Hlim|]; [|lia]. unfold mbind at 1, M_bind at 1.
  destruct (fetch_events since limit w) as [[[page|err] w1]|] eqn:F; [| |done].
  2: { intros [= <- <-]. by destruct (fetch_events_law _ _ _ _ _ Hs F). }
  destruct (fetch_events_law _ _ _ _ _ Hs F) as [Hl1 Hp]. specialize (Hp page eq_refl).
  pose proof Hl1 as [Hs1 Hg1]. destruct (sound_log w Hs) as [Hwf _]. destruct (sound_log w1 Hs1) as [Hwf1 Hh1].
  destruct (grown _ _ (mine k) Hwf Hg1 (mine_domain k)) as (_ & Hle & _).
  pose proof (page_last (server_log w1) since (Nat.min limit 1000) Hwf1) as HP. rewrite <- Hp in HP.
  destruct (last page) as [e|] eqn:L.
  2: { intros [= <- <-]. split; [done|]. intros g ids' [= <- <-]. exists []. cbn. destruct HP as [_ HP]; [lia|].
       split; [done|]. split; [done|]. split; [set_solver|]. split; [|done]. unfold span.
       rewrite filter_none; [done|]. intros x Hx. destruct (Z.ltb_spec since (Envelope.seq x)); [|by rewrite andb_false_r].
       exfalso. enough (x ∈ @nil EventEnvelope) as ?%elem_of_nil by done. rewrite <- HP.
       rewrite list_elem_of_In, filter_In, <- list_elem_of_In. split; [done|by apply Z.ltb_lt]. }
  unfold mbind, M_bind, lift. set (taken := List.filter _ page).
  destruct (ProjectionFold.apply_all fresh now f taken) as [f1|err] eqn:A; [|by intros [= <- <-]].
  intros Hrest. destruct (IH _ _ _ _ Hs1 ltac:(lia) (or_introl Hlim) Hrest) as [Hl2 HPr]. split; [by eapply later_trans|].
  intros g ids' E. destruct (HPr g ids' E) as (P & Hh & Ha & Ei & Ef & _). exists (taken ++ P).
  split; [|split; [|split; [|split; [|lia]]]].
  - apply Forall_app. split; [|done]. apply Forall_list_filter. rewrite Hp. unfold load_since.
    apply Forall_take. by apply Forall_list_filter.
  - by rewrite FoldFacts.apply_all_app, A.
  - rewrite Ei, map_app, list_to_set_app_L. set_solver.
  - rewrite List.filter_app, Ef. rewrite (span_later w1 w') by (done || lia).
    rewrite (span_later w1 w' since) by (done || lia). rewrite Hp in L. rewrite (span_page _ _ _ _ cursor Hwf1 L). by rewrite <- Hp.
Qed.
Lemma fold_server_limit0 fresh now fuel cursor f w r w' :
  sound w -> (0 < cursor)%Z -> Replica.fold_server fresh now fuel 0 cursor 0 f ∅ w = Some (r, w') ->
  later w w' /\ forall x, r = Ok x -> x.2 = ∅.
Proof.
  intros Hs Hc. destruct fuel as [|fuel]; [done|]. cbn [Replica.fold_server]. rewrite (proj2 (Z.ltb_lt 0 _)) by done.
  unfold mbind at 1, M_bind at 1. destruct (fetch_events 0 0 w) as [[[page|err] w1]|] eqn:F; [| |done].
  - destruct (fetch_events_law _ _ _ _ _ Hs F) as [Hl1 Hp]. specialize (Hp page eq_refl). subst page. cbn.
    intros [= <- <-]. split; [done|]. by intros x [= <-].
  - destruct (fetch_events_law _ _ _ _ _ Hs F) as [Hl1 _]. by intros [= <- <-].
Qed.

(** *** The rows of a fold in place of the device's *)
Lemma get_deleted t i j : TaskRepo.get (Replica.delete_task t i) j = if bool_decide (j = i) then None else TaskRepo.get t j.
Proof. apply TaskTableFacts.delete_get. Qed.
Lemma get_deleted_all stale t j :
  TaskRepo.get (foldl Replica.delete_task t stale) j = if bool_decide (j ∈ stale) then None else TaskRepo.get t j.
Proof.
  revert t. induction stale as [|i stale IH]; intros t; cbn [foldl].
  { by rewrite bool_decide_eq_false_2 by (by intros ?%elem_of_nil). }
  rewrite IH, get_deleted. destruct (decide (j ∈ stale)).
  - by rewrite !bool_decide_eq_true_2 by set_solver.
  - rewrite (bool_decide_eq_false_2 (j ∈ stale)) by done. apply eq_sym. destruct (decide (j = i)) as [->|].
    + by rewrite !bool_decide_eq_true_2 by set_solver.
    + by rewrite !bool_decide_eq_false_2 by set_solver.
Qed.
Lemma restored_get f g f' :
  FoldSpec.wf g -> ProjectionFold.restore (Replica.drop_stale f (ProjectionFold.state g)) (ProjectionFold.state g) = Ok f' ->
  forall j, TaskRepo.get (ProjectionFold.tasks f') j = TaskRepo.get (ProjectionFold.tasks g) j.
Proof.
  intros [[Hk Hu] _ _]. unfold ProjectionFold.restore. intros (t & Ht & [= <-])%rbind_ok j. cbn [ProjectionFold.tasks].
  cbn [Snapshot.p_tasks ProjectionFold.state] in Ht.
  destruct (FoldFacts.upsert_tasks_get _ _ _ (SameTasks.NoDup_ids _ Hk) Ht) as [Hin Hout].
  destruct (TaskRepo.get (ProjectionFold.tasks g) j) as [x|] eqn:G.
  - assert (Hx : x ∈ TaskRepo.list_all (ProjectionFold.tasks g)) by (apply SameTasks.elem_of_list_all; eauto).
    rewrite <- (Hk _ _ G). by apply Hin.
  - assert (Hj : j ∉ map Task.id (TaskRepo.list_all (ProjectionFold.tasks g))).
    { intros (x & -> & (i & Hi)%SameTasks.elem_of_list_all)%list_elem_of_fmap. rewrite (Hk _ _ Hi) in G. congruence. }
    rewrite Hout by done. cbn. rewrite get_deleted_all. case_bool_decide as Hs; [done|].
    destruct (TaskRepo.get (ProjectionFold.tasks f) j) eqn:F; [|done]. exfalso. apply Hs.
    rewrite list_elem_of_In, filter_In, <- list_elem_of_In. split.
    + unfold TaskRepo.get in F. destruct (TaskRepo.rows (ProjectionFold.tasks f) !! j) as [row|] eqn:R; [|done].
      apply list_elem_of_fmap. exists (j, row). split; [done|]. by apply elem_of_map_to_list.
    + apply negb_true_iff. by apply bool_decide_eq_false_2.
Qed.

Lemma adopt_inv display serde fresh now c ids folded d r d' :
  (0 <= server_seq d)%Z -> Replica.adopt_fold display serde fresh now c ids folded d = Some (r, d') ->
  (d' = d /\ (Replica.verified d = false -> is_ok r = false)) \/
  exists folded', Replica.fold_local_only fresh now d ids folded.1 folded.2 = Ok folded' /\
    ProjectionFold.restore (Replica.drop_stale (tables d) (ProjectionFold.state folded'.2)) (ProjectionFold.state folded'.2) = Ok (tables d') /\
    is_ok r = true /\ log d' = log d /\ outbox d' = outbox d /\ unechoed d' = unechoed d /\ unprojected d' = ∅ /\
    server_seq d' = Z.max (server_seq d) c /\ ordered_local_seq d' = 0%Z /\
    Replica.verified d' = negb (c <? server_seq d)%Z.
Proof.
  intros Hc. unfold Replica.adopt_fold, transaction. unfold mbind at 1, M_bind at 1, gets at 1. unfold id.
  destruct (Replica.verified d) eqn:V; [intros [= <- <-]; left; by split|]. unfold mbind at 1, M_bind at 1, lift at 1.
  destruct (Replica.fold_local_only _ _ _ _ _ _) as [folded'|err]; [|intros [= <- <-]; by left].
  unfold Replica.replace_projections, Replica.restore_snapshot, Replica.replace_activity, Replica.mark_verified_baseline,
    mbind, M_bind, modify, mret, M_ret.
  change (tables (d <| tables := ?x |>)) with x. cbv beta.
  destruct (ProjectionFold.restore _ _) as [f'|err] eqn:R; [|intros [= <- <-]; by left].
  rewrite Z.max_r by lia. destruct (c <? server_seq d)%Z; intros [= <- <-]; right; exists folded'; by rewrite R.
Qed.

(** *** The repair *)
Lemma cursor_max w d : inv w d -> Z.max 0 (server_seq d) = server_seq d.
Proof. intros Hi. pose proof (i_cursor _ _ _ Hi). lia. Qed.

(** What both phases fold: the server's events, then what only this device has. *)
Lemma order_rebuilt fresh now w d d' P g :
  inv w d -> sound w -> Forall (honest minted) P ->
  List.filter (mine k) P = on_server k (server_log w) (server_seq d) ->
  ProjectionFold.apply_all fresh now ProjectionFold.empty
    (P ++ List.filter (fun x => negb (bool_decide (Envelope.id x ∈ (list_to_set (map Envelope.id P) : gset EventId)))) (rows (log d))) = Ok g ->
  (forall j, TaskRepo.get (ProjectionFold.tasks (tables d')) j = TaskRepo.get (ProjectionFold.tasks g) j) ->
  log d' = log d -> server_seq d' = server_seq d -> ordered_local_seq d' = 0%Z ->
  TaskTableSpec.wf (ProjectionFold.tasks g) /\ exists Q, row_order w d' Q.
Proof.
  intros Hinv Hs HP Hf Ha Hget El Ec Eo. pose proof Hinv as [i1 i2 _ _ _ _ _ _ _].
  set (B := List.filter _ (rows (log d))) in Ha.
  assert (HB : Forall (honest minted) B) by (by apply Forall_list_filter).
  destruct (view_apply_all fresh now ProjectionFold.empty (P ++ B) g) as [Hv Hw]; [apply FoldFacts.empty_wf|by apply Forall_app|done|].
  split; [done|].
  assert (Hids : ids_upto k w d' = map Envelope.id (List.filter (mine k) P)) by (unfold ids_upto; by rewrite Ec, Hf).
  assert (HBw : List.filter (mine k) B = List.filter (waiting (ids_upto k w d')) (local k d)).
  { unfold B, local. rewrite !filter_and. apply filter_ext_in. intros x Hx. unfold waiting, known. rewrite Hids, andb_comm.
    destruct (mine k x) eqn:M; cbn [andb]; [|done]. f_equal. apply bool_decide_ext. rewrite elem_of_list_to_set.
    split; [|intros (y & E & Hy)%list_elem_of_fmap; apply list_elem_of_fmap; exists y;
      rewrite list_elem_of_In, filter_In, <- list_elem_of_In in Hy; by destruct Hy].
    intros (y & E & Hy)%list_elem_of_fmap. apply list_elem_of_fmap. exists y. split; [done|].
    rewrite list_elem_of_In, filter_In, <- list_elem_of_In. split; [done|]. rewrite Forall_forall in i2, HP.
    by rewrite <- (same_mine x y) by (apply honest_same; auto). }
  exists (List.filter (mine k) P ++ List.filter (waiting (ids_upto k w d')) (local k d)). split; [|split].
  - unfold local. rewrite El, Eo. fold (local k d). by apply placed_start.
  - apply Forall_app. rewrite Forall_forall in i2, HP. split; apply Forall_forall; intros x Hx;
      rewrite list_elem_of_In, filter_In, <- list_elem_of_In in Hx; destruct Hx as [Hx Hm]; [by split; auto|].
    apply in_local in Hx as [Hx Hmx]. split; auto.
  - rewrite (view_same k _ _ Hget), Hv, List.filter_app, HBw. done.
Qed.

Lemma inv_rebuild display serde fresh now limit w d r w' d' :
  inv w d -> sound w -> Replica.rebuild_from_log display serde fresh now limit (w, d) = Some (r, (w', d')) ->
  later w w' /\ inv w' d' /\ log d' = log d /\ server_seq d' = server_seq d /\
  (is_ok r = true -> Replica.verified d = false -> settled d').
Proof.
  intros Hinv Hs. unfold Replica.rebuild_from_log. unfold mbind at 1, M_bind at 1, on_device at 1, gets at 1. cbn [fst snd].
  rewrite (cursor_max w d Hinv). pose proof (i_cursor _ _ _ Hinv) as Hc. unfold mbind at 1, M_bind at 1, on_world at 1. cbn [fst snd].
  destruct (Replica.fold_server _ _ _ _ _ _ _ _ w) as [[rd w1]|] eqn:F; [|done].
  assert (Hrd : later w w1 /\ forall f ids, rd = Ok (f, ids) -> ((0 < server_seq d)%Z /\ ids = ∅) \/
    exists P, Forall (honest minted) P /\ ProjectionFold.apply_all fresh now ProjectionFold.empty P = Ok f /\
      ids = list_to_set (map Envelope.id P) /\ List.filter (mine k) P = on_server k (server_log w1) (server_seq d) /\
      ((server_seq d <= 0)%Z -> P = [])).
  { destruct (decide (limit = 0%nat /\ (0 < server_seq d)%Z)) as [[-> Hpos]|Hlim].
    - destruct (fold_server_limit0 _ _ _ _ _ _ _ _ Hs Hpos F) as [Hl Hx]. split; [done|]. intros f ids E. left.
      split; [done|]. exact (Hx _ E).
    - assert (Hor : (0 < limit)%nat \/ (server_seq d <= 0)%Z) by lia.
      destruct (fold_server_reads _ _ _ _ _ _ _ _ _ _ _ Hs (proj2 Hc) Hor F) as [Hl Hx]. split; [done|].
      intros f ids E. right. destruct (Hx _ _ E) as (P & HP & Ha & -> & Hf & Hz). exists P.
      split; [done|]. split; [done|]. split; [set_solver|]. split; [|done]. rewrite Hf. apply span_all. by apply sound_log, Hl. }
  destruct Hrd as [Hl1 Hrd]. pose proof (inv_later _ _ _ Hs Hl1 Hinv) as Hinv1. pose proof Hl1 as [Hs1 _].
  destruct rd as [[f ids]|err]; [|intros [= <- <- <-]; by do 4 (split; [done|])]. cbn [fst snd]. specialize (Hrd f ids eq_refl).
  destruct ((0 <? server_seq d)%Z && bool_decide (ids = ∅)) eqn:G; [intros [= <- <- <-]; by do 4 (split; [done|])|].
  destruct Hrd as [[Hpos ->]|(P & HP & Ha & Eids & Hf & HPz)].
  { exfalso. rewrite (proj2 (Z.ltb_lt 0 _)) in G by done. by rewrite bool_decide_eq_true_2 in G. }
  unfold mbind at 1, M_bind at 1, on_device at 1, gets at 1. cbn [fst snd]. unfold id.
  unfold mbind at 1, M_bind at 1, lift at 1. unfold Replica.fold_local_only at 1.
  pose proof (fold_local_all fresh now (S (length (rows (log d)))) (log d) ids 0 f (i_log _ _ _ Hinv)) as HL.
  destruct (Replica.fold_local _ _ _ _ _ _ _) as [[p g]|err]; [|intros [= <- <- <-]; by do 4 (split; [done|])].
  destruct HL as (Hg & Hp0 & Hend).
  { pose proof (List.filter_length_le (fun x => 0 <? Envelope.seq x)%Z (rows (log d))). lia. }
  rewrite (filter_all (fun x => 0 <? Envelope.seq x)%Z) in Hg.
  2: { intros x Hx. pose proof (wf_low _ (i_log _ _ _ Hinv)) as Hlow. rewrite Forall_forall in Hlow. by apply Z.ltb_lt, Hlow. }
  unfold mbind, M_bind, on_device, mret, M_ret. cbn [fst snd].
  destruct (Replica.adopt_fold _ _ _ _ _ _ _ d) as [[r1 d1]|] eqn:A; [|done].
  apply adopt_inv in A; [|lia]. intros Hfin.
  assert (E : w' = w1 /\ d' = d1 /\ is_ok r = is_ok r1) by (destruct r1; by injection Hfin as <- <- <-).
  destruct E as (-> & -> & Eok). rewrite Eok. clear Hfin Eok. split; [done|].
  destruct A as [[-> Hn]|(folded' & HL2 & Hres & Hok & El & Eo & Ee & Eu & Ec & Eord & Ev)].
  { do 3 (split; [done|]). intros Ho Hv. rewrite Hn in Ho by done. discriminate Ho. }
  (* the second phase finds nothing new *)
  assert (Efold : folded'.2 = g).
  { unfold Replica.fold_local_only in HL2. cbn [fst snd] in HL2.
    pose proof (fold_local_all fresh now (S (length (rows (log d)))) (log d) ids p g (i_log _ _ _ Hinv)) as HL.
    rewrite HL2, Hend in HL. destruct folded' as [p' g']. destruct HL as [HL _]; [cbn; lia|]. cbn in HL. by injection HL as ->. }
  rewrite Efold in Hres. rewrite Z.max_id in Ec. rewrite Z.ltb_irrefl in Ev. subst ids.
  assert (HgA : ProjectionFold.apply_all fresh now ProjectionFold.empty (P ++ List.filter (fun x =>
    negb (bool_decide (Envelope.id x ∈ (list_to_set (map Envelope.id P) : gset EventId)))) (rows (log d))) = Ok g).
  { by rewrite FoldFacts.apply_all_app, Ha. }
  assert (Hgwf : FoldSpec.wf g) by (eapply FoldFacts.apply_all_wf; [apply FoldFacts.empty_wf|exact HgA]).
  pose proof (restored_get _ _ _ Hgwf Hres) as Hget.
  destruct (order_rebuilt fresh now w1 d d1 P g Hinv1 Hs1 HP Hf HgA Hget El Ec Eord) as [Hwg HQ].
  pose proof Hinv1 as [i1 i2 i3 i4 i5 i6 i7 i8 i9]. split; [|do 2 (split; [done|]); by intros _ _; split].
  split; rewrite ?El, ?Eo, ?Ee, ?Eu, ?Ec; try done.
  - intros Hz Hc0. rewrite (i7 Hz Hc0) in Hres. rewrite HPz in HgA by lia.
    rewrite (latest_zero _ i1 Hz) in HgA. injection HgA as <-. by injection Hres.
  - eapply TaskTableFacts.wf_same_get; [exact Hget|exact Hwg].
Qed.

(** *** First catch-up *)
Lemma empty_log_sets w d : inv w d -> rows (log d) = [] -> unprojected d = ∅ /\ unechoed d = ∅.
Proof.
  intros Hi E. split; apply set_eq; intros i; (split; [|set_solver]).
  - intros Hu%(i_unprojected _ _ _ Hi). rewrite E in Hu. by apply elem_of_nil in Hu.
  - intros Hu%(i_unechoed _ _ _ Hi). rewrite E in Hu. by apply elem_of_nil in Hu.
Qed.
Lemma mark_baseline_inv seq d r d' :
  Replica.mark_verified_baseline seq d = Some (r, d') ->
  r = Ok tt /\ log d' = log d /\ tables d' = tables d /\ outbox d' = outbox d /\ unprojected d' = unprojected d /\
  unechoed d' = unechoed d /\ server_seq d' = seq /\ ordered_local_seq d' = 0%Z /\ Replica.verified d' = true.
Proof. by intros [= <- <-]. Qed.

(** With the cursor at the start nothing is ahead of anything. *)
Lemma on_server_zero l : EventLogSpec.wf l -> on_server k l 0 = [].
Proof. intros Hwf. rewrite <- span_all by done. by apply span_none. Qed.
Lemma row_order_zero w d d' Q :
  sound w -> row_order w d Q -> server_seq d = 0%Z ->
  log d' = log d -> tables d' = tables d -> server_seq d' = 0%Z -> row_order w d' Q.
Proof.
  intros Hs ([Hk Hw Ha] & Hq & Hv) Hc El Et Ec'. destruct (sound_log w Hs) as [Hwf _].
  unfold row_order, ids_upto, local in *. rewrite Hc, on_server_zero in Hk, Hw by done.
  rewrite El, Et, Ec', on_server_zero by done. split; [|done]. split; [done..|].
  intros Q1 b Q2 a _ _ _ Hka. unfold known in Hka. apply bool_decide_eq_true in Hka. by apply elem_of_nil in Hka.
Qed.

(** A full replay starts. *)
Lemma inv_from_zero w d r d' :
  inv w d -> sound w -> server_seq d = 0%Z ->
  (Replica.verified d = true -> unprojected d = ∅) -> (Replica.verified d = false -> latest_seq (log d) = 0%Z) ->
  Replica.mark_verified_baseline 0 d = Some (r, d') -> inv w d' /\ settled d' /\ server_seq d' = 0%Z.
Proof.
  intros Hinv Hs Hc Hv Hn (-> & El & Et & Eo & Eu & Ee & Ec & Eord & Ev)%mark_baseline_inv.
  pose proof Hinv as [i1 i2 i3 i4 i5 i6 i7 i8 i9].
  assert (Hu : unprojected d = ∅).
  { destruct (Replica.verified d); [by apply Hv|]. by apply (empty_log_sets w d Hinv), latest_zero, Hn. }
  split; [|split; [by split; rewrite ?Eu|done]].
  split; rewrite ?El, ?Et, ?Eo, ?Eu, ?Ee, ?Ec; try done; [lia|auto|]. intros _.
  destruct (Replica.verified d) eqn:V.
  - destruct i9 as [Q HQ]; [by split; auto|]. exists Q. by apply (row_order_zero w d).
  - pose proof (latest_zero _ i1 (Hn eq_refl)) as Hrows. exists []. destruct (sound_log w Hs) as [Hwf _].
    split; [|split; [done|]].
    + unfold ids_upto, local. rewrite El, Ec, Eord, Hrows, on_server_zero by done. cbn. exact (placed_start [] [] [] (unechoed d') eq_refl).
    + by rewrite Et, i7 by auto.
Qed.

(** A snapshot is restored into an empty device. *)
Lemma inv_bootstrap w d s fresh now r d' :
  inv w d -> sound w -> server_seq d = 0%Z -> latest_seq (log d) = 0%Z -> (0 <= Snapshot.seq s)%Z ->
  SnapshotSpec.covers fresh now (server_log w) s ->
  Replica.bootstrap_from_snapshot s d = Some (r, d') ->
  r = Ok tt /\ inv w d' /\ settled d' /\ server_seq d' = Snapshot.seq s.
Proof.
  intros Hinv Hs Hc Hz Hs0 [Hle (f & Hf & Hp)] Hb. pose proof Hinv as [i1 i2 i3 i4 i5 i6 i7 i8 i9].
  destruct (sound_log w Hs) as [Hwf Hh].
  assert (Hfwf : FoldSpec.wf f) by (eapply FoldFacts.apply_all_wf; [apply FoldFacts.empty_wf|exact Hf]).
  destruct (FoldFacts.new_state f (Snapshot.payload s) Hfwf Hp) as (g & Hg & Hgf & Hgw).
  unfold Replica.bootstrap_from_snapshot, transaction, Replica.restore_snapshot, mbind, M_bind in Hb.
  rewrite (i7 Hz Hc) in Hb. cbn [ProjectionFold.new] in Hg. rewrite Hg in Hb.
  destruct (Replica.mark_verified_baseline _ _) as [[r1 d1]|] eqn:M; [|done].
  apply mark_baseline_inv in M as (-> & El & Et & Eo & Eu & Ee & Ec & Eord & Ev). injection Hb as <- <-.
  cbn in El, Et, Eo, Eu, Ee. pose proof (latest_zero _ i1 Hz) as Hrows. destruct (empty_log_sets w d Hinv Hrows) as [Hu He].
  split; [done|]. split; [|split; [by split; [|rewrite Eu]|done]].
  split; rewrite ?El, ?Et, ?Eo, ?Eu, ?Ee, ?Ec; try done.
  - intros _ E0. rewrite E0 in Hf. assert (Hpre : SnapshotSpec.prefix (server_log w) 0 = []).
    { unfold SnapshotSpec.prefix. apply filter_none. intros x Hx. pose proof (wf_low _ Hwf) as Hlow.
      rewrite Forall_forall in Hlow. specialize (Hlow x Hx). apply Z.leb_gt. lia. }
    rewrite Hpre in Hf. injection Hf as <-. destruct Hp as (P1 & P2 & P3). destruct (Snapshot.payload s) as [ts ps cs]. cbn in P1, P2, P3.
    apply Permutation_nil_r in P1, P2, P3. subst. by injection Hg.
  - apply Hgw.
  - intros _. set (A := on_server k (server_log w) (Snapshot.seq s)).
    assert (EA : A = List.filter (mine k) (SnapshotSpec.prefix (server_log w) (Snapshot.seq s))) by (unfold A, on_server, SnapshotSpec.prefix; by rewrite filter_and).
    exists A. split; [|split].
    + unfold ids_upto, local. rewrite Ec, El, Hrows, Eord. fold A.
      pose proof (placed_start (map Envelope.id A) A [] (unechoed d1) eq_refl) as HA. by rewrite app_nil_r in HA.
    + rewrite Forall_forall in Hh. apply Forall_forall. intros x Hx. unfold A, on_server in Hx.
      rewrite list_elem_of_In, filter_In, <- list_elem_of_In in Hx. destruct Hx as [Hx Hm]. split; [auto|]. by bsplit.
    + rewrite Et. destruct Hgf as (Hgt & _). rewrite (view_same k (ProjectionFold.tasks f)) by (intros; apply Hgt).
      rewrite EA. apply (view_apply_all fresh now ProjectionFold.empty); [apply FoldFacts.empty_wf| |exact Hf].
      by apply Forall_list_filter.
Qed.

(** *** One sync *)
Lemma inv_distrust w d r d' :
  inv w d -> Replica.distrust_unprojected d = Some (r, d') ->
  r = Ok tt /\ inv w d' /\ log d' = log d /\ server_seq d' = server_seq d /\
  (Replica.verified d' = true -> unprojected d' = ∅).
Proof.
  intros [i1 i2 i3 i4 i5 i6 i7 i8 i9] [= <- <-]. split; [done|].
  destruct (decide (unprojected d = ∅)) as [E|E].
  - rewrite bool_decide_eq_true_2 by done. split; [by split|]. done.
  - rewrite bool_decide_eq_false_2 by done. split; [|split; [done|split; [done|]]].
    + split; try done. intros [Hv _]. unfold Replica.verified in Hv. cbn in Hv. by rewrite andb_false_r in Hv.
    + unfold Replica.verified. cbn. by rewrite andb_false_r.
Qed.

Lemma inv_repair display serde fresh now limit always w d r w' d' :
  inv w d -> sound w -> Replica.repair display serde fresh now limit always (w, d) = Some (r, (w', d')) ->
  later w w' /\ inv w' d' /\ log d' = log d /\ server_seq d' = server_seq d /\
  (is_ok r = true -> (Replica.verified d = true -> unprojected d = ∅) ->
   settled d' \/ (always = false /\ d' = d /\ Replica.verified d = false /\ server_seq d = 0%Z /\ latest_seq (log d) = 0%Z)).
Proof.
  intros Hinv Hs. unfold Replica.repair. unfold mbind at 1, M_bind at 1, on_device at 1, gets at 1. cbn [fst snd]. unfold id.
  pose proof (i_cursor _ _ _ Hinv) as Hc. pose proof (wf_high _ (i_log _ _ _ Hinv)) as Hh.
  destruct (Replica.verified d) eqn:V; cbn [negb andb].
  - intros [= <- <- <-]. split; [by apply later_refl|]. do 3 (split; [done|]). intros _ Hu. left. split; auto.
  - destruct (always || _ || _) eqn:E.
    + intros Hr. destruct (inv_rebuild _ _ _ _ _ _ _ _ _ _ Hinv Hs Hr) as (Hl & Hi & El & Ec & Hset).
      split; [done|]. do 3 (split; [done|]). intros Ho _. left. by apply Hset.
    + intros [= <- <- <-]. split; [by apply later_refl|]. do 3 (split; [done|]). intros _ _. right.
      apply orb_false_iff in E as [E Hz%Z.ltb_ge]. apply orb_false_iff in E as [-> Hcz%Z.ltb_ge].
      unfold latest_seq in *. repeat split; lia.
Qed.

Lemma inv_first w d r w' d' :
  inv w d -> sound w -> server_seq d = 0%Z -> first_sync_is_clean (W := W) d ->
  (Replica.verified d = true -> unprojected d = ∅) -> (Replica.verified d = false -> latest_seq (log d) = 0%Z) ->
  Replica.first_catch_up (w, d) = Some (r, (w', d')) ->
  later w w' /\ inv w' d' /\ match r with Ok since => settled d' /\ since = server_seq d' | Err _ => d' = d end.
Proof.
  intros Hinv Hs Hc Hclean Hv Hn. unfold Replica.first_catch_up. unfold mbind at 1, M_bind at 1, on_world. cbn [fst snd].
  destruct (fetch_snapshot w) as [[[so|err] w1]|] eqn:F; [| |done].
  2: { destruct (fetch_snapshot_law _ _ _ Hs F) as [Hl _]. intros [= <- <- <-]. split; [done|]. split; [|done]. by eapply inv_later. }
  destruct (fetch_snapshot_law _ _ _ Hs F) as [Hl Hsnap]. pose proof Hl as [Hs1 _].
  pose proof (inv_later _ _ _ Hs Hl Hinv) as Hinv1.
  assert (Hzero : forall r' s', (_ ← on_device (Replica.mark_verified_baseline 0); mret 0%Z) (w1, d) = Some (r', s') ->
    later w w1 /\ inv s'.1 s'.2 /\ s'.1 = w1 /\ match r' with Ok since => settled s'.2 /\ since = server_seq s'.2 | Err _ => s'.2 = d end).
  { intros r' s'. unfold mbind, M_bind, on_device. cbn [fst snd].
    destruct (Replica.mark_verified_baseline 0 d) as [[r1 d1]|] eqn:M; [|done].
    destruct (inv_from_zero w1 d r1 d1 Hinv1 Hs1 Hc Hv Hn M) as (Hi & Hst & Ec).
    injection M as <- <-. intros [= <- <-]. cbn [fst snd]. split; [done|]. split; [exact Hi|]. split; [done|]. by split. }
  destruct so as [s|].
  - destruct (Snapshot.is_consistent s) eqn:Cs.
    + destruct (Hclean Hc) as [Hz|Hno]; [|by rewrite (Hno _ _ _ F) in Cs].
      destruct (Hsnap s eq_refl Cs) as (Hs0 & fresh & now & Hcov).
      unfold mbind, M_bind, on_device. cbn [fst snd].
      destruct (Replica.bootstrap_from_snapshot s d) as [[r1 d1]|] eqn:B; [|done].
      destruct (inv_bootstrap _ _ _ _ _ _ _ Hinv1 Hs1 Hc Hz Hs0 Hcov B) as (-> & Hi & Hst & Ec).
      intros [= <- <- <-]. split; [done|]. split; [done|]. by split.
    + intros (? & ? & ? & ?)%Hzero. cbn in *. by subst.
  - intros (? & ? & ? & ?)%Hzero. cbn in *. by subst.
Qed.

Lemma inv_catch_up display serde fresh now limit w d r w' d' :
  inv w d -> sound w -> first_sync_is_clean (W := W) d ->
  Replica.catch_up display serde fresh now limit (w, d) = Some (r, (w', d')) ->
  later w w' /\ inv w' d' /\ (is_ok r = true -> settled d').
Proof.
  intros Hinv Hs Hclean. unfold Replica.catch_up. unfold mbind at 1, M_bind at 1, on_device at 1. cbn [fst snd].
  destruct (Replica.distrust_unprojected d) as [[r0 d0]|] eqn:D; [|done].
  destruct (inv_distrust _ _ _ _ Hinv D) as (-> & Hinv0 & El0 & Ec0 & Hv0). unfold mbind at 1, M_bind at 1.
  destruct (Replica.repair _ _ _ _ _ _ (w, d0)) as [[r1 [w1 d1]]|] eqn:R; [|done].
  destruct (inv_repair _ _ _ _ _ _ _ _ _ _ _ Hinv0 Hs R) as (Hl1 & Hinv1 & El1 & Ec1 & Hr1). pose proof Hl1 as [Hs1 _].
  destruct r1 as [repaired|err]; [|by intros [= <- <- <-]]. specialize (Hr1 eq_refl Hv0).
  unfold mbind at 1, M_bind at 1, on_device at 1, gets at 1. cbn [fst snd]. rewrite (cursor_max w1 d1 Hinv1).
  unfold mbind at 1, M_bind at 1.
  set (first := (if (server_seq d1 =? 0)%Z then Replica.first_catch_up else mret (server_seq d1)) (w1, d1)).
  destruct first as [[r2 [w2 d2]]|] eqn:F; [|done]. unfold first in F. clear first.
  assert (H2 : later w1 w2 /\ inv w2 d2 /\ match r2 with Ok since => settled d2 /\ since = server_seq d2 | Err _ => True end).
  { destruct (Z.eqb_spec (server_seq d1) 0) as [Ez|Ez].
    - destruct (inv_first w1 d1 r2 w2 d2) as (Hl & Hi & Hm); try done.
      + intros _. rewrite El1, El0. apply Hclean. congruence.
      + intros V. destruct Hr1 as [[_ Hu]|(_ & -> & Vf & _)]; [done|congruence].
      + intros V. destruct Hr1 as [[Vt _]|(_ & -> & _ & _ & Hz)]; [congruence|done].
      + split; [done|]. split; [done|]. by destruct r2.
    - injection F as <- <- <-. split; [by apply later_refl|]. split; [done|]. split; [|done].
      destruct Hr1 as [?|(_ & -> & _ & Ez' & _)]; [done|]. by rewrite Ez' in Ez. }
  destruct H2 as (Hl2 & Hinv2 & Hm2). pose proof Hl2 as [Hs2 _]. pose proof (later_trans _ _ _ Hl1 Hl2) as Hl12.
  destruct r2 as [since|err]; [|by intros [= <- <- <-]]. destruct Hm2 as [Hst2 ->].
  unfold mbind at 1, M_bind at 1, on_world at 1. cbn [fst snd].
  destruct (fetch_events (server_seq d2) limit w2) as [[r3 w3]|] eqn:FE; [|done].
  destruct (fetch_events_law _ _ _ _ _ Hs2 FE) as [Hl3 Hes]. pose proof Hl3 as [Hs3 _].
  pose proof (inv_later _ _ _ Hs2 Hl3 Hinv2) as Hinv3. pose proof (later_trans _ _ _ Hl12 Hl3) as Hl13.
  destruct r3 as [es|err]; [|by intros [= <- <- <-]]. specialize (Hes es eq_refl).
  unfold mbind at 1, M_bind at 1, on_device at 1. cbn [fst snd].
  destruct (Replica.apply_remote_events display serde fresh now es d2) as [[r4 d4]|] eqn:A; [|done].
  assert (H4 : inv w3 d4 /\ unprojected d4 = unprojected d2).
  { revert A. unfold Replica.apply_remote_events, mbind, M_bind, gets.
    destruct (Replica.apply_each _ _ _ _ es 0 _ d2) as [[r5 d5]|] eqn:B; [|done].
    pose proof (inv_apply_each _ _ _ _ _ _ _ _ _ _ _ _ Hinv3 Hs3 Hes B) as H5.
    destruct r5; by intros [= <- <-]. }
  destruct H4 as [Hinv4 Eu4]. destruct r4 as [stats|err]; [|by intros [= <- <- <-]].
  unfold mbind, M_bind. destruct (Replica.repair _ _ _ _ _ true (w3, d4)) as [[r6 [w6 d6]]|] eqn:R6; [|done].
  destruct (inv_repair _ _ _ _ _ _ _ _ _ _ _ Hinv4 Hs3 R6) as (Hl6 & Hinv6 & _ & _ & Hr6).
  pose proof (later_trans _ _ _ Hl13 Hl6) as Hl16. destruct r6 as [reordered|err]; intros [= <- <- <-]; [|done].
  split; [done|]. split; [done|]. intros _. destruct Hr6 as [?|(? & _)]; [done| |done|done].
  intros _. rewrite Eu4. apply Hst2.
Qed.

(** *** The queue *)
Definition good (s : W * Device) : Prop := sound s.1 /\ inv s.1 s.2.
Definition keeps_good (s s' : W * Device) : Prop := good s -> good s'.
#[local] Instance keeps_good_pre : PreOrder keeps_good.
Proof. unfold keeps_good. split; [intros ?; auto|]. intros ?; auto. Qed.
#[local] Instance keeps_good_at w : PreOrder (fun d d' => keeps_good (w, d) (w, d')).
Proof. unfold keeps_good. split; [intros ?; auto|]. intros ?; auto. Qed.
#[local] Instance keeps_good_with d : PreOrder (fun w w' => keeps_good (w, d) (w', d)).
Proof. unfold keeps_good. split; [intros ?; auto|]. intros ?; auto. Qed.

Lemma good_later w w' d : later w w' -> good (w, d) -> good (w', d).
Proof. intros Hl [Hs Hi]. split; [apply Hl|]. by eapply inv_later. Qed.
Lemma fetch_good d since limit : within (fun w w' => keeps_good (w, d) (w', d)) (fetch_events since limit).
Proof. intros w r w' F Hg. eapply good_later; [|exact Hg]. by eapply fetch_events_law; [apply Hg|]. Qed.
#[local] Hint Resolve fetch_good : client.
Lemma modify_good w (f : Device -> Device) :
  (forall d, replica_part (f d) = replica_part d /\ outbox (f d) = outbox d) ->
  within (fun d d' => keeps_good (w, d) (w, d')) (modify f).
Proof.
  intros Hf. apply within_modify. intros d [Hs Hi]. destruct (Hf d) as [E Eo]. split; [done|]. cbn.
  eapply inv_queue; [exact E| |exact Hi]. rewrite Eo. apply Hi.
Qed.
Ltac on_queue := repeat first
  [ progress frame
  | lazymatch goal with
    | |- within _ (on_world _) => apply within_on_world; intros ?
    | |- within _ (on_device _) => apply within_on_device; intros ?
    | |- within _ (modify _) => by apply modify_good
    end ].

Lemma server_ids_good d fuel limit cursor :
  within (fun w w' => keeps_good (w, d) (w', d)) (Outbox.server_event_ids fuel limit cursor).
Proof.
  unfold Outbox.server_event_ids. frame. generalize 0%Z, (∅ : gset EventId).
  induction fuel as [|fuel IH]; intros since ids; cbn [Outbox.all_ids]; [done|]. frame.
Qed.
#[local] Hint Resolve server_ids_good : client.
Lemma find_lost_good fuel limit : within keeps_good (Outbox.find_lost fuel limit).
Proof. unfold Outbox.find_lost. on_queue. Qed.
Lemma requeue_good w dev ids u : within (fun d d' => keeps_good (w, d) (w, d')) (Outbox.requeue_unconfirmed dev ids u).
Proof.
  intros d r d'. unfold Outbox.requeue_unconfirmed. case_bool_decide; [by intros [= <- <-]|].
  unfold mbind, M_bind, gets. destruct (load_by_id (log d) (Envelope.id u)) as [e|] eqn:L; cbn [some_or]; [|by intros [= <- <-]].
  unfold mret, M_ret. destruct (enqueue_next_ok dev e d) as (row & E & Hst). rewrite E. intros [= <- <-] [Hs Hi].
  split; [done|]. eapply inv_queue; [|..|exact Hi]; [done|]. cbn. apply Forall_app. split; [apply Hi|]. constructor; [|done].
  eapply stamped_honest; [exact Hst|]. pose proof (i_rows _ _ _ Hi) as Hr. rewrite Forall_forall in Hr.
  by apply Hr, (EventLogFacts.load_by_id_some _ _ _ L).
Qed.
#[local] Hint Resolve requeue_good : client.
Lemma restore_lost_good fuel limit : within keeps_good (Outbox.restore_lost fuel limit).
Proof. unfold Outbox.restore_lost. on_queue. Qed.

Lemma flush_entries_good now rs a b s r s' :
  Forall (fun x => honest minted (OutboxRow.envelope x)) rs ->
  Flush.flush_entries now rs a b s = Some (r, s') -> keeps_good s s'.
Proof.
  intros Hrs. revert a b s. induction Hrs as [|x rs Hx _ IH]; intros a b [w d]; cbn [Flush.flush_entries]; [by intros [= <- <-]|].
  unfold mbind at 1, M_bind at 1, on_world. cbn [fst snd].
  destruct (push (OutboxRow.envelope x) w) as [[[o|e] w1]|] eqn:P; [| |done].
  2: { intros [= <- <-] Hg. eapply good_later; [|exact Hg]. eapply push_law; [apply Hg|exact Hx|exact P]. }
  destruct o as [|st c]; unfold mbind, M_bind, on_device; cbn [fst snd].
  - destruct (Outbox.mark_flushed now (OutboxRow.id x) d) as [[[u|e] d1]|] eqn:F; [|done|done].
    intros Hrest [Hs Hi]. apply (IH _ _ _ Hrest). apply good_later with (w := w); [by eapply push_law|].
    injection F as _ <-. split; [done|]. eapply inv_queue; [|..|exact Hi]; [done|]. cbn. apply Forall_forall.
    intros y (z & -> & Hz)%list_elem_of_fmap. pose proof (i_box _ _ _ Hi) as Hb. rewrite Forall_forall in Hb.
    specialize (Hb z Hz). by destruct (_ && _).
  - destruct (Outbox.mark_rejected (OutboxRow.id x) st c d) as [[[u|e] d1]|] eqn:F; [| |done].
    all: assert (Hd : good (w, d) -> good (w1, d1)).
    1, 3: intros [Hs Hi]; apply good_later with (w := w); [by eapply push_law|]; split; [done|];
      eapply inv_queue; [| |exact Hi]; revert F; unfold Outbox.mark_rejected; repeat case_match; intros [=]; subst; try done; apply Hi.
    + intros Hrest Hg. by apply (IH _ _ _ Hrest), Hd.
    + by intros [= <- <-].
Qed.
Lemma flush_good now limit : within keeps_good (Flush.flush_pending now limit).
Proof.
  intros [w d] r s' Hf [Hs Hi]. revert Hf. unfold Flush.flush_pending. unfold mbind at 1, M_bind at 1, on_device at 1. cbn [fst snd].
  rewrite sendable_sent. destruct (Outbox.held_from _ _ _) as [held|e]; cbn [rbind]; [|by intros [= <- <-]].
  unfold mbind, M_bind. destruct (Flush.flush_entries _ _ _ _ _) as [[res s1]|] eqn:F; [|done]. intros E.
  assert (s' = s1) as -> by (destruct res; by injection E). eapply flush_entries_good; [|exact F|by split].
  pose proof (i_box _ _ _ Hi) as Hb. rewrite Forall_forall in Hb. apply Forall_forall. intros x Hx.
  apply Hb. by apply sent_queue, in_queue in Hx as [Hx _].
Qed.

Lemma run_good s s' : run (minted := minted) s s' -> good s -> good s'.
Proof.
  intros [display serde fresh now es r w d d' Hes E|display serde fresh now es n ps r w d d1 d' Hes Ha Hn E
    |display serde fresh now limit r w d s1 Hc E|now limit r s1 s2 E|fuel limit r s1 s2 E|fuel limit r s1 s2 E|r w d d' E|w w' d Hl] Hg.
  - destruct Hg. split; [done|]. by eapply inv_command.
  - destruct Hg. split; [done|]. by eapply inv_stopped.
  - destruct Hg as [Hs Hi], s1 as [w1 d1]. destruct (inv_catch_up _ _ _ _ _ _ _ _ _ _ Hi Hs Hc E) as (Hl & Hi1 & _). split; [apply Hl|done].
  - by eapply flush_good.
  - by eapply find_lost_good.
  - by eapply restore_lost_good.
  - destruct Hg as [Hs Hi]. split; [done|]. injection E as <- <-. eapply inv_queue; [|..|exact Hi]; [done|]. apply Hi.
  - by eapply good_later.
Qed.
Lemma fresh_good w dev : sound w -> good (w, Device.fresh dev).
Proof.
  intros Hs. split; [done|]. destruct (sound_log w Hs) as [Hwf _]. pose proof (wf_high _ Hwf).
  split; cbn; try done; [apply wf_empty_log|by intros [Hv _]].
Qed.
Lemma runs_good s s' : rtc (run (minted := minted)) s s' -> good s -> good s'.
Proof. induction 1; [done|]. intros Hg. eauto using run_good. Qed.

(** *** A sync ends *)
Definition ends {A} (m : M (W * Device) A) : Prop :=
  forall w d, sound w -> exists r w' d', m (w, d) = Some (r, (w', d')) /\ sound w'.
Lemma ends_bind {A B} (m : M (W * Device) A) (f : A -> M (W * Device) B) :
  ends m -> (forall a, ends (f a)) -> ends (m ≫= f).
Proof.
  intros Hm Hf w d Hs. destruct (Hm w d Hs) as (r & w1 & d1 & E & Hs1). unfold mbind, M_bind. rewrite E.
  destruct r as [a|e]; [by apply Hf|eauto].
Qed.
Lemma ends_device {A} (m : M Device A) : (forall d, is_Some (m d)) -> ends (on_device m).
Proof. intros Hm w d Hs. destruct (Hm d) as [[r d'] E]. exists r, w, d'. unfold on_device. cbn. by rewrite E. Qed.
Lemma ends_pure {A} (r : Result CoreError A) : ends (lift r).
Proof. intros w d Hs. by exists r, w, d. Qed.
Lemma ends_world {A} (m : M W A) :
  (forall w, sound w -> exists r w', m w = Some (r, w') /\ sound w') -> ends (on_world m).
Proof. intros Hm w d Hs. destruct (Hm w Hs) as (r & w' & E & Hs'). exists r, w', d. unfold on_world. cbn. by rewrite E. Qed.
Lemma fetch_ends since limit w : sound w -> exists r w', fetch_events since limit w = Some (r, w') /\ sound w'.
Proof.
  intros Hs. destruct (proj1 (answers w Hs) since limit) as [[r w'] E]. exists r, w'. split; [done|].
  by apply (fetch_events_law _ _ _ _ _ Hs E).
Qed.

(** Every page moves the position, so [cursor] bounds the rounds. *)
Lemma fold_server_ends fresh now fuel limit cursor since f ids w :
  sound w -> (0 <= since)%Z -> (Z.to_nat (cursor - since) < fuel)%nat ->
  exists r w', Replica.fold_server fresh now fuel limit cursor since f ids w = Some (r, w') /\ sound w'.
Proof.
  revert since f ids w. induction fuel as [|fuel IH]; intros since f ids w Hs H0s Hf; [lia|]. cbn [Replica.fold_server].
  destruct (Z.ltb_spec since cursor); [|by eexists _, _]. unfold mbind at 1, M_bind at 1.
  destruct (fetch_ends since limit w Hs) as (r & w1 & F & Hs1). rewrite F. destruct r as [page|err]; [|by eexists _, _].
  destruct (last page) as [e|] eqn:L; [|by eexists _, _].
  assert (Hse : (since < Envelope.seq e)%Z).
  { destruct (fetch_events_law _ _ _ _ _ Hs F) as [_ Hp]. rewrite (Hp page eq_refl) in L.
    apply last_Some_elem_of, elem_of_take in L.
    rewrite list_elem_of_In, filter_In in L. by apply Z.ltb_lt, (proj2 L). }
  unfold mbind, M_bind, lift.
  destruct (ProjectionFold.apply_all _ _ _ _) as [g|err]; [|by eexists _, _]. apply IH; [done|..].
  - lia.
  - lia.
Qed.
Lemma apply_each_ends display serde fresh now es a m d :
  is_Some (Replica.apply_each display serde fresh now es a m d).
Proof.
  assert (Hone : forall e d, is_Some (Replica.apply_remote_event display serde fresh now e d)).
  { intros e d0. unfold Replica.apply_remote_event, transaction. unfold mbind at 1, M_bind at 1, gets at 1.
    destruct (load_by_id _ _) as [echo|].
    - unfold Replica.apply_echo, mbind, M_bind, gets, modify. unfold id. by destruct (_ && _ && _).
    - unfold Replica.apply_new, OutboundStore.append_tx, LocalExecutor.project, LocalExecutor.project_tables, mbind, M_bind, modify.
      destruct (EventStore.append _ _) as [[p l]|err]; [|done]. by destruct (ProjectionFold.apply _ _ _ _). }
  revert a m d. induction es as [|e es IH]; intros a m d; cbn [Replica.apply_each]; [by eexists|].
  unfold mbind, M_bind. destruct (Hone e d) as [[[b|err] d1] E]; rewrite E; [apply IH|by eexists].
Qed.
Lemma repair_ends display serde fresh now limit always :
  ends (Replica.repair display serde fresh now limit always).
Proof.
  unfold Replica.repair. apply ends_bind; [by apply ends_device; eexists|]. intros d0. destruct (_ && _); [|apply ends_pure].
  unfold Replica.rebuild_from_log. apply ends_bind; [by apply ends_device; eexists|]. intros cursor.
  apply ends_bind; [apply ends_world; intros w Hs; apply fold_server_ends; [done|lia..]|]. intros rd.
  destruct (_ && _); [apply ends_pure|]. apply ends_bind; [by apply ends_device; eexists|]. intros d1.
  apply ends_bind; [apply ends_pure|]. intros folded. apply ends_bind; [|intros; apply ends_pure].
  apply ends_device. intros d. unfold Replica.adopt_fold, transaction, Replica.replace_projections, Replica.restore_snapshot,
    Replica.replace_activity, Replica.mark_verified_baseline, mbind, M_bind, gets, modify, lift. unfold id.
  destruct (Replica.verified d); [done|]. destruct (Replica.fold_local_only _ _ _ _ _ _); [|done].
  destruct (ProjectionFold.restore _ _); [|done]. by destruct (_ <? _)%Z.
Qed.
Lemma catch_up_ends display serde fresh now limit : ends (Replica.catch_up display serde fresh now limit).
Proof.
  unfold Replica.catch_up. apply ends_bind; [by apply ends_device; eexists|]. intros _.
  apply ends_bind; [apply repair_ends|]. intros repaired. apply ends_bind; [by apply ends_device; eexists|]. intros since.
  apply ends_bind.
  { destruct (since =? 0)%Z; [|apply ends_pure]. unfold Replica.first_catch_up. apply ends_bind.
    - apply ends_world. intros w Hs. destruct (proj2 (answers w Hs)) as [[r w'] E]. exists r, w'. split; [done|].
      by apply (fetch_snapshot_law _ _ _ Hs E).
    - assert (Hz : ends (_ ← on_device (Replica.mark_verified_baseline 0); mret 0%Z)).
      { apply ends_bind; [by apply ends_device; eexists|]. intros _. apply ends_pure. }
      intros [s|]; [|done]. destruct (Snapshot.is_consistent s); [|done].
      apply ends_bind; [|intros _; apply ends_pure]. apply ends_device. intros d.
      unfold Replica.bootstrap_from_snapshot, transaction, Replica.restore_snapshot, mbind, M_bind.
      by destruct (ProjectionFold.restore _ _). }
  intros from. apply ends_bind; [apply ends_world; intros w; apply fetch_ends|]. intros es.
  apply ends_bind; [|intros stats; apply ends_bind; [apply repair_ends|intros; apply ends_pure]].
  apply ends_device. intros d. unfold Replica.apply_remote_events, mbind, M_bind, gets.
  destruct (apply_each_ends display serde fresh now es 0 (Z.max 0 (server_seq d)) d) as [[[r|err] d1] E]; by rewrite E.
Qed.

(** *** The rows *)
Lemma order_on_server w d Q fresh now f :
  good (w, d) -> row_order w d Q ->
  (forall e, e ∈ rows (log d) -> mine k e = true -> Envelope.id e ∈ map Envelope.id (SnapshotSpec.prefix (server_log w) (server_seq d))) ->
  ProjectionFold.apply_all fresh now ProjectionFold.empty (SnapshotSpec.prefix (server_log w) (server_seq d)) = Ok f ->
  view k (ProjectionFold.tasks (tables d)) = view k (ProjectionFold.tasks f).
Proof.
  intros [Hs Hi] ([Hk Hw _] & Hq & ->) Hall Hf. cbn [fst snd] in *. destruct (sound_log w Hs) as [Hwf Hh].
  set (S := SnapshotSpec.prefix (server_log w) (server_seq d)) in *.
  assert (HS : on_server k (server_log w) (server_seq d) = List.filter (mine k) S) by (unfold on_server, S, SnapshotSpec.prefix; by rewrite filter_and).
  assert (HhS : Forall (honest minted) S) by (by apply Forall_list_filter).
  assert (Hloc : List.filter (waiting (ids_upto k w d)) (local k d) = []).
  { apply filter_none. intros e [He Hm]%in_local. apply negb_false_iff, bool_decide_eq_true. unfold ids_upto. rewrite HS.
    pose proof (Hall e He Hm) as (x & E & Hx)%list_elem_of_fmap. apply list_elem_of_fmap. exists x. split; [done|].
    rewrite list_elem_of_In, filter_In, <- list_elem_of_In. split; [done|]. rewrite Forall_forall in HhS.
    pose proof (i_rows _ _ _ Hi) as Hr. rewrite Forall_forall in Hr. rewrite <- Hm. symmetry. apply same_mine, honest_same; auto. }
  rewrite Hloc in Hw. assert (HQ : List.filter (known (ids_upto k w d)) Q = Q).
  { apply filter_all. intros x Hx. destruct (known (ids_upto k w d) x) eqn:K; [done|]. exfalso.
    assert (x ∈ List.filter (waiting (ids_upto k w d)) Q) as Hin; [|rewrite Hw in Hin; by apply elem_of_nil in Hin].
    rewrite list_elem_of_In, filter_In, <- list_elem_of_In. split; [done|]. unfold waiting. by rewrite K. }
  rewrite HQ in Hk. unfold ids_upto in Hk. rewrite HS in Hk.
  destruct (view_apply_all fresh now ProjectionFold.empty S f) as [-> _]; [apply FoldFacts.empty_wf|done..|].
  apply row_fold_same. revert Hk Hq. assert (HhF : Forall (honest minted) (List.filter (mine k) S)) by (by apply Forall_list_filter).
  revert HhF. generalize (List.filter (mine k) S). clear. intros F HF. revert Q.
  induction HF as [|e F He _ IH]; intros [|x Q]; cbn; try done. intros [= E1 E2] [[Hx _] HQ]%Forall_cons.
  constructor; [by apply honest_same|by apply IH].
Qed.
End Facts.
End ConvergenceFacts.

Section Property.
  Import EventStore EventLogSpec Client Device RowSpec Placing ConvergenceSpec ConvergenceFacts.
  Context {minted : EventId -> Actor * Z * Event} {W : Type} `{MirrorLaws minted W}.

End Property.
