(* ===== verification/Auth.v ===== *)
(** * crates/auth: capabilities, tokens and the bearer verifier

    The bit mask of a token's capabilities (capability.rs), its scope (scope.rs),
    the authenticated principal (context.rs), the token record and its rendering
    (token.rs), the storage interface (store.rs) and [verify_bearer] (verify.rs).
    argon2, base64 and the random source are parameters. *)

From S2P Require Import Prelude Shared TaskModel.

(** ** Capabilities (capability.rs) *)
Inductive Capability : Set :=
| TaskRead | TaskWrite | CommentRead | CommentWrite | AgentDispatch | ProjectRead | ProjectWrite
| SubscribeTasks | SubscribeComments | SubscribeAgentStatus | WebhookRead | WebhookWrite | TokenRead | TokenWrite
| PlanRead | PlanWrite | RunRead | RunWrite | SubscribePlans | SubscribeRuns | TaskRelationRead
| TaskRelationWrite | DocumentRead | DocumentWrite | Admin.
#[export] Instance Capability_eq_dec : EqDecision Capability.
Proof. solve_decision. Defined.

Module Capabilities.
Definition as_bit (c : Capability) : N :=
  N.shiftl 1
    match c with
    | TaskRead => 0 | TaskWrite => 1 | CommentRead => 2 | CommentWrite => 3 | AgentDispatch => 4
    | ProjectRead => 5 | ProjectWrite => 6 | SubscribeTasks => 7 | SubscribeComments => 8
    | SubscribeAgentStatus => 9 | WebhookRead => 10 | WebhookWrite => 11 | TokenRead => 12
    | TokenWrite => 13 | PlanRead => 14 | PlanWrite => 15 | RunRead => 16 | RunWrite => 17
    | SubscribePlans => 18 | SubscribeRuns => 19 | TaskRelationRead => 20 | TaskRelationWrite => 21
    | DocumentRead => 22 | DocumentWrite => 23 | Admin => 31
    end.

Definition name (c : Capability) : string :=
  match c with
  | TaskRead => "task:read" | TaskWrite => "task:write"
  | CommentRead => "comment:read" | CommentWrite => "comment:write"
  | AgentDispatch => "agent:dispatch"
  | ProjectRead => "project:read" | ProjectWrite => "project:write"
  | SubscribeTasks => "subscribe:tasks" | SubscribeComments => "subscribe:comments"
  | SubscribeAgentStatus => "subscribe:agent_status"
  | WebhookRead => "webhook:read" | WebhookWrite => "webhook:write"
  | TokenRead => "token:read" | TokenWrite => "token:write"
  | PlanRead => "plan:read" | PlanWrite => "plan:write"
  | RunRead => "run:read" | RunWrite => "run:write"
  | SubscribePlans => "subscribe:plans" | SubscribeRuns => "subscribe:runs"
  | TaskRelationRead => "task_relation:read" | TaskRelationWrite => "task_relation:write"
  | DocumentRead => "document:read" | DocumentWrite => "document:write"
  | Admin => "admin"
  end.

(** A [u32] mask. *)
Definition Mask : Type := N.
Definition empty : Mask := 0%N.
Definition has (m : Mask) (c : Capability) : bool :=
  negb (N.land m (as_bit Admin) =? 0)%N || negb (N.land m (as_bit c) =? 0)%N.
Definition grant (m : Mask) (c : Capability) : Mask := N.lor m (as_bit c).
(** [&= !bit] on 32 bits. *)
Definition revoke (m : Mask) (c : Capability) : Mask := N.land m (N.lxor (as_bit c) (N.ones 32)).
Definition from_caps (cs : list Capability) : Mask := foldl grant empty cs.
End Capabilities.

(** ** Scope (scope.rs) *)
Inductive ProjectFilter : Type :=
| All
| Only (projects : list ProjectId).

Module TokenScope.
Record TokenScope : Type := mk {
  projects : ProjectFilter;
  capabilities : Capabilities.Mask }.

Definition allows (f : ProjectFilter) (p : option ProjectId) : bool :=
  match f, p with
  | All, _ => true
  | Only _, None => true
  | Only ps, Some p => bool_decide (p ∈ ps)
  end.

Definition admin : TokenScope := mk All (Capabilities.from_caps [Admin]).
Definition default_user : TokenScope :=
  mk All (Capabilities.from_caps
            [TaskRead; TaskWrite; CommentRead; CommentWrite; ProjectRead; ProjectWrite; PlanRead; PlanWrite; RunRead;
             SubscribeTasks; SubscribeComments; SubscribePlans; SubscribeRuns; TaskRelationRead; DocumentRead]).
End TokenScope.
Abbreviation TokenScope := TokenScope.TokenScope.

(** ** Tokens (token.rs) *)
Inductive TokenKind : Set := Pat | Bot | Svc | Usr | License.
Definition slug (k : TokenKind) : string :=
  match k with Pat => "pat" | Bot => "bot" | Svc => "svc" | Usr => "usr" | License => "lic" end.

Module ApiToken.
Record ApiToken : Type := mk {
  id : TokenId;
  prefix : Str;
  hash : Str;
  kind : TokenKind;
  agent_id : AgentId;
  scope : TokenScope;
  rate_limit_per_min : Z;
  tenant_id : option Str;
  created_at : Z;
  expired_at : option Z;
  last_used_at : option Z;
  revoked_at : option Z;
  device_id : option DeviceId;
  device_revoked_at : option Z }.
#[global] Instance ApiToken_rebuild : Rebuild ApiToken := fun t =>
  mk (id t) (prefix t) (hash t) (kind t) (agent_id t) (scope t) (rate_limit_per_min t) (tenant_id t) (created_at t)
     (expired_at t) (last_used_at t) (revoked_at t) (device_id t) (device_revoked_at t).

Definition is_expired (t : ApiToken) (now : Z) : bool :=
  match expired_at t with Some e => (e <=? now)%Z | None => false end.
Definition is_active (t : ApiToken) (now : Z) : bool :=
  bool_decide (revoked_at t = None) && negb (is_expired t now).
End ApiToken.
Abbreviation ApiToken := ApiToken.ApiToken.

Module Token.
Record NewTokenSpec : Type := mkSpec {
  kind : TokenKind;
  agent_id : AgentId;
  scope : TokenScope;
  rate_limit_per_min : Z;
  expired_at : option Z }.

Definition prefix_of (token : Str) : Str := take 12 token.
(** [secret]: the base64 of 24 random bytes. *)
Definition render_plaintext (k : TokenKind) (secret : Str) : Str :=
  lit "ta_" ++ lit (slug k) ++ lit "_" ++ secret.

Section Generate.
(** argon2id with a random salt: the hash of a text, or the crate's error. *)
Context (hash_plaintext : Str -> Result CoreError Str).

Definition generate (id : TokenId) (now : Z) (secret : Str) (spec : NewTokenSpec) : Result CoreError (ApiToken * Str) :=
  let plaintext := render_plaintext (kind spec) secret in
  rbind (hash_plaintext plaintext) (fun hash =>
  Ok (ApiToken.mk id (prefix_of plaintext) hash (kind spec) (agent_id spec) (scope spec) (rate_limit_per_min spec)
        None now (expired_at spec) None None None None, plaintext)).
End Generate.
End Token.

(** ** The principal of a request (context.rs) *)
Module AuthContext.
Record AuthContext : Type := mk {
  agent_id : AgentId;
  token_id : TokenId;
  device_id : option DeviceId;
  tenant_id : option Str;
  rate_limit_per_min : Z;
  scope : TokenScope;
  token_kind : TokenKind;
  principal_id : option AgentId;
  client : option Str }.
#[global] Instance AuthContext_rebuild : Rebuild AuthContext := fun c =>
  mk (agent_id c) (token_id c) (device_id c) (tenant_id c) (rate_limit_per_min c) (scope c) (token_kind c)
     (principal_id c) (client c).

Definition CLIENT_MAX_CHARS : nat := 64.
(** [char::is_control]: the category Cc. *)
Definition is_control (c : N) : bool := ((c <=? 31) || ((127 <=? c) && (c <=? 159)))%N.
Definition sanitize_client (raw : Str) : option Str :=
  let name := take CLIENT_MAX_CHARS (List.filter (fun c => negb (is_control c)) (trim raw)) in
  if str_is_empty name then None else Some name.

(** The error is the missing capability. *)
Definition require (c : AuthContext) (cap : Capability) : Result Capability unit :=
  if Capabilities.has (TokenScope.capabilities (scope c)) cap then Ok tt else Err cap.
Definition missing_text (cap : Capability) : string := "token is missing capability: " ++ Capabilities.name cap.

Definition actor (uuid_display : N -> Str) (c : AuthContext) : Actor :=
  ActorOps.or_client
    match token_kind c with
    | Bot => Agent (agent_id c) (lit "bot." ++ Ids.display uuid_display (agent_id c)) None
    | Pat | Svc | Usr | License => ActorOps.user_with_id (default (agent_id c) (principal_id c))
    end (client c).
End AuthContext.
Abbreviation AuthContext := AuthContext.AuthContext.

(** ** Storage (store.rs) *)
Class TokenStore (S : Type) : Type := {
  insert : ApiToken -> S -> Result CoreError unit * S;
  list_by_prefix : Str -> S -> Result CoreError (list ApiToken);
  get : TokenId -> S -> Result CoreError (option ApiToken);
  list_for_agent : AgentId -> S -> Result CoreError (list ApiToken);
  revoke : Z -> TokenId -> S -> Result CoreError bool * S;
  touch_last_used : Z -> TokenId -> S -> Result CoreError unit * S;
  touch_device_last_seen : Z -> DeviceId -> S -> Result CoreError unit * S;
  count_active : S -> Result CoreError Z }.

(** ** The verifier (verify.rs) *)
Inductive VerifyError : Type :=
| Missing | Malformed | Unknown | Mismatch | Revoked | DeviceRevoked | Expired
| StorageFailed (e : CoreError).

Module Verify.
Definition code (e : VerifyError) : string :=
  match e with
  | Missing => "auth_missing"
  | Malformed => "auth_malformed"
  | Unknown => "auth_invalid"
  | Mismatch => "auth_invalid"
  | Revoked => "auth_revoked"
  | DeviceRevoked => "unauthorized"
  | Expired => "auth_expired"
  | StorageFailed _ => "auth_storage"
  end.

Section Verify.
Context {S : Type} `{TokenStore S} (verify_plaintext : Str -> Str -> bool) (now : Z).

Definition bare_of (trimmed : Str) : Str :=
  default trimmed (or_else (strip_prefix (lit "Bearer ") trimmed) (strip_prefix (lit "bearer ") trimmed)).
(** [len] counts bytes. *)
Definition malformed (bare : Str) : bool := (byte_len bare <? 14)%Z || negb (starts_with (lit "ta_") bare).

Definition context_of (t : ApiToken) : AuthContext :=
  AuthContext.mk (ApiToken.agent_id t) (ApiToken.id t) (ApiToken.device_id t) (ApiToken.tenant_id t)
    (ApiToken.rate_limit_per_min t) (ApiToken.scope t) (ApiToken.kind t) None None.

(** The best-effort touches of an accepted token. *)
Definition touch (t : ApiToken) (s : S) : S :=
  let s := (touch_last_used now (ApiToken.id t) s).2 in
  match ApiToken.device_id t with
  | Some d => (touch_device_last_seen now d s).2
  | None => s
  end.

Fixpoint try_candidates (bare : Str) (last_state_err : VerifyError) (candidates : list ApiToken) (s : S)
  : Result VerifyError AuthContext * S :=
  match candidates with
  | [] => (Err last_state_err, s)
  | t :: rest =>
      if negb (verify_plaintext bare (ApiToken.hash t)) then try_candidates bare last_state_err rest s
      else if bool_decide (is_Some (ApiToken.revoked_at t)) then try_candidates bare Revoked rest s
      else if bool_decide (is_Some (ApiToken.device_revoked_at t)) then try_candidates bare DeviceRevoked rest s
      else if ApiToken.is_expired t now then try_candidates bare Expired rest s
      else (Ok (context_of t), touch t s)
  end.

Definition verify_bearer (raw : Str) (s : S) : Result VerifyError AuthContext * S :=
  let trimmed := trim raw in
  if str_is_empty trimmed then (Err Missing, s)
  else
    let bare := bare_of trimmed in
    if malformed bare then (Err Malformed, s)
    else match list_by_prefix (Token.prefix_of bare) s with
         | Err e => (Err (StorageFailed e), s)
         | Ok [] => (Err Unknown, s)
         | Ok candidates => try_candidates bare Mismatch candidates s
         end.
End Verify.
End Verify.

(** ** Facts *)
Module CapabilityFacts.
Import Capabilities.

Definition index (c : Capability) : N := N.log2 (as_bit c).
Lemma as_bit_index c : as_bit c = N.shiftl 1 (index c).
Proof. by destruct c. Qed.
Lemma index_inj c d : index c = index d -> c = d.
Proof. destruct c, d; vm_compute; congruence. Qed.

Lemma land_bit m n : (N.land m (N.shiftl 1 n) =? 0)%N = negb (N.testbit m n).
Proof.
  apply eq_true_iff_eq. rewrite N.eqb_eq, negb_true_iff, N.shiftl_1_l. split.
  - intros E. pose proof (N.land_spec m (2 ^ n) n) as Hb. by rewrite E, N.bits_0, N.pow2_bits_true, andb_true_r in Hb.
  - intros Hm. apply N.bits_inj. intros i. rewrite N.land_spec, N.bits_0, N.pow2_bits_eqb.
    destruct (N.eqb_spec n i) as [->|]; [by rewrite Hm|by rewrite andb_false_r].
Qed.
Lemma has_bits m c : has m c = N.testbit m (index Admin) || N.testbit m (index c).
Proof. unfold has. by rewrite !as_bit_index, !land_bit, !negb_involutive. Qed.
Lemma grant_bit m c d : N.testbit (grant m c) (index d) = N.testbit m (index d) || bool_decide (c = d).
Proof.
  unfold grant. rewrite N.lor_spec, as_bit_index, N.shiftl_1_l, N.pow2_bits_eqb. f_equal.
  apply eq_true_iff_eq. rewrite N.eqb_eq, bool_decide_eq_true. split; [apply index_inj|by intros ->].
Qed.
Lemma revoke_bit m c d : N.testbit (revoke m c) (index d) = N.testbit m (index d) && negb (bool_decide (c = d)).
Proof.
  unfold revoke. rewrite N.land_spec, N.lxor_spec, (N.ones_spec_low 32) by (by destruct d). f_equal.
  rewrite as_bit_index, N.shiftl_1_l, N.pow2_bits_eqb. rewrite xorb_true_r. f_equal.
  apply eq_true_iff_eq. rewrite N.eqb_eq, bool_decide_eq_true. split; [apply index_inj|by intros ->].
Qed.
Lemma grants_bit cs m d : N.testbit (foldl grant m cs) (index d) = N.testbit m (index d) || bool_decide (d ∈ cs).
Proof.
  revert m. induction cs as [|c cs IH]; intros m; cbn [foldl]; [by rewrite orb_false_r|].
  rewrite IH, grant_bit, <- orb_assoc. f_equal. apply eq_true_iff_eq. rewrite orb_true_iff, !bool_decide_eq_true, elem_of_cons.
  split; [intros [->|]; auto|intros [->|]; auto].
Qed.
End CapabilityFacts.

Module VerifySpec.
Section Spec.
Context (verify_plaintext : Str -> Str -> bool) (now : Z).

Definition usable (t : ApiToken) : Prop :=
  ApiToken.revoked_at t = None /\ ApiToken.device_revoked_at t = None /\ ApiToken.is_expired t now = false.
Definition state_error (t : ApiToken) : VerifyError :=
  if bool_decide (is_Some (ApiToken.revoked_at t)) then Revoked
  else if bool_decide (is_Some (ApiToken.device_revoked_at t)) then DeviceRevoked else Expired.
(** No row of [l] is the presented token in a usable state. *)
Definition no_usable (bare : Str) (l : list ApiToken) : Prop :=
  Forall (fun t => verify_plaintext bare (ApiToken.hash t) = true -> ~ usable t) l.
Definition no_match (bare : Str) (l : list ApiToken) : Prop :=
  Forall (fun t => verify_plaintext bare (ApiToken.hash t) = false) l.
End Spec.
End VerifySpec.

Module VerifyFacts.
Import Verify VerifySpec.
Section Facts.
Context {S : Type} `{TokenStore S} (verify_plaintext : Str -> Str -> bool) (now : Z).
Abbreviation try_candidates := (try_candidates verify_plaintext now).
Abbreviation usable := (usable now).
Abbreviation no_usable := (no_usable verify_plaintext now).
Abbreviation no_match := (no_match verify_plaintext).
Abbreviation matches bare t := (verify_plaintext bare (ApiToken.hash t) = true).

Lemma usable_cases t :
  usable t \/ (~ usable t /\
    forall bare e rest (s : S), matches bare t ->
      try_candidates bare e (t :: rest) s = try_candidates bare (state_error t) rest s).
Proof.
  unfold VerifySpec.usable, state_error. cbn.
  destruct (ApiToken.revoked_at t) eqn:R; cbn.
  { right. split; [by intros (? & _)|]. intros bare e rest s ->. cbn. done. }
  destruct (ApiToken.device_revoked_at t) eqn:D; cbn.
  { right. split; [by intros (_ & ? & _)|]. intros bare e rest s ->. cbn. done. }
  destruct (ApiToken.is_expired t now) eqn:X; [|by left].
  right. split; [by intros (_ & _ & ?)|]. intros bare e rest s ->. cbn. done.
Qed.
Lemma try_usable bare e t rest (s : S) :
  matches bare t -> usable t -> try_candidates bare e (t :: rest) s = (Ok (context_of t), touch now t s).
Proof. intros Hm (Hr & Hd & Hx). cbn. by rewrite Hm, Hr, Hd, Hx. Qed.

Lemma try_candidates_exact bare e0 l (s : S) :
  match try_candidates bare e0 l s with
  | (Ok ctx, s') => exists before t after, l = before ++ t :: after /\ no_usable bare before /\
      matches bare t /\ usable t /\ ctx = context_of t /\ s' = touch now t s
  | (Err e, s') => s' = s /\ no_usable bare l /\
      (e = e0 /\ no_match bare l \/
       exists before t after, l = before ++ t :: after /\ matches bare t /\ e = state_error t /\ no_match bare after)
  end.
Proof.
  revert e0. induction l as [|t l IH]; intros e0; [by repeat constructor|].
  destruct (verify_plaintext bare (ApiToken.hash t)) eqn:M.
  2: { cbn [Verify.try_candidates]. rewrite M. cbn [negb]. specialize (IH e0).
       destruct (try_candidates _ _ _ _) as [[ctx|e] s'].
       - destruct IH as (before & u & after & -> & Hn & Hr). exists (t :: before), u, after. split; [done|].
         split; [constructor; [congruence|done]|done].
       - destruct IH as (-> & Hn & Hc). split; [done|]. split; [constructor; [congruence|done]|].
         destruct Hc as [[-> Hm]|(before & u & after & -> & Hr)]; [left; split; [done|by constructor]|].
         right. by exists (t :: before), u, after. }
  destruct (usable_cases t) as [Hu|[Hu Hstep]].
  { rewrite try_usable by done. exists [], t, l. by repeat split; try constructor; try apply Hu. }
  rewrite Hstep by done. specialize (IH (state_error t)). destruct (try_candidates _ _ _ _) as [[ctx|e] s'].
  - destruct IH as (before & u & after & -> & Hn & Hr). exists (t :: before), u, after. split; [done|].
    split; [by constructor|done].
  - destruct IH as (-> & Hn & Hc). split; [done|]. split; [by constructor|]. right.
    destruct Hc as [[-> Hm]|(before & u & after & -> & Hr)]; [by exists [], t, l|by exists (t :: before), u, after].
Qed.

Lemma try_skip bare e before l (s : S) :
  no_match bare before -> try_candidates bare e (before ++ l) s = try_candidates bare e l s.
Proof. induction 1 as [|t before Ht _ IH]; [done|]. cbn. by rewrite Ht. Qed.

(** An accepted bearer is a usable row. *)
Lemma verify_bearer_cases raw (s : S) :
  match verify_bearer verify_plaintext now raw s with
  | (Ok ctx, s') => exists t, s' = touch now t s /\ ctx = context_of t /\ usable t /\
      exists rows, list_by_prefix (Token.prefix_of (bare_of (trim raw))) s = Ok rows /\ t ∈ rows
  | (Err _, s') => s' = s
  end.
Proof.
  unfold verify_bearer. destruct (str_is_empty _); [done|]. destruct (malformed _); [done|].
  destruct (list_by_prefix _ s) as [[|t l]|err]; [done| |done].
  pose proof (try_candidates_exact (bare_of (trim raw)) Mismatch (t :: l) s) as HT.
  destruct (try_candidates _ _ _ _) as [[ctx|e] s']; [|by destruct HT].
  destruct HT as (before & u & after & E & _ & _ & Hu & -> & ->). exists u. do 3 (split; [done|]).
  eexists. split; [done|]. rewrite E. apply elem_of_app. right. left.
Qed.
End Facts.
End VerifyFacts.

Section Properties.
Import Capabilities CapabilityFacts Verify VerifySpec VerifyFacts.
Context {S : Type} `{TokenStore S} (verify_plaintext : Str -> Str -> bool) (now : Z).

(** C19: a bearer is accepted exactly when it is well formed and one of the rows
    with its prefix verifies and is neither revoked, nor of a revoked device, nor
    expired; the principal is that of the first such row, which is touched.
    Otherwise nothing changes and the error says why: the text is empty or no
    token, no row has the prefix, none verifies, or what is wrong with the last
    row that does. *)
Theorem verify_bearer_exact raw s :
  let bare := bare_of (trim raw) in
  let rows := list_by_prefix (Token.prefix_of bare) s in
  match verify_bearer verify_plaintext now raw s with
  | (Ok ctx, s') => malformed bare = false /\
      exists before t after, rows = Ok (before ++ t :: after) /\ no_usable verify_plaintext now bare before /\
        verify_plaintext bare (ApiToken.hash t) = true /\ usable now t /\ ctx = context_of t /\ s' = touch now t s
  | (Err e, s') => s' = s /\
      match e with
      | Missing => trim raw = []
      | Malformed => trim raw <> [] /\ (byte_len bare < 14 \/ strip_prefix (lit "ta_") bare = None)%Z
      | StorageFailed err => rows = Err err
      | Unknown => rows = Ok []
      | Mismatch => exists l, rows = Ok l /\ no_match verify_plaintext bare l
      | Revoked | DeviceRevoked | Expired => exists before t after, rows = Ok (before ++ t :: after) /\
          no_usable verify_plaintext now bare (before ++ t :: after) /\
          verify_plaintext bare (ApiToken.hash t) = true /\ e = state_error t /\ no_match verify_plaintext bare after
      end
  end.
Proof.
  intros bare rows. unfold verify_bearer, rows. fold bare. destruct (str_is_empty (trim raw)) eqn:E.
  { split; [done|]. by destruct (trim raw). }
  assert (Hne : trim raw <> []) by (by intros Hn; rewrite Hn in E).
  destruct (malformed bare) eqn:Mf.
  { split; [done|]. split; [done|]. unfold malformed, starts_with in Mf. apply orb_true_iff in Mf as [Hl%Z.ltb_lt|Hp].
    - by left.
    - right. by destruct (strip_prefix _ bare). }
  destruct (list_by_prefix _ s) as [[|t l]|err]; [done| |done].
  pose proof (try_candidates_exact verify_plaintext now bare Mismatch (t :: l) s) as HT.
  destruct (Verify.try_candidates _ _ _ _ _ _) as [[ctx|e] s'].
  - destruct HT as (before & u & after & -> & HT). split; [done|]. by exists before, u, after.
  - destruct HT as (-> & Hn & [[-> Hm]|(before & u & after & El & Hm & -> & Ha)]); (split; [done|]); [by eexists|].
    rewrite El in Hn. destruct (state_error u) eqn:Es; try by exists before, u, after; rewrite El.
    all: exfalso; revert Es; unfold state_error; by repeat case_bool_decide.
Qed.

(** The capability mask is the set of what was granted: a request passes the
    gate exactly when its token was granted the capability or the wildcard;
    granting or revoking a capability sets or clears its own bit and no other
    capability's, and the wildcard answers for a capability without a bit. *)
Theorem capability_mask_is_set caps c ctx m d :
  let held := fun m d => N.testbit m (index d) in
  (is_ok (AuthContext.require (ctx <| AuthContext.scope := TokenScope.mk (TokenScope.projects (AuthContext.scope ctx)) (from_caps caps) |>) c) = true
     <-> c ∈ caps \/ Admin ∈ caps) /\
  held (grant m c) d = held m d || bool_decide (c = d) /\
  held (revoke m c) d = held m d && negb (bool_decide (c = d)) /\
  has m d = held m Admin || held m d.
Proof.
  cbn beta zeta. rewrite grant_bit, revoke_bit, has_bits. split; [|done]. unfold AuthContext.require. cbn.
  rewrite has_bits. unfold from_caps. rewrite !grants_bit. cbn.
  destruct (bool_decide (Admin ∈ caps)) eqn:A, (bool_decide (c ∈ caps)) eqn:C; cbn;
    rewrite ?bool_decide_eq_true, ?bool_decide_eq_false in *; split; intros; try done; auto; naive_solver.
Qed.
End Properties.
