(* ===== verification/Credentials.v ===== *)
(** * storage/token_repo.rs and storage/device_repo.rs: tokens and devices

    The tables of issued tokens and paired devices in one database, as the
    [TokenStore] the verifier reads: revocation is permanent, and an issued token
    verifies. *)

From Stdlib Require Import ZifyBool.
From S2P Require Import Prelude Shared TaskModel Auth.

Module Device.
Record Device : Type := mk {
  id : DeviceId;
  label : Str;
  created_at : Z;
  last_seen_at : option Z;
  revoked_at : option Z;
  connected : bool }.
#[global] Instance Device_rebuild : Rebuild Device := fun d =>
  mk (id d) (label d) (created_at d) (last_seen_at d) (revoked_at d) (connected d).
End Device.

(** Rows in the order of their insertion, which is the order of a lookup; column
    [device_revoked_at] is joined from the devices when a token is looked up. *)
Record Credentials : Type := mkCredentials {
  tokens : list ApiToken;
  devices : list Device.Device }.
#[export] Instance Credentials_rebuild : Rebuild Credentials := fun s => mkCredentials (tokens s) (devices s).

Module DeviceRepo.
Import Device.
Definition find (s : Credentials) (d : DeviceId) : option Device :=
  head (List.filter (fun x => bool_decide (id x = d)) (devices s)).
Definition update (d : DeviceId) (f : Device -> Device) (s : Credentials) : Credentials :=
  s <| devices := map (fun x => if bool_decide (id x = d) then f x else x) (devices s) |>.

Definition insert (now : Z) (d : DeviceId) (label : Str) (s : Credentials) : Result CoreError Device * Credentials :=
  match find s d with
  | Some _ => (Err (Storage "UNIQUE constraint failed"), s)
  | None => let x := mk d label now None None false in (Ok x, s <| devices := devices s ++ [x] |>)
  end.

Definition is_revoked (s : Credentials) (d : DeviceId) : bool :=
  match find s d with
  | None => true
  | Some x => bool_decide (is_Some (revoked_at x))
  end.

Definition coalesce (a b : option Z) : option Z := or_else a b.
Definition revoke (now : Z) (d : DeviceId) (s : Credentials) : bool * Credentials :=
  (bool_decide (is_Some (find s d)), update d (fun x => x <| revoked_at := coalesce (revoked_at x) (Some now) |>) s).

(** Once a minute; a revoked device is not touched. *)
Definition due (now : Z) (x : Device) : bool :=
  bool_decide (revoked_at x = None)
  && match last_seen_at x with None => true | Some t => (t <=? now - 60000)%Z end.
Definition touch_last_seen_throttled (now : Z) (d : DeviceId) (s : Credentials) : bool * Credentials :=
  (match find s d with Some x => due now x | None => false end,
   update d (fun x => if due now x then x <| last_seen_at := Some now |> else x) s).

Definition newest_first (a b : Device) : bool := (created_at b <=? created_at a)%Z.
Definition list_ (s : Credentials) : list Device := sort_by newest_first (devices s).
End DeviceRepo.

Module TokenRepo.
Import ApiToken.

Definition known_device (s : Credentials) (t : ApiToken) : bool :=
  match device_id t with
  | None => true
  | Some d => bool_decide (is_Some (DeviceRepo.find s d))
  end.
Definition insert (t : ApiToken) (s : Credentials) : Result CoreError unit * Credentials :=
  if bool_decide (id t ∈ map id (tokens s)) then (Err (Storage "UNIQUE constraint failed"), s)
  else if negb (known_device s t) then (Err (Storage "FOREIGN KEY constraint failed"), s)
  else (Ok tt, s <| tokens := tokens s ++ [t <| device_revoked_at := None |>] |>).

(** [LEFT JOIN devices]. *)
Definition joined (s : Credentials) (t : ApiToken) : ApiToken :=
  t <| device_revoked_at := d ← device_id t; x ← DeviceRepo.find s d; Device.revoked_at x |>.
Definition list_by_prefix (p : Str) (s : Credentials) : Result CoreError (list ApiToken) :=
  Ok (map (joined s) (List.filter (fun t => bool_decide (prefix t = p)) (tokens s))).
Definition get (i : TokenId) (s : Credentials) : Result CoreError (option ApiToken) :=
  Ok (head (List.filter (fun t => bool_decide (id t = i)) (tokens s))).
Definition newest_first (a b : ApiToken) : bool := (created_at b <=? created_at a)%Z.
Definition list_for_agent (a : AgentId) (s : Credentials) : Result CoreError (list ApiToken) :=
  Ok (sort_by newest_first (List.filter (fun t => bool_decide (agent_id t = a)) (tokens s))).

Definition update (i : TokenId) (f : ApiToken -> ApiToken) (s : Credentials) : Credentials :=
  s <| tokens := map (fun t => if bool_decide (id t = i) then f t else t) (tokens s) |>.
Definition revoke (now : Z) (i : TokenId) (s : Credentials) : Result CoreError bool * Credentials :=
  (Ok (bool_decide (i ∈ map id (tokens s))),
   update i (fun t => t <| revoked_at := DeviceRepo.coalesce (revoked_at t) (Some now) |>) s).
Definition touch_last_used (now : Z) (i : TokenId) (s : Credentials) : Result CoreError unit * Credentials :=
  (Ok tt, update i (fun t => t <| last_used_at := Some now |>) s).
Definition touch_device_last_seen (now : Z) (d : DeviceId) (s : Credentials) : Result CoreError unit * Credentials :=
  (Ok tt, (DeviceRepo.touch_last_seen_throttled now d s).2).
Definition count_active (s : Credentials) : Result CoreError Z :=
  Ok (Z.of_nat (length (List.filter (fun t => bool_decide (revoked_at t = None)) (tokens s)))).

(** [DeviceRepo::bind_token]. *)
Definition bind_token (i : TokenId) (d : DeviceId) (s : Credentials) : Result CoreError unit * Credentials :=
  if bool_decide (i ∈ map id (tokens s)) && negb (bool_decide (is_Some (DeviceRepo.find s d)))
  then (Err (Storage "FOREIGN KEY constraint failed"), s)
  else (Ok tt, update i (fun t => t <| device_id := Some d |>) s).
End TokenRepo.

#[export] Instance TokenRepo_store : TokenStore Credentials := {|
  insert := TokenRepo.insert;
  list_by_prefix := TokenRepo.list_by_prefix;
  get := TokenRepo.get;
  list_for_agent := TokenRepo.list_for_agent;
  revoke := TokenRepo.revoke;
  touch_last_used := TokenRepo.touch_last_used;
  touch_device_last_seen := TokenRepo.touch_device_last_seen;
  count_active := TokenRepo.count_active |}.

(** ** What may happen to the tables *)
Module CredentialSpec.
Inductive step : Credentials -> Credentials -> Prop :=
| step_insert t r s s' : TokenRepo.insert t s = (r, s') -> step s s'
| step_revoke now i r s s' : TokenRepo.revoke now i s = (r, s') -> step s s'
| step_bind i d r s s' : TokenRepo.bind_token i d s = (r, s') -> step s s'
| step_device now d label r s s' : DeviceRepo.insert now d label s = (r, s') -> step s s'
| step_revoke_device now d r s s' : DeviceRepo.revoke now d s = (r, s') -> step s s'
| step_verify verify now raw r s s' : Verify.verify_bearer verify now raw s = (r, s') -> step s s'.

Definition token_revoked (i : TokenId) (s : Credentials) : Prop :=
  i ∈ map ApiToken.id (tokens s) /\
  forall t, t ∈ tokens s -> ApiToken.id t = i -> is_Some (ApiToken.revoked_at t).
Definition device_revoked (d : DeviceId) (s : Credentials) : Prop :=
  exists x, DeviceRepo.find s d = Some x /\ is_Some (Device.revoked_at x).
End CredentialSpec.

Module CredentialFacts.
Import CredentialSpec Verify VerifySpec VerifyFacts.

Lemma head_filter_map {A} (p : A -> bool) (f : A -> A) l :
  (forall x, p (f x) = p x) -> head (List.filter p (map f l)) = f <$> head (List.filter p l).
Proof. intros Hp. induction l as [|x l IH]; cbn; [done|]. rewrite Hp. by destruct (p x). Qed.
Lemma head_filter_app {A} (p : A -> bool) l l' :
  head (List.filter p (l ++ l')) = or_else (head (List.filter p l)) (head (List.filter p l')).
Proof. rewrite List.filter_app. by destruct (List.filter p l). Qed.
Lemma head_filter_some {A} (p : A -> bool) l x : head (List.filter p l) = Some x -> x ∈ l /\ p x = true.
Proof. intros Hx%head_Some_elem_of. by rewrite list_elem_of_In, filter_In, <- list_elem_of_In in Hx. Qed.

Lemma find_update d d' f s :
  (forall x, Device.id (f x) = Device.id x) ->
  DeviceRepo.find (DeviceRepo.update d' f s) d =
  (fun x => if bool_decide (Device.id x = d') then f x else x) <$> DeviceRepo.find s d.
Proof. intros Hf. apply head_filter_map. intros x. destruct (bool_decide (Device.id x = d')); [by rewrite Hf|done]. Qed.

(** *** Revocation is permanent *)
Definition keeps (s s' : Credentials) : Prop :=
  (forall i, token_revoked i s -> token_revoked i s') /\ (forall d, device_revoked d s -> device_revoked d s').
#[local] Instance keeps_pre : PreOrder keeps.
Proof. split; [by split; auto|]. intros a b c [H1 H2] [H3 H4]. split; auto. Qed.

Lemma keeps_update_token i f s :
  (forall t, ApiToken.id (f t) = ApiToken.id t) ->
  (forall t, is_Some (ApiToken.revoked_at t) -> is_Some (ApiToken.revoked_at (f t))) ->
  keeps s (TokenRepo.update i f s).
Proof.
  intros Hi Hr. split; [|done]. intros j [Hin Ht]. split.
  - cbn. rewrite map_map. erewrite map_ext; [exact Hin|]. intros t. cbn. by case_bool_decide.
  - intros t (u & -> & Hu)%list_elem_of_fmap. specialize (Ht u Hu). case_bool_decide; cbn; rewrite ?Hi; auto.
Qed.
Lemma keeps_update_device d f s :
  (forall x, Device.id (f x) = Device.id x) ->
  (forall x, is_Some (Device.revoked_at x) -> is_Some (Device.revoked_at (f x))) ->
  keeps s (DeviceRepo.update d f s).
Proof.
  intros Hi Hr. split; [done|]. intros d' (x & Hx & Hrx). eexists. rewrite find_update, Hx by done. split; [done|].
  case_bool_decide; auto.
Qed.
Lemma keeps_touch now t s : keeps s (touch (S := Credentials) now t s).
Proof.
  unfold touch. cbn. etrans; [by apply (keeps_update_token (ApiToken.id t) (fun t => t <| ApiToken.last_used_at := Some now |>))|].
  destruct (ApiToken.device_id t); [|done]. apply keeps_update_device; intros x; by destruct (DeviceRepo.due now x).
Qed.
Lemma keeps_insert t s : keeps s (TokenRepo.insert t s).2.
Proof.
  unfold TokenRepo.insert. case_bool_decide as Hn; [done|]. destruct (negb _); [done|]. split; [|done].
  intros i [Hin Ht]. split; cbn; [rewrite map_app; apply elem_of_app; by left|].
  intros u [Hu| ->%list_elem_of_singleton]%elem_of_app Ei; [by apply Ht|]. cbn in Ei. by subst.
Qed.
Lemma keeps_device now d label s : keeps s (DeviceRepo.insert now d label s).2.
Proof.
  unfold DeviceRepo.insert. destruct (DeviceRepo.find s d) eqn:F; [done|]. split; [done|]. intros d' (x & Hx & Hr).
  exists x. split; [|done]. unfold DeviceRepo.find in *. cbn. by rewrite head_filter_app, Hx.
Qed.
Lemma keeps_verify verify now raw s : keeps s (verify_bearer verify now raw s).2.
Proof.
  pose proof (verify_bearer_cases verify now raw s) as Hv. destruct (verify_bearer _ _ _ _) as [[ctx|e] s']; cbn in *.
  - destruct Hv as (t & -> & _). apply keeps_touch.
  - by subst.
Qed.
Lemma step_keeps s s' : step s s' -> keeps s s'.
Proof.
  intros [t r s1 s2 E|now i r s1 s2 E|i d r s1 s2 E|now d l r s1 s2 E|now d r s1 s2 E|verify now raw r s1 s2 E].
  - change s2 with (r, s2).2. rewrite <- E. apply keeps_insert.
  - injection E as _ <-. apply keeps_update_token; [done|]. intros t [x Hx]. cbn. rewrite Hx. by eexists.
  - revert E. unfold TokenRepo.bind_token. destruct (_ && _); intros [= _ <-]; [done|]. by apply keeps_update_token.
  - change s2 with (r, s2).2. rewrite <- E. apply keeps_device.
  - injection E as _ <-. apply keeps_update_device; [done|]. intros t [x Hx]. cbn. rewrite Hx. by eexists.
  - change s2 with (r, s2).2. rewrite <- E. apply keeps_verify.
Qed.
Lemma steps_keep s s' : rtc step s s' -> keeps s s'.
Proof. induction 1 as [|s s1 s' H1 _ IH]; [done|]. etrans; [by apply step_keeps|done]. Qed.
End CredentialFacts.

(** *** A rendered token *)
Module IssueFacts.
Import Verify VerifySpec VerifyFacts.

(** The alphabet of the secret: URL-safe base64. *)
Definition is_base64url (c : N) : bool := is_ascii_alphanumeric c || (c =? 45)%N || (c =? 95)%N.
Definition plain_char (c : N) : Prop := is_whitespace c = false /\ (c <= 127)%N.
Lemma base64url_plain c : is_base64url c = true -> plain_char c.
Proof.
  unfold is_base64url, plain_char, is_ascii_alphanumeric, is_ascii_alphabetic, is_ascii_upper, is_ascii_lower, is_ascii_digit, is_whitespace.
  lia.
Qed.
Lemma rendered_plain k secret : Forall (fun c => is_base64url c = true) secret -> Forall plain_char (Token.render_plaintext k secret).
Proof.
  intros Hs. unfold Token.render_plaintext. apply Forall_app. split; [by repeat constructor|].
  apply Forall_app. split; [destruct k; by repeat constructor|]. apply Forall_app. split; [by repeat constructor|].
  eapply Forall_impl; [exact Hs|apply base64url_plain].
Qed.
Lemma plain_bytes s : Forall plain_char s -> byte_len s = Z.of_nat (length s).
Proof.
  induction 1 as [|c s [_ Hc] _ IH]; [done|]. cbn [byte_len foldr length]. change (foldr _ _ s) with (byte_len s).
  rewrite IH. unfold utf8_len. rewrite (proj2 (N.ltb_lt c 128)); lia.
Qed.

(** The ways a client may present a token. *)
Definition presented (plaintext raw : Str) : Prop :=
  raw = plaintext \/ raw = lit "Bearer " ++ plaintext \/ raw = lit "bearer " ++ plaintext.
Lemma presented_bare k secret raw :
  Forall (fun c => is_base64url c = true) secret -> presented (Token.render_plaintext k secret) raw ->
  trim raw <> [] /\ bare_of (trim raw) = Token.render_plaintext k secret.
Proof.
  intros Hs Hraw. pose proof (rendered_plain k secret Hs) as Hp.
  assert (Hlast : forall c, last (Token.render_plaintext k secret) = Some c -> is_whitespace c = false).
  { intros c Hc. rewrite Forall_forall in Hp. apply Hp. by apply last_Some_elem_of. }
  assert (Ht : trim raw = raw).
  { apply trim_noop; destruct Hraw as [-> | [-> | ->]].
    1-3: by intros c [= <-].
    - exact Hlast.
    - intros c. rewrite last_app. case_match eqn:E; [intros [= <-]; by apply Hlast|by apply last_None in E].
    - intros c. rewrite last_app. case_match eqn:E; [intros [= <-]; by apply Hlast|by apply last_None in E]. }
  rewrite Ht. split; [by destruct Hraw as [-> | [-> | ->]]|]. unfold bare_of. by destruct Hraw as [-> | [-> | ->]].
Qed.
Lemma rendered_well_formed k secret :
  Forall (fun c => is_base64url c = true) secret -> (7 <= length secret)%nat ->
  malformed (Token.render_plaintext k secret) = false.
Proof.
  intros Hs Hl. unfold malformed. rewrite plain_bytes by by apply rendered_plain.
  assert (starts_with (lit "ta_") (Token.render_plaintext k secret) = true) as -> by done.
  rewrite orb_false_r. apply Z.ltb_ge. unfold Token.render_plaintext. rewrite !length_app.
  assert (length (lit "ta_") = 3%nat) as -> by done. assert (length (lit "_") = 1%nat) as -> by done.
  assert (length (lit (slug k)) = 3%nat) as -> by (by destruct k). lia.
Qed.
End IssueFacts.

Section Properties.
Import CredentialSpec CredentialFacts Verify VerifySpec VerifyFacts IssueFacts.
Context (verify_plaintext : Str -> Str -> bool).

(** C18: revocation is final.  Once a token, or the device it is bound to, has been
    revoked, no bearer is ever accepted as that token or for that device,
    whatever inserts, bindings, revocations and verifications follow. *)
Theorem revoked_credential_never_verifies now raw s1 s ctx s' :
  rtc step s1 s -> verify_bearer verify_plaintext now raw s = (Ok ctx, s') ->
  (forall at_ i s0, TokenRepo.revoke at_ i s0 = (Ok true, s1) -> AuthContext.token_id ctx <> i) /\
  (forall at_ d s0, DeviceRepo.revoke at_ d s0 = (true, s1) -> AuthContext.device_id ctx <> Some d).
Proof.
  intros [Htok Hdev]%steps_keep Hv. pose proof (verify_bearer_cases verify_plaintext now raw s) as Hc.
  rewrite Hv in Hc. destruct Hc as (t & _ & -> & (Hr & Hd & _) & rows & Hl & Ht). injection Hl as <-.
  apply list_elem_of_fmap in Ht as (u & -> & Hu). rewrite list_elem_of_In, filter_In, <- list_elem_of_In in Hu. destruct Hu as [Hu _].
  cbn in *. split.
  - intros at_ i s0 [= Hin <-]. apply bool_decide_eq_true in Hin. intros Ei. destruct (Htok i) as [_ Hall].
    + split; [cbn; rewrite map_map; erewrite map_ext; [exact Hin|]; intros x; cbn; by case_bool_decide|].
      intros x (y & -> & Hy)%list_elem_of_fmap. case_bool_decide as Ey; [|by intros ?]. intros _. cbn.
      destruct (ApiToken.revoked_at y); by eexists.
    + destruct (Hall u Hu Ei) as [x Hx]. by rewrite Hx in Hr.
  - intros at_ d s0 [= Hin <-]. apply bool_decide_eq_true in Hin as [x Hx]. intros Ed.
    destruct (Hdev d) as (y & Hy & [z Hz]).
    + pose proof (head_filter_some _ _ _ Hx) as [_ Ex%bool_decide_eq_true].
      eexists. rewrite find_update, Hx by done. split; [done|]. cbn. rewrite bool_decide_eq_true_2 by done. cbn.
      destruct (Device.revoked_at x); by eexists.
    + rewrite Ed in Hd. cbn in Hd. rewrite Hy in Hd. cbn in Hd. by rewrite Hz in Hd.
Qed.

(** C33: a token that was issued verifies.  The plain text [generate] returns for a
    stored record, presented bare or as a header, is accepted as that token, for
    its agent, device and scope, as long as it has not expired and no other row's
    hash accepts the same text. *)
Theorem issued_token_verifies hash_plaintext id issued secret spec record plaintext device s s1 raw now :
  Forall (fun c => is_base64url c = true) secret -> length secret = 32%nat ->
  (forall p h, hash_plaintext p = Ok h -> verify_plaintext p h = true) ->
  Forall (fun t => verify_plaintext (Token.render_plaintext (Token.kind spec) secret) (ApiToken.hash t) = false) (tokens s) ->
  (forall d, device = Some d -> DeviceRepo.is_revoked s d = false) ->
  (forall e, Token.expired_at spec = Some e -> (now < e)%Z) ->
  Token.generate hash_plaintext id issued secret spec = Ok (record, plaintext) ->
  insert (record <| ApiToken.device_id := device |>) s = (Ok tt, s1) -> presented plaintext raw ->
  exists s2, verify_bearer verify_plaintext now raw s1 =
    (Ok (AuthContext.mk (Token.agent_id spec) id device None (Token.rate_limit_per_min spec) (Token.scope spec)
           (Token.kind spec) None None), s2).
Proof.
  intros Hs Hlen Hhash Hother Hdev Hexp Hgen Hins Hraw. apply rbind_ok in Hgen as (h & Hh & [= <- <-]).
  destruct (presented_bare _ _ _ Hs Hraw) as [Hne Hb]. revert Hins. cbn. unfold TokenRepo.insert.
  case_bool_decide; [done|]. destruct (negb _); [done|]. intros [= Es].
  match type of Es with context [tokens s ++ [?r]] => set (row := r) in Es end.
  assert (Etok : tokens s1 = tokens s ++ [row]) by by rewrite <- Es.
  assert (Edev : devices s1 = devices s) by by rewrite <- Es.
  unfold verify_bearer. rewrite Hb, rendered_well_formed by (done || lia). destruct (trim raw) as [|c r]; [done|]. cbn [str_is_empty].
  set (plain := Token.render_plaintext (Token.kind spec) secret) in *. cbn [list_by_prefix TokenRepo_store].
  unfold TokenRepo.list_by_prefix. rewrite Etok, List.filter_app, map_app. cbn [List.filter].
  rewrite (bool_decide_eq_true_2 (ApiToken.prefix row = _)) by done. cbn [map]. set (t := TokenRepo.joined s1 row).
  set (before := map _ (List.filter _ (tokens s))).
  assert (Ht : try_candidates verify_plaintext now plain Mismatch (before ++ [t]) s1 = (Ok (context_of t), touch now t s1)).
  { rewrite try_skip, try_usable; [done|by eapply Hhash| |].
    - split; [done|]. split.
      + destruct device as [d|]; [|done]. change ((x ← DeviceRepo.find s1 d; Device.revoked_at x) = None). specialize (Hdev d eq_refl). unfold DeviceRepo.is_revoked in Hdev.
        assert (DeviceRepo.find s1 d = DeviceRepo.find s d) as -> by (unfold DeviceRepo.find; by rewrite Edev). destruct (DeviceRepo.find s d) as [x|]; [|done]. cbn.
        destruct (Device.revoked_at x); [done|done].
      + change (match Token.expired_at spec with Some e => (e <=? now)%Z | None => false end = false). destruct (Token.expired_at spec) as [e|]; [|done]. apply Z.leb_gt. by apply Hexp.
    - apply Forall_forall. intros x (y & -> & Hy)%list_elem_of_fmap. rewrite list_elem_of_In, filter_In, <- list_elem_of_In in Hy.
      rewrite Forall_forall in Hother. apply (Hother y), Hy. }
  exists (touch now t s1). clearbody before. by destruct before.
Qed.
End Properties.

(** *** Two tokens, the first of them revoked *)
Module CredentialRun.
(** argon2 replaced by the identity. *)
Definition same_text (p h : Str) : bool := bool_decide (p = h).
Definition keep_text (p : Str) : Result CoreError Str := Ok p.
Definition secret_of (c : N) : Str := repeat c 32.
Definition spec : Token.NewTokenSpec := Token.mkSpec Pat (mkId 7) TokenScope.default_user 60 (Some 1000%Z).
Definition issue (i : N) (c : N) (s : Credentials) : Credentials :=
  match Token.generate keep_text (mkId i) 0 (secret_of c) spec with
  | Ok (t, _) => (TokenRepo.insert t s).2
  | Err _ => s
  end.
Definition issued : Credentials := issue 2 98 (issue 1 97 (mkCredentials [] [])).
Definition revoked : Credentials := (TokenRepo.revoke 5 (mkId 1) issued).2.
Definition bearer (c : N) : Str := lit "Bearer " ++ Token.render_plaintext Pat (secret_of c).
Definition context (i : N) : AuthContext := AuthContext.mk (mkId 7) (mkId i) None None 60 TokenScope.default_user Pat None None.
End CredentialRun.
Import CredentialRun.

Lemma revoked_credential_never_verifies_witness :
  (Verify.verify_bearer same_text 10 (bearer 97) revoked).1 = Err Revoked /\
  (Verify.verify_bearer same_text 10 (bearer 98) revoked).1 = Ok (context 2) /\
  AuthContext.token_id (context 2) <> mkId 1.
Proof.
  split; [by vm_compute|]. split; [by vm_compute|].
  apply (revoked_credential_never_verifies same_text 10 (bearer 98) revoked revoked (context 2)
    (Verify.verify_bearer same_text 10 (bearer 98) revoked).2) with (at_ := 5%Z) (s0 := issued); [apply rtc_refl| |]; by vm_compute.
Defined.

Lemma issued_token_verifies_witness :
  exists s2, Verify.verify_bearer same_text 10 (bearer 99) (issue 3 99 issued) = (Ok (context 3), s2).
Proof.
  apply (issued_token_verifies same_text keep_text (mkId 3) 0 (secret_of 99) spec
    (match Token.generate keep_text (mkId 3) 0 (secret_of 99) spec with Ok (t, _) => t | Err _ => ApiToken.mk (mkId 0) [] [] Pat (mkId 0) TokenScope.admin 0 None 0 None None None None None end)
    (Token.render_plaintext Pat (secret_of 99)) None issued).
  - by repeat constructor.
  - done.
  - intros p h [= <-]. by apply bool_decide_eq_true.
  - by repeat constructor.
  - done.
  - by intros e [= <-].
  - by vm_compute.
  - by vm_compute.
  - right. by left.
Defined.
