(* ===== verification/AuthLayer.v ===== *)
(** * apps/server/src/middleware/auth.rs: authentication of a request

    [require_auth] verifies the bearer of a request, or takes the answer of an
    earlier verification from a cache.  Argon2 is slow, so requests, revocations
    and cache fills interleave: [step] has the moments at which one of them reads
    or writes what they share.  The latches belong to the hub (sync/src/hub.rs);
    [revoke_token] and [revoke_device] are the routes that set them. *)

From S2P Require Import Prelude Shared TaskModel Auth Credentials.

Module Latches.
(** Revocation is permanent, so the sets only grow. *)
Record Latches : Type := mk {
  revoked_devices : gset DeviceId;
  revoked_tokens : gset TokenId }.
#[global] Instance Latches_rebuild : Rebuild Latches := fun l => mk (revoked_devices l) (revoked_tokens l).

Definition empty : Latches := mk ∅ ∅.
Definition notify_device_revoked (d : DeviceId) (l : Latches) : Latches :=
  l <| revoked_devices := {[d]} ∪ revoked_devices l |>.
Definition notify_token_revoked (i : TokenId) (l : Latches) : Latches :=
  l <| revoked_tokens := {[i]} ∪ revoked_tokens l |>.
Definition is_device_revoked (l : Latches) (d : DeviceId) : bool := bool_decide (d ∈ revoked_devices l).
Definition is_token_revoked (l : Latches) (i : TokenId) : bool := bool_decide (i ∈ revoked_tokens l).
End Latches.

(** ** The routes that revoke *)
Module Revocation.
Definition require (auth : AuthContext) (c : Capability) : Result CoreError unit :=
  match AuthContext.require auth c with
  | Ok _ => Ok tt
  | Err c => Err (Forbidden (AuthContext.missing_text c))
  end.

Definition revoke_token {S} `{TokenStore S} (now : Z) (auth : AuthContext) (i : TokenId) (s : S) (l : Latches.Latches)
  : Result CoreError unit * (S * Latches.Latches) :=
  match require auth TokenWrite with
  | Err e => (Err e, (s, l))
  | Ok _ =>
      match revoke now i s with
      | (Err e, s) => (Err e, (s, l))
      | (Ok false, s) => (Err (NotFound "token {id_str}"), (s, l))
      | (Ok true, s) => (Ok tt, (s, Latches.notify_token_revoked i l))
      end
  end.

Definition revoke_device (now : Z) (auth : AuthContext) (d : DeviceId) (s : Credentials) (l : Latches.Latches)
  : Result CoreError unit * (Credentials * Latches.Latches) :=
  match require auth TokenWrite with
  | Err e => (Err e, (s, l))
  | Ok _ =>
      match DeviceRepo.revoke now d s with
      | (false, s) => (Err (NotFound "device not found"), (s, l))
      | (true, s) => (Ok tt, (s, Latches.notify_device_revoked d l))
      end
  end.
End Revocation.

(** ** The middleware *)
Module AuthLayer.
Section Layer.
Context {K : Type} `{Countable K} (sha256 : Str -> K).
Context {S : Type} `{TokenStore S} (verify_plaintext : Str -> Str -> bool).

Definition CACHE_TTL : Z := 30000.
Definition CACHE_MAX_ENTRIES : nat := 2048.

Record CacheEntry : Type := mkEntry {
  ctx : AuthContext;
  expires_at : Z }.
Abbreviation Cache := (gmap K CacheEntry).

(** [mono]: the monotonic clock. *)
Definition cache_lookup (l : Latches.Latches) (mono : Z) (k : K) (c : Cache) : option AuthContext * Cache :=
  match c !! k with
  | Some e =>
      if (mono <? expires_at e)%Z && negb (Latches.is_token_revoked l (AuthContext.token_id (ctx e)))
      then (Some (ctx e), c) else (None, delete k c)
  | None => (None, c)
  end.
Definition cache_store (mono : Z) (k : K) (x : AuthContext) (c : Cache) : Cache :=
  let c := if (CACHE_MAX_ENTRIES <=? size c)%nat then filter (fun p => (mono < expires_at p.2)%Z) c else c in
  <[k := mkEntry x (mono + CACHE_TTL)]> c.

(** The context a handler sees: the principal of an embedding host, and the
    client of this request. *)
Definition insert_auth_context (principal : option AgentId) (client : option Str) (x : AuthContext) : AuthContext :=
  x <| AuthContext.principal_id := or_else principal (AuthContext.principal_id x) |>
    <| AuthContext.client := c ← client; AuthContext.sanitize_client c |>.

(** After a verification: the answer, and the cache. *)
Definition conclude (l : Latches.Latches) (mono : Z) (header : Str) (r : Result VerifyError AuthContext) (c : Cache)
  : Result VerifyError AuthContext * Cache :=
  match r with
  | Err e => (Err e, c)
  | Ok x =>
      if str_is_empty header then (Ok x, c)
      else if Latches.is_token_revoked l (AuthContext.token_id x) then (Err Revoked, c)
      else (Ok x, if bool_decide (AuthContext.device_id x = None) then cache_store mono (sha256 header) x c else c)
  end.

(** The server between two of its moments.  [flights]: the verifications that
    have read their rows. *)
Record Flight : Type := mkFlight {
  header : Str;
  result : Result VerifyError AuthContext }.
Record Server : Type := mkServer {
  store : S;
  latches : Latches.Latches;
  cache : Cache;
  mono : Z;
  flights : list Flight }.

(** What happens at a time of the monotonic clock: a verification reads the
    tables, a verified bearer is admitted, a request is answered. *)
Inductive Event : Type :=
| Read (at_ wall : Z) (header : Str) (tables : S)
| Verified (at_ : Z) (header : Str) (x : AuthContext)
| Granted (at_ : Z) (header : Str) (x : AuthContext)
| Refused (at_ : Z) (header : Str) (e : VerifyError)
| Latched (i : TokenId).

Inductive step : Server -> list Event -> Server -> Prop :=
| step_hit s l c m fs header x c' :
    header <> [] -> cache_lookup l m (sha256 header) c = (Some x, c') ->
    step (mkServer s l c m fs) [Granted m header x] (mkServer s l c' m fs)
| step_read s l c m fs header c' wall r s' :
    header = [] /\ c' = c \/ header <> [] /\ cache_lookup l m (sha256 header) c = (None, c') ->
    Verify.verify_bearer verify_plaintext wall header s = (r, s') ->
    step (mkServer s l c m fs) [Read m wall header s] (mkServer s' l c' m (fs ++ [mkFlight header r]))
| step_conclude s l c m fs fs' f r c' :
    conclude l m (header f) (result f) c = (r, c') ->
    step (mkServer s l c m (fs ++ f :: fs'))
      match r with
      | Ok x => [Verified m (header f) x; Granted m (header f) x]
      | Err e => [Refused m (header f) e]
      end (mkServer s l c' m (fs ++ fs'))
(** The row a revocation writes, or whatever else changes the tables. *)
| step_store s l c m fs s' : step (mkServer s l c m fs) [] (mkServer s' l c m fs)
| step_latch s l c m fs i :
    step (mkServer s l c m fs) [Latched i] (mkServer s (Latches.notify_token_revoked i l) c m fs)
| step_latch_device s l c m fs d :
    step (mkServer s l c m fs) [] (mkServer s (Latches.notify_device_revoked d l) c m fs)
| step_time s l c m fs m' : (m <= m')%Z -> step (mkServer s l c m fs) [] (mkServer s l c m' fs).

Inductive steps : Server -> list Event -> Server -> Prop :=
| steps_nil s : steps s [] s
| steps_cons s es s1 es' s' : step s es s1 -> steps s1 es' s' -> steps s (es ++ es') s'.

Definition start (s : S) : Server := mkServer s Latches.empty ∅ 0 [].
End Layer.
#[global] Arguments Event S : clear implicits.
#[global] Arguments Server K {_ _} S.
End AuthLayer.

(** ** What the interleavings keep *)
Module AuthLayerFacts.
Import AuthLayer Latches.
Section Facts.
Context {K : Type} `{Countable K} (sha256 : Str -> K).
Context {S : Type} `{TokenStore S} (verify_plaintext : Str -> Str -> bool).
Abbreviation step := (step sha256 verify_plaintext).
Abbreviation steps := (steps sha256 verify_plaintext).

(** An empty header never verifies. *)
Definition headed (fs : list Flight) : Prop :=
  Forall (fun f => header f = [] -> exists e, result f = Err e) fs.
Lemma empty_header wall (s : S) : Verify.verify_bearer verify_plaintext wall [] s = (Err Missing, s).
Proof. done. Qed.

Lemma lookup_hit l m k (c c' : gmap K CacheEntry) x :
  cache_lookup l m k c = (Some x, c') ->
  exists e, c !! k = Some e /\ ctx e = x /\ (m < expires_at e)%Z /\ AuthContext.token_id x ∉ revoked_tokens l /\ c' = c.
Proof.
  unfold cache_lookup. destruct (c !! k) as [e|]; [|done]. destruct (_ && _) eqn:E; [|done]. intros [= <- <-].
  apply andb_true_iff in E as [E1%Z.ltb_lt E2%negb_true_iff]. apply bool_decide_eq_false in E2. by exists e.
Qed.
Lemma lookup_sub l m k (c c' : gmap K CacheEntry) o : cache_lookup l m k c = (o, c') -> c' ⊆ c.
Proof.
  unfold cache_lookup. destruct (c !! k) as [e|]; [destruct (_ && _)|]; intros [= <- <-]; try done. apply delete_subseteq.
Qed.
Lemma store_lookup m k x (c : gmap K CacheEntry) k' e :
  cache_store m k x c !! k' = Some e -> k' = k /\ e = mkEntry x (m + CACHE_TTL) \/ c !! k' = Some e.
Proof.
  unfold cache_store. destruct (decide (k' = k)) as [->|Hk].
  - rewrite lookup_insert_eq. intros [= <-]. by left.
  - rewrite lookup_insert_ne by done. case_match; [|by right]. intros [Hc _]%map_lookup_filter_Some. by right.
Qed.
Lemma conclude_ok l m h r (c c' : gmap K CacheEntry) x :
  conclude sha256 l m h r c = (Ok x, c') ->
  r = Ok x /\ (h = [] \/ AuthContext.token_id x ∉ revoked_tokens l) /\
  forall k e, c' !! k = Some e ->
    (k = sha256 h /\ e = mkEntry x (m + CACHE_TTL) /\ AuthContext.device_id x = None) \/ c !! k = Some e.
Proof.
  unfold conclude. destruct r as [y|e]; [|done]. destruct (str_is_empty h) eqn:Eh.
  { intros [= <- <-]. split; [done|]. split; [left; by destruct h|]. by right. }
  unfold is_token_revoked. case_bool_decide as Hl; [done|]. intros [= <- <-]. split; [done|]. split; [by right|].
  intros k e. case_bool_decide as Hd; [|by right]. intros [[-> ->]|]%store_lookup; [left; done|by right].
Qed.
Lemma conclude_err l m h r (c c' : gmap K CacheEntry) e : conclude sha256 l m h r c = (Err e, c') -> c' = c.
Proof. unfold conclude. destruct r; [|by intros [= _ <-]]. destruct (str_is_empty h); [done|]. case_match; by intros [=]. Qed.

(** *** Latches outrank the cache and the verifications in flight *)
Definition avoids (i : TokenId) (es : list (Event S)) : Prop :=
  forall m h x, Granted m h x ∈ es -> AuthContext.token_id x <> i.
Lemma step_headed s es s' : step s es s' -> headed (flights s) -> headed (flights s').
Proof.
  intros [s0 l c m fs h x c' Hn Hc|s0 l c m fs h c' wall r s1 Hh Hv|s0 l c m fs fs' f r c' Hc| | | | ]; cbn; try done.
  - intros Hf. apply Forall_app. split; [done|]. constructor; [|done]. cbn. intros ->. rewrite empty_header in Hv.
    injection Hv as <- _. by eexists.
  - intros [Hf Hf']%Forall_app. apply Forall_app. by apply Forall_cons in Hf' as [_ Hf'].
Qed.
Lemma step_avoids i s es s' :
  step s es s' -> headed (flights s) -> i ∈ revoked_tokens (latches s) ->
  avoids i es /\ i ∈ revoked_tokens (latches s').
Proof.
  intros Hs Hh Hi. destruct Hs as [s0 l c m fs h x c' Hn Hc|s0 l c m fs h c' wall r s1 _ Hv|s0 l c m fs fs' f r c' Hc| | | | ]; cbn in *.
  3: split; [|done]; destruct r as [x|e]; [|by intros ? ? ? ?%list_elem_of_singleton].
  3: { apply conclude_ok in Hc as (Hr & Hl & _). apply Forall_app in Hh as [_ [Hf _]%Forall_cons].
       intros m' h' x' Hin. apply elem_of_cons in Hin as [|Hin%list_elem_of_singleton]; [done|]. injection Hin as -> -> ->.
       destruct Hl as [Hl|Hl]; [|intros E; apply Hl; by rewrite E]. destruct (Hf Hl) as [e He]. congruence. }
  - split; [|done]. apply lookup_hit in Hc as (e & _ & _ & _ & Hl & _). intros m' h' x' Hin%list_elem_of_singleton.
    injection Hin as -> -> ->. intros E; apply Hl; by rewrite E.
  - split; [|done]. by intros ? ? ? ?%list_elem_of_singleton.
  - split; [by intros ? ? ? ?%elem_of_nil|done].
  - split; [by intros ? ? ? ?%list_elem_of_singleton|]. set_solver.
  - split; [by intros ? ? ? ?%elem_of_nil|done].
  - split; [by intros ? ? ? ?%elem_of_nil|done].
Qed.
Lemma avoids_app i es es' : avoids i es -> avoids i es' -> avoids i (es ++ es').
Proof. intros He He' m h x [Hx|Hx]%elem_of_app; eauto. Qed.
Lemma steps_avoid i s es s' :
  steps s es s' -> headed (flights s) -> i ∈ revoked_tokens (latches s) -> avoids i es.
Proof.
  induction 1 as [|s es s1 es' s' H1 _ IH]; intros Hh Hi; [by intros ? ? ? ?%elem_of_nil|].
  destruct (step_avoids _ _ _ _ H1 Hh Hi) as [Ha Hi']. apply avoids_app; [done|]. apply IH; [by eapply step_headed|done].
Qed.
(** A step that latches emits nothing else. *)
Lemma step_latched s es s' pre i post :
  step s es s' -> es = pre ++ Latched i :: post -> post = [] /\ i ∈ revoked_tokens (latches s').
Proof.
  intros Hs E. destruct Hs as [ | |s0 l c m fs fs' f [x|e] c' Hc| |s0 l c m fs j| | ]; destruct pre as [|a [|b [|b1 pre]]]; try discriminate E; cbn.
  injection E as -> <-. split; [done|set_solver].
Qed.

(** *** Where an admission comes from *)
Record sourced (es : list (Event S)) (s : Server K S) : Prop := mkSourced {
  from_flight f : f ∈ flights s -> exists m wall t, Read m wall (header f) t ∈ es /\ (m <= mono s)%Z /\
    (Verify.verify_bearer verify_plaintext wall (header f) t).1 = result f;
  from_read m h x : Verified m h x ∈ es -> (m <= mono s)%Z /\ exists r wall t, Read r wall h t ∈ es /\ (r <= m)%Z /\
    (Verify.verify_bearer verify_plaintext wall h t).1 = Ok x;
  from_cache k e : cache s !! k = Some e -> exists m h, Verified m h (ctx e) ∈ es /\ sha256 h = k /\
    expires_at e = (m + CACHE_TTL)%Z /\ AuthContext.device_id (ctx e) = None;
  from_verified m h x : Granted m h x ∈ es -> exists f h', Verified f h' x ∈ es /\ sha256 h' = sha256 h /\
    (f <= m < f + CACHE_TTL)%Z /\ (AuthContext.device_id x <> None -> h' = h /\ f = m) }.

Lemma start_sourced t : sourced [] (start t).
Proof.
  split; cbn; [by intros f ?%elem_of_nil|by intros m h x ?%elem_of_nil| |by intros m h x ?%elem_of_nil].
  intros k e. by rewrite lookup_empty.
Qed.
Lemma sourced_more es es' s s' :
  sourced es s -> (mono s <= mono s')%Z -> flights s' ⊆ flights s -> cache s' ⊆ cache s ->
  (forall m h x, Verified m h x ∉ es') -> (forall m h x, Granted m h x ∉ es') -> sourced (es ++ es') s'.
Proof.
  intros [F R C V] Hm Hf Hc Hnv Hna. split.
  - intros f Hin. destruct (F f) as (m & wall & t & ? & ? & ?); [by apply Hf|]. exists m, wall, t. rewrite elem_of_app. split; [auto|]. split; [lia|done].
  - intros m h x [Hx|Hx]%elem_of_app; [|by apply Hnv in Hx]. destruct (R _ _ _ Hx) as (? & r & wall & t & ? & ? & ?).
    split; [lia|]. exists r, wall, t. rewrite elem_of_app. auto.
  - intros k e Hk. destruct (C k e) as (m & h & ? & ? & ? & ?); [by eapply lookup_weaken|]. exists m, h. rewrite elem_of_app. auto.
  - intros m h x [Hx|Hx]%elem_of_app; [|by apply Hna in Hx]. destruct (V _ _ _ Hx) as (f & h' & ? & ? & ?). exists f, h'. rewrite elem_of_app. auto.
Qed.

(** A step that admits nothing. *)
Ltac quiet := first [lia | set_solver | done | intros ? ? ?; set_solver].

Lemma sourced_hit es s l c m fs h x c' :
  sourced es (mkServer s l c m fs) -> cache_lookup l m (sha256 h) c = (Some x, c') ->
  sourced (es ++ [Granted m h x]) (mkServer s l c' m fs).
Proof.
  intros Hi (e & Hk & <- & He & _ & ->)%lookup_hit. destruct Hi as [F R C V]. split; cbn in *.
  - intros f (m' & wall & t & ? & ?)%F. exists m', wall, t. rewrite elem_of_app. auto.
  - intros m' h' y [Hy|Hy%list_elem_of_singleton]%elem_of_app; [|done].
    destruct (R _ _ _ Hy) as (? & r & wall & t & ? & ?). split; [done|]. exists r, wall, t. rewrite elem_of_app. auto.
  - intros k e' (m' & h' & ? & ?)%C. exists m', h'. rewrite elem_of_app. auto.
  - intros m' h' y [Hy|Hy%list_elem_of_singleton]%elem_of_app.
    + destruct (V _ _ _ Hy) as (f & h1 & ? & ?). exists f, h1. rewrite elem_of_app. auto.
    + injection Hy as -> -> ->. destruct (C _ _ Hk) as (f & h1 & Hv & Eh & Ee & Hd). destruct (R _ _ _ Hv) as [Hf _].
      exists f, h1. rewrite elem_of_app. split; [by left|]. split; [done|]. rewrite Ee in He. split; [lia|done].
Qed.
Lemma sourced_conclude es s l c m fs fs' f x c' :
  sourced es (mkServer s l c m (fs ++ f :: fs')) -> conclude sha256 l m (header f) (result f) c = (Ok x, c') ->
  sourced (es ++ [Verified m (header f) x; Granted m (header f) x]) (mkServer s l c' m (fs ++ fs')).
Proof.
  intros [F R C V] (Er & _ & Hc)%conclude_ok. split; cbn in *.
  - intros g Hg. destruct (F g) as (m' & wall & t & ? & ?); [set_solver|]. exists m', wall, t. rewrite elem_of_app. auto.
  - intros m' h' y [Hy|Hy]%elem_of_app.
    + destruct (R _ _ _ Hy) as (? & r & wall & t & ? & ?). split; [done|]. exists r, wall, t. rewrite elem_of_app. auto.
    + apply elem_of_cons in Hy as [Hy|Hy%list_elem_of_singleton]; [|done]. injection Hy as -> -> ->. split; [done|].
      destruct (F f) as (r & wall & t & ? & ? & Ev); [set_solver|]. exists r, wall, t. rewrite elem_of_app. rewrite Ev. auto.
  - intros k e [(-> & -> & Hd)|Hk]%Hc.
    + exists m, (header f). split; [|done]. apply elem_of_app. right. left.
    + destruct (C k e Hk) as (m' & h' & ? & ?). exists m', h'. rewrite elem_of_app. auto.
  - intros m' h' y [Hy|Hy]%elem_of_app.
    + destruct (V _ _ _ Hy) as (g & h1 & ? & ?). exists g, h1. rewrite elem_of_app. auto.
    + apply elem_of_cons in Hy as [Hy|Hy%list_elem_of_singleton]; [done|]. injection Hy as -> -> ->.
      exists m, (header f). split; [apply elem_of_app; right; left|]. split; [done|]. unfold CACHE_TTL. split; [lia|done].
Qed.
Lemma sourced_read es s l c m fs h c' wall r s' :
  sourced es (mkServer s l c m fs) -> c' ⊆ c -> Verify.verify_bearer verify_plaintext wall h s = (r, s') ->
  sourced (es ++ [Read m wall h s]) (mkServer s' l c' m (fs ++ [mkFlight h r])).
Proof.
  intros Hi Hc Hv. assert (Hi' : sourced (es ++ [Read m wall h s]) (mkServer s l c' m fs)).
  { apply (sourced_more _ _ _ _ Hi); cbn; quiet. }
  destruct Hi' as [F R C V]. split; cbn in *; try done.
  intros f [Hf|Hf%list_elem_of_singleton]%elem_of_app; [by apply F|]. subst. exists m, wall, s.
  split; [apply elem_of_app; right; left|]. split; [done|].
  change ((Verify.verify_bearer verify_plaintext wall h s).1 = r). by rewrite Hv.
Qed.
Lemma step_sourced es s es' s' : step s es' s' -> sourced es s -> sourced (es ++ es') s'.
Proof.
  intros Hs Hi. destruct Hs as [s l c m fs h x c' _ Hc|s l c m fs h c' wall r s1 Hh Hv|s l c m fs fs' f [x|e] c' Hc| | | | ].
  - by eapply sourced_hit.
  - eapply sourced_read; [exact Hi| |exact Hv]. destruct Hh as [[_ ->]|[_ Hh]]; [done|by eapply lookup_sub].
  - by eapply sourced_conclude.
  - apply conclude_err in Hc as ->. apply (sourced_more _ _ _ _ Hi); cbn; quiet.
  - apply (sourced_more _ _ _ _ Hi); cbn; quiet.
  - apply (sourced_more _ _ _ _ Hi); cbn; quiet.
  - apply (sourced_more _ _ _ _ Hi); cbn; quiet.
  - apply (sourced_more _ _ _ _ Hi); cbn; quiet.
Qed.
Lemma steps_sourced es s es' s' : steps s es' s' -> sourced es s -> sourced (es ++ es') s'.
Proof.
  intros Hs. revert es. induction Hs as [|s es1 s1 es2 s' H1 _ IH]; intros es Hi; [by rewrite app_nil_r|].
  rewrite app_assoc. apply IH. by eapply step_sourced.
Qed.
End Facts.
End AuthLayerFacts.

Section Properties.
Import AuthLayer Latches AuthLayerFacts.
Context {K : Type} `{Countable K} (sha256 : Str -> K).
Context {S : Type} `{TokenStore S} (verify_plaintext : Str -> Str -> bool).

(** C11: a revocation that returned holds at once.  Whatever requests, cache hits,
    verifications in flight, expiries and changes of the tables interleave, no
    request is admitted as a token after the token's latch is set. *)
Theorem revoked_token_is_refused (t : S) pre i post s m h x :
  steps sha256 verify_plaintext (start t) (pre ++ Latched i :: post) s ->
  Granted m h x ∈ post -> AuthContext.token_id x <> i.
Proof.
  intros Hs Hx. revert Hs. assert (Hh : headed (flights (start (K := K) t))) by constructor.
  generalize (start (K := K) t) Hh. clear Hh t. intros s0 Hh Hs. remember (pre ++ Latched i :: post) as tr eqn:E.
  revert pre E. induction Hs as [|s0 es s1 es' s' H1 Hs IH]; intros pre E; [by destruct pre|].
  pose proof (step_headed _ _ _ _ _ H1 Hh) as Hh1.
  apply app_eq_inv in E as [(mid & Ees & E)|(mid & _ & E)]; [|by eapply IH].
  destruct mid as [|ev mid]; cbn in E.
  - by apply (IH Hh1 []).
  - injection E as <- ->. destruct (step_latched _ _ _ _ _ _ _ _ H1 Ees) as [-> Hi]. by eapply steps_avoid.
Qed.

(** C20: the cache is a cache of verifications.  Every admitted context is one that
    [verify_bearer] returned on the tables of some earlier moment, for a header
    with the same digest, and was stored less than the cache's lifetime before;
    a context bound to a device was verified for this very request. *)
Theorem admission_is_recent_verification (t : S) es s m h x :
  steps sha256 verify_plaintext (start t) es s -> Granted m h x ∈ es ->
  exists f r wall h' tables, Verified f h' x ∈ es /\ Read r wall h' tables ∈ es /\
    (Verify.verify_bearer verify_plaintext wall h' tables).1 = Ok x /\ sha256 h' = sha256 h /\
    (r <= f <= m)%Z /\ (m < f + CACHE_TTL)%Z /\ (AuthContext.device_id x <> None -> h' = h /\ f = m).
Proof.
  intros Hs Hx. pose proof (steps_sourced _ _ [] _ _ _ Hs (start_sourced _ _ _)) as [_ R _ V]. cbn in *.
  destruct (V _ _ _ Hx) as (f & h' & Hv & Eh & Hm & Hd). destruct (R _ _ _ Hv) as (_ & r & wall & tables & Hr & Hrf & He).
  exists f, r, wall, h', tables. do 4 (split; [done|]). split; [lia|]. split; [lia|done].
Qed.
End Properties.

(** *** A revocation that overtakes a verification in flight *)
Module AuthRun.
Import AuthLayer CredentialRun.
Abbreviation verified s header := (Verify.verify_bearer same_text 10 header s).
(** SHA-256 replaced by the last character. *)
Definition last_char (header : Str) : N := default 0%N (last header).
Definition after_read : Credentials := (verified issued (bearer 97)).2.
Definition after_revoke : Credentials := (TokenRepo.revoke 11 (mkId 1) after_read).2.
Definition before_latch : list (Event Credentials) := [Read 0 10 (bearer 97) issued].
Definition after_latch : list (Event Credentials) :=
  [Refused 0 (bearer 97) Revoked; Read 0 10 (bearer 98) after_revoke; Verified 0 (bearer 98) (context 2);
   Granted 0 (bearer 98) (context 2); Granted 20000 (bearer 98) (context 2)].
Definition latched : Latches.Latches := Latches.notify_token_revoked (mkId 1) Latches.empty.
Definition filled : gmap N CacheEntry := cache_store 0 (last_char (bearer 98)) (context 2) ∅.
Definition after_second : Credentials := (verified after_revoke (bearer 98)).2.
Definition done_ : Server N Credentials := mkServer after_second latched filled 20000 [].

Lemma overtaken : steps last_char same_text (start issued) (before_latch ++ Latched (mkId 1) :: after_latch) done_.
Proof.
  eapply (steps_cons _ _ _ before_latch);
    [apply (step_read _ _ issued Latches.empty ∅ 0 [] _ ∅); [right; split; [done|by vm_compute]|apply surjective_pairing]|].
  eapply (steps_cons _ _ _ []); [apply (step_store _ _ _ _ _ _ _ after_revoke)|].
  eapply (steps_cons _ _ _ [_]); [apply step_latch|].
  eapply (steps_cons _ _ _ [_]); [apply (step_conclude _ _ after_revoke latched ∅ 0 [] []
    (mkFlight (bearer 97) (verified issued (bearer 97)).1) (Err Revoked) ∅); by vm_compute|].
  eapply (steps_cons _ _ _ [_]);
    [apply (step_read _ _ after_revoke latched ∅ 0 [] (bearer 98) ∅); [right; split; [done|by vm_compute]|apply surjective_pairing]|].
  eapply (steps_cons _ _ _ [_; _]); [apply (step_conclude last_char same_text after_second latched ∅ 0 [] []
    (mkFlight (bearer 98) (verified after_revoke (bearer 98)).1) (Ok (context 2)) filled); by vm_compute|].
  eapply (steps_cons _ _ _ []); [apply (step_time _ _ after_second latched filled 0 [] 20000); lia|].
  eapply (steps_cons _ _ _ [_] _ []); [|apply steps_nil].
  apply (step_hit last_char same_text after_second latched filled 20000 []); [done|by vm_compute].
Qed.
End AuthRun.

Lemma revoked_token_is_refused_witness :
  Latches.is_token_revoked AuthRun.latched (mkId 1) = true /\
  AuthContext.token_id (CredentialRun.context 2) <> mkId 1.
Proof.
  split; [by vm_compute|].
  apply (revoked_token_is_refused _ _ _ _ _ _ _ 20000 (CredentialRun.bearer 98) _ AuthRun.overtaken). do 4 right; left.
Defined.
Lemma admission_is_recent_verification_witness :
  exists f r wall h' tables,
    AuthLayer.Verified f h' (CredentialRun.context 2) ∈ AuthRun.before_latch ++ AuthLayer.Latched (mkId 1) :: AuthRun.after_latch /\
    AuthLayer.Read r wall h' tables ∈ AuthRun.before_latch ++ AuthLayer.Latched (mkId 1) :: AuthRun.after_latch /\
    (Verify.verify_bearer CredentialRun.same_text wall h' tables).1 = Ok (CredentialRun.context 2) /\
    AuthRun.last_char h' = AuthRun.last_char (CredentialRun.bearer 98) /\ (r <= f <= 20000)%Z /\ (20000 < f + AuthLayer.CACHE_TTL)%Z /\
    (AuthContext.device_id (CredentialRun.context 2) <> None -> h' = CredentialRun.bearer 98 /\ f = 20000%Z).
Proof.
  apply (admission_is_recent_verification _ _ _ _ _ _ _ _ AuthRun.overtaken). do 6 right; left.
Defined.
