(* ===== verification/Pairing.v ===== *)
(** * discovery/src/pairing.rs and routes/pairing.rs: pairing a device

    The store of single-use pairing tickets and the endpoint that trades one for a
    device and its bearer token.  HMAC, argon2 and the random source are
    parameters; one mutex makes every operation of the store one step. *)

From S2P Require Import Prelude Shared TaskModel Auth Credentials.

(** ** Comparison in constant time *)
Module ConstantTime.
Definition constant_eq (a b : list N) : bool :=
  if negb (Nat.eqb (length a) (length b)) then false
  else (foldl (fun acc p => N.lor acc (N.lxor p.1 p.2)) 0 (zip a b) =? 0)%N.

(** [as_bytes]. *)
Definition utf8_bytes (c : N) : list N :=
  (if c <? 128 then [c]
   else if c <? 2048 then [192 + c / 64; 128 + c mod 64]
   else if c <? 65536 then [224 + c / 4096; 128 + c / 64 mod 64; 128 + c mod 64]
   else [240 + c / 262144; 128 + c / 4096 mod 64; 128 + c / 64 mod 64; 128 + c mod 64])%N.
Definition as_bytes (s : Str) : list N := concat (map utf8_bytes s).
Definition constant_eq_str (a b : Str) : bool := constant_eq (as_bytes a) (as_bytes b).

Lemma lor_zero acc l : (foldl (fun acc p => N.lor acc (N.lxor p.1 p.2)) acc l = 0)%N <->
  acc = 0%N /\ Forall (fun p : N * N => p.1 = p.2) l.
Proof.
  revert acc. induction l as [|[x y] l IH]; intros acc; cbn [foldl].
  { split; [by intros ->|by intros [-> _]]. }
  rewrite IH, N.lor_eq_0_iff, N.lxor_eq_0_iff, Forall_cons. naive_solver.
Qed.
Lemma constant_eq_spec a b : constant_eq a b = true <-> a = b.
Proof.
  unfold constant_eq. destruct (Nat.eqb_spec (length a) (length b)) as [E|E]; cbn; [|by split; [|intros ->]].
  rewrite N.eqb_eq, lor_zero. split; [intros [_ Hf]|intros ->; split; [done|]].
  - revert b E Hf. induction a as [|x a IH]; intros [|y b]; try done. intros [= E] [Exy Hf]%Forall_cons. cbn in Exy.
    f_equal; [done|by apply IH].
  - clear. induction b as [|y b IH]; cbn; constructor; done.
Qed.
End ConstantTime.

(** ** Tickets (discovery/src/pairing.rs) *)
Module PairingStore.
Import ConstantTime.
Record PairingTicket : Type := mkTicket {
  token : Str;
  expires_at : Z;
  host : Str;
  tls_fingerprint : Str }.
Record Entry : Type := mkEntry {
  ticket : PairingTicket;
  used : bool }.
Abbreviation Tickets := (gmap Str Entry).

Definition PAIRING_TTL : Z := 300000.
Definition is_expired (now : Z) (t : PairingTicket) : bool := (expires_at t <=? now)%Z.
Definition sweep (now : Z) (st : Tickets) : Tickets :=
  filter (fun p => is_expired now (ticket p.2) = false) st.

(** [fresh]: the text of 32 random bytes. *)
Definition issue (now : Z) (fresh host fpr : Str) (st : Tickets) : PairingTicket * Tickets :=
  let t := mkTicket fresh (now + PAIRING_TTL) host fpr in
  (t, <[fresh := mkEntry t false]> (sweep now st)).

Section Consume.
Context (hmac_tag : Str -> Str -> list N).

(** The keys in the order of the hash map's iteration. *)
Definition matching (nonce candidate : Str) (st : Tickets) : option (Str * Entry) :=
  head (List.filter (fun p => negb (used p.2) && constant_eq (hmac_tag nonce candidate) (hmac_tag nonce p.1))
                    (map_to_list st)).
Definition consume (now : Z) (nonce candidate : Str) (st : Tickets) : option PairingTicket * Tickets :=
  let st := sweep now st in
  match matching nonce candidate st with
  | Some (k, e) => (Some (ticket e), <[k := mkEntry (ticket e) true]> st)
  | None => (None, st)
  end.
Definition active_count (now : Z) (st : Tickets) : nat :=
  length (List.filter (fun p => negb (used p.2) && negb (is_expired now (ticket p.2))) (map_to_list st)).
End Consume.
End PairingStore.

(** ** The endpoint (routes/pairing.rs) *)
Module PairDevice.
Import ConstantTime PairingStore.

Definition normalize_fingerprint (raw : Str) : Str :=
  let raw := trim raw in
  to_ascii_lowercase
    (if bool_decide (to_ascii_lowercase (take 7 raw) = lit "sha256:") then drop 7 raw else raw).

Record PairRequest : Type := mkRequest {
  req_token : Str;
  req_fingerprint : Str;
  req_label : option Str }.
Record PairResponse : Type := mkResponse {
  access_token : Str;
  token_prefix : Str;
  device_id : DeviceId;
  server_url : Str;
  server_id : Str }.

(** What a call draws: a nonce, ids, and the secret of the token. *)
Record Draw : Type := mkDraw {
  nonce : Str;
  token_id : TokenId;
  agent_id : AgentId;
  new_device : DeviceId;
  secret : Str }.

Section Pair.
Context (hmac_tag : Str -> Str -> list N) (hash_plaintext : Str -> Result CoreError Str).
(** The identity of the event log, from its table (server_identity.rs). *)
Context (read_server_id : Result CoreError Str).

Definition device_label (r : PairRequest) : Str := take 80 (default (lit "paired-device") (req_label r)).
Definition ninety_days : Z := 90 * 86400000.

(** Steps 3 and 4: the fingerprint, then the token and its device. *)
Definition grant (now : Z) (dr : Draw) (r : PairRequest) (t : PairingTicket) (s : Credentials)
  : Result CoreError PairResponse * Credentials :=
  if negb (constant_eq_str (normalize_fingerprint (tls_fingerprint t)) (normalize_fingerprint (trim (req_fingerprint r))))
  then (Err (Forbidden "TLS fingerprint mismatch — ensure you are connecting to the correct server"), s)
  else
    match Token.generate hash_plaintext (token_id dr) now (secret dr)
            (Token.mkSpec Pat (agent_id dr) TokenScope.default_user 120 (Some (now + ninety_days)%Z)) with
    | Err e => (Err (Storage "{e}"), s)
    | Ok (record, plaintext) =>
        match DeviceRepo.insert now (new_device dr) (device_label r) s with
        | (Err e, s) => (Err e, s)
        | (Ok d, s) =>
            match read_server_id with
            | Err e => (Err e, s)
            | Ok sid =>
            match insert (record <| ApiToken.device_id := Some (Device.id d) |>) s with
            | (Err e, s) => (Err (Storage "{e}"), s)
            | (Ok _, s) => (Ok (mkResponse plaintext (ApiToken.prefix record) (Device.id d) (lit "https://" ++ host t) sid), s)
            end
            end
        end
    end.

Definition pair_device (now : Z) (dr : Draw) (r : PairRequest) (st : gmap Str Entry) (s : Credentials)
  : Result CoreError PairResponse * (gmap Str Entry * Credentials) :=
  let candidate := trim (req_token r) in
  if str_is_empty candidate then (Err (Validation "token must not be empty"), (st, s))
  else if str_is_empty (trim (req_fingerprint r)) then (Err (Validation "tls_fingerprint must not be empty"), (st, s))
  else
    match consume hmac_tag now (nonce dr) candidate st with
    | (None, st) => (Err (Unauthorized "invalid, expired, or already-used pairing token"), (st, s))
    | (Some t, st) => let '(out, s) := grant now dr r t s in (out, (st, s))
    end.
End Pair.
End PairDevice.

(** ** Every paired device has a ticket of its own *)
Module PairingSpec.
Import PairingStore PairDevice.
Section Spec.
Context (hmac_tag : Str -> Str -> list N) (hash_plaintext : Str -> Result CoreError Str).
Context (read_server_id : Result CoreError Str).

Inductive Event : Type :=
| Issued (at_ : Z) (t : PairingTicket)
| Paired (at_ : Z) (r : PairRequest) (p : PairResponse).

(** Tickets, credentials and what happened so far.  Random texts do not repeat. *)
Inductive step : gmap Str Entry * Credentials * list Event -> gmap Str Entry * Credentials * list Event -> Prop :=
| step_issue now fresh host fpr t st st' s es :
    (forall m u, Issued m u ∈ es -> token u <> fresh) ->
    issue now fresh host fpr st = (t, st') -> step (st, s, es) (st', s, es ++ [Issued now t])
| step_pair now dr r out st st' s s' es :
    pair_device hmac_tag hash_plaintext read_server_id now dr r st s = (out, (st', s')) ->
    step (st, s, es) (st', s', match out with Ok p => es ++ [Paired now r p] | Err _ => es end)
| step_sweep now st s es : step (st, s, es) (sweep now st, s, es)
| step_credentials st s s' es : rtc CredentialSpec.step s s' -> step (st, s, es) (st, s', es).

(** The tokens traded so far, in order. *)
Definition traded (es : list Event) : list Str :=
  omap (fun e => match e with Paired _ r _ => Some (trim (req_token r)) | Issued _ _ => None end) es.
End Spec.
End PairingSpec.

Module PairingFacts.
Import ConstantTime PairingStore PairDevice PairingSpec.

(** What no operation on a stored token changes. *)
Definition identity (t : ApiToken) :=
  (ApiToken.id t, ApiToken.prefix t, ApiToken.hash t, ApiToken.kind t, ApiToken.agent_id t, ApiToken.scope t,
   ApiToken.rate_limit_per_min t, ApiToken.expired_at t).
Definition listed (s s' : Credentials) : Prop := map identity (tokens s) ⊆ map identity (tokens s').
#[local] Instance listed_pre : PreOrder listed.
Proof. split; [by intros s x|intros a b c H1 H2 x Hx; auto]. Qed.

Lemma listed_update i f s : (forall t, identity (f t) = identity t) -> listed s (TokenRepo.update i f s).
Proof.
  intros Hf. unfold listed. cbn. rewrite map_map.
  match goal with |- _ ⊆ map ?g _ => assert (map g (tokens s) = map identity (tokens s)) as -> end; [|done].
  apply map_ext. intros t. case_bool_decide; auto.
Qed.
Lemma listed_same s s' : tokens s' = tokens s -> listed s s'.
Proof. unfold listed. by intros ->. Qed.
Lemma listed_insert t s : listed s (TokenRepo.insert t s).2.
Proof.
  unfold TokenRepo.insert. case_bool_decide; [done|]. destruct (negb _); [done|]. unfold listed. cbn. rewrite map_app. set_solver.
Qed.
Lemma listed_device now d label s : listed s (DeviceRepo.insert now d label s).2.
Proof. unfold DeviceRepo.insert. destruct (DeviceRepo.find s d); [done|]. by apply listed_same. Qed.
Lemma listed_touch now t s : listed s (Verify.touch (S := Credentials) now t s).
Proof.
  unfold Verify.touch. cbn. etrans; [by apply (listed_update (ApiToken.id t) (fun t => t <| ApiToken.last_used_at := Some now |>))|].
  destruct (ApiToken.device_id t); [|done]. by apply listed_same.
Qed.
Lemma step_listed s s' : CredentialSpec.step s s' -> listed s s'.
Proof.
  intros [t r s1 s2 E|now i r s1 s2 E|i d r s1 s2 E|now d l r s1 s2 E|now d r s1 s2 E|verify now raw r s1 s2 E].
  - change s2 with (r, s2).2. rewrite <- E. apply listed_insert.
  - injection E as _ <-. by apply listed_update.
  - revert E. unfold TokenRepo.bind_token. destruct (_ && _); intros [= _ <-]; [done|]. by apply listed_update.
  - change s2 with (r, s2).2. rewrite <- E. apply listed_device.
  - injection E as _ <-. by apply listed_same.
  - pose proof (VerifyFacts.verify_bearer_cases verify now raw s1) as Hv. rewrite E in Hv. destruct r as [ctx|e]; [|by subst].
    destruct Hv as (t & -> & _). apply listed_touch.
Qed.
Lemma steps_listed s s' : rtc CredentialSpec.step s s' -> listed s s'.
Proof. induction 1 as [|s s1 s' H1 _ IH]; [done|]. etrans; [by apply step_listed|done]. Qed.

Section Facts.
Context (hmac_tag : Str -> Str -> list N) (hash_plaintext : Str -> Result CoreError Str).
Context (read_server_id : Result CoreError Str).
Context (tags_differ : forall nonce a b, hmac_tag nonce a = hmac_tag nonce b -> a = b).
Abbreviation step := (step hmac_tag hash_plaintext read_server_id).

Lemma sweep_lookup now st k e : sweep now st !! k = Some e <-> st !! k = Some e /\ is_expired now (ticket e) = false.
Proof. unfold sweep. by rewrite map_lookup_filter_Some. Qed.
Lemma consume_some now nonce c st t st' :
  consume hmac_tag now nonce c st = (Some t, st') ->
  exists e, st !! c = Some e /\ used e = false /\ ticket e = t /\ is_expired now t = false /\
    st' = <[c := mkEntry t true]> (sweep now st).
Proof.
  unfold consume. destruct (matching _ _ _ _) as [[k e]|] eqn:M; [|done]. intros [= <- <-].
  apply CredentialFacts.head_filter_some in M as [Hin Hb]. cbn in Hb. apply andb_true_iff in Hb as [Hu%negb_true_iff Ht].
  apply constant_eq_spec, tags_differ in Ht as <-. apply elem_of_map_to_list, sweep_lookup in Hin as [Hin He]. by exists e.
Qed.
Lemma consume_none now nonce c st st' : consume hmac_tag now nonce c st = (None, st') -> st' = sweep now st.
Proof. unfold consume. destruct (matching _ _ _ _) as [[k e]|]; by intros [=]. Qed.

(** What a paired device has: a ticket issued less than its lifetime before, whose
    fingerprint it knew, and a token for the default scope. *)
Definition backed (m : Z) (r : PairRequest) (p : PairResponse) (s : Credentials) (es : list Event) : Prop :=
  (exists f t, Issued f t ∈ es /\ token t = trim (req_token r) /\ (m < f + PAIRING_TTL)%Z /\
    as_bytes (normalize_fingerprint (tls_fingerprint t)) = as_bytes (normalize_fingerprint (trim (req_fingerprint r))) /\
    server_url p = lit "https://" ++ host t) /\
  exists id hash agent, hash_plaintext (access_token p) = Ok hash /\
    (id, token_prefix p, hash, Pat, agent, TokenScope.default_user, 120%Z, Some (m + ninety_days)%Z) ∈ map identity (tokens s).
Lemma backed_later m r p s s' es es' : listed s s' -> es ⊆ es' -> backed m r p s es -> backed m r p s' es'.
Proof.
  intros Hs He [(f & t & Hi & Ht) (id & hash & agent & Hh & Hr)]. split; [exists f, t; split; [by apply He|done]|].
  exists id, hash, agent. split; [done|]. by apply Hs.
Qed.

Lemma grant_listed now dr r t s : listed s (grant hash_plaintext read_server_id now dr r t s).2.
Proof.
  unfold grant. destruct (negb _); [done|]. destruct (Token.generate _ _ _ _ _) as [[rec plain]|]; [|done].
  pose proof (listed_device now (new_device dr) (device_label r) s) as Hd.
  destruct (DeviceRepo.insert _ _ _ s) as [[d|e] s1]; [|done]. cbn in Hd. destruct read_server_id as [sid|]; [|done].
  cbn [insert TokenRepo_store].
  pose proof (listed_insert (rec <| ApiToken.device_id := Some (Device.id d) |>) s1) as Ht.
  destruct (TokenRepo.insert _ s1) as [[u|e] s2]; cbn in *; by etrans.
Qed.
Lemma grant_backed now dr r t s p s' :
  grant hash_plaintext read_server_id now dr r t s = (Ok p, s') ->
  as_bytes (normalize_fingerprint (tls_fingerprint t)) = as_bytes (normalize_fingerprint (trim (req_fingerprint r))) /\
  server_url p = lit "https://" ++ host t /\
  exists id hash agent, hash_plaintext (access_token p) = Ok hash /\
    (id, token_prefix p, hash, Pat, agent, TokenScope.default_user, 120%Z, Some (now + ninety_days)%Z) ∈ map identity (tokens s').
Proof.
  unfold grant. destruct (constant_eq_str _ _) eqn:E; cbn [negb]; [|done]. apply constant_eq_spec in E.
  destruct (Token.generate _ _ _ _ _) as [[rec plain]|] eqn:G; [|done]. apply rbind_ok in G as (hash & Hh & [= <- <-]).
  destruct (DeviceRepo.insert _ _ _ s) as [[d|e] s1]; [|done]. destruct read_server_id as [sid|]; [|done].
  cbn [insert TokenRepo_store]. unfold TokenRepo.insert. case_bool_decide; [done|]. destruct (negb _); [done|].
  intros [= <- <-]. split; [done|]. split; [done|]. exists (token_id dr), hash, (agent_id dr). split; [done|].
  cbn. rewrite map_app. apply elem_of_app. right. left.
Qed.

(** *** The invariant *)
Record inv (c : gmap Str Entry * Credentials * list Event) : Prop := mkInv {
  i_tickets k e : c.1.1 !! k = Some e -> token (ticket e) = k /\ (used e = false -> k ∉ traded c.2) /\
    exists f, Issued f (ticket e) ∈ c.2 /\ expires_at (ticket e) = (f + PAIRING_TTL)%Z;
  i_once : NoDup (traded c.2);
  i_issued k : k ∈ traded c.2 -> exists f t, Issued f t ∈ c.2 /\ token t = k;
  i_backed m r p : Paired m r p ∈ c.2 -> backed m r p c.1.2 c.2 }.

Lemma traded_app es es' : traded (es ++ es') = traded es ++ traded es'.
Proof. apply omap_app. Qed.
(** Tickets may go, be marked, and tokens may change. *)
Lemma inv_less st st' s s' es :
  (forall k e', st' !! k = Some e' -> exists e, st !! k = Some e /\ ticket e' = ticket e /\ (used e' = false -> used e = false)) ->
  listed s s' -> inv (st, s, es) -> inv (st', s', es).
Proof.
  intros Hst Hs [It Io Ii Ib]. split; cbn in *; [|done|done|].
  - intros k e' (e & He & -> & Hu)%Hst. destruct (It k e He) as (? & ? & ?). split; [done|]. split; [auto|done].
  - intros m r p Hp. eapply backed_later; [exact Hs|done|by apply Ib].
Qed.
Lemma sweep_less now st k e' : sweep now st !! k = Some e' ->
  exists e, st !! k = Some e /\ ticket e' = ticket e /\ (used e' = false -> used e = false).
Proof. intros [He _]%sweep_lookup. by exists e'. Qed.

Lemma inv_issue now fresh host fpr t st st' s es :
  (forall m u, Issued m u ∈ es -> token u <> fresh) -> issue now fresh host fpr st = (t, st') ->
  inv (st, s, es) -> inv (st', s, es ++ [Issued now t]).
Proof.
  intros Hf [= <- <-] Hi. pose proof (inv_less _ _ s s es (sweep_less now st) (reflexivity s) Hi) as [It Io Ii Ib].
  cbn in *. split; cbn.
  - intros k e. destruct (decide (k = fresh)) as [->|Hk].
    + rewrite lookup_insert_eq. intros [= <-]. cbn. split; [done|]. split.
      * intros _. rewrite traded_app. cbn. rewrite app_nil_r. intros (m & u & Hm & Hu)%Ii. by apply (Hf _ _ Hm).
      * exists now. split; [apply elem_of_app; right; left|done].
    + rewrite lookup_insert_ne by done. intros (Et & Hu & f & Hin & He)%It. split; [done|]. split.
      * rewrite traded_app. cbn. by rewrite app_nil_r.
      * exists f. rewrite elem_of_app. auto.
  - rewrite traded_app. cbn. by rewrite app_nil_r.
  - intros k. rewrite traded_app. cbn. rewrite app_nil_r. intros (f & u & Hin & Hu)%Ii. exists f, u. rewrite elem_of_app. auto.
  - intros m r p [Hp|Hp%list_elem_of_singleton]%elem_of_app; [|done]. eapply backed_later; [..|by apply Ib]; [done|set_solver].
Qed.
Lemma inv_pair now dr r out st st' s s' es :
  pair_device hmac_tag hash_plaintext read_server_id now dr r st s = (out, (st', s')) ->
  inv (st, s, es) -> inv (st', s', match out with Ok p => es ++ [Paired now r p] | Err _ => es end).
Proof.
  unfold pair_device. destruct (str_is_empty (trim (req_token r))); [by intros [= <- <- <-]|].
  destruct (str_is_empty _); [by intros [= <- <- <-]|].
  destruct (consume _ _ _ _ st) as [[t|] st1] eqn:C.
  2: { intros [= <- <- <-]. apply consume_none in C as ->. apply inv_less; [apply sweep_less|done]. }
  apply consume_some in C as (e & He & Hu & <- & Hx & ->).
  pose proof (grant_listed now dr r (ticket e) s) as Hl. pose proof (grant_backed now dr r (ticket e) s) as Hb.
  destruct (grant _ _ _ _ _ _ s) as [o s1]. cbn in Hl. intros [= <- <- <-] Hi.
  pose proof (i_tickets _ Hi _ _ He) as (Et & Hn & f & Hf & Ee). cbn in Hn, Hf. specialize (Hn Hu).
  assert (Hi' : inv (<[trim (req_token r) := mkEntry (ticket e) true]> (sweep now st), s1, es)).
  { revert Hi. apply inv_less; [|done]. intros k e'. destruct (decide (k = trim (req_token r))) as [->|Hk].
    - rewrite lookup_insert_eq. intros [= <-]. by exists e.
    - rewrite lookup_insert_ne by done. apply sweep_less. }
  destruct o as [p|err]; [|done]. destruct (Hb p s1 eq_refl) as (Hfp & Hurl & Htok). destruct Hi' as [It Io Ii Ib]. cbn in *.
  split; cbn; rewrite ?traded_app; cbn.
  - intros k e' Hk. destruct (It k e' Hk) as (Etk & Hnk & g & Hg & Hge). split; [done|]. split; [|exists g; rewrite elem_of_app; auto].
    intros Hu'. rewrite not_elem_of_app. split; [auto|]. intros ->%list_elem_of_singleton.
    rewrite lookup_insert_eq in Hk. by injection Hk as <-.
  - by apply NoDup_snoc.
  - intros k [Hk| ->%list_elem_of_singleton]%elem_of_app.
    + destruct (Ii k Hk) as (g & u & ? & ?). exists g, u. rewrite elem_of_app. auto.
    + exists f, (ticket e). rewrite elem_of_app. auto.
  - intros m r' p' [Hp|Hp%list_elem_of_singleton]%elem_of_app; [eapply backed_later; [..|by apply Ib]; [done|set_solver]|].
    injection Hp as -> -> ->. split; [|done]. exists f, (ticket e). rewrite elem_of_app. split; [by left|]. split; [done|].
    unfold is_expired in Hx. apply Z.leb_gt in Hx. split; [lia|done].
Qed.
Lemma step_inv c c' : step c c' -> inv c -> inv c'.
Proof.
  intros [now fresh host fpr t st st' s es Hf E|now dr r out st st' s s' es E|now st s es|st s s' es E].
  - by eapply inv_issue.
  - by eapply inv_pair.
  - apply inv_less; [apply sweep_less|done].
  - apply inv_less; [by intros k e He; exists e|by apply steps_listed].
Qed.
End Facts.
End PairingFacts.

Section Properties.
Import ConstantTime PairingStore PairDevice PairingSpec PairingFacts.
Context (hmac_tag : Str -> Str -> list N) (hash_plaintext : Str -> Result CoreError Str).
Context (read_server_id : Result CoreError Str).

(** C21: a pairing ticket buys one device.  Whatever issues, pairing requests,
    sweeps and changes of the tokens follow, no ticket is traded twice, and every
    device that was paired presented a ticket that had been issued less than five
    minutes before together with the certificate's fingerprint, and owns a stored
    token of the default scope that expires in ninety days. *)
Theorem pairing_ticket_single_use s0 st s es :
  (forall nonce a b, hmac_tag nonce a = hmac_tag nonce b -> a = b) ->
  rtc (step hmac_tag hash_plaintext read_server_id) (∅, s0, []) (st, s, es) ->
  NoDup (traded es) /\ forall m r p, Paired m r p ∈ es -> backed hash_plaintext m r p s es.
Proof.
  intros Htag Hs. assert (Hi : inv hash_plaintext (st, s, es)); [|by split; apply Hi].
  revert Hs. generalize (st, s, es). intros c Hs. assert (H0 : inv hash_plaintext (∅, s0, [])).
  { split; cbn; [|constructor|by intros k ?%elem_of_nil|by intros m r p ?%elem_of_nil].
    intros k e. by rewrite lookup_empty. }
  revert H0. induction Hs as [|c1 c2 c3 H1 _ IH]; [done|]. intros Hi. apply IH. by eapply step_inv.
Qed.
End Properties.

(** *** A ticket presented twice *)
Module PairingRun.
Import CredentialRun PairingStore PairDevice PairingSpec.
(** HMAC replaced by its text. *)
Definition same_tag (nonce text : Str) : list N := text.
Definition server_id : Result CoreError Str := Ok (lit "srv").
Definition request : PairRequest := mkRequest (lit " tick ") (lit "SHA256:AB") (Some (lit "laptop")).
Definition draw (i : N) : Draw := mkDraw [] (mkId i) (mkId (i + 10)) (mkId (i + 20)) (secret_of 97).
Definition issued : PairingTicket * gmap Str Entry := issue 0 (lit "tick") (lit "host:1") (lit "sha256:ab") ∅.
Definition first := pair_device same_tag keep_text server_id 1000 (draw 1) request issued.2 (mkCredentials [] []).
Definition second := pair_device same_tag keep_text server_id 2000 (draw 2) request first.2.1 first.2.2.
Definition response : PairResponse :=
  mkResponse (Token.render_plaintext Pat (secret_of 97)) (lit "ta_pat_aaaaa") (mkId 21) (lit "https://host:1") (lit "srv").
Lemma tripled {A B C} (x : A * (B * C)) : x = (x.1, (x.2.1, x.2.2)).
Proof. by destruct x as [? []]. Qed.
Definition after (r : Result CoreError PairResponse) (m : Z) (es : list Event) : list Event :=
  match r with Ok p => es ++ [Paired m request p] | Err _ => es end.
Lemma first_step es :
  step same_tag keep_text server_id (issued.2, mkCredentials [] [], es) (first.2.1, first.2.2, after first.1 1000 es).
Proof. apply step_pair with (dr := draw 1). exact (tripled first). Qed.
Lemma second_step es :
  step same_tag keep_text server_id (first.2.1, first.2.2, es) (second.2.1, second.2.2, after second.1 2000 es).
Proof. apply step_pair with (dr := draw 2). exact (tripled second). Qed.
End PairingRun.
Import PairingRun.

Lemma pairing_ticket_single_use_witness :
  first.1 = Ok response /\ is_ok second.1 = false /\
  PairingFacts.backed CredentialRun.keep_text 1000 request response second.2.2
    ([PairingSpec.Issued 0 issued.1] ++ [PairingSpec.Paired 1000 request response]).
Proof.
  assert (H1 : first.1 = Ok response) by by vm_compute.
  assert (H2 : is_ok second.1 = false) by by vm_compute.
  split; [exact H1|]. split; [exact H2|].
  apply (pairing_ticket_single_use same_tag CredentialRun.keep_text server_id (mkCredentials [] []) second.2.1 second.2.2).
  - by intros nonce a b.
  - eapply rtc_l; [apply (PairingSpec.step_issue _ _ _ 0 (lit "tick") (lit "host:1") (lit "sha256:ab") issued.1 ∅ issued.2); [|done]|].
    { intros m u Hin. destruct (not_elem_of_nil _ Hin). }
    eapply rtc_l; [apply first_step|]. eapply rtc_l; [apply second_step|].
    rewrite H1. destruct second.1; [done|]. apply rtc_refl.
  - right. left.
Defined.
