(* ===== verification/Idempotency.v ===== *)
(** * storage/idempotency_repo.rs and the claim of a client_command_id

    A client that repeats a request sends the same key; table
    [processed_command_ids] holds the answer of the first.  [IdempotencyRepo] is
    the table with the Bloom filter in front of it; [step] interleaves the
    requests of the HTTP endpoints ([claim_client_command_id],
    [settle_client_command_id] in apps/server/src/routes/mod.rs) and of the
    WebSocket ([reserve_or_ack_cached], [handle_dispatch] in ws.rs) at every point
    where they touch the table, the filter or the projections, with the hourly
    clean-up and restarts of the server. *)

From S2P Require Import Prelude Shared TaskModel Events.

(** ** The filter of the [fastbloom] crate: it may err, but never forgets. *)
Class Bloom (F : Type) : Type := {
  bloom_new : F;
  bloom_insert : N -> F -> F;
  bloom_contains : F -> N -> bool }.
Class BloomLaws (F : Type) `{Bloom F} : Prop := {
  contains_insert f x : bloom_contains (bloom_insert x f) x = true;
  contains_kept f x y : bloom_contains f y = true -> bloom_contains (bloom_insert x f) y = true }.

#[export] Instance gset_bloom : Bloom (gset N) := {|
  bloom_new := ∅; bloom_insert x f := {[x]} ∪ f; bloom_contains f x := bool_decide (x ∈ f) |}.
#[export] Instance gset_bloom_laws : BloomLaws (gset N).
Proof. split; intros; rewrite ?bool_decide_eq_true in *; simpl in *; rewrite ?bool_decide_eq_true in *; set_solver. Qed.

Module IdempotencyRepo.
Record Row : Type := mkRow {
  server_event_id : EventId;
  server_event_seq : Z;
  created_at : Z }.
Abbreviation Table := (gmap N Row).

Definition reserved_event_id : EventId := mkId 0.

Section Filter.
Context {F : Type} `{Bloom F}.

Definition warm (t : Table) (f : F) : F := foldr (fun p => bloom_insert p.1) f (map_to_list t).

(** The two halves of [lookup]: the filter, and the row behind it. *)
Definition may_contain (f : F) (k : N) : bool := bloom_contains f k.
Definition lookup_row (t : Table) (k : N) : option (EventId * Z) :=
  r ← t !! k;
  if (server_event_seq r <=? 0)%Z || bool_decide (server_event_id r = reserved_event_id) then None
  else Some (server_event_id r, server_event_seq r).
Definition lookup (t : Table) (f : F) (k : N) : option (EventId * Z) :=
  if may_contain f k then lookup_row t k else None.

(** [INSERT OR IGNORE], then the filter. *)
Definition insert_row (k : N) (r : Row) (t : Table) : bool * Table :=
  match t !! k with Some _ => (false, t) | None => (true, <[k := r]> t) end.
Definition insert (now : Z) (k : N) (id : EventId) (seq : Z) (t : Table) (f : F) : Table * F :=
  ((insert_row k (mkRow id seq now) t).2, bloom_insert k f).
Definition reserve (now : Z) (k : N) (t : Table) (f : F) : bool * (Table * F) :=
  let '(won, t) := insert_row k (mkRow reserved_event_id 0 now) t in (won, (t, bloom_insert k f)).
End Filter.

Definition complete (k : N) (id : EventId) (seq : Z) (t : Table) : Table :=
  match t !! k with
  | Some r => if (server_event_seq r =? 0)%Z then <[k := mkRow id seq (created_at r)]> t else t
  | None => t
  end.
Definition release (k : N) (t : Table) : Table :=
  match t !! k with
  | Some r => if (server_event_seq r =? 0)%Z then delete k t else t
  | None => t
  end.
Definition cleanup_older_than (now age : Z) (t : Table) : nat * Table :=
  let kept := filter (fun p => ~ (created_at p.2 < now - age)%Z) t in
  ((size t - size kept)%nat, kept).
End IdempotencyRepo.

(** ** Requests in flight *)
Module CommandIds.
Import IdempotencyRepo.

Definition CLIENT_COMMAND_ID_WAIT_POLLS : nat := 100.
Definition WS_POLLS : nat := 200.
(** Seven days, in milliseconds. *)
Definition RETENTION : Z := 7 * 86400000.

Inductive Via : Set := Http | Ws.

Abbreviation Outcome := (Result CoreError (list EventEnvelope)).
Record Request (C : Type) : Type := mkRequest {
  key : option N;
  via : Via;
  body : C }.
Arguments mkRequest {C} key via body.
Arguments key {C} r.
Arguments via {C} r.
Arguments body {C} r.

(** Where a request stands.  [may_reserve]: whether its poll loop reserves. *)
Inductive Phase : Type :=
| Looking (attempt : nat) (may_reserve : bool)
| Reading (attempt : nat) (may_reserve : bool)
| Missed (attempt : nat) (may_reserve : bool)
| Marking (won : bool) (attempt : nat)
| Running
| Settling (r : Outcome)
| Done.

Section Steps.
Context {F : Type} `{Bloom F}.
Context {C S : Type}.
(** The dispatch of a request: one step, since a mutex of the handler guards it. *)
Context (run : Request C -> S -> Outcome -> S -> Prop).

Inductive Event : Type :=
| Arrived (i : nat) (r : Request C)
| Executed (i : nat) (r : Request C) (result : Outcome)
| Recorded (i : nat) (k : N) (id : EventId) (seq : Z)
| Replayed (i : nat) (k : N) (id : EventId) (seq : Z)
| Answered (i : nat) (r : Request C) (result : Outcome)
| InFlight (i : nat) (k : N).

(** The next poll of a request that lost the reservation, if there is one. *)
Definition next_poll (v : Via) (attempt : nat) (may_reserve : bool) : option Phase :=
  match v, may_reserve with
  | Http, _ => if (attempt <? CLIENT_COMMAND_ID_WAIT_POLLS)%nat then Some (Looking (Datatypes.S attempt) true) else None
  | Ws, true => Some (Looking 0 false)
  | Ws, false => if (Datatypes.S attempt <? WS_POLLS)%nat then Some (Looking (Datatypes.S attempt) false) else None
  end.
Definition poll_or_give_up (i : nat) (k : N) (p : option Phase) : Phase * list Event :=
  match p with Some p => (p, []) | None => (Done, [InFlight i k]) end.

(** [settle_client_command_id]; [handle_dispatch] never releases. *)
Definition last_event (r : Outcome) : option (EventId * Z) :=
  match r with
  | Ok es => (fun e => (Envelope.id e, Envelope.seq e)) <$> last es
  | Err _ => None
  end.
Definition settle (v : Via) (k : N) (r : Outcome) (t : Table) : Table :=
  match last_event r, v with
  | Some (id, seq), _ => complete k id seq t
  | None, Http => release k t
  | None, Ws => t
  end.
Definition recorded (i : nat) (k : N) (r : Outcome) : list Event :=
  match last_event r with Some (id, seq) => [Recorded i k id seq] | None => [] end.

(** One move of request [i]. *)
Inductive move (i : nat) (r : Request C) (t : Table) (f : F) (wall : Z) (s : S)
  : Phase -> Phase -> Table -> F -> S -> list Event -> Prop :=
| move_untracked :
    key r = None -> move i r t f wall s (Looking 0 true) Running t f s []
| move_filter k n b :
    key r = Some k ->
    move i r t f wall s (Looking n b) (if may_contain f k then Reading n b else Missed n b) t f s []
| move_replay k n b id seq :
    key r = Some k -> lookup_row t k = Some (id, seq) ->
    move i r t f wall s (Reading n b) Done t f s [Replayed i k id seq]
| move_unanswered k n b :
    key r = Some k -> lookup_row t k = None -> move i r t f wall s (Reading n b) (Missed n b) t f s []
| move_reserve k n won t' :
    key r = Some k -> insert_row k (mkRow reserved_event_id 0 wall) t = (won, t') ->
    move i r t f wall s (Missed n true) (Marking won n) t' f s []
| move_wait k n p es :
    key r = Some k -> poll_or_give_up i k (next_poll (via r) n false) = (p, es) ->
    move i r t f wall s (Missed n false) p t f s es
| move_won k n :
    key r = Some k -> move i r t f wall s (Marking true n) Running t (bloom_insert k f) s []
| move_lost k n p es :
    key r = Some k -> poll_or_give_up i k (next_poll (via r) n true) = (p, es) ->
    move i r t f wall s (Marking false n) p t (bloom_insert k f) s es
| move_run result s' :
    run r s result s' -> move i r t f wall s Running (Settling result) t f s' [Executed i r result]
| move_settle k result :
    key r = Some k ->
    move i r t f wall s (Settling result) Done (settle (via r) k result t) f s
         (recorded i k result ++ [Answered i r result])
(** The statement failed, or there is no key. *)
| move_unsettled result :
    move i r t f wall s (Settling result) Done t f s [Answered i r result].

Record Server : Type := mkServer {
  table : Table;
  bloom : F;
  flights : gmap nat (Request C * Phase);
  arrived : nat;
  core : S;
  wall : Z }.

Inductive step : Server -> list Event -> Server -> Prop :=
| step_arrive t f fl n s w r :
    step (mkServer t f fl n s w) [Arrived n r]
         (mkServer t f (<[n := (r, Looking 0 true)]> fl) (Datatypes.S n) s w)
| step_move t f fl n s w i r p p' t' f' s' es :
    fl !! i = Some (r, p) -> move i r t f w s p p' t' f' s' es ->
    step (mkServer t f fl n s w) es (mkServer t' f' (<[i := (r, p')]> fl) n s' w)
(** Whatever else the server does to its projections, and time. *)
| step_other t f fl n s w s' w' :
    (w <= w')%Z -> step (mkServer t f fl n s w) [] (mkServer t f fl n s' w')
| step_cleanup t f fl n s w :
    step (mkServer t f fl n s w) [] (mkServer (cleanup_older_than w RETENTION t).2 f fl n s w)
(** A restart loses the requests; the filter is seeded from the table. *)
| step_restart t f fl n s w :
    step (mkServer t f fl n s w) [] (mkServer t (warm t bloom_new) ∅ n s w).

Inductive steps : Server -> list Event -> Server -> Prop :=
| steps_nil s : steps s [] s
| steps_snoc s es s1 es' s' : steps s es s1 -> step s1 es' s' -> steps s (es ++ es') s'.
End Steps.
Arguments Server F C S : clear implicits.
Arguments Event C : clear implicits.
End CommandIds.

Module CommandIdFacts.
Import IdempotencyRepo CommandIds.

Section Facts.
Context {F : Type} `{BloomLaws F}.
Context {C S : Type} (run : Request C -> S -> Outcome -> S -> Prop) (k : N).
#[local] Notation Server := (CommandIds.Server F C S).
#[local] Notation Event := (CommandIds.Event C).

(** Request [j] of the key stands at phase [q]. *)
Definition stands (fl : gmap nat (Request C * Phase)) (j : nat) (q : Phase) : Prop :=
  exists r, fl !! j = Some (r, q) /\ key r = Some k.
Definition holding (q : Phase) : bool :=
  match q with Marking true _ | Running | Settling _ => true | _ => false end.

Lemma stands_insert fl i r q j q' :
  stands (<[i := (r, q)]> fl) j q' <-> j = i /\ q' = q /\ key r = Some k \/ j <> i /\ stands fl j q'.
Proof.
  unfold stands. split.
  - intros (r' & Hl & Hk). apply lookup_insert_Some in Hl as [[<- Heq]|[? Hl]].
    + injection Heq as <- <-. auto.
    + right. split; [congruence|eauto].
  - intros [(-> & -> & Hk)|(Hj & r' & Hl & Hk)].
    + exists r. by rewrite lookup_insert_eq.
    + exists r'. by rewrite lookup_insert_ne by congruence.
Qed.
Lemma stands_fun fl j q q' : stands fl j q -> stands fl j q' -> q = q'.
Proof. intros (r & Hl & _) (r' & Hl' & _). congruence. Qed.

Lemma warm_contains (t : Table) (f : F) x : is_Some (t !! x) -> bloom_contains (warm t f) x = true.
Proof.
  intros [row Hl]. unfold warm. apply elem_of_map_to_list in Hl.
  induction (map_to_list t) as [|[y row'] l IH]; [by apply elem_of_nil in Hl|].
  apply elem_of_cons in Hl as [Heq|Hl]; simpl.
  - injection Heq as -> ->. apply contains_insert.
  - apply contains_kept, IH, Hl.
Qed.

(** What each operation of the table does at the key. *)
Lemma insert_row_at k' row (t t' : Table) won :
  insert_row k' row t = (won, t') ->
  won = bool_decide (t !! k' = None) /\
  t' !! k = if bool_decide (k' = k) then Some (default row (t !! k)) else t !! k.
Proof.
  unfold insert_row. destruct (t !! k') as [row'|] eqn:Hl; intros [= <- <-]; split; try done.
  - case_bool_decide; [subst; by rewrite Hl|done].
  - case_bool_decide; [subst; by rewrite lookup_insert_eq, Hl|by rewrite lookup_insert_ne].
Qed.
Lemma cleanup_at now (t : Table) :
  (forall row, t !! k = Some row -> now - RETENTION <= created_at row)%Z ->
  (cleanup_older_than now RETENTION t).2 !! k = t !! k.
Proof.
  intros Hage. cbn. destruct (t !! k) as [row|] eqn:Hl.
  - apply map_lookup_filter_Some. split; [done|]. specialize (Hage row eq_refl). simpl. lia.
  - apply map_lookup_filter_None. auto.
Qed.
Lemma settle_at v k' r (t : Table) :
  settle v k' r t !! k =
    if bool_decide (k' = k) then
      match t !! k with
      | Some row => if (server_event_seq row =? 0)%Z then
            match last_event r, v with
            | Some (id, seq), _ => Some (mkRow id seq (created_at row))
            | None, Http => None
            | None, Ws => Some row
            end else Some row
      | None => None
      end
    else t !! k.
Proof.
  unfold settle, complete, release.
  case_bool_decide as Hk; [subst k'|]; destruct (last_event r) as [[id seq]|]; [|destruct v| |destruct v]; try done;
    try (destruct (t !! k) as [row|] eqn:Hl; [|done]; destruct (server_event_seq row =? 0)%Z eqn:Hz; [|done];
         by simplify_map_eq);
    try (by destruct (t !! k) as [row|]; [destruct (server_event_seq row =? 0)%Z|]);
    destruct (t !! k') as [row|] eqn:Hl; [|done| |done]; destruct (server_event_seq row =? 0)%Z; [|done| |done];
    by simplify_map_eq.
Qed.

(** A dispatch that left a record to make. *)
Definition succeeded (tr : list Event) (res : Outcome) : Prop :=
  last_event res <> None /\ exists i r, Executed i r res ∈ tr /\ key r = Some k.

Lemma succeeded_app tr es res : succeeded tr res -> succeeded (tr ++ es) res.
Proof. intros [? (i & r & ? & ?)]. split; [done|]. exists i, r. rewrite elem_of_app. auto. Qed.

(** What holds of the key while its rows are younger than the retention. *)
Record inv (w0 : Z) (tr : list Event) (sv : Server) : Prop := mkInv {
  inv_numbered : forall i x, flights sv !! i = Some x -> (i < arrived sv)%nat;
  inv_one : forall i j p q, stands (flights sv) i p -> stands (flights sv) j q ->
    holding p = true -> holding q = true -> i = j;
  inv_reserved : forall i p, stands (flights sv) i p -> holding p = true ->
    exists row, table sv !! k = Some row /\ server_event_seq row = 0%Z;
  inv_young : (w0 <= wall sv)%Z /\ forall row, table sv !! k = Some row -> (w0 <= created_at row)%Z;
  inv_seen : is_Some (table sv !! k) -> bloom_contains (bloom sv) k = true \/
    exists i n, stands (flights sv) i (Marking true n);
  inv_settling : forall i r res, flights sv !! i = Some (r, Settling res) -> key r = Some k -> Executed i r res ∈ tr;
  inv_won : forall res, succeeded tr res -> is_Some (table sv !! k) /\
    forall i p, stands (flights sv) i p -> holding p = true -> exists res', p = Settling res' /\ last_event res' <> None;
  inv_source : forall row, table sv !! k = Some row -> server_event_seq row <> 0%Z ->
    exists res, succeeded tr res /\ last_event res = Some (server_event_id row, server_event_seq row);
  inv_recorded : forall i id seq, Recorded i k id seq ∈ tr -> seq <> 0%Z ->
    exists row, table sv !! k = Some row /\ server_event_id row = id /\ server_event_seq row = seq }.

Definition untouched (sv : Server) : Prop :=
  table sv !! k = None /\ (forall i r p, flights sv !! i = Some (r, p) -> (i < arrived sv)%nat /\ key r <> Some k).

(** The events the record of the key is made of. *)
Definition about (e : Event) : Prop :=
  match e with
  | Executed _ r _ => key r = Some k
  | Recorded _ k' _ _ | Replayed _ k' _ _ => k' = k
  | _ => False
  end.
Definition quiet (es : list Event) : Prop := Forall (fun e => ~ about e) es.
Lemma quiet_in es e : quiet es -> e ∈ es -> ~ about e.
Proof. unfold quiet. rewrite Forall_forall. auto. Qed.

Lemma quiet_poll i k' o : quiet (poll_or_give_up (C := C) i k' o).2.
Proof. destruct o; repeat constructor; auto. Qed.
Lemma poll_phase i k' v n b : exists q, (poll_or_give_up (C := C) i k' (next_poll v n b)).1 = q /\ holding q = false.
Proof.
  eexists. split; [done|]. unfold next_poll, poll_or_give_up.
  destruct v, b; simpl; repeat (case_match; simplify_eq); done.
Qed.

(** A request of another key leaves the row, the filter and the record alone. *)
Lemma move_other i r t f w s p p' t' f' s' es :
  move run i r t f w s p p' t' f' s' es -> key r <> Some k ->
  t' !! k = t !! k /\ (bloom_contains f k = true -> bloom_contains f' k = true) /\ quiet es.
Proof.
  intros Hm Hk. destruct Hm as [| | | |k' n won t' Hr Hi|k' n p es Hr Hp| |k' n p es Hr Hp| |k' result Hr|];
    split_and?; try done; try (by intros; apply contains_kept);
    try (by repeat constructor; simpl; congruence).
  - apply insert_row_at in Hi as [_ ->]. by rewrite bool_decide_eq_false_2 by congruence.
  - rewrite (surjective_pairing (poll_or_give_up _ _ _)) in Hp. injection Hp as <- <-. apply quiet_poll.
  - rewrite (surjective_pairing (poll_or_give_up _ _ _)) in Hp. injection Hp as <- <-. apply quiet_poll.
  - rewrite settle_at. by rewrite bool_decide_eq_false_2 by congruence.
  - unfold recorded. destruct (last_event result) as [[id seq]|]; repeat constructor; simpl; auto; congruence.
Qed.

(** What a request of the key does, in terms of the row and of whether the filter
    knows it. *)
Inductive moved (v : Via) (o o' : option Row) (seen seen' : bool) (w : Z) (i : nat) (r : Request C)
  : Phase -> Phase -> list Event -> Prop :=
| moved_on p p' es :
    o' = o -> (seen = true -> seen' = true) -> holding p = false -> holding p' = false -> quiet es ->
    moved v o o' seen seen' w i r p p' es
| moved_lost p p' n es :
    o' = o -> (seen = true -> seen' = true) -> p = Marking false n -> holding p' = false -> quiet es ->
    moved v o o' seen seen' w i r p p' es
| moved_replay n b row :
    o' = o -> seen' = seen -> o = Some row -> (0 < server_event_seq row)%Z ->
    moved v o o' seen seen' w i r (Reading n b) Done
      [Replayed i k (server_event_id row) (server_event_seq row)]
| moved_reserve n won :
    seen' = seen -> won = bool_decide (o = None) ->
    o' = Some (default (mkRow reserved_event_id 0 w) o) ->
    moved v o o' seen seen' w i r (Missed n true) (Marking won n) []
| moved_won n :
    o' = o -> seen' = true -> moved v o o' seen seen' w i r (Marking true n) Running []
| moved_run res :
    o' = o -> seen' = seen -> moved v o o' seen seen' w i r Running (Settling res) [Executed i r res]
| moved_record res row id seq :
    seen' = seen -> o = Some row -> server_event_seq row = 0%Z -> last_event res = Some (id, seq) ->
    o' = Some (mkRow id seq (created_at row)) ->
    moved v o o' seen seen' w i r (Settling res) Done [Recorded i k id seq; Answered i r res]
| moved_settle res :
    seen' = seen -> (o' = o \/ last_event res = None /\ o' = None) ->
    moved v o o' seen seen' w i r (Settling res) Done [Answered i r res].

Lemma move_key i r t f w s p p' t' f' s' es :
  move run i r t f w s p p' t' f' s' es -> key r = Some k ->
  (forall res, p = Settling res -> exists row, t !! k = Some row /\ server_event_seq row = 0%Z) ->
  moved (via r) (t !! k) (t' !! k) (bloom_contains f k) (bloom_contains f' k) w i r p p' es.
Proof.
  intros Hm Hk Hs.
  destruct Hm as [| |k' n b id seq Hr Hl|k' n b Hr _|k' n won t' Hr Hi|k' n p es Hr Hp|k' n Hr|k' n p es Hr Hp| |k' result Hr|];
    try congruence; try (assert (k' = k) as -> by congruence).
  - apply moved_on; try done; [by case_match|constructor].
  - unfold lookup_row in Hl. apply bind_Some in Hl as (row & Hl & Hif).
    destruct (_ || _) eqn:Hc in Hif; [done|]. injection Hif as <- <-. apply orb_false_iff in Hc as [Hc _].
    rewrite Hl. apply moved_replay with (b := b); try done. lia.
  - apply moved_on; try done. constructor.
  - apply insert_row_at in Hi as [-> Hi]. rewrite bool_decide_eq_true_2 in Hi by done. by apply moved_reserve.
  - destruct (poll_phase i k (via r) n false) as (q & Hq & Hh). pose proof (quiet_poll i k (next_poll (via r) n false)) as Hqu.
    rewrite Hp in Hq, Hqu. simpl in *. subst q. by apply moved_on.
  - apply moved_won; [done|]. apply contains_insert.
  - destruct (poll_phase i k (via r) n true) as (q & Hq & Hh). pose proof (quiet_poll i k (next_poll (via r) n true)) as Hqu.
    rewrite Hp in Hq, Hqu. simpl in *. subst q. eapply moved_lost; try done. intros _. apply contains_insert.
  - by apply moved_run.
  - destruct (Hs result eq_refl) as (row & Hl & Hz).
    rewrite settle_at, bool_decide_eq_true_2, Hl by done. rewrite Hz. simpl. unfold recorded.
    destruct (last_event result) as [[id seq]|] eqn:He.
    + by apply moved_record with (row := row).
    + apply moved_settle; [done|]. destruct (via r); auto.
  - apply moved_settle; auto.
Qed.

(** No dispatch follows one that succeeded, and a replay has its dispatch. *)
Definition good (tr : list Event) (e : Event) : Prop :=
  match e with
  | Executed _ r _ => key r = Some k -> forall res, ~ succeeded tr res
  | Replayed _ k' id seq => k' = k -> exists res, succeeded tr res /\ last_event res = Some (id, seq)
  | _ => True
  end.
Inductive ordered : list Event -> Prop :=
| ordered_nil : ordered []
| ordered_snoc tr e : ordered tr -> good tr e -> ordered (tr ++ [e]).

Lemma ordered_at tr1 e tr2 : ordered (tr1 ++ e :: tr2) -> good tr1 e.
Proof.
  induction tr2 as [|x tr2 IH] using rev_ind; intros Ho; inversion Ho as [Hn|tr x' Ho' Hg Heq].
  - by destruct tr1.
  - apply app_inj_tail in Heq as [-> ->]. done.
  - by destruct tr1.
  - replace (tr1 ++ e :: tr2 ++ [x]) with ((tr1 ++ e :: tr2) ++ [x]) in Heq by (by rewrite <- app_assoc).
    apply app_inj_tail in Heq as [-> ->]. auto.
Qed.
Lemma ordered_quiet tr es : ordered tr -> quiet es -> ordered (tr ++ es).
Proof.
  intros Ho Hq. induction es as [|e es IH] using rev_ind; [by rewrite app_nil_r|].
  apply Forall_app in Hq as [Hq He]. rewrite app_assoc. apply ordered_snoc; [auto|].
  rewrite Forall_singleton in He. destruct e; simpl in *; auto; intros; exfalso; by apply He.
Qed.
Lemma succeeded_quiet tr es res : quiet es -> succeeded (tr ++ es) res -> succeeded tr res.
Proof.
  intros Hq [He (i & r & Hin & Hk)]. split; [done|]. exists i, r. split; [|done].
  apply elem_of_app in Hin as [?|Hin]; [done|]. by destruct (quiet_in _ _ Hq Hin).
Qed.
Lemma recorded_quiet tr es i id seq : quiet es -> Recorded i k id seq ∈ tr ++ es -> Recorded i k id seq ∈ tr.
Proof.
  intros Hq Hin. apply elem_of_app in Hin as [?|Hin]; [done|]. by destruct (quiet_in _ _ Hq Hin).
Qed.

(** The trace gains no dispatch and no record. *)
Definition steady (tr es : list Event) : Prop :=
  (forall res, succeeded (tr ++ es) res -> succeeded tr res) /\
  (forall i id seq, Recorded i k id seq ∈ tr ++ es -> Recorded i k id seq ∈ tr).
Lemma quiet_steady tr es : quiet es -> steady tr es.
Proof. intros Hq. split; [intros res; by apply succeeded_quiet|]. intros j id seq. by apply recorded_quiet. Qed.

(** Servers that differ in nothing the key sees. *)
Lemma inv_same w0 tr es sv sv' :
  inv w0 tr sv -> steady tr es ->
  (forall i x, flights sv' !! i = Some x -> (i < arrived sv')%nat) ->
  (forall i p, stands (flights sv') i p -> holding p = true ->
     exists q, stands (flights sv) i q /\ holding q = true /\ forall res, q = Settling res -> p = q) ->
  (forall i n, stands (flights sv) i (Marking true n) -> bloom_contains (bloom sv) k = false ->
     bloom_contains (bloom sv') k = false -> stands (flights sv') i (Marking true n)) ->
  (forall i r res, flights sv' !! i = Some (r, Settling res) -> key r = Some k -> Executed i r res ∈ tr ++ es) ->
  table sv' !! k = table sv !! k -> (w0 <= wall sv')%Z ->
  (is_Some (table sv !! k) -> bloom_contains (bloom sv) k = true -> bloom_contains (bloom sv') k = true) ->
  inv w0 (tr ++ es) sv'.
Proof.
  intros Hi [Hsu Hre] Hnum Hst Hmark Hset Ht Hw Hb. split; rewrite ?Ht; try done.
  - intros i j p q Hp Hq H1 H2. destruct (Hst _ _ Hp H1) as (p0 & ? & ? & _), (Hst _ _ Hq H2) as (q0 & ? & ? & _).
    by eapply (inv_one _ _ _ Hi).
  - intros i p Hp H1. destruct (Hst _ _ Hp H1) as (p0 & ? & ? & _). by eapply (inv_reserved _ _ _ Hi).
  - split; [done|]. apply (inv_young _ _ _ Hi).
  - intros Hs. destruct (bloom_contains (bloom sv') k) eqn:Hb'; [by left|right].
    destruct (inv_seen _ _ _ Hi Hs) as [Hc|(i & n & Hn)].
    + specialize (Hb Hs Hc). congruence.
    + exists i, n. apply Hmark; [done| |done]. apply not_true_is_false. intros Hc. specialize (Hb Hs Hc). congruence.
  - intros res Hs. apply Hsu in Hs. destruct (inv_won _ _ _ Hi _ Hs) as [? Hall].
    split; [done|]. intros i p Hp Hh. destruct (Hst _ _ Hp Hh) as (q & Hq & Hqh & Hpq).
    destruct (Hall _ _ Hq Hqh) as (res' & -> & ?). rewrite (Hpq _ eq_refl). eauto.
  - intros row Hr Hz. destruct (inv_source _ _ _ Hi _ Hr Hz) as (res & Hs & He).
    exists res. split; [by apply succeeded_app|done].
  - intros i id seq Hin%Hre. by eapply (inv_recorded _ _ _ Hi).
Qed.

Section Moved.
Context (w0 : Z) (tr : list Event) (t : Table) (f : F) (fl : gmap nat (Request C * Phase)) (n : nat) (s : S) (w : Z).
Context (i : nat) (r : Request C) (p : Phase).
Context (Hi : inv w0 tr (mkServer t f fl n s w)) (Hfl : fl !! i = Some (r, p)) (Hk : key r = Some k).

Lemma at_p : stands fl i p.
Proof. by exists r. Qed.
Lemma numbered_insert p' j x : <[i := (r, p')]> fl !! j = Some x -> (j < n)%nat.
Proof.
  intros [[<- _]|[_ Hl]]%lookup_insert_Some; [exact (inv_numbered _ _ _ Hi _ _ Hfl)|].
  exact (inv_numbered _ _ _ Hi _ _ Hl).
Qed.
Lemma settling_insert p' es j r' res :
  (forall res, p' = Settling res -> Executed i r res ∈ tr ++ es) ->
  <[i := (r, p')]> fl !! j = Some (r', Settling res) -> key r' = Some k -> Executed j r' res ∈ tr ++ es.
Proof.
  intros Hp [[<- Heq]|[_ Hl]]%lookup_insert_Some Hkr.
  - injection Heq as <- ->. auto.
  - apply elem_of_app. left. exact (inv_settling _ _ _ Hi _ _ _ Hl Hkr).
Qed.
(** The only request that holds the key is [i], when it does. *)
Lemma others_idle p' j q : holding p = true -> stands (<[i := (r, p')]> fl) j q -> holding q = true -> j = i /\ q = p'.
Proof.
  intros Hp [(-> & -> & _)|[Hj Hq]]%stands_insert Hh; [done|].
  by destruct Hj, (inv_one _ _ _ Hi _ _ _ _ at_p Hq Hp Hh).
Qed.

Lemma inv_calm p' t' f' s' es :
  steady tr es -> t' !! k = t !! k -> (bloom_contains f k = true -> bloom_contains f' k = true) ->
  holding p' = false -> (forall m, p <> Marking true m) ->
  inv w0 (tr ++ es) (mkServer t' f' (<[i := (r, p')]> fl) n s' w).
Proof.
  intros Hq Ht Hb Hp' Hm. apply inv_same with (sv := mkServer t f fl n s w); simpl; try done.
  - apply numbered_insert.
  - intros j q [(-> & -> & _)|[_ ?]]%stands_insert Hh; [congruence|eauto].
  - intros j m Hj _ _. apply stands_insert. right. split; [|done]. intros ->.
    by destruct (Hm m), (stands_fun _ _ _ _ at_p Hj).
  - intros j r' res. apply settling_insert. by intros res' ->.
  - apply (inv_young _ _ _ Hi).
Qed.

Lemma inv_reserve n' t' f' s' :
  (bloom_contains f k = true -> bloom_contains f' k = true) -> p = Missed n' true -> t' !! k = Some (default (mkRow reserved_event_id 0 w) (t !! k)) ->
  inv w0 (tr ++ []) (mkServer t' f' (<[i := (r, Marking (bool_decide (t !! k = None)) n')]> fl) n s' w).
Proof.
  intros Hb Hp Ht. case_bool_decide as Hl.
  - rewrite Hl in Ht. simpl in Ht. rewrite app_nil_r.
    assert (Hnone : forall j q, stands fl j q -> holding q = false).
    { intros j q Hq. apply not_true_is_false. intros Hh. destruct (inv_reserved _ _ _ Hi _ _ Hq Hh) as (row & Hr & _). simpl in Hr. congruence. }
    assert (Hfail : forall res, ~ succeeded tr res).
    { intros res Hs. destruct (inv_won _ _ _ Hi _ Hs) as [[row Hr] _]. simpl in Hr. congruence. }
    assert (Hone : forall j q, stands (<[i := (r, Marking true n')]> fl) j q -> holding q = true -> j = i).
    { intros j q [(-> & _)|[_ Hq]]%stands_insert Hh; [done|]. by rewrite (Hnone _ _ Hq) in Hh. }
    split; simpl.
    + apply numbered_insert.
    + intros j j' q q' Hq Hq' H1 H2. by rewrite (Hone _ _ Hq H1), (Hone _ _ Hq' H2).
    + intros j q Hq Hh. rewrite Ht. eauto.
    + rewrite Ht. destruct (inv_young _ _ _ Hi) as [Hw _]. simpl in Hw. split; [done|]. by intros row [= <-].
    + intros _. right. exists i, n'. apply stands_insert. auto.
    + intros j r' res. rewrite <- (app_nil_r tr). by apply settling_insert.
    + intros res Hs. by destruct (Hfail res).
    + rewrite Ht. intros row [= <-]. done.
    + intros j id seq Hin Hz. destruct (inv_recorded _ _ _ Hi _ _ _ Hin Hz) as (row & Hr & _). simpl in Hr. congruence.
  - apply inv_calm; try done; [by apply quiet_steady; constructor| |congruence].
    destruct (t !! k); [done|]. by destruct Hl.
Qed.

Section Holder.
Context (Hp : holding p = true).

Lemma holder_row : exists row, t !! k = Some row /\ server_event_seq row = 0%Z.
Proof. exact (inv_reserved _ _ _ Hi _ _ at_p Hp). Qed.
Lemma holder_seen : (forall m, p <> Marking true m) -> bloom_contains f k = true.
Proof.
  intros Hm. destruct holder_row as (row & Hrow & _).
  destruct (inv_seen _ _ _ Hi) as [?|(j & m & Hj)]; simpl in *; [by rewrite Hrow|done|].
  assert (j = i) as -> by exact (inv_one _ _ _ Hi _ _ _ _ Hj at_p eq_refl Hp).
  by destruct (Hm m), (stands_fun _ _ _ _ Hj at_p).
Qed.
Lemma holder_first : (forall res, p <> Settling res) -> forall res, ~ succeeded tr res.
Proof.
  intros Hs res Hsu. destruct (inv_won _ _ _ Hi _ Hsu) as [_ Hall].
  destruct (Hall _ _ at_p Hp) as (res' & Heq & _). by destruct (Hs res').
Qed.
Lemma holder_alone p' j q : stands (<[i := (r, p')]> fl) j q -> holding q = true -> j = i /\ q = p'.
Proof. by apply others_idle. Qed.
End Holder.

Lemma inv_mark n' t' f' s' :
  p = Marking true n' -> t' !! k = t !! k -> bloom_contains f' k = true ->
  inv w0 (tr ++ []) (mkServer t' f' (<[i := (r, Running)]> fl) n s' w).
Proof.
  intros Hp Ht Hf. assert (Hh : holding p = true) by (by rewrite Hp).
  apply inv_same with (sv := mkServer t f fl n s w); simpl; try done.
  - by apply quiet_steady; constructor.
  - apply numbered_insert.
  - intros j q Hq Hqh. destruct (holder_alone Hh _ _ _ Hq Hqh) as [-> ->].
    exists p. split_and!; [apply at_p|done|congruence].
  - congruence.
  - intros j r' res. by apply settling_insert.
  - apply (inv_young _ _ _ Hi).
Qed.

Lemma inv_run res t' f' s' :
  p = Running -> t' !! k = t !! k -> (bloom_contains f k = true -> bloom_contains f' k = true) ->
  inv w0 (tr ++ [Executed i r res]) (mkServer t' f' (<[i := (r, Settling res)]> fl) n s' w).
Proof.
  intros Hp Ht Hf. assert (Hh : holding p = true) by (by rewrite Hp).
  assert (Hnew : forall res', succeeded (tr ++ [Executed i r res]) res' -> res' = res /\ last_event res <> None).
  { intros res' [He (j & r' & Hin & Hk')]. apply elem_of_app in Hin as [Hin|Hin%list_elem_of_singleton].
    - destruct (holder_first Hh) with res'; [congruence|]. split; [done|]. eauto.
    - by simplify_eq. }
  destruct (holder_row Hh) as (row & Hrow & Hz). split; simpl; rewrite ?Ht.
  - apply numbered_insert.
  - intros j j' q q' Hq Hq' H1 H2. destruct (holder_alone Hh _ _ _ Hq H1), (holder_alone Hh _ _ _ Hq' H2). congruence.
  - intros j q Hq _. eauto.
  - apply (inv_young _ _ _ Hi).
  - intros _. left. apply Hf, (holder_seen Hh). congruence.
  - intros j r' res'. apply settling_insert. intros res'' [= <-]. apply elem_of_app. right. by apply list_elem_of_singleton.
  - intros res' Hs. destruct (Hnew _ Hs) as [-> He]. split; [by rewrite Hrow|].
    intros j q Hq Hqh. destruct (holder_alone Hh _ _ _ Hq Hqh) as [_ ->]. eauto.
  - rewrite Hrow. by intros row' [= <-].
  - intros j id seq Hin. apply elem_of_app in Hin as [Hin|Hin%list_elem_of_singleton]; [|done].
    exact (inv_recorded _ _ _ Hi _ _ _ Hin).
Qed.

Lemma inv_settle res t' f' s' es :
  p = Settling res -> (bloom_contains f k = true -> bloom_contains f' k = true) ->
  (last_event res = None /\ t' !! k = None /\ es = [Answered i r res]) \/
  (exists row id seq, t !! k = Some row /\ last_event res = Some (id, seq) /\
     t' !! k = Some (mkRow id seq (created_at row)) /\ es = [Recorded i k id seq; Answered i r res]) ->
  inv w0 (tr ++ es) (mkServer t' f' (<[i := (r, Done)]> fl) n s' w).
Proof.
  intros Hp Hf Hcase. assert (Hh : holding p = true) by (by rewrite Hp).
  assert (Hex : Executed i r res ∈ tr) by (apply (inv_settling _ _ _ Hi); simpl; congruence || done).
  destruct (holder_row Hh) as (row & Hrow & Hz).
  assert (Hseen : bloom_contains f' k = true) by (apply Hf, (holder_seen Hh); congruence).
  assert (Hnone : forall j q, stands (<[i := (r, Done)]> fl) j q -> holding q <> true).
  { intros j q Hq Hqh. by destruct (holder_alone Hh _ _ _ Hq Hqh) as [_ ->]. }
  assert (Hold : forall j id seq, Recorded j k id seq ∈ tr -> seq = 0%Z).
  { intros j id seq Hin. destruct (decide (seq = 0%Z)) as [|Hne]; [done|].
    destruct (inv_recorded _ _ _ Hi _ _ _ Hin Hne) as (row' & Hr & _ & Hs). simpl in Hr. congruence. }
  assert (Hsu : forall res', succeeded (tr ++ es) res' -> succeeded tr res').
  { intros res' [He (j & r' & Hin & Hk')]. split; [done|]. exists j, r'. split; [|done].
    apply elem_of_app in Hin as [Hin|Hin]; [done|].
    destruct Hcase as [(_ & _ & ->)|(? & ? & ? & _ & _ & _ & ->)]; [by apply list_elem_of_singleton in Hin|].
    apply elem_of_cons in Hin as [?|Hin%list_elem_of_singleton]; done. }
  split; simpl.
  - apply numbered_insert.
  - intros j j' q q' Hq _ H1. by destruct (Hnone _ _ Hq).
  - intros j q Hq H1. by destruct (Hnone _ _ Hq).
  - destruct (inv_young _ _ _ Hi) as [Hw Hy]. split; [done|]. intros row' Hr'.
    destruct Hcase as [(_ & Ht & _)|(row1 & ? & ? & Hr1 & _ & Ht & _)]; rewrite Ht in Hr'; [done|].
    injection Hr' as <-. simpl. by apply Hy.
  - auto.
  - intros j r' res'. by apply settling_insert.
  - intros res' Hs%Hsu. destruct (inv_won _ _ _ Hi _ Hs) as [_ Hall]. destruct (Hall _ _ at_p Hh) as (res1 & Heq & Hne).
    rewrite Hp in Heq. injection Heq as <-. split; [|by intros j q Hq H1; destruct (Hnone _ _ Hq)].
    destruct Hcase as [(Hl & _)|(? & ? & ? & _ & _ & -> & _)]; [done|by eexists].
  - intros row' Hr' Hz'. destruct Hcase as [(_ & Ht & _)|(row1 & id & seq & Hr1 & Hl & Ht & _)]; rewrite Ht in Hr'; [done|].
    injection Hr' as <-. exists res. split; [|done]. split; [by rewrite Hl|]. exists i, r. split; [|done].
    apply elem_of_app. auto.
  - intros j id seq Hin Hne. apply elem_of_app in Hin as [Hin|Hin]; [by destruct Hne, (Hold _ _ _ Hin)|].
    destruct Hcase as [(_ & _ & ->)|(row1 & id' & seq' & Hr1 & Hl & Ht & ->)]; [by apply list_elem_of_singleton in Hin|].
    apply elem_of_cons in Hin as [Heq|Hin%list_elem_of_singleton]; [|done]. injection Heq as -> -> ->. eauto.
Qed.
End Moved.

Lemma inv_move w0 tr t f fl n s w i r p p' t' f' s' es :
  inv w0 tr (mkServer t f fl n s w) -> fl !! i = Some (r, p) -> move run i r t f w s p p' t' f' s' es ->
  inv w0 (tr ++ es) (mkServer t' f' (<[i := (r, p')]> fl) n s' w).
Proof.
  intros Hi Hfl Hm. destruct (decide (key r = Some k)) as [Hk|Hk].
  - assert (Hs : forall res, p = Settling res -> exists row, t !! k = Some row /\ server_event_seq row = 0%Z).
    { intros res ->. eapply holder_row; eauto. }
    apply move_key in Hm; [|done|done].
    destruct Hm as [p p' es Ho Hb Hp Hp' Hq|p p' n' es Ho Hb Hp Hp' Hq|n' b row Ho Hb Hrow Hz|n' won Hb -> Ho|n' Ho Hb
      |res Ho Hb|res row id seq Hb Hrow Hz He Ho|res Hb Ho].
    + eapply inv_calm; eauto; [by apply quiet_steady|]. intros m ->. done.
    + eapply inv_calm; eauto; [by apply quiet_steady|]. intros m ->. done.
    + eapply inv_calm; eauto; try congruence.
      split; [intros res [He (j & r' & Hin & Hkr)]|intros j id seq Hin];
        apply elem_of_app in Hin as [Hin|Hin%list_elem_of_singleton]; try done. split; eauto.
    + eapply inv_reserve; eauto.
    + eapply inv_mark; eauto.
    + eapply inv_run; eauto.
    + eapply inv_settle; eauto. right. eauto 10.
    + destruct Ho as [Ho|[He Ho]].
      * eapply inv_calm; eauto; try congruence. by apply quiet_steady; repeat constructor; intros [].
      * eapply inv_settle; eauto.
  - destruct (move_other _ _ _ _ _ _ _ _ _ _ _ _ Hm Hk) as (Ht & Hb & Hq).
    apply inv_same with (sv := mkServer t f fl n s w); simpl; try done.
    + by apply quiet_steady.
    + eapply numbered_insert; eauto.
    + intros j q [(_ & _ & ?)|[_ Hj]]%stands_insert Hh; [done|eauto].
    + intros j m Hj _ _. apply stands_insert. right. split; [|done]. intros ->. destruct Hj as (r' & Hl & ?). congruence.
    + intros j r' res [[<- Heq]|[_ Hl]]%lookup_insert_Some Hkr; [congruence|].
      apply elem_of_app. left. exact (inv_settling _ _ _ Hi _ _ _ Hl Hkr).
    + apply (inv_young _ _ _ Hi).
Qed.

Lemma inv_step w0 tr sv es sv' :
  inv w0 tr sv -> step run sv es sv' -> (wall sv' <= w0 + RETENTION)%Z -> inv w0 (tr ++ es) sv'.
Proof.
  intros Hi Hs Hw. destruct Hs as [t f fl n s w r|t f fl n s w i r p p' t' f' s' es Hfl Hm|t f fl n s w s' w' Hle|t f fl n s w|t f fl n s w].
  - apply inv_same with (sv := mkServer t f fl n s w); simpl; try done.
    + apply quiet_steady. by repeat constructor; intros [].
    + intros i x [[<- _]|[_ Hl]]%lookup_insert_Some; [lia|]. pose proof (inv_numbered _ _ _ Hi _ _ Hl). simpl in *. lia.
    + intros j q [(_ & -> & _)|[_ Hj]]%stands_insert Hh; [done|eauto].
    + intros j m Hj _ _. apply stands_insert. right. split; [|done]. intros ->. destruct Hj as (r' & Hl & _).
      pose proof (inv_numbered _ _ _ Hi _ _ Hl). simpl in *. lia.
    + intros j r' res [[<- Heq]|[_ Hl]]%lookup_insert_Some Hkr; [done|]. apply elem_of_app. left.
      exact (inv_settling _ _ _ Hi _ _ _ Hl Hkr).
    + apply (inv_young _ _ _ Hi).
  - by eapply inv_move.
  - apply inv_same with (sv := mkServer t f fl n s w); simpl; try done.
    + by apply quiet_steady; constructor.
    + apply (inv_numbered _ _ _ Hi).
    + eauto.
    + rewrite app_nil_r. apply (inv_settling _ _ _ Hi).
    + destruct (inv_young _ _ _ Hi). simpl in *. lia.
  - destruct (inv_young _ _ _ Hi) as [Hw0 Hy]. simpl in *.
    apply inv_same with (sv := mkServer t f fl n s w); simpl; try done.
    + by apply quiet_steady; constructor.
    + apply (inv_numbered _ _ _ Hi).
    + eauto.
    + rewrite app_nil_r. apply (inv_settling _ _ _ Hi).
    + apply cleanup_at. intros row Hl. specialize (Hy _ Hl). lia.
  - apply inv_same with (sv := mkServer t f fl n s w); simpl; try done.
    + by apply quiet_steady; constructor.
    + intros j q (r & Hl & _). by rewrite lookup_empty in Hl.
    + intros j m Hj Hf Hf'. exfalso. destruct (inv_reserved _ _ _ Hi _ _ Hj eq_refl) as (row & Hrow & _). simpl in *.
      rewrite warm_contains in Hf'; [done|eauto].
    + apply (inv_young _ _ _ Hi).
    + intros ? _. by apply warm_contains.
Qed.

Lemma ordered_step w0 tr sv es sv' :
  inv w0 tr sv -> ordered tr -> step run sv es sv' -> ordered (tr ++ es).
Proof.
  intros Hi Ho Hs. destruct Hs as [t f fl n s w r|t f fl n s w i r p p' t' f' s' es Hfl Hm| | |]; try by rewrite app_nil_r.
  { apply ordered_quiet; [done|]. by repeat constructor; intros []. }
  destruct (decide (key r = Some k)) as [Hk|Hk];
    [|destruct (move_other _ _ _ _ _ _ _ _ _ _ _ _ Hm Hk) as (_ & _ & Hq); by apply ordered_quiet].
  apply move_key in Hm; [|done|intros res ->; eapply holder_row; eauto].
  destruct Hm as [p p' es Ht Hb Hp Hp' Hq|p p' n' es Ht Hb Hp Hp' Hq|n' b row Ht Hb Hrow Hz| | |res Ht Hb|res row id seq Hb Hrow Hz He Ht|res Hb Ht];
    rewrite ?app_nil_r; try done; try by apply ordered_quiet.
  - apply ordered_snoc; [done|]. intros _. apply (inv_source _ _ _ Hi); [done|lia].
  - apply ordered_snoc; [done|]. intros _. by eapply holder_first; eauto.
  - change [?x; ?y] with ([x] ++ [y]). rewrite app_assoc. by do 2 (apply ordered_snoc; [|done]).
  - by apply ordered_snoc.
Qed.

(** ** After the record *)
Definition answers (j : nat) (e : Event) : Prop :=
  match e with
  | Replayed i k' _ _ | InFlight i k' => i = j /\ k' = k
  | Answered i r _ => i = j /\ key r = Some k
  | _ => False
  end.

Record answered (n1 : nat) (id : EventId) (seq : Z) (sv : Server) : Prop := mkAnswered {
  ans_row : exists row, table sv !! k = Some row /\ server_event_id row = id /\ server_event_seq row = seq;
  ans_seen : bloom_contains (bloom sv) k = true;
  ans_new : forall i q, stands (flights sv) i q -> (n1 <= i)%nat -> holding q = false /\
    match q with Looking _ _ | Reading _ _ | Done => True | _ => False end;
  ans_arrived : (n1 <= arrived sv)%nat }.

Lemma poll_answers i k' v n b e : e ∈ (poll_or_give_up (C := C) i k' (next_poll v n b)).2 -> e = InFlight i k'.
Proof. destruct (next_poll v n b); simpl; [by intros ?%elem_of_nil|by intros ?%list_elem_of_singleton]. Qed.

(** A move says things about its own request only. *)
Lemma move_events i r t f w s p p' t' f' s' es e :
  move run i r t f w s p p' t' f' s' es -> e ∈ es ->
  match e with
  | Arrived _ _ => False
  | Executed j r' _ | Answered j r' _ => j = i /\ r' = r
  | Recorded j k' _ _ | Replayed j k' _ _ | InFlight j k' => j = i /\ key r = Some k'
  end.
Proof.
  intros Hm He. destruct Hm as [| |k' m b id seq Hr Hl| | |k' m q es Hr Hp| |k' m q es Hr Hp| |k' result Hr|result];
    try by apply elem_of_nil in He.
  - by apply list_elem_of_singleton in He as ->.
  - replace es with (poll_or_give_up (C := C) i k' (next_poll (via r) m false)).2 in He by (by rewrite Hp).
    by apply poll_answers in He as ->.
  - replace es with (poll_or_give_up (C := C) i k' (next_poll (via r) m true)).2 in He by (by rewrite Hp).
    by apply poll_answers in He as ->.
  - by apply list_elem_of_singleton in He as ->.
  - apply elem_of_app in He as [He|He%list_elem_of_singleton]; [|by subst e].
    unfold recorded in He. destruct (last_event result) as [[? ?]|]; [|by apply elem_of_nil in He].
    by apply list_elem_of_singleton in He as ->.
  - by apply list_elem_of_singleton in He as ->.
Qed.
Lemma move_answers i r t f w s p p' t' f' s' es j e :
  move run i r t f w s p p' t' f' s' es -> key r <> Some k -> e ∈ es -> ~ answers j e.
Proof.
  intros Hm Hk He Ha. pose proof (move_events _ _ _ _ _ _ _ _ _ _ _ _ _ Hm He).
  destruct e; simpl in *; naive_solver congruence.
Qed.

Section Answered.
Context (n1 : nat) (id : EventId) (seq : Z) (Hseq : (0 < seq)%Z) (Hid : id <> reserved_event_id).
#[local] Notation calm := (answered n1 id seq).

Lemma answered_same sv sv' :
  calm sv -> table sv' !! k = table sv !! k -> (bloom_contains (bloom sv) k = true -> bloom_contains (bloom sv') k = true) ->
  (arrived sv <= arrived sv')%nat ->
  (forall i q, stands (flights sv') i q -> (n1 <= i)%nat -> stands (flights sv) i q \/ q = Looking 0 true) -> calm sv'.
Proof.
  intros Hc Ht Hb Ha Hn. split.
  - rewrite Ht. apply (ans_row _ _ _ _ Hc).
  - apply Hb, (ans_seen _ _ _ _ Hc).
  - intros i q Hq Hi. destruct (Hn _ _ Hq Hi) as [Hq'| ->]; [|done]. by apply (ans_new _ _ _ _ Hc) in Hq'.
  - pose proof (ans_arrived _ _ _ _ Hc). lia.
Qed.


(** A late request of the key can only find the record. *)
Lemma answered_move w0 tr t f fl n s w i r p p' t' f' s' es :
  inv w0 tr (mkServer t f fl n s w) -> calm (mkServer t f fl n s w) -> fl !! i = Some (r, p) ->
  move run i r t f w s p p' t' f' s' es ->
  calm (mkServer t' f' (<[i := (r, p')]> fl) n s' w) /\
  forall j e, (n1 <= j)%nat -> e ∈ es -> answers j e -> e = Replayed j k id seq.
Proof.
  intros Hi Hc Hfl Hm. destruct (ans_row _ _ _ _ Hc) as (row & Hrow & Hrid & Hrs). simpl in Hrow.
  assert (Hlook : lookup_row t k = Some (id, seq)).
  { unfold lookup_row. rewrite Hrow. simpl. rewrite Hrid, Hrs, bool_decide_eq_false_2, orb_false_r by done.
    by destruct (seq <=? 0)%Z eqn:?; [lia|]. }
  destruct (decide (key r = Some k)) as [Hk|Hk].
  - assert (Hst : stands fl i p) by (by exists r).
    assert (Hidle : holding p = false).
    { apply not_true_is_false. intros Hh. destruct (inv_reserved _ _ _ Hi _ _ Hst Hh) as (row' & Hr' & Hz). simpl in Hr'.
      assert (row' = row) as -> by congruence. lia. }
    assert (Hlate : (n1 <= i)%nat -> match p with Looking _ _ | Reading _ _ | Done => True | _ => False end).
    { intros Hle. by destruct (ans_new _ _ _ _ Hc _ _ Hst Hle). }
    assert (Hgo : forall q, t' !! k = t !! k -> (bloom_contains f k = true -> bloom_contains f' k = true) ->
              ((n1 <= i)%nat -> holding q = false /\ match q with Looking _ _ | Reading _ _ | Done => True | _ => False end) ->
              calm (mkServer t' f' (<[i := (r, q)]> fl) n s' w)).
    { intros q Ht Hb Hq. split; simpl.
      - rewrite Ht. eauto.
      - apply Hb, (ans_seen _ _ _ _ Hc).
      - intros i' q' [(-> & -> & _)|[_ Hq']]%stands_insert Hle; [auto|]. by apply (ans_new _ _ _ _ Hc) in Hq'.
      - apply (ans_arrived _ _ _ _ Hc). }
    assert (Hpoll : forall k' v m b q es, poll_or_give_up (C := C) i k' (next_poll v m b) = (q, es) ->
              ((n1 <= i)%nat -> False) -> forall j e, (n1 <= j)%nat -> e ∈ es -> answers j e -> e = Replayed j k id seq).
    { intros k' v m b q es0 Heq Hno j e Hj He Ha. replace es0 with (poll_or_give_up (C := C) i k' (next_poll v m b)).2 in He by (by rewrite Heq).
      apply poll_answers in He as ->. destruct Ha as [-> _]. by destruct Hno. }
    destruct Hm as [|k' m b Hr|k' m b id' seq' Hr Hl|k' m b Hr Hl|k' m won t' Hr Hins|k' m q es Hr Hp| |k' m q es Hr Hp| | |];
      try done; try congruence; try (assert (k' = k) as -> by congruence).
    + replace (may_contain f k) with true by (symmetry; apply (ans_seen _ _ _ _ Hc)).
      split; [by apply Hgo|]. by intros j e _ He%elem_of_nil.
    + split; [by apply Hgo|]. intros j e _ ->%list_elem_of_singleton [-> _]. congruence.
    + apply insert_row_at in Hins as [_ Ht]. rewrite bool_decide_eq_true_2, Hrow in Ht by done.
      split; [apply Hgo; [by rewrite Hrow|done|by intros []%Hlate]|]. by intros j e _ He%elem_of_nil.
    + split; [apply Hgo; [done|done|by intros []%Hlate]|]. eapply Hpoll; [done|exact Hlate].
    + split; [apply Hgo; [done|intros _; apply contains_insert|by intros []%Hlate]|]. eapply Hpoll; [done|exact Hlate].
  - destruct (move_other _ _ _ _ _ _ _ _ _ _ _ _ Hm Hk) as (Ht & Hb & Hq).
    split.
    + apply answered_same with (sv := mkServer t f fl n s w); try done.
      intros i' q [(_ & _ & ?)|[_ Hq']]%stands_insert _; [done|]. by left.
    + intros j e _ He Ha. exfalso. eapply move_answers; eauto.
Qed.

Lemma answered_step w0 tr sv es sv' :
  inv w0 tr sv -> calm sv -> step run sv es sv' -> (wall sv' <= w0 + RETENTION)%Z ->
  calm sv' /\ forall j e, (n1 <= j)%nat -> e ∈ es -> answers j e -> e = Replayed j k id seq.
Proof.
  intros Hi Hc Hs Hw. destruct Hs as [t f fl n s w r|t f fl n s w i r p p' t' f' s' es Hfl Hm|t f fl n s w s' w' Hle|t f fl n s w|t f fl n s w].
  - split; [|by intros j e _ ->%list_elem_of_singleton []].
    apply answered_same with (sv := mkServer t f fl n s w); simpl; try done; [lia|].
    intros i q [(_ & -> & _)|[_ Hq]]%stands_insert _; auto.
  - by eapply answered_move.
  - split; [|by intros j e _ ?%elem_of_nil]. apply answered_same with (sv := mkServer t f fl n s w); auto.
  - split; [|by intros j e _ ?%elem_of_nil]. apply answered_same with (sv := mkServer t f fl n s w); auto.
    apply cleanup_at. intros row Hl. destruct (inv_young _ _ _ Hi) as [_ Hy]. specialize (Hy _ Hl). simpl in *. lia.
  - split; [|by intros j e _ ?%elem_of_nil]. apply answered_same with (sv := mkServer t f fl n s w); simpl; auto.
    + intros _. apply warm_contains. destruct (ans_row _ _ _ _ Hc) as (row & Hr & _). by exists row.
    + intros i q (r & Hl & _). by rewrite lookup_empty in Hl.
Qed.
End Answered.

(** ** Whole runs *)
Lemma steps_wall sv es sv' : steps run sv es sv' -> (wall sv <= wall sv')%Z.
Proof. induction 1 as [|sv es sv1 es' sv' _ IH Hs]; [lia|]. destruct Hs; simpl in *; lia. Qed.

Lemma untouched_inv sv : untouched sv -> inv (wall sv) [] sv.
Proof.
  intros [Ht Hfl].
  assert (Hno : forall i q, ~ stands (flights sv) i q).
  { intros i q (r & Hl & Hk). by destruct (Hfl _ _ _ Hl). }
  assert (Hnil : forall res, ~ succeeded [] res) by (by intros res (_ & i & r & ?%elem_of_nil & _)).
  split; rewrite ?Ht; try done.
  - intros i [r p] Hl. by destruct (Hfl _ _ _ Hl).
  - intros i j p q Hp. by destruct (Hno _ _ Hp).
  - intros i p Hp. by destruct (Hno _ _ Hp).
  - intros i r res Hl Hk. by destruct (Hfl _ _ _ Hl).
  - intros res Hs. by destruct (Hnil res).
  - by intros i id seq ?%elem_of_nil.
Qed.

Lemma steps_inv w0 tr sv es sv' :
  inv w0 tr sv -> ordered tr -> steps run sv es sv' -> (wall sv' <= w0 + RETENTION)%Z ->
  inv w0 (tr ++ es) sv' /\ ordered (tr ++ es).
Proof.
  intros Hi Ho Hs. induction Hs as [sv|sv es sv1 es' sv' Hs IH Hst]; intros Hw; [by rewrite app_nil_r|].
  assert (Hle : (wall sv1 <= wall sv')%Z) by (destruct Hst; simpl; lia).
  destruct (IH Hi) as [Hi1 Ho1]; [lia|]. rewrite app_assoc. split; [by eapply inv_step|by eapply ordered_step].
Qed.
Lemma steps_arrived sv es sv' : steps run sv es sv' ->
  (arrived sv <= arrived sv')%nat /\ forall j r, Arrived j r ∈ es -> (arrived sv <= j)%nat.
Proof.
  induction 1 as [|sv es sv1 es' sv' _ [IHa IHe] Hs]; [split; [lia|by intros ?? ?%elem_of_nil]|].
  assert (H' : (arrived sv1 <= arrived sv')%nat /\ forall j r, Arrived j r ∈ es' -> (arrived sv1 <= j)%nat).
  { destruct Hs as [t f fl n s w r|t f fl n s w i r p p' t' f' s' es1 Hfl Hm| | |]; simpl; (split; [lia|]);
      try by intros ?? ?%elem_of_nil.
    - intros j r' He%list_elem_of_singleton. injection He as -> ->. lia.
    - intros j r' He. by apply (move_events _ _ _ _ _ _ _ _ _ _ _ _ _ Hm) in He. }
  destruct H' as [Ha He]. split; [lia|]. intros j r Hin. apply elem_of_app in Hin as [Hin|Hin]; [eauto|].
  specialize (He _ _ Hin). lia.
Qed.
Lemma recorded_answered w0 tr sv i id seq :
  inv w0 tr sv -> Recorded i k id seq ∈ tr -> seq <> 0%Z -> answered (arrived sv) id seq sv.
Proof.
  intros Hi Hin Hz. destruct (inv_recorded _ _ _ Hi _ _ _ Hin Hz) as (row & Hrow & Hid & Hseq). split.
  - eauto.
  - destruct (inv_seen _ _ _ Hi) as [?|(j & n & Hj)]; [by rewrite Hrow|done|].
    destruct (inv_reserved _ _ _ Hi _ _ Hj eq_refl) as (row' & ? & ?). congruence.
  - intros j q (r & Hl & _) Hle. pose proof (inv_numbered _ _ _ Hi _ _ Hl). lia.
  - done.
Qed.
Lemma steps_answered w0 tr sv n1 id seq es sv' :
  (0 < seq)%Z -> id <> reserved_event_id ->
  inv w0 tr sv -> ordered tr -> answered n1 id seq sv -> steps run sv es sv' -> (wall sv' <= w0 + RETENTION)%Z ->
  answered n1 id seq sv' /\ forall j e, (n1 <= j)%nat -> e ∈ es -> answers j e -> e = Replayed j k id seq.
Proof.
  intros Hseq Hid Hi Ho Hc Hs. induction Hs as [sv|sv es sv1 es' sv' Hs IH Hst]; intros Hw; [split; [done|by intros j e _ ?%elem_of_nil]|].
  assert (Hle : (wall sv1 <= wall sv')%Z) by (destruct Hst; simpl; lia).
  destruct (IH Hi) as [Hc1 He1]; [done|lia|].
  destruct (steps_inv _ _ _ _ _ Hi Ho Hs) as [Hi1 _]; [lia|].
  destruct (answered_step _ _ _ Hseq Hid _ _ _ _ _ Hi1 Hc1 Hst Hw) as [Hc2 He2]. split; [done|].
  intros j e Hj Hin. apply elem_of_app in Hin as [Hin|Hin]; eauto.
Qed.
End Facts.
End CommandIdFacts.

Section Property.
Import IdempotencyRepo CommandIds CommandIdFacts.
Context {F : Type} `{BloomLaws F} {C S : Type} (run : Request C -> S -> Outcome -> S -> Prop).

(** C22: a key runs one command.  Take the first requests with a key, and whatever
    repeats over HTTP and WebSocket, polls, settlements that fail, restarts and
    hourly clean-ups interleave within the week the table keeps a row.  Once a
    dispatch for the key has succeeded none follows; every replayed answer names
    the last event of such a dispatch; and once that is recorded, every request
    with the key that arrives later gets it as its answer, and nothing else. *)
Theorem client_command_runs_once k (s0 s1 s2 : Server F C S) tr1 tr2 :
  untouched k s0 -> steps run s0 tr1 s1 -> steps run s1 tr2 s2 -> (wall s2 <= wall s0 + RETENTION)%Z ->
  (forall before i r res after, tr1 = before ++ Executed i r res :: after -> key r = Some k -> last_event res <> None ->
     forall j r' res', Executed j r' res' ∈ after -> key r' <> Some k) /\
  (forall before j id seq after, tr1 = before ++ Replayed j k id seq :: after ->
     exists i r res, Executed i r res ∈ before /\ key r = Some k /\ last_event res = Some (id, seq)) /\
  (forall i id seq, Recorded i k id seq ∈ tr1 -> (0 < seq)%Z -> id <> reserved_event_id ->
     forall j r e, Arrived j r ∈ tr2 -> e ∈ tr2 -> answers k j e -> e = Replayed j k id seq).
Proof.
  intros Hu H1 H2 Hw. pose proof (untouched_inv k _ Hu) as Hi.
  assert (Hw1 : (wall s1 <= wall s0 + RETENTION)%Z) by (pose proof (steps_wall _ _ _ _ H2); lia).
  destruct (steps_inv run k _ _ _ _ _ Hi (ordered_nil k) H1 Hw1) as [Hi1 Ho1]. simpl in *. split_and!.
  - intros before i r res after -> Hk Hne j r' res' Hin Hk'.
    apply list_elem_of_split in Hin as (a & b & ->). rewrite app_comm_cons, app_assoc in Ho1.
    apply (ordered_at k _ _ _ Ho1 Hk' res). split; [done|]. exists i, r. split; [|done]. apply elem_of_app. right. left.
  - intros before j id seq after ->. destruct (ordered_at k _ _ _ Ho1 eq_refl) as (res & (_ & i & r & Hin & Hk) & Hl). eauto 10.
  - intros i id seq Hin Hseq Hid j r e Ha He Hans.
    assert (Hc : answered k (arrived s1) id seq s1) by (apply (recorded_answered k _ _ _ _ _ _ Hi1 Hin); lia).
    destruct (steps_answered run k _ _ _ _ _ _ _ _ Hseq Hid Hi1 Ho1 Hc H2 Hw) as [_ Hall].
    apply (Hall j); [|done|done]. destruct (steps_arrived run _ _ _ H2) as [_ Hj]. eauto.
Qed.
End Property.

(** A run: a request is executed, its repetition replayed. *)
Module CommandIdRun.
Import IdempotencyRepo CommandIds.
Definition ack : EventEnvelope :=
  Envelope.mk (mkId 9) 1 5 ActorOps.user None 0 (Event.TaskDeleted (mkId 1)).
Definition dispatch (result : Outcome) (_ : Request unit) (_ : unit) (r : Outcome) (_ : unit) : Prop := r = result.
Definition request (v : Via) : Request unit := mkRequest (Some 7%N) v tt.
Abbreviation Server := (CommandIds.Server (gset N) unit unit).
Definition start : Server := mkServer ∅ ∅ ∅ 0 tt 0.
Definition reserved : Table := {[ 7%N := mkRow reserved_event_id 0 0 ]}.
Definition filled : Table := {[ 7%N := mkRow (mkId 9) 1 0 ]}.
Definition seen : gset N := {[ 7%N ]} ∪ ∅.

Section Chain.
Context (run : Request unit -> unit -> Outcome -> unit -> Prop).

(** One more move of the request at [i]. *)
Lemma then_move s0 tr t f fl n w i r p p' t' f' es :
  steps run s0 tr (mkServer t f (<[i := (r, p)]> fl) n tt w) -> move run i r t f w tt p p' t' f' tt es ->
  steps run s0 (tr ++ es) (mkServer t' f' (<[i := (r, p')]> fl) n tt w).
Proof.
  intros Hs Hm. eapply steps_snoc; [done|]. rewrite <- (insert_insert_eq fl i (r, p') (r, p)).
  eapply step_move; [apply lookup_insert_eq|done].
Qed.
Lemma then_silent s0 tr t f fl n w i r p p' t' f' :
  steps run s0 tr (mkServer t f (<[i := (r, p)]> fl) n tt w) -> move run i r t f w tt p p' t' f' tt [] ->
  steps run s0 tr (mkServer t' f' (<[i := (r, p')]> fl) n tt w).
Proof. intros Hs Hm. rewrite <- (app_nil_r tr). by eapply then_move. Qed.

(** A request that finds another's reservation, poll after poll. *)
Lemma polls_in_vain s0 tr fl n w i m d row t (f : gset N) :
  (m + d = CLIENT_COMMAND_ID_WAIT_POLLS)%nat -> t !! 7%N = Some row -> lookup_row t 7 = None -> 7%N ∈ f ->
  steps run s0 tr (mkServer t f (<[i := (request Http, Looking m true)]> fl) n tt w) ->
  steps run s0 (tr ++ [InFlight i 7%N]) (mkServer t f (<[i := (request Http, Done)]> fl) n tt w).
Proof.
  intros Hd Hrow Hl Hf Hs. revert m Hd Hs. induction d as [|d IH]; intros m Hd Hs.
  all: assert (Hm : steps run s0 tr (mkServer t f (<[i := (request Http, Marking false m)]> fl) n tt w))
    by (eapply then_silent; [eapply then_silent; [eapply then_silent; [exact Hs|]|]|];
        [by apply move_filter with (k := 7%N)
        |unfold may_contain; simpl; rewrite bool_decide_eq_true_2 by done; by apply move_unanswered with (k := 7%N)
        |apply move_reserve with (k := 7%N); [done|unfold insert_row; by rewrite Hrow]]).
  all: assert (Heq : bloom_insert 7%N f = f) by (simpl; set_solver).
  - rewrite <- Heq. eapply then_move; [exact Hm|]. apply move_lost with (k := 7%N); [done|]. simpl.
    rewrite (proj2 (Nat.ltb_ge _ _)) by (unfold CLIENT_COMMAND_ID_WAIT_POLLS in *; lia). done.
  - apply (IH (Datatypes.S m)); [lia|]. rewrite <- Heq. eapply then_silent; [exact Hm|]. apply move_lost with (k := 7%N); [done|].
    simpl. rewrite (proj2 (Nat.ltb_lt _ _)) by (unfold CLIENT_COMMAND_ID_WAIT_POLLS in *; lia). done.
Qed.
End Chain.

Lemma start_untouched : CommandIdFacts.untouched 7 start.
Proof. split; [done|]. intros i r p Hl. done. Qed.

(** A first request, up to the outcome of its dispatch. *)
Lemma executed v result :
  steps (dispatch result) start [Arrived 0 (request v); Executed 0 (request v) result]
    (mkServer reserved seen {[ 0%nat := (request v, Settling result) ]} 1 tt 0).
Proof.
  change [Arrived 0 (request v); Executed 0 (request v) result]
    with (([] ++ [Arrived 0 (request v)]) ++ [Executed 0 (request v) result]).
  eapply then_move; [eapply then_silent; [eapply then_silent; [eapply then_silent; [eapply steps_snoc; [apply steps_nil|]|]|]|]|].
  - apply step_arrive.
  - by apply move_filter with (k := 7%N).
  - by apply move_reserve with (k := 7%N).
  - by apply move_won with (k := 7%N).
  - by apply move_run.
Qed.
Lemma recorded_run v :
  steps (dispatch (Ok [ack])) start
    [Arrived 0 (request v); Executed 0 (request v) (Ok [ack]); Recorded 0 7 (mkId 9) 1; Answered 0 (request v) (Ok [ack])]
    (mkServer filled seen {[ 0%nat := (request v, Done) ]} 1 tt 0).
Proof.
  refine (then_move _ _ [_; _] _ _ ∅ _ _ _ _ _ _ _ _ [_; _] (executed v _) _).
  assert (Hf : settle v 7 (Ok [ack]) reserved = filled) by reflexivity.
  rewrite <- Hf. by apply (move_settle _ _ _ _ _ _ _ 7%N (Ok [ack])).
Qed.
Lemma replayed_run v :
  steps (dispatch (Ok [ack])) (mkServer filled seen {[ 0%nat := (request v, Done) ]} 1 tt 0)
    [Arrived 1 (request v); Replayed 1 7 (mkId 9) 1]
    (mkServer filled seen (<[1%nat := (request v, Done)]> {[ 0%nat := (request v, Done) ]}) 2 tt 0).
Proof.
  change [Arrived 1 (request v); Replayed 1 7 (mkId 9) 1] with (([] ++ [Arrived 1 (request v)]) ++ [Replayed 1 7 (mkId 9) 1]).
  eapply then_move; [eapply then_silent; [eapply steps_snoc; [apply steps_nil|]|]|].
  - apply step_arrive.
  - by apply move_filter with (k := 7%N).
  - by apply move_replay with (k := 7%N).
Qed.
End CommandIdRun.

Lemma client_command_runs_once_witness :
  CommandIds.steps (CommandIdRun.dispatch (Ok [CommandIdRun.ack])) CommandIdRun.start
    [CommandIds.Arrived 0 (CommandIdRun.request CommandIds.Ws);
     CommandIds.Executed 0 (CommandIdRun.request CommandIds.Ws) (Ok [CommandIdRun.ack]);
     CommandIds.Recorded 0 7 (mkId 9) 1; CommandIds.Answered 0 (CommandIdRun.request CommandIds.Ws) (Ok [CommandIdRun.ack])]
    (CommandIds.mkServer CommandIdRun.filled CommandIdRun.seen
       {[ 0%nat := (CommandIdRun.request CommandIds.Ws, CommandIds.Done) ]} 1 tt 0) /\
  forall e, e ∈ [CommandIds.Arrived 1 (CommandIdRun.request CommandIds.Ws); CommandIds.Replayed 1 7 (mkId 9) 1] ->
    CommandIdFacts.answers 7 1 e -> e = CommandIds.Replayed 1 7 (mkId 9) 1.
Proof.
  split; [apply CommandIdRun.recorded_run|]. intros e He Ha.
  destruct (client_command_runs_once _ 7 _ _ _ _ _ CommandIdRun.start_untouched (CommandIdRun.recorded_run CommandIds.Ws)
    (CommandIdRun.replayed_run CommandIds.Ws) ltac:(done)) as (_ & _ & Hr).
  eapply (Hr 0%nat); [right; right; left|done|done|left|exact He|exact Ha].
Defined.

(** A command that fails over the WebSocket keeps its key: the reservation is never
    released, and the client's retry is told that the command is in flight. *)
Lemma ws_failure_blocks_key :
  exists result s, is_ok (A := list EventEnvelope) result = false /\
    CommandIds.steps (CommandIdRun.dispatch result) CommandIdRun.start
      [CommandIds.Arrived 0 (CommandIdRun.request CommandIds.Ws);
       CommandIds.Executed 0 (CommandIdRun.request CommandIds.Ws) result;
       CommandIds.Answered 0 (CommandIdRun.request CommandIds.Ws) result;
       CommandIds.Arrived 1 (CommandIdRun.request CommandIds.Http); CommandIds.InFlight 1 7] s.
Proof.
  eexists (Err (NotFound "task")), _. split; [done|].
  eapply (CommandIdRun.polls_in_vain _ _ [_; _; _; _] _ _ _ _ 0 100); [done| | | |].
  4: eapply (CommandIds.steps_snoc _ _ [_; _; _] _ [_]); [|apply CommandIds.step_arrive].
  4: eapply (CommandIdRun.then_move _ _ [_; _] _ _ ∅); [apply CommandIdRun.executed|].
  4: exact (CommandIds.move_settle _ 0 (CommandIdRun.request CommandIds.Ws) _ _ _ _ 7%N (Err (NotFound "task")) eq_refl).
  all: done || by vm_compute.
Qed.
