(* ===== verification/Handler.v ===== *)
(** * core/handler.rs: the state, its monad and the shared helpers

    A command handler reads and writes the projections through repositories.
    [St] holds their tables; [M] is the state and error monad of an [async fn]
    that returns [Result]: a repository write made before an error stays made.
    Every repository is configured, as the server wires them; the
    ["... not configured"] branches of the source are left out.  [Env] holds
    what the handler reads from outside: the clock, the acting principal, the
    intake mode, the ids [Uuid::new_v4()] draws and the functions of other
    crates ([Crates]). *)

From S2P Require Import Prelude Shared TaskModel PlanModel RegistryModel Events EventStore TaskStore RelationStore PlanStore RunStore ClaimStore LeaseStore DocumentStore ProjectStore SourceRef SourcePolicy ActivityStore RuleStore WorkStore ArtifactStore.

Module Handler.
Record St : Type := mkSt {
  tasks : TaskTable;
  relations : RelationTable;
  plans : PlanTables;
  runs : RunTables;
  claims : ClaimTable;
  owners : gmap RunId AgentId;
  leases : LeaseTables;
  documents : DocumentTable;
  versions : VersionTable;
  projects : ProjectTables;
  tenants : TenantTable;
  external_refs : gmap (Str * Str * Str) Str;
  comments : CommentTable;
  activity : ActivityTable;
  run_notes : NoteTable;
  sessions : SessionRepo.SessionTables;
  settings : ProjectSettingsRepo.SettingsTables;
  work_units : UnitTable;
  handoffs : HandoffTable;
  rules : RuleTable;
  evidence : EvidenceTable;
  artifacts : ArtifactRepo.ArtifactTables;
  log : EventLog;
  drawn : nat }.
#[global] Instance St_rebuild : Rebuild St := fun s =>
  mkSt (tasks s) (relations s) (plans s) (runs s) (claims s) (owners s) (leases s) (documents s) (versions s)
       (projects s) (tenants s) (external_refs s) (comments s) (activity s) (run_notes s) (sessions s)
       (settings s) (work_units s) (handoffs s) (rules s) (evidence s) (artifacts s) (log s) (drawn s).

Definition empty : St :=
  mkSt TaskRepo.empty [] PlanRepo.empty RunRepo.empty ∅ ∅ WorkLeaseRepo.empty ∅ [] ProjectRepo.empty
       ∅ ∅ ∅ [] ∅ SessionRepo.empty ProjectSettingsRepo.empty ∅ ∅ ∅ ∅ ArtifactRepo.empty EventStore.empty 0.

(** What other crates and the deployment provide: texts ([serde_json], [chrono]),
    regular expressions, dates, Unicode lower case and the validator the hosted
    audit engine plugs in. *)
Record Crates : Type := mkCrates {
  serde : Serde;
  regex : Str -> option SourcePolicy.Matcher;
  valid_date : Str -> bool;
  lowercase : Str -> Str;
  iso_time : Z -> Str;
  human_time : Z -> Str;
  audit_settings_validator : option (Json -> bool) }.

Record Env : Type := mkEnv {
  now : Z;
  actor : Actor;
  plan_only_intake : bool;
  uuid_at : nat -> N;
  crates : Crates }.
#[global] Instance Env_rebuild : Rebuild Env := fun e =>
  mkEnv (now e) (actor e) (plan_only_intake e) (uuid_at e) (crates e).

(** ** The monad *)
Definition M (A : Type) : Type := St -> Result CoreError A * St.

#[global] Instance M_ret : MRet M := fun A a s => (Ok a, s).
#[global] Instance M_bind : MBind M := fun A B f m s =>
  match m s with
  | (Ok a, s) => f a s
  | (Err e, s) => (Err e, s)
  end.

Definition fail {A} (e : CoreError) : M A := fun s => (Err e, s).
Definition gets {A} (f : St -> A) : M A := fun s => (Ok (f s), s).
Definition modify (f : St -> St) : M unit := fun s => (Ok tt, f s).
(** [?] on a pure result, and [ok_or_else] on an option. *)
Definition lift {A} (r : Result CoreError A) : M A := fun s => (r, s).
Definition some_or {A} (e : CoreError) (o : option A) : M A :=
  match o with Some a => mret a | None => fail e end.
Definition guard_ (b : bool) (e : CoreError) : M unit := if b then mret tt else fail e.
Definition when_ (b : bool) (m : M (list Event)) : M (list Event) :=
  if b then m else mret [].

Fixpoint concat_mapM {A} (f : A -> M (list Event)) (l : list A) : M (list Event) :=
  match l with
  | [] => mret []
  | x :: l => es ← f x; rest ← concat_mapM f l; mret (es ++ rest)
  end.

(** A fresh id of some kind. *)
Definition fresh (env : Env) (k : IdKind) : M (Id k) :=
  n ← gets drawn;
  _ ← modify (fun s => s <| drawn := S n |>);
  mret (mkId (uuid_at env n)).

(** ** Repository access *)
Definition get_task (id : TaskId) : M Task :=
  t ← gets (fun s => TaskRepo.get (tasks s) id);
  some_or (NotFound "task {id}") t.

Definition update_kind (id : RelationId) (k : RelationKind) : M unit := fun s =>
  match RelationRepo.update_kind (relations s) id k with
  | Ok (_, r) => (Ok tt, s <| relations := r |>)
  | Err e => (Err e, s)
  end.
Definition delete_relation (id : RelationId) : M unit :=
  modify (fun s => s <| relations := (RelationRepo.delete (relations s) id).2 |>).
Definition insert_relation (r : Relation) : M unit := fun s =>
  match RelationRepo.insert (relations s) r with
  | Ok t => (Ok tt, s <| relations := t |>)
  | Err e => (Err e, s)
  end.

Definition list_active_blockers (id : TaskId) : M (list TaskId) :=
  gets (fun s => RelationEnforcement.list_active_blockers (relations s) (tasks s) id).
Definition list_downstream_to_unblock (id : TaskId) : M (list TaskId) :=
  gets (fun s => RelationEnforcement.list_downstream_to_unblock (relations s) (tasks s) id).
Definition list_plans_for_task (id : TaskId) : M (list PlanId) :=
  gets (fun s => map Plan.id (PlanRepo.list_plans_for_task (plans s) id)).

(** [ok()?.into_iter().next()]. *)
Definition active_run_for_plan (plan : PlanId) : M (option RunId) :=
  gets (fun s => option_map Run.id (head (RunRepo.list_active_for_plan (runs s) plan))).

(** ** Status transitions *)
Definition ensure_direct_status_write (id : TaskId) (to : Status) : M unit :=
  position ← gets (fun s => TaskRepo.pipeline_position (tasks s) id);
  guard_ (Pipeline.direct_status_write_allowed position to)
    (Conflict "pipeline_managed: task {id} is at workflow_policy stage {} ({}); its status is derived from the pipeline position and changes only through advance_pipeline (direct writes allow only cancelled)").

Definition close_task_documents (env : Env) (task_id : TaskId) (to : Status) : M (list Event) :=
  match to with
  | Done | Cancelled =>
      let target := if bool_decide (to = Done) then DocFrozen else DocArchived in
      docs ← gets (fun s => DocumentRepo.list_live_by_task (documents s) task_id);
      mret (map (fun d => Event.DocumentStatusChanged (Document.id d) (Document.status d)
                            target (now env)) docs)
  | _ => mret []
  end.

(** The [for rel in outgoing] loop: each row is rewritten before its event is
    pushed. *)
Fixpoint migrate_edges (env : Env) (outgoing : list Relation) : M (list Event) :=
  match outgoing with
  | [] => mret []
  | rel :: outgoing =>
      _ ← update_kind (Relation.id rel) WasBlocking;
      rest ← migrate_edges env outgoing;
      mret (Event.TaskRelationKindChanged (Relation.id rel) (Relation.from rel) (Relation.to rel)
              Blocks WasBlocking (now env) :: rest)
  end.

Definition downstream_cascade (env : Env) (id : TaskId) : M (list Event) :=
  to_unblock ← list_downstream_to_unblock id;
  outgoing ← gets (fun s => RelationRepo.list_blocks_targets (relations s) id);
  changed ← migrate_edges env outgoing;
  mret (map (fun t => Event.TaskUnblocked t id (now env)) to_unblock ++ changed).

Definition reject_blocked (id : TaskId) (msg : string) : M unit :=
  blocked ← list_active_blockers id;
  guard_ (bool_decide (blocked = [])) (Conflict msg).

Definition lifecycle_events (env : Env) (id : TaskId) (from to : Status) : list Event :=
  if is_terminal from && negb (is_terminal to)
  then [Event.TaskReopened id (actor env) (now env)]
  else if negb (is_terminal from) && is_terminal to
  then [Event.TaskClosed id (actor env) (now env)]
  else [].

Definition status_transition_events (env : Env) (task : Task) (to : Status) : M (list Event) :=
  let id := Task.id task in
  let from := Task.status task in
  if bool_decide (from = to) then mret []
  else
    _ ← (if bool_decide (to = Done)
         then reject_blocked id "task_blocked: task {id} blocked by {} task(s): {:?}"
         else mret tt);
    let head := Event.TaskStatusChanged id from to :: lifecycle_events env id from to in
    cascade ← when_ (bool_decide (to = Done)) (downstream_cascade env id);
    docs ← when_ (is_terminal to) (close_task_documents env id to);
    mret (head ++ cascade ++ docs).

Definition emit_status_transition_events (env : Env) (task : Task) (to : Status)
  : M (list Event) :=
  _ ← ensure_direct_status_write (Task.id task) to;
  status_transition_events env task to.

(** ** Comments inside a batch *)
Definition comment_events (env : Env) (task_id : TaskId) (body : Str)
    (kind : option CommentKind) : M (list Event) :=
  cid ← fresh env KComment;
  let comment := comment_from_new cid (mkNewComment None task_id body None kind)
                                  (actor env) (now env) in
  mret [Event.CommentAdded comment;
        Event.TaskCommented task_id (Comment.id comment) (actor env) (take 80 body)].

Definition task_comment_events (env : Env) (task_id : TaskId) (body : Str) : M (list Event) :=
  comment_events env task_id body (Some Research).

Definition newline : Str := [10%N].

Definition redelivered_create_comment_body (external_key : Str) (task : NewTask) : Str :=
  let body := lit "Re-delivered create for external_key `" ++ external_key
    ++ lit "` (existing task kept; context recorded here instead of duplicating)."
    ++ newline ++ lit "Title: " ++ NewTask.title task in
  match NewTask.description task with
  | Some desc =>
      let desc := trim desc in
      if str_is_empty desc then body else body ++ newline ++ lit "Description: " ++ desc
  | None => body
  end.

Definition redelivered_create_events (env : Env) (task_id : TaskId) (external_key : Str)
    (task : NewTask) : M (list Event) :=
  task_comment_events env task_id (redelivered_create_comment_body external_key task).

Definition normalize_external_key (task : NewTask) : NewTask :=
  task <| NewTask.external_key :=
    match NewTask.external_key task with
    | Some k => let k := trim k in if str_is_empty k then None else Some k
    | None => None
    end |>.

(** ** Bulk helpers *)
Definition BULK_OP_CAP : nat := 50.

Definition validate_bulk_cap (n : nat) : M unit :=
  if (n =? 0)%nat then fail (Validation "bulk op requires at least 1 id")
  else guard_ (n <=? BULK_OP_CAP)%nat (Validation "bulk size {n} exceeds cap of {BULK_OP_CAP}").

Fixpoint dedupe_from (seen : gset TaskId) (ids : list TaskId) : list TaskId :=
  match ids with
  | [] => []
  | id :: ids =>
      if bool_decide (id ∈ seen) then dedupe_from seen ids
      else id :: dedupe_from ({[id]} ∪ seen) ids
  end.
Definition dedupe_ids (ids : list TaskId) : list TaskId := dedupe_from ∅ ids.

(** ** Pipeline helpers *)
Definition validate_pipeline_target (p : PipelinePosition) : M unit :=
  match Pipeline.validate p with
  | Err msg => fail (Validation msg)
  | Ok _ =>
      guard_ (bool_decide (Pipeline.closed p = []))
        (Validation "pipeline_position.closed is filled only by close_pipeline_stage")
  end.

Definition pipeline_task (id : TaskId) : M Task :=
  task ← get_task id;
  _ ← guard_ (negb (bool_decide (Task.status task = Cancelled)))
        (Conflict "pipeline_cancelled: task {id} is cancelled");
  mret task.

Definition position_patch (p : PipelinePosition) : TaskPatch :=
  TaskPatch.empty <| TaskPatch.pipeline_position := Some p |>.

Definition advance_pipeline_events (env : Env) (task : Task) (position : PipelinePosition)
  : M (list Event) :=
  _ ← validate_pipeline_target position;
  let to := Pipeline.canonical_status position in
  events ← status_transition_events env task to;
  mret (Event.TaskUpdated (Task.id task) (position_patch position) :: events).
End Handler.
