(* ===== verification/TaskCommands.v ===== *)
(** * core/handler.rs: the task, relation, claim and lease commands

    One definition per arm of [CommandHandler::build_events] for the commands
    on tasks, on relations, on claims and on leases. *)

From S2P Require Import Prelude Shared TaskModel PlanModel RegistryModel Events EventStore TaskStore RelationStore PlanStore RunStore ClaimStore LeaseStore DocumentStore ProjectStore Handler.

Module TaskCommands.
  Import Handler.

Section Commands.
Context (env : Env).

(** [title.len() > 500] counts bytes. *)
Definition check_title (title : Str) : M Str :=
  let title := trim title in
  _ ← guard_ (negb (str_is_empty title)) (Validation "task title must not be empty");
  _ ← guard_ (negb (500 <? byte_len title)%Z) (Validation "task title must not exceed 500 characters");
  mret title.

Definition assign_id (n : NewTask) : M NewTask :=
  match NewTask.id n with
  | Some _ => mret n
  | None => id ← fresh env KTask; mret (n <| NewTask.id := Some id |>)
  end.

Definition create_task (task : NewTask) : M (list Event) :=
  _ ← guard_ (negb (plan_only_intake env))
        (Validation "plan_only_intake: direct task creation is disabled (ADR-0007); materialise a plan instead (MaterializePlan / daruma_plan materialisation)");
  title ← check_title (NewTask.title task);
  let task := normalize_external_key (task <| NewTask.title := title |>) in
  existing ← gets (fun s =>
    NewTask.external_key task ≫= fun k => pair k <$> TaskRepo.find_by_external_key (tasks s) k);
  match existing with
  | Some (k, x) => redelivered_create_events env (Task.id x) k task
  | None =>
      task ← assign_id task;
      quota ← gets (fun s => TenantQuotaRepo.check_task_quota (tenants s) (projects s) (tasks s)
                               (NewTask.project_id task));
      _ ← lift quota;
      mret [Event.TaskCreated task]
  end.

Definition normalize_git (patch : TaskPatch) : M TaskPatch :=
  match TaskPatch.git_context patch with
  | Some (Some ctx) =>
      match GitContext.normalized ctx with
      | Ok ctx => mret (patch <| TaskPatch.git_context := Some (Some ctx) |>)
      | Err msg => fail (Validation msg)
      end
  | _ => mret patch
  end.

Definition update_task (id : TaskId) (patch : TaskPatch) : M (list Event) :=
  _ ← guard_ (negb (TaskPatch.is_empty patch)) (Validation "update patch must not be empty");
  _ ← guard_ (negb (plan_only_intake env)
              || bool_decide (FieldOwnership.plan_owned_patch_fields patch = []))
        (Validation "plan_owned_immutable: field(s) {plan_owned:?} are plan-owned (ADR-0007 Q1) and cannot be patched via update_task. Use amend_plan_task against the owning plan instead. Execution-owned fields are unaffected: status and priority have their own commands (set_status, set_priority), and due_at still patches through update_task");
  patch ← normalize_git patch;
  _ ← guard_ (bool_decide (TaskPatch.pipeline_position patch = None))
        (Validation "pipeline_position is set only by advance_pipeline (ADR-0011)");
  task ← get_task id;
  _ ← (match TaskPatch.status patch with
       | Some s => if bool_decide (s = Task.status task) then mret tt
                   else ensure_direct_status_write id s
       | None => mret tt
       end);
  mret [Event.TaskUpdated id patch].

Definition complete_task (id : TaskId) (note : option CompletionNote) : M (list Event) :=
  task ← get_task id;
  _ ← guard_ (negb (bool_decide (Task.status task = Done))) (Conflict "task already done");
  _ ← ensure_direct_status_write id Done;
  _ ← reject_blocked id "task_blocked: blocked by {} task(s): {:?}";
  let note := (fun n => n <| CompletionNote.actor := Some (from_actor (actor env)) |>) <$> note in
  cascade ← downstream_cascade env id;
  docs ← close_task_documents env id Done;
  mret ([Event.TaskStatusChanged id (Task.status task) Done;
         Event.TaskCompleted id (now env) note;
         Event.TaskClosed id (actor env) (now env)] ++ cascade ++ docs).

(** The [for rel in &all_relations] loop of a deletion. *)
Fixpoint unlink_all (rels : list Relation) : M (list Event) :=
  match rels with
  | [] => mret []
  | rel :: rels =>
      _ ← delete_relation (Relation.id rel);
      rest ← unlink_all rels;
      mret (Event.TaskUnlinked (Relation.id rel) (Relation.from rel) (Relation.to rel)
              (Relation.kind rel) (now env) :: rest)
  end.

Definition delete_task (id : TaskId) : M (list Event) :=
  _ ← get_task id;
  docs ← gets (fun s => DocumentRepo.list_live_by_task (documents s) id);
  _ ← guard_ (bool_decide (length docs = 0%nat))
        (Validation "cannot delete a task anchoring live documents; archive or reanchor them first");
  all_relations ← gets (fun s => RelationRepo.list_by_task (relations s) id);
  to_unblock ← list_downstream_to_unblock id;
  unlinked ← unlink_all all_relations;
  plan_ids ← list_plans_for_task id;
  mret (unlinked ++ map (fun t => Event.TaskUnblocked t id (now env)) to_unblock
        ++ map (fun p => Event.PlanTaskRemoved p id) plan_ids ++ [Event.TaskDeleted id]).

Definition check_note (c : TransitionComment) : M (Str * option CommentKind) :=
  let body := trim (tc_body c) in
  _ ← guard_ (negb (str_is_empty body)) (Validation "transition comment body must not be empty");
  _ ← guard_ (negb (MAX_BODY_BYTES <? byte_len body)%Z)
        (Validation "transition comment body must not exceed {} bytes");
  mret (body, tc_kind c).

Definition set_status (id : TaskId) (status : Status) (comment : option TransitionComment)
  : M (list Event) :=
  task ← get_task id;
  note ← (match comment with
          | Some c => n ← check_note c; mret (Some n)
          | None => mret None
          end);
  events ← emit_status_transition_events env task status;
  match note with
  | None => mret events
  | Some (body, kind) =>
      match events with
      | [] => mret []
      | _ => tail ← comment_events env id body kind; mret (events ++ tail)
      end
  end.

Definition advance_pipeline (id : TaskId) (position : PipelinePosition) : M (list Event) :=
  _ ← validate_pipeline_target position;
  task ← pipeline_task id;
  current ← gets (fun s => TaskRepo.pipeline_position (tasks s) id);
  if bool_decide (current = Some position) then mret []
  else
    _ ← (match current ≫= Pipeline.fan_in_blocks with
         | Some msg => fail (Conflict msg)
         | None => mret tt
         end);
    advance_pipeline_events env task position.

Definition close_pipeline_stage (id : TaskId) (stage_index : Z) (instance : Str)
    (then_ : option PipelinePosition) : M (list Event) :=
  task ← pipeline_task id;
  current ← gets (fun s => TaskRepo.pipeline_position (tasks s) id);
  position ← some_or (Conflict "pipeline_unmanaged: task {id} has no pipeline position") current;
  _ ← guard_ (bool_decide (Pipeline.stage_index position = stage_index) || Pipeline.complete position)
        (Conflict "stale_stage: task {id} is at stage {} ({}), not {stage_index}");
  _ ← (match then_ with Some p => validate_pipeline_target p | None => mret tt end);
  let '(res, position) := Pipeline.close_instance position instance in
  match res with
  | Err msg => fail (Conflict msg)
  | Ok Pipeline.Repeat => mret []
  | Ok fan_in =>
      let head := Event.TaskUpdated id (position_patch position) in
      match fan_in, then_ with
      | Pipeline.Closed, Some p =>
          events ← advance_pipeline_events env task p;
          mret (head :: events)
      | _, _ => mret [head]
      end
  end.

Definition set_priority (id : TaskId) (priority : Priority) : M (list Event) :=
  task ← get_task id;
  if bool_decide (Task.priority task = priority) then mret []
  else mret [Event.TaskPriorityChanged id (Task.priority task) priority].

(** The tasks of the ids, or [None] when one is missing. *)
Definition load_all (ids : list TaskId) (msg : string) : M (list Task) :=
  found ← gets (fun s => map (TaskRepo.get (tasks s)) ids);
  _ ← guard_ (forallb (fun o => bool_decide (is_Some o)) found) (NotFound msg);
  mret (omap id found).

Definition bulk_set_status (ids : list TaskId) (status : Status) : M (list Event) :=
  let unique := dedupe_ids ids in
  _ ← validate_bulk_cap (length unique);
  tasks ← load_all unique "bulk_set_status: {} task(s) not found: {:?}";
  concat_mapM (fun task => emit_status_transition_events env task status) tasks.

(** [existing.last().map_or(0, |t| t.position + 1)]. *)
Definition next_position (members : list PlanTask) : Z :=
  match last members with Some m => (PlanTask.position m + 1)%Z | None => 0%Z end.

Definition add_at (plan_id : PlanId) (first : Z) (ids : list TaskId) : list Event :=
  imap (fun i id => Event.PlanTaskAdded plan_id id (first + Z.of_nat i)%Z []) ids.

Definition bulk_attach_to_plan (plan_id : PlanId) (task_ids : list TaskId) : M (list Event) :=
  let unique := dedupe_ids task_ids in
  _ ← validate_bulk_cap (length unique);
  plan ← gets (fun s => PlanRepo.get (plans s) plan_id);
  _ ← some_or (NotFound "plan {plan_id}") plan;
  _ ← load_all unique "bulk_attach_to_plan: {} task(s) not found: {:?}";
  existing ← gets (fun s => PlanRepo.list_tasks_ordered (plans s) plan_id);
  run ← active_run_for_plan plan_id;
  let added := List.filter (fun id => negb (bool_decide (id ∈ map PlanTask.task_id existing))) unique in
  mret (add_at plan_id (next_position existing) added
        ++ match added with [] => [] | _ => [Event.PlanModifiedByHuman plan_id run] end).

Fixpoint prepare_subtasks (project : option ProjectId) (subtasks : list NewTask)
  : M (list NewTask) :=
  match subtasks with
  | [] => mret []
  | st :: subtasks =>
      st ← assign_id st;
      let st := st <| NewTask.project_id := or_else (NewTask.project_id st) project |> in
      rest ← prepare_subtasks project subtasks;
      mret (st :: rest)
  end.

Definition attach_split (prepared : list NewTask) (plan_id : PlanId) : M (list Event) :=
  existing ← gets (fun s => PlanRepo.list_tasks_ordered (plans s) plan_id);
  run ← active_run_for_plan plan_id;
  mret (add_at plan_id (next_position existing) (omap NewTask.id prepared)
        ++ [Event.PlanModifiedByHuman plan_id run]).

Definition split_task (parent : TaskId) (subtasks : list NewTask) : M (list Event) :=
  _ ← guard_ (2 <=? length subtasks)%nat (Validation "split requires at least 2 subtasks");
  parent_task ← get_task parent;
  prepared ← prepare_subtasks (Task.project_id parent_task) subtasks;
  let events := Event.TaskSplitGenerated parent prepared :: map Event.TaskCreated prepared in
  if plan_only_intake env then
    parent_plans ← list_plans_for_task parent;
    _ ← guard_ (negb (bool_decide (parent_plans = [])))
          (Validation "split_requires_plan: parent task {parent} is not in any plan (ADR-0007 Q3); free split outside a plan is disabled — materialise or amend a plan instead");
    attached ← concat_mapM (attach_split prepared) parent_plans;
    mret (events ++ attached)
  else mret events.

(** ** Relations *)
Definition link_tasks (from to : TaskId) (kind : RelationKind) : M (list Event) :=
  cycle ← gets (fun s => RelationEnforcement.detect_cycle (relations s) from to kind);
  _ ← lift cycle;
  rid ← fresh env KRelation;
  _ ← insert_relation (Relation.mk rid from to kind (now env) (actor env));
  mret [Event.TaskLinked rid from to kind (actor env) (now env)].

Definition unlink_tasks (id : RelationId) : M (list Event) :=
  found ← gets (fun s => RelationRepo.get (relations s) id);
  relation ← some_or (NotFound "relation {id}") found;
  let from := Relation.from relation in
  let to := Relation.to relation in
  freed ← list_downstream_to_unblock from;
  let unblocked := bool_decide (Relation.kind relation = Blocks) && bool_decide (to ∈ freed) in
  _ ← delete_relation id;
  mret (Event.TaskUnlinked id from to (Relation.kind relation) (now env)
        :: if unblocked then [Event.TaskUnblocked to from (now env)] else []).

(** ** Claims and leases: the repositories decided before; the command records *)
Definition acquire_claim (agent : AgentId) (task : TaskId) (claim : ClaimId) (expires : Z)
  : M (list Event) := mret [Event.AgentClaimed agent task (Some claim) expires].
Definition release_claim (agent : AgentId) (task : TaskId) : M (list Event) :=
  mret [Event.AgentReleased agent task None].
Definition reserve_files (ls : list WorkLease) : M (list Event) := mret [Event.FilesReserved ls].
Definition release_files (agent : AgentId) (task : TaskId) (ids : option (list WorkLeaseId))
  : M (list Event) := mret [Event.FilesReleased agent task ids].
End Commands.
End TaskCommands.
