(* ===== verification/SourceIntake.v ===== *)
(** * core/plan_source.rs: the source of a plan at intake

    What [CreatePlan], [MaterializePlan] and [ExtendSource] do before their arm
    is built: a client chain becomes source nodes, the policy of the project
    fills in and checks the reference, a repeated source attaches the plan to the
    earliest one, and a plan that may continue another is refused until the
    caller chooses. *)

From S2P Require Import Prelude Shared TaskModel PlanModel Events TaskStore PlanStore SourceRef Gate SourceChain SourcePolicy PlanLogic ActivityStore WorkStore Handler.

Module SourceIntake.
  Import Handler LifecycleGate SourceRef SourceChain SourcePolicy.

Definition INTAKE_MARKER : Str := lit "daruma:legacy-intake".
Definition PLAN_CHOICE_COMPLETED_DAYS : Z := 7.
Definition day : Z := 86400 * 10 ^ 9.

Definition no_source : SourceInput := mkSourceInput None None None None [].
Definition is_note (r : Str) : bool := starts_with (lit "note:") r.

Section Intake.
Context (display : N -> Str) (env : Env).

Definition validated {A} (r : Result string A) : M A :=
  match r with Ok a => mret a | Err e => fail (Validation e) end.

(** ** Nodes *)
(** The closure that draws a uuid runs only for a node named by its label. *)
Definition needs_note (i : SourceInput) : bool :=
  match si_source_ref i, trimmed (si_label i) LABEL_MAX_LEN "" with
  | None, Ok (Some _) => true
  | _, _ => false
  end.
Definition node_of (i : SourceInput) : M SourceNode :=
  synthetic ← (if needs_note i
               then u ← fresh env KEvent; mret (lit "note:" ++ display (as_uuid u))
               else mret []);
  validated (to_node (valid_date (crates env)) synthetic (now env) (actor env) i).
(** [top] is the head of the chain, the only node that may carry [upstream]. *)
Fixpoint nodes_of (top : bool) (inputs : list SourceInput) : M (list SourceNode) :=
  match inputs with
  | [] => mret []
  | i :: inputs =>
      _ ← guard_ (top || bool_decide (length (si_upstream i) = 0%nat))
            (Validation "only the nearest source node may carry `upstream`");
      n ← node_of i;
      rest ← nodes_of false inputs;
      mret (n :: rest)
  end.
Definition source_nodes (head_ : option SourceInput) (more : list SourceInput) : M (list SourceNode) :=
  let inputs := match head_ with Some h => h :: si_upstream h ++ more | None => more end in
  _ ← guard_ (negb (SOURCE_CHAIN_MAX <? length inputs)%nat)
        (chain_invalid "a source chain holds at most {SOURCE_CHAIN_MAX} nodes");
  nodes_of (match head_ with Some _ => true | None => false end) inputs.

Definition normalized_opt (r : option Str) : Result CoreError (option Str) :=
  match r with
  | Some r => rbind (normalized r) (fun r => Ok (Some r))
  | None => Ok None
  end.

Definition prepare_plan_source (plan : NewPlan) : M (NewPlan * option GitContextT * list SourceNode) :=
  _ ← guard_ (negb (bool_decide (NewPlan.source_brief plan = Some INTAKE_MARKER)))
        (Validation "source_brief `{}` is reserved for the legacy intake plan");
  ref ← lift (normalized_opt (NewPlan.source_ref plan));
  nodes ← (match NewPlan.source plan with
           | Some source => source_nodes (Some source) []
           | None => mret []
           end);
  ref ← (match head nodes, ref with
         | Some nearest, Some explicit =>
             _ ← guard_ (bool_decide (explicit = SourceNode.source_ref nearest))
                   (Validation "`source.ref` `{}` differs from `source_ref` `{explicit}`; pass one");
             mret (Some explicit)
         | Some nearest, None => mret (Some (SourceNode.source_ref nearest))
         | None, _ => mret ref
         end);
  git ← (match NewPlan.git_context plan with
         | Some g => g ← validated (GitContext.normalized g); mret (Some g)
         | None => mret None
         end);
  mret (plan <| NewPlan.source_ref := ref |> <| NewPlan.source := None |> <| NewPlan.git_context := git |>,
        git, nodes).

(** ** The policy *)
Definition intake_policy (project : ProjectId) : M IntakeSourcePolicy :=
  gets (fun s => default intake_policy_default (ProjectSettingsRepo.intake_source (settings s) project)).

Definition is_set (v : option Str) : bool := negb (blank v).
Definition node_explains (n : SourceNode) : bool :=
  is_set (SourceNode.note n) || (is_note (SourceNode.source_ref n) && is_set (SourceNode.label n)).
Definition source_explained (brief : option Str) (incoming : option SourceNode) (source_ref : option Str)
  : M bool :=
  if is_set brief || match incoming with Some n => node_explains n | None => false end then mret true
  else match source_ref with
       | None => mret false
       | Some r => gets (fun s => match PlanRepo.get_source (plans s) r with
                                  | Some n => node_explains n
                                  | None => false
                                  end)
       end.

Definition inherited_ref (t : PlanTables) (plan : NewPlan) : option Str :=
  parent ← NewPlan.parent_plan_id plan;
  p ← PlanRepo.get t parent;
  Plan.source_ref p.
(** Explicit, inherited, derived and default references, in this order; with
    whether the plan may be attached to an earlier one. *)
Definition resolve_ref (policy : IntakeSourcePolicy) (plan : NewPlan) (git : option GitContextT)
  : M (option Str * bool) :=
  match NewPlan.source_ref plan with
  | Some r => mret (Some r, negb (is_note r))
  | None =>
      inherited ← gets (fun s => inherited_ref (plans s) plan);
      match inherited with
      | Some r => mret (Some r, false)
      | None =>
          derived ← lift (derived_ref (regex (crates env)) policy (git ≫= GitContext.branch));
          match derived with
          | Some r => mret (Some r, true)
          | None => r ← lift (normalized_opt (ip_default_ref policy)); mret (r, false)
          end
      end
  end.

Definition relabelled {A} (msg : string) (r : Result CoreError A) : Result CoreError A :=
  match r with Ok a => Ok a | Err _ => Err (Validation msg) end.
Definition auto_parent (plan : NewPlan) (source_ref : option Str) (may : bool)
  : M (NewPlan * list MutationWarning) :=
  match source_ref, NewPlan.parent_plan_id plan, may with
  | Some r, None, true =>
      root ← gets (fun s => PlanRepo.earliest_by_source_ref (plans s) (NewPlan.project_id plan) r);
      match root with
      | None => mret (plan, [])
      | Some root =>
          unborn ← fresh env KPlan;
          ok ← gets (fun s => ParentChain.detect_parent_cycle (plans s) unborn root);
          _ ← lift (relabelled "auto-parent to plan {root} (earliest plan with source `{source_ref}`) failed: {e}; pass an explicit parent_plan_id" ok);
          mret (plan <| NewPlan.parent_plan_id := Some root |>,
                [warning "plan_auto_parented"
                   "a plan with source `{source_ref}` already exists; this plan was attached to it as a child"
                   (JObj [("parent_plan_id"%string, JStr (display (as_uuid root)));
                          ("source_ref"%string, JStr r)])])
      end
  | _, _, _ => mret (plan, [])
  end.

Definition apply_source_policy (plan : NewPlan) (git : option GitContextT) (nearest : option SourceNode)
  : M (NewPlan * list MutationWarning) :=
  policy ← intake_policy (NewPlan.project_id plan);
  r ← resolve_ref policy plan git;
  let '(source_ref, may) := r in
  p ← auto_parent (plan <| NewPlan.source_ref := source_ref |>) source_ref may;
  let '(plan, ws) := p in
  explained ← source_explained (NewPlan.source_brief plan) nearest source_ref;
  found ← lift (source_policy_findings (regex (crates env)) policy source_ref explained);
  mret (plan, ws ++ found).

(** ** Events *)
Definition link_in_state (nodes : list SourceNode) (keep_existing : bool)
  : M (list Event * list MutationWarning) :=
  r ← gets (fun s => link_sources (plans s) nodes keep_existing);
  lift r.
Definition ref_node (r : Str) : M SourceNode := node_of (mkSourceInput (Some r) None None None []).
Definition plan_source_events (plan : NewPlan) (nodes : list SourceNode)
  : M (list Event * list MutationWarning) :=
  match nodes, NewPlan.source_ref plan with
  | [], None => mret ([], [])
  | [], Some r => n ← ref_node r; link_in_state [n] true
  | _, _ => link_in_state nodes true
  end.

Definition resolve_plan_source (plan : NewPlan) : M (NewPlan * list MutationWarning * list Event) :=
  r ← prepare_plan_source plan;
  let '(plan, git, nodes) := r in
  p ← apply_source_policy plan git (head nodes);
  let '(plan, ws) := p in
  e ← plan_source_events plan nodes;
  mret (plan, ws ++ e.2, e.1).
(** [CreatePlan] with an [external_ref]: the shape checks only. *)
Definition shape_plan_source (plan : NewPlan) : M (NewPlan * list MutationWarning * list Event) :=
  r ← prepare_plan_source plan;
  let '(plan, _, nodes) := r in
  e ← plan_source_events plan nodes;
  mret (plan, e.2, e.1).

(** ** Continuing or creating *)
Definition pending_links (events : list Event) : gmap Str (option Str) :=
  foldl (fun m e => match e with
                    | Event.SourceUpserted n => <[SourceNode.source_ref n := SourceNode.upstream_ref n]> m
                    | _ => m
                    end) ∅ events.
(** Every turn adds a reference; the loop stops at [SOURCE_CHAIN_MAX] of them. *)
Fixpoint chain_from (t : PlanTables) (pending : gmap Str (option Str)) (fuel : nat) (chain : list Str)
    (next : option Str) : list Str :=
  match fuel, next with
  | S fuel, Some r =>
      if bool_decide (r ∈ chain) then chain
      else chain_from t pending fuel (chain ++ [r])
             (match pending !! r with
              | Some up => up
              | None => PlanRepo.get_source t r ≫= SourceNode.upstream_ref
              end)
  | _, _ => chain
  end.
Fixpoint labels_from (t : PlanTables) (fuel : nat) (next : option Str) : list Str :=
  match fuel, next with
  | S fuel, Some r =>
      let node := PlanRepo.get_source t r in
      default r (node ≫= SourceNode.label) :: labels_from t fuel (node ≫= SourceNode.upstream_ref)
  | _, _ => []
  end.
Definition candidate_json (s : St) (p : Plan) : Json :=
  let members := PlanRepo.list_tasks_ordered (plans s) (Plan.id p) in
  let recent := omap (fun m => Task.title <$> TaskRepo.get (tasks s) (PlanTask.task_id m)) (take 3 (rev members)) in
  JObj [("plan_id"%string, JStr (display (as_uuid (Plan.id p))));
        ("title"%string, JStr (Plan.title p)); ("goal"%string, JStr (Plan.goal p));
        ("status"%string, JStr (lit (plan_status_str (Plan.status p))));
        ("updated_at"%string, JStr (time_text (serde (crates env)) (Plan.updated_at p)));
        ("source_label_chain"%string, JArr (map JStr (labels_from (plans s) SOURCE_CHAIN_MAX (Plan.source_ref p))));
        ("recent_tasks"%string, JArr (map JStr recent))].
Definition choice_error (s : St) (candidates : list Plan) : CoreError :=
  CodedConflict "plan_choice_required"
    "{total} existing plan(s) share this branch or source chain: same subject of work → pass `plan.id` (a completed plan reopens); another subject → pass `plan.separate: true`"
    (JObj [("candidates"%string, JArr (map (candidate_json s) (take PLAN_CHOICE_MAX candidates)));
           ("total"%string, JNum (Z.of_nat (length candidates)));
           ("hint"%string, JStr (lit "same subject of work → plan.id (completed reopens); another subject → plan.separate=true"))]).

(** The references the plan may be recognised by: its chain without the default
    reference of the project. *)
Definition chain_of (t : PlanTables) (source_ref : option Str) (events : list Event) (default_ref : option Str)
  : list Str :=
  let chain := chain_from t (pending_links events) SOURCE_CHAIN_MAX [] source_ref in
  if bool_decide (head chain = default_ref) then []
  else List.filter (fun r => negb (bool_decide (Some r = default_ref))) chain.
Definition topic_branch (git : option GitContextT) : option Str :=
  g ← git;
  b ← GitContext.branch g;
    if bool_decide (to_ascii_lowercase b ∈ TRUNK_BRANCHES) then None else Some b.
Definition fresh_enough (p : Plan) : bool :=
  negb (bool_decide (Plan.status p = Completed))
  || (now env - PLAN_CHOICE_COMPLETED_DAYS * day <=? Plan.updated_at p)%Z.

Definition require_plan_choice (plan : NewPlan) (events : list Event) : M unit :=
  policy ← intake_policy (NewPlan.project_id plan);
  default_ref ← lift (normalized_opt (ip_default_ref policy));
  chain ← gets (fun s => chain_of (plans s) (NewPlan.source_ref plan) events default_ref);
  let branch := topic_branch (NewPlan.git_context plan) in
  if bool_decide (chain = []) && bool_decide (branch = None) then mret tt
  else
    let repo := match branch with Some _ => NewPlan.git_context plan ≫= GitContext.repo | None => None end in
    candidates ← gets (fun s => sort_by plan_order (List.filter fresh_enough
      (continuation_candidates (plans s) (tasks s) (NewPlan.project_id plan) chain repo branch)));
    match candidates with
    | [] => mret tt
    | _ => e ← gets (fun s => choice_error s candidates); fail e
    end.

(** ** Appending to a plan *)
Definition given (v : option Str) : option Str :=
  v ≫= fun v => let v := trim v in if str_is_empty v then None else Some v.
Fixpoint lines (l : list Str) : Str :=
  match l with
  | [] => []
  | [x] => x
  | x :: l => x ++ newline ++ lines l
  end.
Definition stored_label (t : PlanTables) (plan : Plan) : option Str :=
  r ← Plan.source_ref plan;
  n ← PlanRepo.get_source t r;
  SourceNode.label n.
Definition appended_source_note (plan : Plan) (incoming : NewPlan) : M (option Str) :=
  let source := NewPlan.source incoming in
  incoming_ref ← lift (normalized_opt (or_else (given (source ≫= si_source_ref)) (given (NewPlan.source_ref incoming))));
  label ← gets (fun s => stored_label (plans s) plan);
  let ref_line := incoming_ref ≫= fun r =>
    if bool_decide (Plan.source_ref plan = Some r) then None else Some (lit "Source: " ++ r) in
  let label_line := (given (source ≫= si_label)) ≫= fun l =>
    if bool_decide (given label = Some l) then None else Some (lit "Source label: " ++ l) in
  let brief_line := (given (NewPlan.source_brief incoming)) ≫= fun b =>
    if bool_decide (given (Plan.source_brief plan) = Some b) then None
    else Some (lit "Brief: " ++ take APPENDED_BRIEF_MAX b) in
  match omap id [ref_line; label_line; brief_line] with
  | [] => mret None
  | ls => mret (Some (lit "Added to plan " ++ Ids.display display (Plan.id plan)
                      ++ lit " from a source other than the plan's own (`"
                      ++ default (lit "none") (Plan.source_ref plan) ++ lit "`, kept)."
                      ++ newline ++ lines ls))
  end.

(** ** Extending a chain *)
Fixpoint top_of (t : PlanTables) (fuel : nat) (top : Str) : Str :=
  match fuel with
  | O => top
  | S fuel =>
      match PlanRepo.get_source t top ≫= SourceNode.upstream_ref with
      | Some up => top_of t fuel up
      | None => top
      end
  end.
(** The first source of a plan that has none. *)
Definition first_source (id : PlanId) (plan : Plan) (source : SourceInput) (upstream : list SourceInput)
  : M (list MutationWarning * list Event) :=
  nodes ← source_nodes (Some source) upstream;
  nearest ← some_or (Storage "index out of bounds") (head nodes);
  let nearest := SourceNode.source_ref nearest in
  policy ← intake_policy (Plan.project_id plan);
  explained ← source_explained (Plan.source_brief plan) (head nodes) (Some nearest);
  ws ← lift (source_policy_findings (regex (crates env)) policy (Some nearest) explained);
  e ← link_in_state nodes false;
  mret (ws, e.1 ++ [Event.PlanSourceSet id nearest (now env)]).
(** Attach [upstream] to the top of the chain that starts at [start]. *)
Definition attach_upstream (by_ref : bool) (start : Str) (upstream : list SourceInput)
  : M (list MutationWarning * list Event) :=
  _ ← guard_ (negb (bool_decide (length upstream = 0%nat)))
        (Validation "`upstream` (nearest first) is required to extend a chain");
  top ← gets (fun s => top_of (plans s) SOURCE_CHAIN_MAX start);
  _ ← guard_ (negb (by_ref && negb (bool_decide (top = start))))
        (CodedConflict "source_upstream_conflict"
           "source `{start}` already has an upstream; extend the chain's top node `{top}` instead"
           (JObj [("ref"%string, JStr start); ("top"%string, JStr top)]));
  n ← ref_node top;
  rest ← source_nodes None upstream;
  e ← link_in_state (n :: rest) false;
  mret ([], e.1).
Definition extend_source (plan_id : option PlanId) (source_ref : option Str) (source : option SourceInput)
    (upstream : list SourceInput) : M (list MutationWarning * list Event) :=
  match plan_id, source_ref with
  | Some id, None =>
      plan ← gets (fun s => PlanRepo.get (plans s) id);
      plan ← some_or (NotFound "plan {id}") plan;
      match Plan.source_ref plan, source with
      | None, Some source => first_source id plan source upstream
      | None, None => fail (Validation "plan {id} has no source yet: pass `source`")
      | Some _, Some _ => fail (coded_conflict "plan_source_already_set"
                                  "plan {id} already has source `{set}`; extend it with `upstream`")
      | Some start, None => attach_upstream false start upstream
      end
  | None, Some raw =>
      _ ← guard_ (match source with None => true | Some _ => false end)
            (Validation "`source` sets a plan's first source: pass `plan_id`, or `upstream` to extend `ref`");
      start ← lift (normalized raw);
      known ← gets (fun s => PlanRepo.get_source (plans s) start);
      _ ← some_or (NotFound "source `{start}`") known;
      attach_upstream true start upstream
  | _, _ => fail (Validation "pass exactly one of `plan_id` / `ref`")
  end.
End Intake.
End SourceIntake.
