(* ===== verification/PlanCommands.v ===== *)
(** * core/handler.rs: the project, plan and run commands

    One definition per arm of [CommandHandler::build_events] for the commands
    on projects, plans, plan membership and runs, the materialisation of a new
    plan with its tasks, and [append_plan_reconciliations], which closes plans
    whose work is done. *)

From S2P Require Import Prelude Shared TaskModel PlanModel RegistryModel Events EventStore TaskStore RelationStore PlanStore RunStore ClaimStore LeaseStore DocumentStore ProjectStore PlanLogic Handler TaskCommands SourceIntake.
From stdpp Require Import pretty.

Module ProjectCommands.
  Import Handler.

Section Commands.
Context (env : Env).

(** [format!("{base_slug}-{suffix}")]. *)
Definition suffixed (base : Str) (suffix : N) : Str :=
  if (suffix =? 0)%N then base else base ++ lit "-" ++ lit (pretty suffix).

(** The [while] loop over suffixes.  The taken slugs are finitely many, so one
    more attempt than there are projects finds a free one
    ([SlugFacts.free_slug_total]). *)
Fixpoint free_slug (fuel : nat) (taken : list Str) (base : Str) (suffix : N) : option Str :=
  let slug := suffixed base suffix in
  if existsb (fun s => bool_decide (s = slug)) taken then
    match fuel with
    | O => None
    | S fuel => free_slug fuel taken base (suffix + 1)%N
    end
  else Some slug.

Definition create_project (title : Str) (description : option Str) : M (list Event) :=
  let trimmed := trim title in
  _ ← guard_ (negb (str_is_empty trimmed)) (Validation "project title must not be empty");
  existing ← gets (fun s => ProjectRepo.list_all (projects s));
  let taken := map Project.slug existing in
  slug ← some_or (Validation "out of fuel")
           (free_slug (length taken) taken (Project.slugify_title trimmed) 0);
  pid ← fresh env KProject;
  mret [Event.ProjectCreated (Project.new_with_slug pid (now env) trimmed slug description)].

Definition get_project (id : ProjectId) : M Project :=
  p ← gets (fun s => ProjectRepo.get (projects s) id);
  some_or (NotFound "project {id}") p.

Definition update_project (id : ProjectId) (title : option Str)
    (description : option (option Str)) : M (list Event) :=
  _ ← guard_ (negb (bool_decide (title = None) && bool_decide (description = None)))
        (Validation "update must set at least one field");
  _ ← get_project id;
  mret [Event.ProjectUpdated id title description].

Definition delete_project (id : ProjectId) : M (list Event) :=
  _ ← get_project id;
  tasks ← gets (fun s => TaskRepo.list_by_project_filtered (tasks s) (Some id) []);
  _ ← guard_ (bool_decide (length tasks = 0%nat)) (Conflict "project_not_empty: {} task(s) attached");
  mret [Event.ProjectDeleted id].
End Commands.
End ProjectCommands.

Module PlanCommands.
  Import Handler.

Section Commands.
Context (env : Env).

Definition get_plan (id : PlanId) : M Plan :=
  p ← gets (fun s => PlanRepo.get (plans s) id);
  some_or (NotFound "plan {id}") p.
Definition members_of (id : PlanId) : M (list PlanTask) :=
  gets (fun s => PlanRepo.list_tasks_ordered (plans s) id).
Definition active_runs (id : PlanId) : M (list Run) :=
  gets (fun s => RunRepo.list_active_for_plan (runs s) id).

Definition check_plan_title (title : Str) : M Str :=
  let title := trim title in
  _ ← guard_ (negb (str_is_empty title)) (Validation "plan title must not be empty");
  _ ← guard_ (negb (500 <? byte_len title)%Z) (Validation "plan title must not exceed 500 characters");
  mret title.

Definition check_parent (id : PlanId) (parent : option PlanId) : M unit :=
  match parent with
  | None => mret tt
  | Some p =>
      ok ← gets (fun s => ParentChain.detect_parent_cycle (plans s) id p);
      lift ok
  end.

(** The checks and the id shared by [CreatePlan] and [MaterializePlan]. *)
Definition prepare_plan (plan : NewPlan) : M (PlanId * NewPlan) :=
  title ← check_plan_title (NewPlan.title plan);
  let plan := plan <| NewPlan.title := title |> in
  quota ← gets (fun s => TenantQuotaRepo.check_plan_quota (tenants s) (projects s) (plans s)
                           (NewPlan.project_id plan));
  _ ← lift quota;
  id ← fresh env KPlan;
  _ ← check_parent id (NewPlan.parent_plan_id plan);
  mret (id, plan).

Definition create_plan (plan : NewPlan) (external_ref : option (Str * Str * Str))
  : M (list Event) :=
  known ← gets (fun s => external_ref ≫= fun k => external_refs s !! k);
  match known with
  | Some _ => mret []
  | None =>
      r ← prepare_plan plan;
      mret [Event.PlanCreated (NewPlan.into_plan r.2 r.1 (now env))]
  end.

(** ** Materialisation *)
Record MaterializeTarget : Type := mkTarget {
  mt_plan_id : PlanId;
  mt_project_id : ProjectId;
  mt_git_context : option GitContextT;
  mt_first_position : Z;
  mt_members : list TaskId;
  mt_source_note : option Str }.

(** One turn of the loop: the events of the task and its id. *)
Definition materialize_one (target : MaterializeTarget) (batch_keys : list Str) (task : NewTask)
  : M (list Event * TaskId * list Str) :=
  title ← TaskCommands.check_title (NewTask.title task);
  let task := normalize_external_key (task <| NewTask.title := title |>) in
  batch_keys ← (match NewTask.external_key task with
                | Some k =>
                    _ ← guard_ (negb (bool_decide (k ∈ batch_keys)))
                          (Validation "duplicate_external_key_in_materialize_plan: `{external_key}`");
                    mret (k :: batch_keys)
                | None => mret batch_keys
                end);
  let task := task <| NewTask.status := or_else (NewTask.status task) (Some Todo) |>
                   <| NewTask.project_id := Some (mt_project_id target) |> in
  existing ← gets (fun s =>
    NewTask.external_key task ≫= fun k => pair k <$> TaskRepo.find_by_external_key (tasks s) k);
  match existing with
  | Some (k, x) =>
      _ ← guard_ (bool_decide (Task.project_id x = Some (mt_project_id target)))
            (Validation "external_key_project_mismatch: external_key `{ext_key}` belongs to project {:?}, not plan project {project_id}");
      es ← redelivered_create_events env (Task.id x) k task;
      mret (es, Task.id x, batch_keys)
  | None =>
      task ← TaskCommands.assign_id env task;
      let id := default (mkId 0) (NewTask.id task) in
      let git := match mt_git_context target with
                 | Some g => [Event.TaskUpdated id
                                (TaskPatch.empty <| TaskPatch.git_context := Some (Some g) |>)]
                 | None => []
                 end in
      note ← (match mt_source_note target with
              | Some n => task_comment_events env id n
              | None => mret []
              end);
      mret (Event.TaskCreated task :: git ++ note, id, batch_keys)
  end.

Fixpoint materialized_task_events (target : MaterializeTarget) (position : Z)
    (batch_keys : list Str) (new_tasks : list NewTask) : M (list Event) :=
  match new_tasks with
  | [] => mret []
  | task :: new_tasks =>
      r ← materialize_one target batch_keys task;
      let '(es, id, batch_keys) := r in
      let attached := negb (bool_decide (id ∈ mt_members target)) in
      rest ← materialized_task_events target (if attached then position + 1 else position)%Z
               batch_keys new_tasks;
      mret (es ++ (if attached then [Event.PlanTaskAdded (mt_plan_id target) id position []] else [])
            ++ rest)
  end.

(** [MaterializePlan] without [plan_id]. *)
Definition materialize_plan (plan : NewPlan) (new_tasks : list NewTask) : M (list Event) :=
  _ ← guard_ (negb (bool_decide (length new_tasks = 0%nat)))
        (Validation "materialize_plan requires at least one task");
  r ← prepare_plan plan;
  let '(id, plan) := r in
  let new_plan := NewPlan.into_plan (plan <| NewPlan.git_context := None |>) id (now env)
                  <| Plan.status := Active |> in
  es ← materialized_task_events
         (mkTarget id (NewPlan.project_id plan) (NewPlan.git_context plan) 0 [] None) 0 [] new_tasks;
  mret (Event.PlanCreated new_plan :: es).

(** ** Changes of a plan *)
Definition update_plan (id : PlanId) (patch : PlanPatch) : M (list Event) :=
  _ ← guard_ (negb (PlanPatch.is_empty patch)) (Validation "update patch must not be empty");
  plan ← get_plan id;
  _ ← check_parent id (PlanPatch.parent_plan_id patch ≫= fun p => p);
  mret ((match PlanPatch.goal patch with
         | Some g => if bool_decide (g = Plan.goal plan) then []
                     else [Event.PlanGoalChanged id (Plan.goal plan) g]
         | None => []
         end) ++ [Event.PlanUpdated id patch]).

Definition is_set {A} (o : option A) : bool := match o with Some _ => true | None => false end.

Definition amend_plan_task (plan_id : PlanId) (task_id : TaskId) (patch : TaskPatch)
  : M (list Event) :=
  _ ← guard_ (negb (TaskPatch.is_empty patch)) (Validation "amend patch must not be empty");
  _ ← guard_ (negb (is_set (TaskPatch.status patch) || is_set (TaskPatch.priority patch)
                    || is_set (TaskPatch.triage_state patch) || is_set (TaskPatch.due_at patch)))
        (Validation "amend_patch_has_execution_fields: amend_plan_task patches only plan-owned fields (title/description/project_id). Execution-owned fields go through set_status / set_priority / update_task");
  _ ← guard_ (negb (bool_decide (FieldOwnership.plan_owned_patch_fields patch = [])))
        (Validation "amend patch must set at least one plan-owned field (title/description/project_id)");
  _ ← get_plan plan_id;
  _ ← get_task task_id;
  members ← members_of plan_id;
  _ ← guard_ (existsb (fun m => bool_decide (PlanTask.task_id m = task_id)) members)
        (Validation "task_not_in_plan: task {task_id} is not a member of plan {plan_id}");
  run ← active_run_for_plan plan_id;
  mret [Event.PlanTaskAmended plan_id task_id patch; Event.TaskUpdated task_id patch;
        Event.PlanModifiedByHuman plan_id run].

Definition abort_events (plan : PlanId) (reason : string) (rs : list Run) : list Event :=
  mjoin (map (fun r =>
    [Event.RunAborted (Run.id r) (lit reason) (now env);
     Event.RunObsolescedByPlanEdit (Run.id r) plan PlanWasArchived]) rs).

Definition archive_plan (id : PlanId) : M (list Event) :=
  plan ← get_plan id;
  match Plan.archived_at plan with
  | Some _ => mret []
  | None =>
      rs ← active_runs id;
      mret (Event.PlanArchived id (now env) :: abort_events id "plan_archived" rs)
  end.

Definition delete_plan (id : PlanId) : M (list Event) :=
  _ ← get_plan id;
  members ← members_of id;
  _ ← guard_ (bool_decide (length members = 0%nat)) (Conflict "plan_not_empty: {attached} task(s) attached");
  rs ← active_runs id;
  mret (Event.PlanDeleted id (now env) :: abort_events id "plan_deleted" rs).

Definition add_plan_task (plan_id : PlanId) (task_id : TaskId) (position : option Z)
    (depends_on : option (list TaskId)) : M (list Event) :=
  _ ← get_plan plan_id;
  _ ← get_task task_id;
  members ← members_of plan_id;
  run ← active_run_for_plan plan_id;
  mret [Event.PlanTaskAdded plan_id task_id
          (default (TaskCommands.next_position members) position) (default [] depends_on);
        Event.PlanModifiedByHuman plan_id run].

(** The first active run whose current step is the task. *)
Fixpoint contested_run (rt : RunTables) (task_id : TaskId) (rs : list Run) : option Run :=
  match rs with
  | [] => None
  | r :: rs =>
      if bool_decide (RunRepo.current_step_task rt (Run.id r) = Some task_id) then Some r
      else contested_run rt task_id rs
  end.

(** [Actor::agent(name)] draws an id of its own and carries the agent's id as
    its name. *)
Definition remove_plan_task (agent_name : AgentId -> Str) (plan_id : PlanId) (task_id : TaskId)
  : M (list Event) :=
  _ ← get_plan plan_id;
  rs ← active_runs plan_id;
  contested ← gets (fun s => contested_run (runs s) task_id rs);
  match contested with
  | None => mret [Event.PlanTaskRemoved plan_id task_id]
  | Some r =>
      aid ← fresh env KAgent;
      mret [Event.PlanTaskRemoved plan_id task_id;
            Event.TaskContested task_id [actor env; Agent aid (agent_name (Run.agent_id r)) None] None;
            Event.RunStepFinished (Run.id r) task_id Superseded (now env)]
  end.

Definition reorder_plan (plan_id : PlanId) (order : list TaskId) : M (list Event) :=
  _ ← get_plan plan_id;
  run ← active_run_for_plan plan_id;
  mret [Event.PlanReordered plan_id order; Event.PlanModifiedByHuman plan_id run].

Definition set_plan_goal (plan_id : PlanId) (goal : Str) : M (list Event) :=
  plan ← get_plan plan_id;
  if bool_decide (Plan.goal plan = goal) then mret []
  else mret [Event.PlanGoalChanged plan_id (Plan.goal plan) goal;
             Event.PlanUpdated plan_id (PlanPatch.empty <| PlanPatch.goal := Some goal |>)].

(** A member whose task row is missing does not hold the plan open here. *)
Definition unfinished (t : TaskTable) (m : PlanTask) : bool :=
  match TaskRepo.get t (PlanTask.task_id m) with
  | Some x => negb (is_terminal (Task.status x))
  | None => false
  end.

Definition set_plan_status (plan_id : PlanId) (status : PlanStatus) : M (list Event) :=
  plan ← get_plan plan_id;
  if bool_decide (Plan.status plan = status) then mret []
  else
    members ← members_of plan_id;
    open ← gets (fun s => existsb (unfinished (tasks s)) members);
    _ ← guard_ (negb (bool_decide (status = Completed) && open))
          (Validation "cannot complete plan: it has unfinished tasks (move them to done/cancelled first)");
    mret [Event.PlanStatusChanged plan_id (Plan.status plan) status].

(** ** Runs *)
Definition get_run (id : RunId) : M Run :=
  r ← gets (fun s => RunRepo.get (runs s) id);
  some_or (NotFound "run {run_id}") r.

Definition start_run (plan_id : PlanId) (agent_id : AgentId) (parent_run_id : option RunId)
  : M (list Event) :=
  plan ← get_plan plan_id;
  _ ← guard_ (bool_decide (Plan.status plan = Active) && bool_decide (Plan.archived_at plan = None))
        (Validation "plan must be Active to start a run");
  id ← fresh env KRun;
  mret [Event.RunStarted (Run.mk id plan_id agent_id parent_run_id (now env) None RunActive None
                            (Some (now env)) None None)].

Definition run_start_step (run_id : RunId) (task_id : TaskId) : M (list Event) :=
  run ← get_run run_id;
  _ ← guard_ (bool_decide (Run.status run = RunActive)) (Validation "run is not active");
  mret [Event.RunStepStarted run_id task_id (now env)].

Definition run_finish_step (run_id : RunId) (task_id : TaskId) (outcome : RunOutcome)
  : M (list Event) :=
  _ ← get_run run_id;
  latest ← gets (fun s => last (List.filter (fun st => bool_decide (RunStep.task_id st = task_id))
                                            (RunRepo.list_steps (runs s) run_id)));
  match latest with
  | Some st =>
      if is_set (RunStep.finished_at st) && bool_decide (RunStep.outcome st = Some outcome)
      then mret []
      else mret [Event.RunStepFinished run_id task_id outcome (now env)]
  | None => mret [Event.RunStepFinished run_id task_id outcome (now env)]
  end.

Definition fail_run (run_id : RunId) (reason : Str) : M (list Event) :=
  _ ← get_run run_id; mret [Event.RunFailed run_id reason (now env)].
Definition abort_run (run_id : RunId) (reason : Str) : M (list Event) :=
  _ ← get_run run_id; mret [Event.RunAborted run_id reason (now env)].

Definition RUN_NOTE_MAX_BYTES : Z := 4096.

(** The size limit is on the untrimmed body. *)
Definition append_run_note (run_id : RunId) (body : Str) : M (list Event) :=
  _ ← guard_ (negb (str_is_empty (trim body))) (Validation "run note body must not be empty");
  _ ← guard_ (negb (RUN_NOTE_MAX_BYTES <? byte_len body)%Z)
        (Validation "run note body must not exceed {RUN_NOTE_MAX_BYTES} bytes");
  run ← get_run run_id;
  _ ← guard_ (bool_decide (Run.status run = RunActive))
        (Validation "cannot append a note to a terminal run");
  id ← fresh env KRunNote;
  mret [Event.RunNoteAppended run_id id body (actor env) (now env)].

Definition send_run_signal (run_id : RunId) (kind : SignalKind) : M (list Event) :=
  _ ← get_run run_id;
  match kind with
  | Stop reason => mret [Event.RunStopRequested run_id reason (actor env)]
  | Elicit prompt choices => mret [Event.RunElicitationRequested run_id prompt choices]
  | AuthRequired scope => mret [Event.RunAuthRequired run_id scope]
  | InterventionAccepted _ =>
      fail (Validation "use RespondRunSignal to respond to an elicitation")
  end.

Definition respond_run_signal (run_id : RunId) (choice : Str) : M (list Event) :=
  _ ← get_run run_id; mret [Event.RunInterventionAccepted run_id choice (actor env)].
End Commands.

(** ** Appending to an existing plan: [MaterializePlan] with [plan_id] *)
Section Append.
Context (display : N -> Str) (env : Env).

(** The latest git context the tasks of the plan carry. *)
Definition member_context (s : St) (members : list PlanTask) : option GitContextT :=
  head (omap (fun m => t ← TaskRepo.get (tasks s) (PlanTask.task_id m); Task.git_context t) (rev members)).
Definition next_first_position (members : list PlanTask) : Z :=
  match last members with Some m => PlanTask.position m + 1 | None => 0 end.

Definition append_materialized_tasks (plan_id : PlanId) (plan : NewPlan) (new_tasks : list NewTask)
  : M (list Event) :=
  existing ← get_plan plan_id;
  _ ← guard_ (bool_decide (Plan.archived_at existing = None))
        (Validation "plan {plan_id} is archived: tasks cannot be added to it, materialize a new plan");
  reopened ← (match Plan.status existing with
              | Abandoned => fail (Validation "plan {plan_id} is abandoned: tasks cannot be added to it, materialize a new plan")
              | Completed => mret [Event.PlanStatusChanged plan_id Completed Active]
              | Draft | Active => mret []
              end);
  source_note ← SourceIntake.appended_source_note display existing plan;
  members ← members_of plan_id;
  git ← (match NewPlan.git_context plan with
         | Some g => g ← SourceIntake.validated (GitContext.normalized g); mret (Some g)
         | None => gets (fun s => member_context s members)
         end);
  es ← materialized_task_events env
         (mkTarget plan_id (Plan.project_id existing) git (next_first_position members)
                   (map PlanTask.task_id members) source_note)
         (next_first_position members) [] new_tasks;
  mret (reopened ++ es).

Definition append_to_plan (plan_id : PlanId) (plan : NewPlan) (new_tasks : list NewTask) : M (list Event) :=
  _ ← guard_ (negb (bool_decide (length new_tasks = 0%nat)))
        (Validation "materialize_plan requires at least one task");
  append_materialized_tasks plan_id plan new_tasks.
End Append.
End PlanCommands.
