(* ===== verification/DocumentCommands.v ===== *)
(** * core/handler.rs: the document commands

    One definition per arm of [CommandHandler::build_events] for the commands
    on documents, and the guard that a live document has a live anchor. *)

From S2P Require Import Prelude Shared TaskModel PlanModel RegistryModel Events EventStore TaskStore RelationStore PlanStore RunStore ClaimStore LeaseStore DocumentStore ProjectStore Handler.

Module DocumentCommands.
  Import Handler.

Section Commands.
Context (env : Env).

Definition require_document (id : DocumentId) : M Document :=
  d ← gets (fun s => DocumentRepo.get (documents s) id);
  some_or (NotFound "document {id}") d.

Definition require_live_document_anchor (status : DocumentStatus) (task_id : option TaskId)
  : M unit :=
  if bool_decide (status = DocDraft) || bool_decide (status = DocActive) then
    id ← some_or (Validation "live document requires a task_id") task_id;
    task ← get_task id;
    guard_ (negb (is_terminal (Task.status task)))
      (Validation "live document requires a non-terminal task")
  else mret tt.

Definition check_doc_title (title : Str) : M Str :=
  let title := trim title in
  _ ← guard_ (negb (str_is_empty title)) (Validation "document title must not be empty");
  _ ← guard_ (negb (500 <? byte_len title)%Z)
        (Validation "document title must not exceed 500 characters");
  mret title.

Definition create_document (new_doc : Document.NewDocument) : M (list Event) :=
  title ← check_doc_title (Document.nd_title new_doc);
  id ← (match Document.nd_id new_doc with
        | Some id => mret id
        | None => fresh env KDocument
        end);
  task_id ← some_or (Validation "document must be anchored to a task_id on creation (canon daruma invariant 5: ...)")
              (Document.nd_task_id new_doc);
  _ ← get_task task_id;
  _ ← require_live_document_anchor (default DocActive (Document.nd_status new_doc)) (Some task_id);
  mret [Event.DocumentCreated
          (Document.into_document
             (new_doc <| Document.nd_id := Some id |> <| Document.nd_title := title |>) id (now env))].

Definition replace_document_content (id : DocumentId) (content : Str) : M (list Event) :=
  _ ← require_document id; mret [Event.DocumentContentReplaced id content (now env)].
Definition append_document_content (id : DocumentId) (append : Str) : M (list Event) :=
  _ ← require_document id; mret [Event.DocumentContentAppended id append (now env)].
Definition rename_document (id : DocumentId) (title : Str) : M (list Event) :=
  title ← check_doc_title title;
  _ ← require_document id;
  mret [Event.DocumentRenamed id title (now env)].

Definition archive_document (id : DocumentId) : M (list Event) :=
  d ← require_document id;
  match Document.archived_at d with
  | Some _ => mret []
  | None => mret [Event.DocumentArchived id (now env)]
  end.

Definition set_document_status (id : DocumentId) (status : DocumentStatus) : M (list Event) :=
  d ← require_document id;
  _ ← require_live_document_anchor status (Document.task_id d);
  if bool_decide (Document.status d = status) then mret []
  else mret [Event.DocumentStatusChanged id (Document.status d) status (now env)].

Definition link_document_to_task (id : DocumentId) (task_id : option TaskId) : M (list Event) :=
  d ← require_document id;
  _ ← (match task_id with
       | Some t => _ ← get_task t; mret tt
       | None => mret tt
       end);
  _ ← require_live_document_anchor (Document.status d) task_id;
  if bool_decide (Document.task_id d = task_id) then mret []
  else mret [Event.DocumentTaskLinkChanged id task_id (now env)].

(** [sweep_orphan_documents]: the events it persists, one by one. *)
Definition sweep_orphan_documents : M (list Event) :=
  candidates ← gets (fun s => DocumentRepo.list_sweep_candidates (documents s) (tasks s));
  mret (map (fun d => Event.DocumentStatusChanged (Document.id d) (Document.status d)
                        DocArchived (now env)) candidates).
End Commands.
End DocumentCommands.
