(* ===== verification/RunCommands.v ===== *)
(** * core/handler.rs: the pass completion contract

    [CompleteRun] and what surrounds it: a run completes when none of its steps
    is open and every step that finished [done] is backed by a handoff of its
    task, which the activity feed records.  The feed is read in pages of 500. *)

From S2P Require Import Prelude Shared TaskModel PlanModel Events TaskStore RunStore ActivityStore Handler TaskCommands PlanCommands.

Module RunCommands.
  Import Handler ActivityRepo.

(** ** Handoffs in the feed *)
Definition HANDOFF_PAGE : nat := 500.
Definition status_text (s : Status) : option Str := Some (lit (status_as_str s)).

Definition is_handoff (serde : Serde) (a : Activity) : bool :=
  if bool_decide (Activity.field a = Some (lit "status")) then
    let to := Activity.new_value a in
    bool_decide (to = status_text InReview) || bool_decide (to = status_text Done)
    || (bool_decide (Activity.old_value a = status_text InReview) && bool_decide (to = status_text Todo))
  else match Activity.new_value a with
       | Some v => carries_position serde v
       | None => false
       end.
Definition handoff_since (serde : Serde) (since : Z) (a : Activity) : bool :=
  (since <=? Activity.occurred_at a)%Z && is_handoff serde a.

(** Each page but the last moves the cursor past a row of the feed, so one turn
    more than there are rows is enough ([RunFacts.pages_total]). *)
Fixpoint handoff_pages (serde : Serde) (t : ActivityTable) (task_id : TaskId) (since : Z) (fuel : nat)
    (cursor : option Z) : option bool :=
  match fuel with
  | O => None
  | S fuel =>
      let '(rows, next, has_more) := list_for_task t task_id cursor HANDOFF_PAGE None in
      if existsb (handoff_since serde since) rows then Some true
      else if has_more then handoff_pages serde t task_id since fuel next
      else Some false
  end.
Definition handoff_recorded_since (serde : Serde) (t : ActivityTable) (task_id : TaskId) (since : Z)
  : option bool :=
  handoff_pages serde t task_id since (S (length t)) None.
Arguments handoff_recorded_since : simpl never.

Section Commands.
Context (env : Env).

(** ** Postconditions *)
Fixpoint check_steps (steps : list RunStep) : M unit :=
  match steps with
  | [] => mret tt
  | step :: steps =>
      _ ← guard_ (PlanCommands.is_set (RunStep.finished_at step))
            (Conflict "run_postcondition_unmet: run {run_id} still has an open step for task {task_id}; finish it with run_finish_step (done after the handoff transition, failed otherwise) before run_complete");
      _ ← (if bool_decide (RunStep.outcome step = Some OutcomeDone) then
             r ← gets (fun s => handoff_recorded_since (serde (crates env)) (activity s)
                                  (RunStep.task_id step) (RunStep.started_at step));
             handed_off ← some_or (Storage "out of fuel") r;
             guard_ handed_off
               (Conflict "run_postcondition_unmet: run {run_id} step for task {task_id} finished done, but the task has no handoff transition (in_review, done, review reject in_review→todo, or advance_pipeline) since the step started at {}; record the transition first, or finish the step failed and abort the run")
           else mret tt);
      check_steps steps
  end.
Definition ensure_run_postconditions (run_id : RunId) : M unit :=
  steps ← gets (fun s => RunRepo.list_steps (runs s) run_id);
  check_steps steps.

Definition complete_run (run_id : RunId) : M (list Event) :=
  run ← PlanCommands.get_run run_id;
  _ ← guard_ (bool_decide (Run.status run = RunActive)) (Conflict "run is not active");
  _ ← ensure_run_postconditions run_id;
  mret [Event.RunCompleted run_id (now env)].
End Commands.

(** ** The owner of a run *)
Definition run_in (s : St) (run_id : RunId) (status : RunStatus) : bool :=
  match RunRepo.get (runs s) run_id with
  | Some run => bool_decide (Run.status run = status)
  | None => false
  end.
Definition is_completed_run_retry (run_id : RunId) (authenticated : option AgentId) : M bool :=
  gets (fun s => match authenticated with
                 | Some caller => run_in s run_id RunCompleted
                                  && bool_decide (owners s !! run_id = Some caller)
                 | None => false
                 end).
Definition ensure_run_completion_owner (run_id : RunId) (authenticated : option AgentId) (is_admin : bool)
  : M unit :=
  match authenticated with
  | None => mret tt
  | Some caller =>
      active ← gets (fun s => run_in s run_id RunActive);
      if negb active then mret tt
      else
        owner ← gets (fun s => owners s !! run_id);
        if is_admin then mret tt
        else match owner with
             | Some o => guard_ (bool_decide (o = caller)) (Forbidden "run is owned by another agent")
             | None => fail (Forbidden "run has no authenticated owner")
             end
  end.
End RunCommands.

(** ** Facts *)
Module RunFacts.
  Import Handler ActivityRepo RunCommands.

(** Every event of the log has one [seq], so the rows of the feed have distinct
    positive ones. *)
Record feed_ok (t : ActivityTable) : Prop := mkFeed {
  feed_seqs : NoDup (map Activity.seq t);
  feed_low : Forall (fun a => 0 < Activity.seq a)%Z t }.

Definition after (task_id : TaskId) (since : Z) (a : Activity) : bool :=
  bool_decide (Activity.task_id a = Some task_id) && (since <? Activity.seq a)%Z && true.

Lemma after_spec task since a :
  after task since a = true <-> Activity.task_id a = Some task /\ (since < Activity.seq a)%Z.
Proof. unfold after. rewrite andb_true_r, andb_true_iff, bool_decide_eq_true, Z.ltb_lt. done. Qed.

(** What one page is: all of the rest, or a part of it that ends at the cursor. *)
Lemma page_split t task since rows next more :
  feed_ok t -> list_for_task t task (Some since) HANDOFF_PAGE None = (rows, next, more) ->
  (forall a, a ∈ rows -> a ∈ t /\ after task since a = true) /\
  if more then exists e, next = Some (Activity.seq e) /\ e ∈ rows /\
                 forall a, a ∈ t -> after task since a = true -> a ∈ rows \/ after task (Activity.seq e) a = true
  else forall a, a ∈ t -> after task since a = true -> a ∈ rows.
Proof.
  intros [Hseq _]. unfold list_for_task. cbn [default]. change (Nat.min HANDOFF_PAGE 500) with HANDOFF_PAGE.
  assert (Hpos : (0 < HANDOFF_PAGE)%nat) by (apply Nat.ltb_lt; reflexivity). revert Hpos.
  generalize HANDOFF_PAGE as n. intros n Hpos. fold (after task since).
  set (L := sort_by by_seq _).
  assert (HL : forall a, a ∈ L <-> a ∈ t /\ after task since a = true).
  { intros a. unfold L. by rewrite elem_of_sort_by, list_elem_of_In, filter_In, <- list_elem_of_In. }
  assert (Hsub : forall m a, a ∈ take m L -> a ∈ t /\ after task since a = true).
  { intros m a Ha. apply HL. rewrite <- (take_drop m L). apply elem_of_app. by left. }
  destruct (Nat.ltb_spec n (length (take (S n) L))) as [Hlen|Hlen]; intros [= <- <- <-].
  - rewrite take_take, Nat.min_l by lia. split; [by intros a Ha%Hsub|].
    rewrite length_take in Hlen.
    destruct (last (take n L)) as [e|] eqn:E.
    2:{ apply last_None in E. apply (f_equal length) in E. rewrite length_take in E. cbn in E. lia. }
    exists e. split; [done|]. split; [by apply last_Some_elem_of|]. intros a Ha Hat.
    assert (HaL : a ∈ L) by by apply HL. rewrite <- (take_drop n L) in HaL.
    apply elem_of_app in HaL as [Hin|Hin]; [by left|right].
    apply after_spec in Hat as [Htask _]. apply after_spec. split; [done|].
    assert (Hs : StronglySorted (fun a b => by_seq a b = true) L).
    { apply sort_by_sorted; unfold by_seq; intros; rewrite ?Z.leb_le in *; lia. }
    assert (Hd : NoDup (map Activity.seq L)).
    { unfold L. rewrite sort_by_perm. by apply NoDup_map_filter. }
    rewrite <- (take_drop n L) in Hs, Hd. apply StronglySorted_app in Hs as (Hcross & _ & _).
    rewrite map_app in Hd. apply NoDup_app in Hd as (_ & Hne & _).
    apply last_Some_elem_of in E. specialize (Hcross e a E Hin). unfold by_seq in Hcross. apply Z.leb_le in Hcross.
    enough (Activity.seq e <> Activity.seq a) by lia. intros Heq.
    apply (Hne (Activity.seq e)); [by apply list_elem_of_fmap_2|rewrite Heq; by apply list_elem_of_fmap_2].
  - split; [by intros a Ha%Hsub|]. rewrite length_take in Hlen. intros a Ha Hat.
    rewrite take_ge by lia. by apply HL.
Qed.

Lemma filter_length_lt {A} (p q : A -> bool) (l : list A) (x : A) :
  (forall y, q y = true -> p y = true) -> x ∈ l -> p x = true -> q x = false ->
  (length (List.filter q l) < length (List.filter p l))%nat.
Proof.
  intros Hqp Hx Hp Hq. induction l as [|y l IH]; [by apply not_elem_of_nil in Hx|].
  assert (Hle : (length (List.filter q l) <= length (List.filter p l))%nat).
  { clear -Hqp. induction l as [|z l IH]; cbn; [done|].
    destruct (q z) eqn:E; [rewrite (Hqp _ E); cbn; lia|]. destruct (p z); cbn; lia. }
  cbn. apply elem_of_cons in Hx as [->|Hx]; [rewrite Hp, Hq; cbn; lia|].
  destruct (q y) eqn:E; [rewrite (Hqp _ E)|destruct (p y)]; cbn; specialize (IH Hx); lia.
Qed.

Definition handed_off (serde : Serde) (t : ActivityTable) (task_id : TaskId) (since : Z) : Prop :=
  exists a, a ∈ t /\ Activity.task_id a = Some task_id /\ handoff_since serde since a = true.

(** The loop over pages ends and decides whether a row past the cursor is a
    handoff. *)
Lemma pages_total serde t task since fuel cursor :
  feed_ok t -> (length (List.filter (after task cursor) t) < fuel)%nat ->
  exists b, handoff_pages serde t task since fuel (Some cursor) = Some b /\
    (b = true <-> exists a, a ∈ t /\ after task cursor a = true /\ handoff_since serde since a = true).
Proof.
  intros Hok. revert cursor. induction fuel as [|fuel IH]; intros cursor Hf; [lia|]. cbn [handoff_pages].
  destruct (list_for_task t task (Some cursor) HANDOFF_PAGE None) as [[rows next] more] eqn:E.
  apply (page_split _ _ _ _ _ _ Hok) in E as [Hrows Hrest].
  destruct (existsb _ rows) eqn:Ex.
  { exists true. split; [done|]. split; [intros _|done].
    apply existsb_exists in Ex as (a & Ha%list_elem_of_In & Hh). exists a.
    destruct (Hrows a Ha). by repeat split. }
  assert (Hno : forall a, a ∈ rows -> handoff_since serde since a = false).
  { intros a Ha. apply not_true_is_false. intros Hh. rewrite <- not_true_iff_false in Ex.
    apply Ex, existsb_exists. exists a. by rewrite <- list_elem_of_In. }
  destruct more.
  - destruct Hrest as (e & -> & He & Hsplit). destruct (Hrows e He) as [Het [Htask Hlt]%after_spec].
    assert (Hmono : forall a, after task (Activity.seq e) a = true -> after task cursor a = true).
    { intros a [? ?]%after_spec. apply after_spec. split; [done|lia]. }
    destruct (IH (Activity.seq e)) as (b & -> & Hb).
    { pose proof (filter_length_lt (after task cursor) (after task (Activity.seq e)) t e Hmono Het) as Hl.
      rewrite (proj2 (after_spec _ _ _)) in Hl by done. specialize (Hl eq_refl). 
      enough (after task (Activity.seq e) e = false) as H by (specialize (Hl H); lia).
      apply not_true_is_false. intros [_ ?]%after_spec. lia. }
    exists b. split; [done|]. rewrite Hb. split; intros (a & Ha & Haf & Hh); exists a; repeat split; auto.
    destruct (Hsplit a Ha Haf) as [Hin|Hin]; [|done]. by rewrite (Hno a Hin) in Hh.
  - exists false. split; [done|]. split; [done|]. intros (a & Ha & Haf & Hh).
    by rewrite (Hno a (Hrest a Ha Haf)) in Hh.
Qed.

Lemma handoff_recorded_spec serde t task since :
  feed_ok t ->
  exists b, handoff_recorded_since serde t task since = Some b /\ (b = true <-> handed_off serde t task since).
Proof.
  intros Hok. unfold handoff_recorded_since.
  change (handoff_pages serde t task since (S (length t)) None)
    with (handoff_pages serde t task since (S (length t)) (Some 0%Z)).
  destruct (pages_total serde t task since (S (length t)) 0 Hok) as (b & -> & Hb).
  { pose proof (List.filter_length_le (after task 0) t). lia. }
  exists b. split; [done|]. rewrite Hb. unfold handed_off. destruct Hok as [_ Hlow]. rewrite Forall_forall in Hlow.
  split; intros (a & Ha & Htask & Hh); exists a; repeat split; auto.
  - by apply after_spec in Htask as [? _].
  - apply after_spec. auto.
Qed.

(** What the contract asks of a step. *)
Definition step_met (serde : Serde) (t : ActivityTable) (step : RunStep) : Prop :=
  RunStep.finished_at step <> None /\
  (RunStep.outcome step = Some OutcomeDone ->
   handed_off serde t (RunStep.task_id step) (RunStep.started_at step)).

Lemma check_steps_spec env steps s :
  feed_ok (activity s) ->
  (check_steps env steps s = (Ok tt, s) /\ Forall (step_met (serde (crates env)) (activity s)) steps) \/
  (exists m, check_steps env steps s = (Err (Conflict m), s)) /\
    ~ Forall (step_met (serde (crates env)) (activity s)) steps.
Proof.
  intros Hok. induction steps as [|step steps IH]; [by left|]. cbn. unfold guard_, PlanCommands.is_set.
  unfold mbind, M_bind, mret, M_ret, gets, some_or, fail in *.
  destruct (RunStep.finished_at step) as [at_|] eqn:Hfin; cbn.
  2:{ right. split; [by eexists|]. intros [[H _] _]%Forall_cons. done. }
  destruct (bool_decide_reflect (RunStep.outcome step = Some OutcomeDone)) as [Ho|Ho]; cbn.
  - destruct (handoff_recorded_spec (serde (crates env)) (activity s) (RunStep.task_id step)
                (RunStep.started_at step) Hok) as (b & -> & Hb). destruct b; cbn.
    + destruct IH as [[-> Hf]|[[m ->] Hf]]; [left|right]; (split; [by eauto|]).
      * constructor; [|done]. split; [by rewrite Hfin|]. intros _. by apply Hb.
      * by intros [_ ?]%Forall_cons.
    + right. split; [by eexists|]. intros [[_ H] _]%Forall_cons. by apply H, Hb in Ho.
  - destruct IH as [[-> Hf]|[[m ->] Hf]]; [left|right]; (split; [by eauto|]).
    + constructor; [|done]. by split; [rewrite Hfin|].
    + by intros [_ ?]%Forall_cons.
Qed.
End RunFacts.

Section Property.
  Import Handler RunCommands RunFacts.

(** C6: the pass completion contract.  A run that is not stored is not found.
    For a stored one [CompleteRun] emits [RunCompleted] exactly when the run is
    active, every step of it is finished and every step that finished [done] is
    backed by a handoff transition of its task at or after the start of the step,
    however many pages of history the task has; in any other case it is a
    conflict.  The state is as before in all of them. *)
Theorem complete_run_contract env run_id s :
  feed_ok (activity s) ->
  match RunRepo.get (runs s) run_id with
  | None => exists e, complete_run env run_id s = (Err (NotFound e), s)
  | Some run =>
      let due := Run.status run = RunActive /\
        Forall (step_met (serde (crates env)) (activity s)) (RunRepo.list_steps (runs s) run_id) in
      (due /\ complete_run env run_id s = (Ok [Event.RunCompleted run_id (now env)], s)) \/
      (~ due /\ exists m, complete_run env run_id s = (Err (Conflict m), s))
  end.
Proof.
  intros Hok. unfold complete_run, PlanCommands.get_run, ensure_run_postconditions, guard_, gets, some_or, mbind, M_bind.
  destruct (RunRepo.get (runs s) run_id) as [run|]; cbn; [|by eexists].
  destruct (decide (Run.status run = RunActive)) as [Hact|Hact].
  - rewrite (bool_decide_eq_true_2 _ Hact). cbn.
    destruct (check_steps_spec env (RunRepo.list_steps (runs s) run_id) s Hok) as [[-> Hf]|[[m ->] Hf]];
      [by left|right]. split; [by intros [_ ?]|by exists m].
  - rewrite (bool_decide_eq_false_2 _ Hact). right. split; [by intros [? _]|by eexists].
Qed.
End Property.
