(* ===== verification/RegistryCommands.v ===== *)
(** * core/handler.rs: comments, settings, work units, sessions, handoffs, rules, evidence and artifacts

    One definition per arm of [CommandHandler::build_events] for the registries
    beside tasks, plans and documents. *)

From S2P Require Import Prelude Shared TaskModel PlanModel RegistryModel Events TaskStore PlanStore ProjectStore SourcePolicy RuleStore WorkStore LeaseStore ArtifactStore Handler TaskCommands PlanCommands.
From stdpp Require Import pretty.

Module RegistryCommands.
  Import Handler.

Section Commands.
Context (display : N -> Str) (env : Env).

(** [unwrap_or_default()] on an id: the default of an id type is a fresh id. *)
Definition or_fresh {k} (id : option (Id k)) : M (Id k) :=
  match id with Some i => mret i | None => fresh env k end.
(** [if x.id == X::default() { x.id = X::new() }] compares with a fresh id. *)
Definition replace_default {k} (id : Id k) : M (Id k) :=
  other ← fresh env k;
  if bool_decide (id = other) then fresh env k else mret id.

(** [(b - a).num_milliseconds()]; times are in nanoseconds. *)
Definition num_milliseconds (d : Z) : Z := Z.quot d 1000000.

(** ** Comments *)
Definition add_comment (c : NewComment) : M (list Event) :=
  let body := trim (nc_body c) in
  _ ← guard_ (negb (str_is_empty body)) (Validation "comment body must not be empty");
  _ ← guard_ (negb (10000 <? byte_len body)%Z) (Validation "comment body must not exceed 10000 characters");
  id ← or_fresh (nc_id c);
  let comment := comment_from_new id
                   (mkNewComment (nc_id c) (nc_task_id c) body (nc_parent_id c) (nc_kind c)) (actor env) (now env) in
  mret [Event.CommentAdded comment;
        Event.TaskCommented (Comment.task_id comment) (Comment.id comment) (actor env) (take 80 body)].

Definition live_comment (id : CommentId) : M Comment :=
  c ← gets (fun s => CommentRepo.get (comments s) id);
  c ← some_or (NotFound "comment {id}") c;
  _ ← guard_ (bool_decide (Comment.deleted_at c = None)) (NotFound "comment {id}");
  mret c.
Definition edit_comment (id : CommentId) (body : option Str) : M (list Event) :=
  c ← live_comment id;
  mret [Event.CommentEdited id (Comment.task_id c) body (now env)].
Definition delete_comment (id : CommentId) : M (list Event) :=
  c ← live_comment id;
  mret [Event.CommentDeleted id (Comment.task_id c) (now env)].

(** ** Project settings *)
Definition is_object (j : Json) : bool := match j with JObj _ => true | _ => false end.
Definition check_audit (value : Json) : M unit :=
  _ ← guard_ (is_object value) (Validation "audit settings must be a JSON object or null");
  match audit_settings_validator (crates env) with
  | Some valid => guard_ (valid value) (Validation "audit settings: {e}")
  | None => mret tt
  end.
Definition update_project_settings (project_id : ProjectId) (patch : AutoAppendPatch)
    (intake_source : option (option IntakeSourcePolicy)) (audit : option (option Json)) : M (list Event) :=
  _ ← (match intake_source with
       | Some (Some policy) => lift (SourcePolicy.validate_policy (regex (crates env)) policy)
       | _ => mret tt
       end);
  _ ← (match audit with Some (Some value) => check_audit value | _ => mret tt end);
  _ ← ProjectCommands.get_project project_id;
  current ← gets (fun s => ProjectSettingsRepo.auto_append (settings s) project_id);
  mret [Event.ProjectSettingsChanged project_id (auto_append_apply current patch) (now env) intake_source audit].

(** ** Work units *)
Definition work_unit (id : WorkUnitId) : M WorkUnit :=
  u ← gets (fun s => WorkUnitRepo.get (work_units s) id);
  some_or (NotFound "work unit {id}") u.
Definition open_unit (id : WorkUnitId) : M WorkUnit :=
  u ← work_unit id;
  _ ← guard_ (negb (WorkUnit.is_terminal (WorkUnit.status u))) (Conflict "work unit {id} already closed");
  mret u.
Definition completed_unit (u : WorkUnit) (id : WorkUnitId) (outcome : Str) (produced : list Str)
    (next : list WorkUnitId) : Event :=
  Event.WorkUnitCompleted id outcome produced next (WorkUnit.owner_agent_id u)
    (Some (num_milliseconds (now env - WorkUnit.created_at u))) (now env).

Definition create_work_unit (n : NewWorkUnit) : M (list Event) :=
  _ ← get_task (nw_task_id n);
  id ← or_fresh (nw_id n);
  id' ← replace_default id;
  let u := into_work_unit id n (now env) <| WorkUnit.id := id' |> in
  _ ← guard_ (negb (str_is_empty (trim (WorkUnit.title u)))) (Validation "work unit title must not be empty");
  mret [Event.WorkUnitCreated u].
Definition complete_work_unit (id : WorkUnitId) (outcome : option Str) (produced : list Str)
    (next : list WorkUnitId) : M (list Event) :=
  u ← open_unit id;
  mret [completed_unit u id (default (lit "ok") outcome) produced next].
Definition release_work_unit (id : WorkUnitId) : M (list Event) :=
  _ ← work_unit id;
  mret [Event.WorkUnitReleased id (now env)].
Definition set_work_unit_status (id : WorkUnitId) (status : WorkUnitStatus) (reason : option Str)
  : M (list Event) :=
  u ← open_unit id;
  match status with
  | WuInProgress => mret [Event.WorkUnitStarted id (now env)]
  | WuBlocked => mret [Event.WorkUnitBlocked id (default (lit "blocked") reason) (now env)]
  | WuDone => mret [completed_unit u id (lit "ok") [] []]
  | WuReady | WuTodo => mret [Event.WorkUnitReleased id (now env)]
  | WuReview | WuCancelled =>
      fail (Validation "unsupported work unit transition to {other:?} (review/cancelled land with the handoff layer)")
  end.

(** ** Agent sessions *)
Definition start_agent_session (agent : AgentId) (parent : option AgentId) (metadata : option Json)
  : M (list Event) :=
  id ← fresh env KAgentSession;
  mret [Event.AgentSessionStarted (mkAgentSession id agent parent (now env) None [] (default JNull metadata))].
Definition known_session (id : AgentSessionId) : M AgentSession :=
  x ← gets (fun s => SessionRepo.get (sessions s) id);
  some_or (NotFound "session {id}") x.
Definition end_agent_session (id : AgentSessionId) : M (list Event) :=
  _ ← known_session id;
  mret [Event.AgentSessionEnded id (now env)].
Definition update_agent_session_plan (id : AgentSessionId) (steps : list AgentSessionPlanStep)
  : M (list Event) :=
  _ ← guard_ (negb (100 <? length steps)%nat) (Validation "plan_steps must not exceed 100 entries");
  _ ← known_session id;
  mret [Event.AgentSessionPlanUpdated id steps].
Definition attach_session_artifact (session_id : AgentSessionId) (kind : SessionArtifactKind)
    (reference : Str) (metadata : option Json) : M (list Event) :=
  let reference := trim reference in
  _ ← guard_ (negb (str_is_empty reference)) (Validation "artifact ref must not be empty");
  _ ← known_session session_id;
  id ← fresh env KSessionArtifact;
  mret [Event.SessionArtifactAttached
          (mkSessionArtifact id session_id kind reference (default JNull metadata) (now env))].

(** ** Handoffs *)
Definition request_handoff (n : Handoff.NewHandoffContract) : M (list Event) :=
  _ ← guard_ (negb (bool_decide (Handoff.nh_from n = Handoff.nh_to n)))
        (Validation "handoff must connect two distinct work units");
  _ ← work_unit (Handoff.nh_from n);
  _ ← work_unit (Handoff.nh_to n);
  existing ← gets (fun s => HandoffRepo.get_by_pair (handoffs s) (Handoff.nh_from n) (Handoff.nh_to n));
  id ← (match existing with
        | Some h => if bool_decide (Handoff.status h = HoAccepted)
                    then fail (Conflict "handoff {} for this pair is already accepted")
                    else mret (Handoff.id h)
        | None => fresh env KHandoff
        end);
  mret [Event.HandoffRequested (Handoff.into_contract n id (now env))].
Definition get_handoff (id : HandoffId) : M HandoffContract :=
  h ← gets (fun s => HandoffRepo.get (handoffs s) id);
  some_or (NotFound "handoff {handoff_id}") h.
Definition latency (h : HandoffContract) : option Z :=
  Some (num_milliseconds (now env - Handoff.updated_at h)).
Definition accept_handoff (id : HandoffId) (notes : option Str) : M (list Event) :=
  h ← get_handoff id;
  match Handoff.status h with
  | HoAccepted => mret []
  | HoOpen =>
      let by_ := match actor env with Agent i _ _ => Some i | _ => None end in
      mret [Event.HandoffAccepted id by_ notes (latency h) (now env)]
  | _ => fail (Conflict "handoff {handoff_id} is {}; only an open handoff can be accepted (re-request after rejection)")
  end.
Definition reject_handoff (id : HandoffId) (reason : Str) (required_changes : list Str) : M (list Event) :=
  _ ← guard_ (negb (str_is_empty (trim reason))) (Validation "rejection reason must not be empty");
  h ← get_handoff id;
  match Handoff.status h with
  | HoRejected => mret []
  | HoOpen => mret [Event.HandoffRejected id reason required_changes (latency h) (now env)]
  | _ => fail (Conflict "handoff {handoff_id} is {}; only an open handoff can be rejected")
  end.

(** ** Lifecycle rules and evidence *)
Definition scope_exists (scope : RuleScope) : M bool :=
  match scope with
  | ScopeTenant => mret true
  | ScopeProject id => gets (fun s => bool_decide (is_Some (ProjectRepo.get (projects s) id)))
  | ScopePlan id => gets (fun s => bool_decide (is_Some (PlanRepo.get (plans s) id)))
  | ScopeTask id => gets (fun s => bool_decide (is_Some (TaskRepo.get (tasks s) id)))
  end.
Definition check_placement (r : Requirement) (scope : RuleScope) (trigger : RuleTrigger) : M unit :=
  match placement_error r scope trigger with
  | Some err => fail (Validation err)
  | None => mret tt
  end.
Definition create_rule (n : Rule.NewRule) : M (list Event) :=
  _ ← guard_ (negb (str_is_empty (trim (Rule.nr_rule_key n)))) (Validation "rule_key must not be empty");
  _ ← check_placement (Rule.nr_requirement n) (Rule.nr_scope n) (Rule.nr_trigger n);
  known ← scope_exists (Rule.nr_scope n);
  _ ← guard_ known (Validation "rule {} scope target {id} does not exist");
  peers ← gets (fun s => RuleRepo.list_for_scope (rules s) (Rule.nr_scope n));
  _ ← guard_ (negb (existsb (fun r => bool_decide (Rule.rule_key r = Rule.nr_rule_key n)) peers))
        (Conflict "rule_key `{}` already exists at this scope");
  id ← or_fresh (Rule.nr_id n);
  id' ← replace_default id;
  mret [Event.RuleCreated (Rule.into_rule id n (now env) <| Rule.id := id' |>)].
Definition get_rule (id : RuleId) : M Rule :=
  r ← gets (fun s => RuleRepo.get (rules s) id);
  some_or (NotFound "rule {id}") r.
Definition update_rule (id : RuleId) (patch : RulePatch) : M (list Event) :=
  _ ← guard_ (negb (RulePatch.is_empty patch)) (Validation "update must set at least one field");
  current ← get_rule id;
  let updated := RulePatch.apply patch current (now env) in
  _ ← check_placement (Rule.requirement updated) (Rule.scope updated) (Rule.trigger updated);
  mret [Event.RuleUpdated updated].
Definition disable_rule (id : RuleId) : M (list Event) :=
  current ← get_rule id;
  if negb (Rule.enabled current) then mret [] else mret [Event.RuleDisabled id (now env)].
Definition delete_rule (id : RuleId) : M (list Event) :=
  _ ← get_rule id;
  mret [Event.RuleDeleted id].

Definition record_evidence (n : Evidence.NewEvidence) : M (list Event) :=
  known ← scope_exists (Evidence.ne_scope n);
  _ ← guard_ known (Validation "evidence {} scope target {id} does not exist");
  id ← or_fresh (Evidence.ne_id n);
  id' ← replace_default id;
  let record := Evidence.into_evidence id n (from_actor (actor env)) (now env) <| Evidence.id := id' |> in
  mret (Event.EvidenceRecorded record ::
        match Evidence.ne_supersedes n with
        | Some old => [Event.EvidenceSuperseded old id' (now env)]
        | None => []
        end).

(** ** Artifacts *)
Definition get_artifact (id : ArtifactId) : M Artifact :=
  a ← gets (fun s => ArtifactRepo.get (artifacts s) id);
  some_or (NotFound "artifact {artifact_id} not found") a.
Definition require_artifact_replacement (id : ArtifactId) : M unit :=
  replaced ← gets (fun s => existsb (fun r => bool_decide (Artifact.to_id r = id)
                                              && bool_decide (Artifact.rel_kind r = Supersedes))
                              (ArtifactRepo.relations_for (artifacts s) id));
  guard_ replaced (Validation "deprecating artifact {artifact_id} needs a reason or an incoming supersedes relation").

Definition uri_free (uri : Str) : M unit :=
  known ← gets (fun s => ArtifactRepo.get_by_uri (artifacts s) uri);
  match known with
  | Some _ => fail (Conflict "artifact with uri {} already registered")
  | None => mret tt
  end.
Definition register_artifact (n : Artifact.NewArtifact) : M (list Event) :=
  _ ← guard_ (negb (str_is_empty (trim (Artifact.na_uri n)))) (Validation "artifact uri must not be empty");
  _ ← guard_ (negb (str_is_empty (trim (Artifact.na_title n)))) (Validation "artifact title must not be empty");
  _ ← uri_free (Artifact.na_uri n);
  id ← or_fresh (Artifact.na_id n);
  id' ← replace_default id;
  mret [Event.ArtifactRegistered (Artifact.into_artifact id n (now env) <| Artifact.id := id' |>)].
Definition update_artifact (id : ArtifactId) (title description : option Str) : M (list Event) :=
  _ ← guard_ (negb (bool_decide (title = None) && bool_decide (description = None)))
        (Validation "update must set at least one field");
  _ ← guard_ (negb (match title with Some t => str_is_empty (trim t) | None => false end))
        (Validation "artifact title must not be empty");
  _ ← get_artifact id;
  mret [Event.ArtifactChanged id title description (now env)].
Definition commit_artifact_write (id : ArtifactId) (agent : AgentId) (token : Z) (version : option Str)
  : M (list Event) :=
  _ ← get_artifact id;
  live ← gets (fun s => ArtifactRepo.write_fencing_token_is_live (artifacts s) (leases s) (now env) id agent token);
  _ ← guard_ live (Conflict "stale or foreign fencing token for artifact {artifact_id}");
  mret [Event.ArtifactWriteCommitted id agent token version (now env)].
Definition deprecate_artifact (id : ArtifactId) (reason : option Str) : M (list Event) :=
  current ← get_artifact id;
  if bool_decide (Artifact.status current = ArtDeprecated) then mret []
  else
    let reason := reason ≫= fun r => let r := trim r in if str_is_empty r then None else Some r in
    _ ← (match reason with None => require_artifact_replacement id | Some _ => mret tt end);
    mret [Event.ArtifactDeprecated id reason (now env)].

Definition same_edge (to : ArtifactId) (kind : ArtifactRelationKind) (r : ArtifactRelation) : bool :=
  bool_decide (Artifact.to_id r = to) && bool_decide (Artifact.rel_kind r = kind).
Definition add_artifact_relation (from to : ArtifactId) (kind : ArtifactRelationKind) : M (list Event) :=
  _ ← guard_ (negb (bool_decide (from = to))) (Validation "artifact relation endpoints must differ");
  a ← get_artifact from;
  b ← get_artifact to;
  known ← gets (fun s => existsb (same_edge to kind) (ArtifactRepo.relations_for (artifacts s) from));
  _ ← guard_ (negb known) (Conflict "artifact relation {from} -> {to} ({}) already exists");
  let supersedes := bool_decide (kind = Supersedes) in
  _ ← guard_ (negb (supersedes && bool_decide (Artifact.status a = ArtDeprecated)))
        (Validation "deprecated artifact {from} cannot supersede {to}");
  id ← fresh env KArtifactRelation;
  mret (Event.ArtifactRelationAdded (Artifact.mkRel id from to kind (now env)) ::
        if supersedes && negb (bool_decide (Artifact.status b = ArtDeprecated))
        then [Event.ArtifactDeprecated to (Some (lit "superseded by " ++ Artifact.uri a)) (now env)]
        else []).
Definition remove_artifact_relation (from to : ArtifactId) (kind : ArtifactRelationKind) : M (list Event) :=
  r ← gets (fun s => find (same_edge to kind) (ArtifactRepo.relations_for (artifacts s) from));
  r ← some_or (NotFound "artifact relation {from} -> {to} ({}) not found") r;
  mret [Event.ArtifactRelationRemoved (Artifact.rel_id r) from to kind (now env)].
Definition assign_artifact_owner (id : ArtifactId) (owner : AgentId) : M (list Event) :=
  _ ← get_artifact id;
  mret [Event.ArtifactOwnerAssigned id owner (now env)].
Definition change_artifact_status (id : ArtifactId) (to : ArtifactStatus) : M (list Event) :=
  current ← get_artifact id;
  let from := Artifact.status current in
  if bool_decide (from = to) then mret []
  else
    _ ← (if bool_decide (to = ArtDeprecated) then require_artifact_replacement id else mret tt);
    mret [Event.ArtifactStatusChanged id from to (now env)].

(** *** Role artifacts *)
Definition slug_segment_char (c : N) : bool :=
  is_ascii_digit c || ((65 <=? c) && (c <=? 90))%N || ((97 <=? c) && (c <=? 122))%N
  || (c =? 95)%N || (c =? 45)%N || (c =? 46)%N.
Definition check_segment (value : Str) : M unit :=
  _ ← guard_ (negb (str_is_empty value)) (Validation "role artifact {field} must not be empty");
  guard_ (forallb slug_segment_char value) (Validation "role artifact {field} must use [A-Za-z0-9_.-] only: {value}").
Definition superseded_slot (task_id : TaskId) (role kind : Str) (prev_id : ArtifactId) : M unit :=
  prev ← get_artifact prev_id;
  _ ← guard_ (ArtifactRepo.in_slot task_id role kind prev)
        (Validation "artifact {prev_id} is not a {role}/{kind} role artifact of task {task_id}");
  let from := match Artifact.role_artifact prev with Some r => Artifact.role_status r | None => Proposed end in
  guard_ (Artifact.can_transition_to from RoleSuperseded)
    (Conflict "role artifact {prev_id} is {}, only proposed can be superseded").
Definition propose_role_artifact (task_id : TaskId) (role kind : Str) (payload : Json) (title : option Str)
    (supersedes : option ArtifactId) (artifact_id : option ArtifactId) : M (list Event) :=
  let role := trim role in
  let kind := trim kind in
  _ ← check_segment role;
  _ ← check_segment kind;
  task ← get_task task_id;
  _ ← (match supersedes with Some prev => superseded_slot task_id role kind prev | None => mret tt end);
  generation ← gets (fun s => ArtifactRepo.next_role_generation (artifacts s) task_id role kind);
  let uri := ArtifactRepo.role_uri display task_id role kind generation in
  _ ← uri_free uri;
  id ← or_fresh artifact_id;
  let named := title ≫= fun t => let t := trim t in if str_is_empty t then None else Some t in
  let record := Artifact.mk id uri
    (default (role ++ lit " " ++ kind ++ lit " #" ++ lit (pretty generation)) named) [] ArtCommitted None
    (Some task_id) (Task.project_id task) None None
    (Some (Artifact.mkRole role kind generation Proposed payload)) (now env) (now env) in
  match supersedes with
  | None => mret [Event.ArtifactRegistered record]
  | Some prev =>
      rel ← fresh env KArtifactRelation;
      mret [Event.ArtifactRegistered record;
            Event.RoleArtifactStatusChanged prev Proposed RoleSuperseded (now env);
            Event.ArtifactRelationAdded (Artifact.mkRel rel id prev Supersedes (now env))]
  end.
Definition set_role_artifact_status (id : ArtifactId) (to : RoleArtifactStatus) : M (list Event) :=
  current ← get_artifact id;
  r ← some_or (Validation "artifact {artifact_id} is not a role artifact") (Artifact.role_artifact current);
  let from := Artifact.role_status r in
  if bool_decide (from = to) then mret []
  else
    _ ← guard_ (Artifact.can_transition_to from to) (Conflict "role artifact transition {} -> {} is not allowed");
    mret [Event.RoleArtifactStatusChanged id from to (now env)].
End Commands.
End RegistryCommands.
