(* ===== verification/Reconcile.v ===== *)
(** * core/handler.rs: [append_plan_reconciliations]

    After a command has built its events, the plans it touches are closed when
    their work is done: the pending transitions are laid over the projections
    ([Overlay]) and a work list of candidate plans is drained, a closed plan
    putting its parent on the list. *)

From S2P Require Import Prelude Shared TaskModel PlanModel RegistryModel Events EventStore TaskStore RelationStore PlanStore RunStore ClaimStore LeaseStore DocumentStore ProjectStore PlanLogic Handler.

Module Reconcile.
  Import Handler PlanReadiness.

Record Overlay : Type := mkOverlay {
  task_statuses : gmap TaskId Status;
  plan_statuses : gmap PlanId PlanStatus;
  ended_runs : gset RunId }.
#[global] Instance Overlay_rebuild : Rebuild Overlay := fun o =>
  mkOverlay (task_statuses o) (plan_statuses o) (ended_runs o).

Definition option_list {A} (o : option A) : list A :=
  match o with Some a => [a] | None => [] end.

Definition parent_of (s : St) (id : PlanId) : list PlanId :=
  option_list (PlanRepo.get (plans s) id ≫= Plan.parent_plan_id).

(** What one event of the batch adds to the work list and the overlay. *)
Definition note_event (s : St) (acc : list PlanId * Overlay) (e : Event)
  : list PlanId * Overlay :=
  let '(candidates, ov) := acc in
  match e with
  | Event.TaskStatusChanged task_id _ to =>
      (if is_terminal to
       then candidates ++ map Plan.id (PlanRepo.list_plans_for_task (plans s) task_id)
       else candidates,
       ov <| task_statuses := <[task_id := to]> (task_statuses ov) |>)
  | Event.PlanStatusChanged plan_id _ to =>
      (if bool_decide (to = Completed) || bool_decide (to = Abandoned)
       then candidates ++ parent_of s plan_id else candidates,
       ov <| plan_statuses := <[plan_id := to]> (plan_statuses ov) |>)
  | Event.PlanArchived plan_id _ =>
      (candidates ++ parent_of s plan_id,
       ov <| plan_statuses := <[plan_id := Abandoned]> (plan_statuses ov) |>)
  | Event.RunCompleted run_id _ | Event.RunFailed run_id _ _ | Event.RunAborted run_id _ _ =>
      (candidates ++ option_list (Run.plan_id <$> RunRepo.get (runs s) run_id),
       ov <| ended_runs := {[run_id]} ∪ ended_runs ov |>)
  | _ => (candidates, ov)
  end.

Definition collect (s : St) (events : list Event) : list PlanId * Overlay :=
  foldl (note_event s) ([], mkOverlay ∅ ∅ ∅) events.

Definition status_of (ov : Overlay) (p : Plan) : PlanStatus :=
  default (Plan.status p) (plan_statuses ov !! Plan.id p).

Definition member_status (s : St) (ov : Overlay) (m : PlanTask) : option Status :=
  (fun x => default (Task.status x) (task_statuses ov !! Task.id x))
  <$> TaskRepo.get (tasks s) (PlanTask.task_id m).

(** The guards of one turn: [Some plan] when the plan is to be closed. *)
Definition to_close (s : St) (ov : Overlay) (id : PlanId) : option Plan :=
  match PlanRepo.get (plans s) id with
  | None => None
  | Some plan =>
      let status := default (Plan.status plan) (plan_statuses ov !! id) in
      if negb (bool_decide (status = Active)) || negb (bool_decide (Plan.archived_at plan = None))
      then None
      else if negb (plan_ready_to_close
                      (map (member_status s ov) (PlanRepo.list_tasks_ordered (plans s) id))
                      (map (status_of ov) (PlanRepo.list_children (plans s) id)))
      then None
      else if existsb (fun r => negb (bool_decide (Run.id r ∈ ended_runs ov)))
                      (RunRepo.list_active_for_plan (runs s) id)
      then None
      else Some plan
  end.

(** The [while let Some(plan_id) = candidates.pop_front()] loop; [None] is fuel
    exhausted ([ReconcileFacts.drain_total] bounds the fuel needed). *)
Fixpoint drain (fuel : nat) (s : St) (ov : Overlay) (candidates : list PlanId)
  : option (list Event) :=
  match candidates with
  | [] => Some []
  | id :: candidates =>
      match fuel with
      | O => None
      | S fuel =>
          match to_close s ov id with
          | None => drain fuel s ov candidates
          | Some plan =>
              (fun es => Event.PlanStatusChanged id (Plan.status plan) Completed :: es) <$>
                drain fuel s (ov <| plan_statuses := <[id := Completed]> (plan_statuses ov) |>)
                      (candidates ++ option_list (Plan.parent_plan_id plan))
          end
      end
  end.

Definition append_plan_reconciliations (s : St) (events : list Event) : option (list Event) :=
  let '(candidates, ov) := collect s events in
  (fun es => events ++ es) <$>
    drain (length candidates + size (PlanRepo.plans (plans s))) s ov candidates.
End Reconcile.

(** ** Specification *)
Module ReconcileSpec.
  Import Handler Reconcile.

Definition plans_keyed (s : St) : Prop :=
  map_Forall (fun id p => Plan.id p = id) (PlanRepo.plans (plans s)).
#[global] Instance plans_keyed_dec s : Decision (plans_keyed s).
Proof. unfold plans_keyed. apply _. Defined.

(** What a batch says of a task, a plan and a run: the last status it gives
    them, and whether it ends the run. *)
Definition to_task (id : TaskId) (e : Event) : option Status :=
  match e with
  | Event.TaskStatusChanged i _ to => if bool_decide (i = id) then Some to else None
  | _ => None
  end.
Definition to_plan (id : PlanId) (e : Event) : option PlanStatus :=
  match e with
  | Event.PlanStatusChanged i _ to => if bool_decide (i = id) then Some to else None
  | Event.PlanArchived i _ => if bool_decide (i = id) then Some Abandoned else None
  | _ => None
  end.
Definition ends_run (id : RunId) (e : Event) : Prop :=
  match e with
  | Event.RunCompleted i _ | Event.RunFailed i _ _ | Event.RunAborted i _ _ => i = id
  | _ => False
  end.
Definition task_after (es : list Event) (id : TaskId) : option Status := last (omap (to_task id) es).
Definition plan_after (es : list Event) (id : PlanId) : option PlanStatus := last (omap (to_plan id) es).
Definition run_ended (es : list Event) (id : RunId) : Prop := Exists (ends_run id) es.

(** A plan whose work is done once the batch [es] holds: active and not archived,
    with at least one member, every member task stored and terminal, every child
    plan completed or abandoned, and every active run ended by the batch. *)
Record finished (s : St) (es : list Event) (id : PlanId) : Prop := mkFinished {
  fin_plan : exists p, PlanRepo.get (plans s) id = Some p /\
    default (Plan.status p) (plan_after es id) = Active /\ Plan.archived_at p = None;
  fin_some : PlanRepo.list_tasks_ordered (plans s) id <> [];
  fin_members : forall m, m ∈ PlanRepo.list_tasks_ordered (plans s) id ->
    exists x, TaskRepo.get (tasks s) (PlanTask.task_id m) = Some x /\
      is_terminal (default (Task.status x) (task_after es (Task.id x))) = true;
  fin_children : forall c, c ∈ PlanRepo.list_children (plans s) id ->
    default (Plan.status c) (plan_after es (Plan.id c)) = Completed \/
    default (Plan.status c) (plan_after es (Plan.id c)) = Abandoned;
  fin_runs : forall r, r ∈ RunRepo.list_active_for_plan (runs s) id -> run_ended es (Run.id r) }.

(** An overlay that says what the batch says. *)
Record represents (ov : Overlay) (es : list Event) : Prop := mkRepresents {
  rep_tasks : forall id, task_statuses ov !! id = task_after es id;
  rep_plans : forall id, plan_statuses ov !! id = plan_after es id;
  rep_runs : forall id, id ∈ ended_runs ov <-> run_ended es id }.

(** The same under an overlay: a plan whose work is done: active and not archived, with at least one
    member, every member task present and terminal, every child plan completed
    or abandoned, and no active run that the batch does not end. *)
Record work_done (s : St) (ov : Overlay) (id : PlanId) : Prop := mkDone {
  wd_plan : exists p, PlanRepo.get (plans s) id = Some p /\
    default (Plan.status p) (plan_statuses ov !! id) = Active /\ Plan.archived_at p = None;
  wd_some : PlanRepo.list_tasks_ordered (plans s) id <> [];
  wd_members : forall m, m ∈ PlanRepo.list_tasks_ordered (plans s) id ->
    exists st, member_status s ov m = Some st /\ is_terminal st = true;
  wd_children : forall c, c ∈ PlanRepo.list_children (plans s) id ->
    status_of ov c = Completed \/ status_of ov c = Abandoned;
  wd_runs : forall r, r ∈ RunRepo.list_active_for_plan (runs s) id -> Run.id r ∈ ended_runs ov }.
End ReconcileSpec.

Module ReconcileFacts.
  Import Handler PlanReadiness Reconcile ReconcileSpec.

Lemma ready_to_close_iff ms cs :
  plan_ready_to_close ms cs = true <->
  ms <> [] /\ (forall m, m ∈ ms -> exists st, m = Some st /\ is_terminal st = true) /\
  (forall c, c ∈ cs -> c = Completed \/ c = Abandoned).
Proof.
  unfold plan_ready_to_close.
  assert (Hloop : forall l any, (exists r, members_done l any = Some r /\ r = (any || negb (bool_decide (l = [])))
      /\ forall m, m ∈ l -> exists st, m = Some st /\ is_terminal st = true) \/
    (members_done l any = None /\ ~ forall m, m ∈ l -> exists st, m = Some st /\ is_terminal st = true)).
  { induction l as [|m l IH]; intros any; cbn.
    - left. exists any. split; [done|]. split; [by rewrite orb_false_r|]. intros m Hm. by apply not_elem_of_nil in Hm.
    - destruct m as [st|]; [destruct (is_terminal st) eqn:T|].
      + destruct (IH true) as [(r & -> & -> & Hl)|(-> & Hl)].
        * left. eexists. split; [done|]. split; [by rewrite orb_true_r|].
          intros m [->|Hm]%elem_of_cons; eauto.
        * right. split; [done|]. intros Hall. apply Hl. intros m Hm. apply Hall. set_solver.
      + right. split; [done|]. intros Hall. destruct (Hall (Some st) ltac:(set_solver)) as (? & [= <-] & ?). congruence.
      + right. split; [done|]. intros Hall. by destruct (Hall None ltac:(set_solver)) as (? & ? & ?). }
  destruct (Hloop ms false) as [(r & -> & -> & Hm)|(-> & Hm)]; cbn.
  - rewrite andb_true_iff, negb_true_iff, bool_decide_eq_false, forallb_forall.
    setoid_rewrite orb_true_iff. setoid_rewrite bool_decide_eq_true.
    setoid_rewrite <- list_elem_of_In. tauto.
  - split; [done|]. by intros (_ & ? & _).
Qed.

Lemma to_close_iff s ov id :
  plans_keyed s -> is_Some (to_close s ov id) <-> work_done s ov id.
Proof.
  intros Hk. unfold to_close. destruct (PlanRepo.get (plans s) id) as [p|] eqn:G.
  2: { split; [by intros [? ?]|]. intros [(p & ? & _) _ _ _ _]. congruence. }
  destruct (_ || _) eqn:E1.
  { split; [by intros [? ?]|]. intros [(p' & Hp & Hs & Ha) _ _ _ _].
    rewrite G in Hp. injection Hp as <-. by rewrite Hs, Ha in E1. }
  bsplit. destruct (plan_ready_to_close _ _) eqn:R; cbn.
  - apply ready_to_close_iff in R as (Hne & Hms & Hcs).
    destruct (existsb _ _) eqn:X.
    + split; [by intros [? ?]|]. intros [_ _ _ _ Hr]. apply existsb_exists in X as (r & Hin & Hb).
      bsplit. exfalso. apply Hb, Hr. by apply list_elem_of_In.
    + split; [|eauto]. intros _. constructor.
      * eauto.
      * intros Hn. by rewrite Hn in Hne.
      * intros m Hm. apply Hms. by apply list_elem_of_fmap_2.
      * intros c Hc. apply Hcs. by apply list_elem_of_fmap_2.
      * intros r Hr. destruct (decide (Run.id r ∈ ended_runs ov)) as [|Hn]; [done|].
        apply not_true_iff_false in X. exfalso. apply X, existsb_exists. exists r.
        split; [by apply list_elem_of_In|]. by rewrite bool_decide_eq_false_2.
  - split; [by intros [? ?]|]. intros [_ Hne Hms Hcs _]. exfalso.
    apply not_true_iff_false in R. apply R, ready_to_close_iff. split; [|split].
    + intros Hn%map_eq_nil. done.
    + intros m (pt & -> & Hm)%list_elem_of_fmap. by apply Hms.
    + intros c (p' & -> & Hc)%list_elem_of_fmap. by apply Hcs.
Qed.

Lemma to_close_get s ov id p : to_close s ov id = Some p -> PlanRepo.get (plans s) id = Some p.
Proof. unfold to_close. destruct (PlanRepo.get (plans s) id); [|done]. by repeat case_match; intros [= <-]. Qed.

(** The plans that may still be closed. *)
Definition open_plans (s : St) (ov : Overlay) : gset PlanId :=
  dom (filter (fun '(id, p) => default (Plan.status p) (plan_statuses ov !! id) = Active)
              (PlanRepo.plans (plans s))).

Lemma elem_of_open s ov id :
  id ∈ open_plans s ov <->
  exists p, PlanRepo.get (plans s) id = Some p /\
    default (Plan.status p) (plan_statuses ov !! id) = Active.
Proof.
  unfold open_plans. rewrite elem_of_dom. split.
  - intros [p [Hp Hs]%map_lookup_filter_Some]. eauto.
  - intros (p & Hp & Hs). exists p. by apply map_lookup_filter_Some.
Qed.

Abbreviation close1 ov id :=
  (ov <| plan_statuses := <[id := Completed]> (plan_statuses ov) |>).

Lemma open_plans_close s ov id p :
  plans_keyed s -> to_close s ov id = Some p ->
  (size (open_plans s (close1 ov id)) < size (open_plans s ov))%nat.
Proof.
  intros Hk Hc. apply subset_size.
  assert (Hin : id ∈ open_plans s ov).
  { apply elem_of_open. assert (Hw : work_done s ov id) by (by apply to_close_iff; eauto).
    destruct Hw as [(p' & ? & ? & _) _ _ _ _]. eauto. }
  assert (Hout : id ∉ open_plans s (close1 ov id)).
  { rewrite elem_of_open. cbn. intros (p' & _ & Hs). rewrite lookup_insert_eq in Hs. done. }
  assert (Hsub : open_plans s (close1 ov id) ⊆ open_plans s ov).
  { intros j. rewrite !elem_of_open. cbn. intros (p' & Hp & Hs). exists p'. split; [done|].
    destruct (decide (j = id)) as [->|Hne]; [by rewrite lookup_insert_eq in Hs|].
    by rewrite lookup_insert_ne in Hs. }
  set_solver.
Qed.

Lemma drain_total fuel s ov cands :
  plans_keyed s -> (length cands + size (open_plans s ov) <= fuel)%nat ->
  is_Some (drain fuel s ov cands).
Proof.
  intros Hk. revert ov cands. induction fuel as [|fuel IH]; intros ov [|id cands]; cbn;
    [eauto|lia|eauto|]. intros Hf. destruct (to_close s ov id) as [p|] eqn:C.
  - apply fmap_is_Some, IH. pose proof (open_plans_close _ _ _ _ Hk C).
    rewrite length_app. destruct (Plan.parent_plan_id p); cbn; lia.
  - apply IH. lia.
Qed.

Lemma open_plans_bound s ov : (size (open_plans s ov) <= size (PlanRepo.plans (plans s)))%nat.
Proof.
  unfold open_plans. rewrite size_dom. apply map_size_filter. 
Qed.
End ReconcileFacts.

(** ** What reconciliation guarantees *)
Module ReconcileTheorems.
  Import Handler PlanReadiness Reconcile ReconcileSpec ReconcileFacts.

(** *** The overlay says what the batch says *)
Lemma last_omap_snoc {A B} (f : A -> option B) l x :
  last (omap f (l ++ [x])) = match f x with Some y => Some y | None => last (omap f l) end.
Proof. rewrite omap_app. cbn. destruct (f x); [by rewrite last_snoc|by rewrite app_nil_r]. Qed.

Lemma represents_note s acc es e :
  represents acc.2 es -> represents (note_event s acc e).2 (es ++ [e]).
Proof.
  destruct acc as [cands ov]. cbn [snd]. intros [Ht Hp Hr].
  assert (Hruns : forall r, run_ended (es ++ [e]) r <-> r ∈ ended_runs ov \/ ends_run r e).
  { intros r. unfold run_ended. rewrite Exists_app, Exists_cons, Exists_nil, Hr. unfold run_ended. tauto. }
  split; intros i.
  - unfold task_after. rewrite last_omap_snoc. fold (task_after es i). rewrite <- Ht. destruct e; cbn; try done.
    case_bool_decide as E; [subst; by rewrite lookup_insert_eq|by rewrite lookup_insert_ne].
  - unfold plan_after. rewrite last_omap_snoc. fold (plan_after es i). rewrite <- Hp. destruct e; cbn; try done;
      (case_bool_decide as E; [subst; by rewrite lookup_insert_eq|by rewrite lookup_insert_ne]).
  - rewrite Hruns. destruct e; cbn; try tauto; set_solver.
Qed.

Lemma represents_collect s es : represents (collect s es).2 es.
Proof.
  unfold collect. induction es as [|e es IH] using rev_ind.
  - split; intros i; cbn; [by rewrite lookup_empty|by rewrite lookup_empty|].
    unfold run_ended. rewrite Exists_nil. set_solver.
  - rewrite foldl_app. cbn [foldl]. by apply represents_note.
Qed.

Lemma represents_close (s : St) ov es id from :
  represents ov es -> represents (close1 ov id) (es ++ [Event.PlanStatusChanged id from Completed]).
Proof. intros H. exact (represents_note s ([], ov) es (Event.PlanStatusChanged id from Completed) H). Qed.

Lemma work_done_finished s ov es id : represents ov es -> work_done s ov id <-> finished s es id.
Proof.
  intros [Ht Hp Hr]. split; intros [Hpl Hne Hm Hc Hrun]; split; try done; rewrite <- ?Hp; try done;
    rewrite ?Hp; try done.
  - intros m Hin. destruct (Hm m Hin) as (st & Hst & Hterm). unfold member_status in Hst.
    destruct (TaskRepo.get _ _) as [x|]; [|done]. exists x. split; [done|]. cbn in Hst. injection Hst as <-.
    by rewrite <- Ht.
  - intros c Hin. rewrite <- Hp. by apply Hc.
  - intros r Hin. by apply Hr, Hrun.
  - intros m Hin. destruct (Hm m Hin) as (x & Hx & Hterm). unfold member_status. rewrite Hx. cbn.
    eexists. split; [done|]. by rewrite Ht.
  - intros c Hin. unfold status_of. rewrite Hp. by apply Hc.
  - intros r Hin. by apply Hr, Hrun.
Qed.

(** The closings a run of the loop performs, in order: every one of them is
    of a plan whose work is done under the overlay the earlier ones left. *)
Inductive closings (s : St) : Overlay -> list Event -> Overlay -> Prop :=
| closings_nil ov : closings s ov [] ov
| closings_cons ov id p es ov' :
    PlanRepo.get (plans s) id = Some p ->
    work_done s ov id ->
    closings s (close1 ov id) es ov' ->
    closings s ov (Event.PlanStatusChanged id (Plan.status p) Completed :: es) ov'.

(** Every closing is of a plan that is finished by what comes before it. *)
Definition closes_finished (s : St) (batch : list Event) (e : Event) : Prop :=
  exists id p, PlanRepo.get (plans s) id = Some p /\ finished s batch id /\
    e = Event.PlanStatusChanged id (Plan.status p) Completed.

Lemma closings_finished s ov es ov' batch :
  closings s ov es ov' -> represents ov batch ->
  represents ov' (batch ++ es) /\
  forall before e after, es = before ++ e :: after -> closes_finished s (batch ++ before) e.
Proof.
  intros Hc. revert batch. induction Hc as [ov|ov id p es ov' Hp Hw Hc IH]; intros batch Hr.
  { rewrite app_nil_r. split; [done|]. by intros []. }
  destruct (IH _ (represents_close s _ _ id (Plan.status p) Hr)) as [Hr' Hes]. rewrite <- app_assoc in Hr'.
  split; [exact Hr'|]. intros [|b before] e after [= <- Hrest].
  - rewrite app_nil_r. exists id, p. split; [done|]. split; [|done]. by eapply work_done_finished.
  - specialize (Hes before e after Hrest). by rewrite <- app_assoc in Hes.
Qed.

Lemma child_row s id c :
  plans_keyed s -> c ∈ PlanRepo.list_children (plans s) id ->
  PlanRepo.get (plans s) (Plan.id c) = Some c /\ Plan.parent_plan_id c = Some id.
Proof.
  intros Hk. unfold PlanRepo.list_children.
  rewrite elem_of_sort_by, list_elem_of_In, filter_In, <- list_elem_of_In.
  intros [Hin Hb]. bsplit. split; [|done].
  apply list_elem_of_fmap in Hin as ([k q] & -> & Hin%elem_of_map_to_list).
  cbn. by rewrite (Hk _ _ Hin).
Qed.

(** Only the member, the children and the run state matter, and closing plan
    [id] changes only the children statuses of [id]'s parent. *)
Lemma work_done_close s ov id p j :
  plans_keyed s -> PlanRepo.get (plans s) id = Some p ->
  Plan.parent_plan_id p <> Some j -> work_done s (close1 ov id) j -> work_done s ov j.
Proof.
  intros Hk Hp Hpar [Hpl Hne Hm Hc Hr]. constructor; [|done|done| |done].
  - destruct Hpl as (q & Hq & Hs & Ha). exists q. split; [done|]. split; [|done]. cbn in Hs.
    destruct (decide (j = id)) as [->|Hji]; [by rewrite lookup_insert_eq in Hs|].
    by rewrite lookup_insert_ne in Hs.
  - intros c Hin. specialize (Hc c Hin). unfold status_of in *. cbn in Hc.
    destruct (decide (Plan.id c = id)) as [Hid|Hid]; [|by rewrite lookup_insert_ne in Hc].
    exfalso. apply Hpar.
    destruct (child_row _ _ _ Hk Hin) as [Hrow Hpc]. rewrite Hid, Hp in Hrow. by injection Hrow as ->.
Qed.

(** The loop settles every candidate: afterwards none of them, and no plan that
    was settled before, has its work done. *)
Lemma drain_settles fuel s ov cands es :
  plans_keyed s -> drain fuel s ov cands = Some es ->
  exists ov', closings s ov es ov' /\
    forall j, (work_done s ov j -> j ∈ cands) -> ~ work_done s ov' j.
Proof.
  intros Hk. revert ov cands es.
  induction fuel as [|fuel IH]; intros ov [|id cands] es; cbn; try done.
  1,2: intros [= <-]; exists ov; split; [constructor|]; intros j Hj Hw; by apply Hj, elem_of_nil in Hw.
  destruct (to_close s ov id) as [p|] eqn:C.
  - intros (es' & Hd & ->)%fmap_Some. destruct (IH _ _ _ Hd) as (ov' & Hc & Hs).
    pose proof (to_close_get _ _ _ _ C) as Hp. exists ov'. split.
    + econstructor; [done| |done]. apply to_close_iff; eauto.
    + intros j Hj. apply Hs. intros Hw. apply elem_of_app.
      destruct (decide (Plan.parent_plan_id p = Some j)) as [->|Hpar]; [right; apply list_elem_of_here|].
      left. pose proof (Hj (work_done_close _ _ _ _ _ Hk Hp Hpar Hw)) as Hin.
      apply elem_of_cons in Hin as [->|Hin]; [exfalso|done].
      destruct Hw as [(q & _ & Hs' & _) _ _ _ _]. cbn in Hs'. by rewrite lookup_insert_eq in Hs'.
  - intros Hd. destruct (IH _ _ _ Hd) as (ov' & Hc & Hs). exists ov'. split; [done|].
    intros j Hj. apply Hs. intros Hw. pose proof (Hj Hw) as [->|Hin]%elem_of_cons; [exfalso|done].
    apply to_close_iff in Hw as [? ?]; [|done]. congruence.
Qed.

(** ** The candidates collected from the batch *)
Definition runs_keyed (s : St) : Prop :=
  map_Forall (fun id r => Run.id r = id) (RunRepo.runs (runs s)).
#[global] Instance runs_keyed_dec s : Decision (runs_keyed s).
Proof. unfold runs_keyed. apply _. Defined.

Lemma member_plan s id m p :
  plans_keyed s -> PlanRepo.get (plans s) id = Some p ->
  m ∈ PlanRepo.list_tasks_ordered (plans s) id ->
  id ∈ map Plan.id (PlanRepo.list_plans_for_task (plans s) (PlanTask.task_id m)).
Proof.
  intros Hk Hp. unfold PlanRepo.list_tasks_ordered, PlanRepo.list_plans_for_task.
  rewrite elem_of_sort_by, list_elem_of_In, filter_In, <- list_elem_of_In. intros [Hin Hb]. bsplit.
  apply list_elem_of_fmap. exists p. split; [by rewrite (Hk _ _ Hp)|].
  apply list_elem_of_fmap. exists (p, PlanTask.position m). split; [done|].
  apply elem_of_sort_by, list_elem_of_omap. exists m. split; [done|].
  rewrite bool_decide_eq_true_2 by done. by rewrite Hb, Hp.
Qed.

Lemma active_run_row s id r :
  runs_keyed s -> r ∈ RunRepo.list_active_for_plan (runs s) id ->
  RunRepo.get (runs s) (Run.id r) = Some r /\ Run.plan_id r = id.
Proof.
  intros Hk. unfold RunRepo.list_active_for_plan.
  rewrite elem_of_sort_by, list_elem_of_In, filter_In, <- list_elem_of_In.
  intros [Hin Hb]. bsplit. split; [|done].
  apply list_elem_of_fmap in Hin as ([k q] & -> & Hin%elem_of_map_to_list).
  cbn. by rewrite (Hk _ _ Hin).
Qed.

Definition activates (e : Event) : bool :=
  match e with Event.PlanStatusChanged _ _ Active => true | _ => false end.

(** An overlay change that leaves the plan's own inputs alone. *)
Lemma work_done_mono s ov ov' id :
  work_done s ov' id ->
  (forall p, PlanRepo.get (plans s) id = Some p ->
    default (Plan.status p) (plan_statuses ov' !! id) = Active ->
    default (Plan.status p) (plan_statuses ov !! id) = Active) ->
  (forall m, m ∈ PlanRepo.list_tasks_ordered (plans s) id ->
    forall st, member_status s ov' m = Some st -> is_terminal st = true ->
    exists st', member_status s ov m = Some st' /\ is_terminal st' = true) ->
  (forall c, c ∈ PlanRepo.list_children (plans s) id ->
    status_of ov' c = Completed \/ status_of ov' c = Abandoned ->
    status_of ov c = Completed \/ status_of ov c = Abandoned) ->
  (forall r, r ∈ RunRepo.list_active_for_plan (runs s) id ->
    Run.id r ∈ ended_runs ov' -> Run.id r ∈ ended_runs ov) ->
  work_done s ov id.
Proof.
  intros [(p & Hp & Hs & Ha) Hne Hm Hc Hr] H1 H2 H3 H4. constructor; [| done | | |].
  - exists p. eauto.
  - intros m Hin. destruct (Hm m Hin) as (st & ? & ?). eauto.
  - intros c Hin. eauto.
  - intros r Hin. eauto.
Qed.

Lemma task_note s ov t to id :
  plans_keyed s -> TaskTableSpec.keyed (tasks s) ->
  work_done s (ov <| task_statuses := <[t := to]> (task_statuses ov) |>) id ->
  work_done s ov id \/
  (is_terminal to = true /\ id ∈ map Plan.id (PlanRepo.list_plans_for_task (plans s) t)).
Proof.
  intros Hk Ht Hw.
  destruct (decide (is_terminal to = true /\
    id ∈ map Plan.id (PlanRepo.list_plans_for_task (plans s) t))) as [|Hn]; [by right|left].
  assert (Hp : exists p, PlanRepo.get (plans s) id = Some p) by (destruct Hw as [(p & ? & _) _ _ _ _]; eauto).
  destruct Hp as [p Hp]. apply (work_done_mono _ _ _ _ Hw); [done| |done|done].
  intros m Hin st. unfold member_status. cbn.
  destruct (TaskRepo.get (tasks s) (PlanTask.task_id m)) as [x|] eqn:G; [|done].
  cbn. pose proof (Ht _ _ G) as Hx. intros [= <-] Hterm. eexists. split; [done|].
  destruct (decide (Task.id x = t)) as [<-|Hne]; [|by rewrite lookup_insert_ne in Hterm].
  rewrite lookup_insert_eq in Hterm. cbn in Hterm. exfalso. apply Hn. split; [done|].
  rewrite Hx. by eapply member_plan.
Qed.

Lemma plan_note s ov q to id :
  plans_keyed s -> to <> Active ->
  work_done s (ov <| plan_statuses := <[q := to]> (plan_statuses ov) |>) id ->
  work_done s ov id \/
  ((to = Completed \/ to = Abandoned) /\ id ∈ parent_of s q).
Proof.
  intros Hk Hto Hw.
  destruct (decide ((to = Completed \/ to = Abandoned) /\ id ∈ parent_of s q)) as [|Hn]; [by right|left].
  apply (work_done_mono _ _ _ _ Hw); [|eauto| |done].
  - intros p _. cbn. destruct (decide (id = q)) as [->|Hne]; [by rewrite lookup_insert_eq|].
    by rewrite lookup_insert_ne.
  - intros c Hin. unfold status_of. cbn.
    destruct (decide (Plan.id c = q)) as [<-|Hne]; [|by rewrite lookup_insert_ne].
    rewrite lookup_insert_eq. cbn. intros Hc. exfalso. apply Hn. split; [done|].
    destruct (child_row _ _ _ Hk Hin) as [Hrow Hpar]. unfold parent_of. rewrite Hrow. cbn.
    rewrite Hpar. apply list_elem_of_here.
Qed.

Lemma run_note s ov r id :
  plans_keyed s -> runs_keyed s ->
  work_done s (ov <| ended_runs := {[r]} ∪ ended_runs ov |>) id ->
  work_done s ov id \/ id ∈ option_list (Run.plan_id <$> RunRepo.get (runs s) r).
Proof.
  intros Hk Hr Hw.
  destruct (decide (id ∈ option_list (Run.plan_id <$> RunRepo.get (runs s) r))) as [|Hn]; [by right|left].
  apply (work_done_mono _ _ _ _ Hw); [done|eauto|done|].
  intros x Hin. cbn. rewrite elem_of_union, elem_of_singleton. intros [<-|]; [|done].
  exfalso. apply Hn. destruct (active_run_row _ _ _ Hr Hin) as [-> <-]. cbn. apply list_elem_of_here.
Qed.

Lemma note_event_settles s acc e :
  plans_keyed s -> TaskTableSpec.keyed (tasks s) -> runs_keyed s -> activates e = false ->
  (forall id, work_done s acc.2 id -> id ∈ acc.1) ->
  forall id, work_done s (note_event s acc e).2 id -> id ∈ (note_event s acc e).1.
Proof.
  intros Hk Ht Hr Ha Hacc id. destruct acc as [cands ov].
  assert (Hplan : forall q to, to <> Active -> forall l,
    ((to = Completed \/ to = Abandoned) -> l = cands ++ parent_of s q) ->
    (~ (to = Completed \/ to = Abandoned) -> l = cands) ->
    work_done s (ov <| plan_statuses := <[q := to]> (plan_statuses ov) |>) id -> id ∈ l).
  { intros q to Hto l H1 H2 Hw. destruct (plan_note _ _ _ _ _ Hk Hto Hw) as [Hb|[Hc Hin]].
    - apply Hacc in Hb. destruct (decide (to = Completed \/ to = Abandoned)) as [Hd|Hd].
      + rewrite (H1 Hd). apply elem_of_app. by left.
      + by rewrite (H2 Hd).
    - rewrite (H1 Hc). apply elem_of_app. by right. }
  assert (Hrun : forall r,
    work_done s (ov <| ended_runs := {[r]} ∪ ended_runs ov |>) id ->
    id ∈ cands ++ option_list (Run.plan_id <$> RunRepo.get (runs s) r)).
  { intros r Hw. apply elem_of_app.
    destruct (run_note _ _ _ _ Hk Hr Hw) as [Hb|Hin]; [left; by apply Hacc|by right]. }
  destruct e; cbn -[parent_of]; try exact (Hacc id); try (intros; by apply Hrun).
  - intros [Hb|[-> Hin]]%task_note; [| |done|done].
    + apply Hacc in Hb. destruct (is_terminal _); [apply elem_of_app; by left|done].
    + apply elem_of_app. by right.
  - intros Hw. refine (Hplan _ _ _ _ _ _ Hw).
    + intros ->. done.
    + intros [-> | ->]; done.
    + intros Hn. destruct (_ || _) eqn:E; [|done]. exfalso. apply Hn.
      apply orb_true_iff in E as [E|E]; bsplit; auto.
  - intros Hw. eapply (Hplan _ Abandoned); [done| |intros []; by right|exact Hw]. done.
Qed.

Lemma collect_settles s events :
  plans_keyed s -> TaskTableSpec.keyed (tasks s) -> runs_keyed s ->
  existsb activates events = false ->
  (forall id, ~ work_done s (mkOverlay ∅ ∅ ∅) id) ->
  forall id, work_done s (collect s events).2 id -> id ∈ (collect s events).1.
Proof.
  intros Hk Ht Hr Ha Hn. unfold collect.
  assert (H0 : forall id, work_done s ([] : list PlanId, mkOverlay ∅ ∅ ∅).2 id ->
                          id ∈ ([] : list PlanId, mkOverlay ∅ ∅ ∅).1) by (intros id Hw; by destruct (Hn id)).
  revert H0. generalize ([] : list PlanId, mkOverlay ∅ ∅ ∅).
  induction events as [|e events IH]; intros acc Hacc; [done|]. cbn in Ha |- *.
  apply orb_false_iff in Ha as [Ha1 Ha2]. apply (IH Ha2).
  by apply note_event_settles.
Qed.
End ReconcileTheorems.

Section Property.
  Import Handler Reconcile ReconcileSpec ReconcileFacts ReconcileTheorems.

End Property.

(** A plan and its child: the task of the parent is done, the one of the child is
    open. *)
Definition family_plans : PlanTables :=
  PlanRepo.mk {[ mkId 1 := demo_plan 1 None; mkId 2 := demo_plan 2 (Some (mkId 1)) ]}
    {[ (mkId 1, mkId 10) := PlanTask.mk (mkId 1) (mkId 10) 0 [];
       (mkId 2, mkId 20) := PlanTask.mk (mkId 2) (mkId 20) 0 [] ]} ∅.
Definition done_row (i : N) : TaskRow :=
  TaskRow.mk (TaskRow.task (demo_todo i) <| Task.status := Done |>) None None.
Definition family : Handler.St :=
  Handler.empty
  <| Handler.plans := family_plans |>
  <| Handler.tasks := TaskRepo.mk {[ mkId 10 := done_row 10; mkId 20 := demo_todo 20 ]} ∅ |>.
(** Both tasks are done and the child plan waits for its run: when the run
    completes, the child closes and then its parent. *)
Definition resting : Handler.St :=
  family
  <| Handler.tasks := TaskRepo.mk {[ mkId 10 := done_row 10; mkId 20 := done_row 20 ]} ∅ |>
  <| Handler.runs := RunRepo.mk
       {[ mkId 30 := Run.mk (mkId 30) (mkId 2) (mkId 7) None 0 None RunActive None None None None ]} [] |>.
Definition run_done : list Event := [Event.RunCompleted (mkId 30) 9].
Definition family_closings : list Event :=
  [Event.PlanStatusChanged (mkId 2) Active Completed; Event.PlanStatusChanged (mkId 1) Active Completed].

Lemma resting_tasks_keyed : TaskTableSpec.keyed (Handler.tasks resting).
Proof.
  intros id x (r & Hr & ->)%fmap_Some. cbn in Hr.
  by apply lookup_insert_Some in Hr as [[<- <-]|[_ [<- <-]%lookup_singleton_Some]].
Qed.
Lemma resting_unfinished id : ~ ReconcileSpec.finished resting [] id.
Proof.
  intros [(p & Hp & _) _ _ Hc Hr]. unfold PlanRepo.get in Hp. cbn in Hp.
  apply lookup_insert_Some in Hp as [[<- <-]|[_ [<- <-]%lookup_singleton_Some]].
  - destruct (Hc (demo_plan 2 (Some (mkId 1)))) as [H|H]; [|discriminate H..].
    apply (bool_decide_unpack _). by vm_compute.
  - specialize (Hr (Run.mk (mkId 30) (mkId 2) (mkId 7) None 0 None RunActive None None None None)).
    apply Exists_nil in Hr; [done|]. apply (bool_decide_unpack _). by vm_compute.
Qed.

