(* ===== verification/Dispatch.v ===== *)
(** * core/handler.rs: the dispatch of a command

    [handle_with_run_owner]: a repeated [CompleteRun] is answered and a foreign
    one refused, the source of a plan is resolved, the events of the command are
    built, plans whose work is done are closed with them, the lifecycle gate is
    asked, the batch is appended to the log together with the changes of claims
    and run owners it entails, every event is projected and the logs of the
    project are extended.  One mutex of the handler makes the whole of it one
    step.

    [Command] has every command of the handler.  Search, the event bus and the
    capability profiles (floating point) are outside the state. *)

From S2P Require Import Prelude Shared TaskModel PlanModel RegistryModel Events EventStore TaskStore RelationStore PlanStore SourcePolicy RunStore ActivityStore ClaimStore LeaseStore ArtifactStore DocumentStore RuleStore RuleEngine WorkStore ProjectStore Handler TaskCommands SourceIntake PlanCommands DocumentCommands RunCommands RegistryCommands Reconcile Gate.

Module Dispatch.
  Import Handler.

Inductive Command : Type :=
| CreateTask (task : NewTask)
| UpdateTask (id : TaskId) (patch : TaskPatch)
| CompleteTask (id : TaskId) (note : option CompletionNote)
| DeleteTask (id : TaskId)
| SetStatus (id : TaskId) (status : Status) (force : bool) (override_reason : option Str)
    (comment : option TransitionComment)
| SetPriority (id : TaskId) (priority : Priority)
| AdvancePipeline (id : TaskId) (position : PipelinePosition)
| ClosePipelineStage (id : TaskId) (stage_index : Z) (instance : Str)
    (then_ : option PipelinePosition)
| BulkSetStatus (ids : list TaskId) (status : Status)
| BulkAttachToPlan (plan_id : PlanId) (task_ids : list TaskId)
| SplitTask (parent : TaskId) (subtasks : list NewTask)
| CreateProject (title : Str) (description : option Str)
| UpdateProject (id : ProjectId) (title : option Str) (description : option (option Str))
| DeleteProject (id : ProjectId)
| CreatePlan (plan : NewPlan) (external_ref : option (Str * Str * Str))
| MaterializePlan (plan : NewPlan) (new_tasks : list NewTask) (plan_id : option PlanId)
| ExtendSource (plan_id : option PlanId) (source_ref : option Str) (source : option SourceInput)
    (upstream : list SourceInput)
| UpdatePlan (id : PlanId) (patch : PlanPatch)
| AmendPlanTask (plan_id : PlanId) (task_id : TaskId) (patch : TaskPatch)
| ArchivePlan (id : PlanId)
| DeletePlan (id : PlanId)
| AddPlanTask (plan_id : PlanId) (task_id : TaskId) (position : option Z)
    (depends_on : option (list TaskId))
| RemovePlanTask (plan_id : PlanId) (task_id : TaskId)
| ReorderPlan (plan_id : PlanId) (order : list TaskId)
| SetPlanGoal (plan_id : PlanId) (goal : Str)
| SetPlanStatus (plan_id : PlanId) (status : PlanStatus) (force : bool)
    (override_reason : option Str)
| StartRun (plan_id : PlanId) (agent_id : AgentId) (parent_run_id : option RunId)
| RunStartStep (run_id : RunId) (task_id : TaskId)
| RunFinishStep (run_id : RunId) (task_id : TaskId) (outcome : RunOutcome)
| CompleteRun (run_id : RunId)
| FailRun (run_id : RunId) (reason : Str)
| AbortRun (run_id : RunId) (reason : Str)
| AppendRunNote (run_id : RunId) (body : Str)
| SendRunSignal (run_id : RunId) (kind : SignalKind)
| RespondRunSignal (run_id : RunId) (choice : Str)
| LinkTasks (from to : TaskId) (kind : RelationKind)
| UnlinkTasks (id : RelationId)
| AcquireClaim (agent_id : AgentId) (task_id : TaskId) (claim_id : ClaimId) (expires_at : Z)
| ReleaseClaim (agent_id : AgentId) (task_id : TaskId)
| ReserveFiles (leases : list WorkLease)
| ReleaseFiles (agent_id : AgentId) (task_id : TaskId) (lease_ids : option (list WorkLeaseId))
| CreateDocument (new_doc : Document.NewDocument)
| ReplaceDocumentContent (id : DocumentId) (content : Str)
| AppendDocumentContent (id : DocumentId) (append : Str)
| RenameDocument (id : DocumentId) (title : Str)
| ArchiveDocument (id : DocumentId)
| SetDocumentStatus (id : DocumentId) (status : DocumentStatus)
| LinkDocumentToTask (id : DocumentId) (task_id : option TaskId)
| CreateWorkUnit (work_unit : NewWorkUnit)
| CompleteWorkUnit (id : WorkUnitId) (outcome : option Str) (produced_artifacts : list Str)
    (next_suggested_units : list WorkUnitId)
| ReleaseWorkUnit (id : WorkUnitId)
| SetWorkUnitStatus (id : WorkUnitId) (status : WorkUnitStatus) (reason : option Str)
| UpdateProjectSettings (project_id : ProjectId) (auto_append : AutoAppendPatch)
    (intake_source : option (option IntakeSourcePolicy)) (audit : option (option Json))
| RecordAgentAction (action : AgentAction)
| AddComment (comment : NewComment)
| EditComment (id : CommentId) (body : option Str)
| DeleteComment (id : CommentId)
| StartAgentSession (agent_id : AgentId) (parent_agent_id : option AgentId) (metadata : option Json)
| EndAgentSession (id : AgentSessionId)
| UpdateAgentSessionPlan (id : AgentSessionId) (steps : list AgentSessionPlanStep)
| AttachSessionArtifact (session_id : AgentSessionId) (kind : SessionArtifactKind) (reference : Str)
    (metadata : option Json)
| RequestHandoff (handoff : Handoff.NewHandoffContract)
| AcceptHandoff (handoff_id : HandoffId) (notes : option Str)
| RejectHandoff (handoff_id : HandoffId) (reason : Str) (required_changes : list Str)
| CreateRule (rule : Rule.NewRule)
| UpdateRule (id : RuleId) (patch : RulePatch)
| DisableRule (id : RuleId)
| DeleteRule (id : RuleId)
| RecordEvidence (evidence : Evidence.NewEvidence)
| RegisterArtifact (artifact : Artifact.NewArtifact)
| UpdateArtifact (artifact_id : ArtifactId) (title description : option Str)
| CommitArtifactWrite (artifact_id : ArtifactId) (agent_id : AgentId) (fencing_token : Z)
    (version : option Str)
| DeprecateArtifact (artifact_id : ArtifactId) (reason : option Str)
| AddArtifactRelation (from to : ArtifactId) (kind : ArtifactRelationKind)
| RemoveArtifactRelation (from to : ArtifactId) (kind : ArtifactRelationKind)
| AssignArtifactOwner (artifact_id : ArtifactId) (owner_agent_id : AgentId)
| ChangeArtifactStatus (artifact_id : ArtifactId) (to : ArtifactStatus)
| ProposeRoleArtifact (task_id : TaskId) (role kind : Str) (payload : Json) (title : option Str)
    (supersedes : option ArtifactId) (artifact_id : option ArtifactId)
| SetRoleArtifactStatus (artifact_id : ArtifactId) (to : RoleArtifactStatus).

Section Dispatch.
(** The textual form of ids belongs to the [uuid] crate. *)
Context (uuid_display : N -> Str) (uuid_parse : Str -> option N).
Context (env : Env).

Definition agent_name (a : AgentId) : Str := Ids.display uuid_display a.

Definition build_events (cmd : Command) : M (list Event) :=
  match cmd with
  | CreateTask t => TaskCommands.create_task env t
  | UpdateTask id patch => TaskCommands.update_task env id patch
  | CompleteTask id note => TaskCommands.complete_task env id note
  | DeleteTask id => TaskCommands.delete_task env id
  | SetStatus id status _ _ comment => TaskCommands.set_status env id status comment
  | SetPriority id p => TaskCommands.set_priority id p
  | AdvancePipeline id p => TaskCommands.advance_pipeline env id p
  | ClosePipelineStage id i inst p => TaskCommands.close_pipeline_stage env id i inst p
  | BulkSetStatus ids status => TaskCommands.bulk_set_status env ids status
  | BulkAttachToPlan plan ids => TaskCommands.bulk_attach_to_plan plan ids
  | SplitTask parent subtasks => TaskCommands.split_task env parent subtasks
  | CreateProject title d => ProjectCommands.create_project env title d
  | UpdateProject id title d => ProjectCommands.update_project id title d
  | DeleteProject id => ProjectCommands.delete_project id
  | CreatePlan plan r => PlanCommands.create_plan env plan r
  | MaterializePlan plan ts (Some id) => PlanCommands.append_to_plan uuid_display env id plan ts
  | MaterializePlan plan ts None => PlanCommands.materialize_plan env plan ts
  | ExtendSource _ _ _ _ => mret []
  | UpdatePlan id patch => PlanCommands.update_plan id patch
  | AmendPlanTask plan task patch => PlanCommands.amend_plan_task plan task patch
  | ArchivePlan id => PlanCommands.archive_plan env id
  | DeletePlan id => PlanCommands.delete_plan env id
  | AddPlanTask plan task pos deps => PlanCommands.add_plan_task plan task pos deps
  | RemovePlanTask plan task => PlanCommands.remove_plan_task env agent_name plan task
  | ReorderPlan plan order => PlanCommands.reorder_plan plan order
  | SetPlanGoal plan goal => PlanCommands.set_plan_goal plan goal
  | SetPlanStatus plan status _ _ => PlanCommands.set_plan_status plan status
  | StartRun plan agent parent => PlanCommands.start_run env plan agent parent
  | RunStartStep run task => PlanCommands.run_start_step env run task
  | RunFinishStep run task o => PlanCommands.run_finish_step env run task o
  | CompleteRun run => RunCommands.complete_run env run
  | FailRun run reason => PlanCommands.fail_run env run reason
  | AbortRun run reason => PlanCommands.abort_run env run reason
  | AppendRunNote run body => PlanCommands.append_run_note env run body
  | SendRunSignal run k => PlanCommands.send_run_signal env run k
  | RespondRunSignal run c => PlanCommands.respond_run_signal env run c
  | LinkTasks from to k => TaskCommands.link_tasks env from to k
  | UnlinkTasks id => TaskCommands.unlink_tasks env id
  | AcquireClaim a t c e => TaskCommands.acquire_claim a t c e
  | ReleaseClaim a t => TaskCommands.release_claim a t
  | ReserveFiles ls => TaskCommands.reserve_files ls
  | ReleaseFiles a t ids => TaskCommands.release_files a t ids
  | CreateDocument d => DocumentCommands.create_document env d
  | ReplaceDocumentContent id c => DocumentCommands.replace_document_content env id c
  | AppendDocumentContent id c => DocumentCommands.append_document_content env id c
  | RenameDocument id title => DocumentCommands.rename_document env id title
  | ArchiveDocument id => DocumentCommands.archive_document env id
  | SetDocumentStatus id status => DocumentCommands.set_document_status env id status
  | LinkDocumentToTask id task => DocumentCommands.link_document_to_task env id task
  | CreateWorkUnit u => RegistryCommands.create_work_unit env u
  | CompleteWorkUnit id o arts next => RegistryCommands.complete_work_unit env id o arts next
  | ReleaseWorkUnit id => RegistryCommands.release_work_unit env id
  | SetWorkUnitStatus id st r => RegistryCommands.set_work_unit_status env id st r
  | UpdateProjectSettings p patch intake audit =>
      RegistryCommands.update_project_settings env p patch intake audit
  | RecordAgentAction a => mret [Event.AgentActionRecorded a]
  | AddComment c => RegistryCommands.add_comment env c
  | EditComment id body => RegistryCommands.edit_comment env id body
  | DeleteComment id => RegistryCommands.delete_comment env id
  | StartAgentSession a parent meta => RegistryCommands.start_agent_session env a parent meta
  | EndAgentSession id => RegistryCommands.end_agent_session env id
  | UpdateAgentSessionPlan id steps => RegistryCommands.update_agent_session_plan id steps
  | AttachSessionArtifact id k r meta => RegistryCommands.attach_session_artifact env id k r meta
  | RequestHandoff h => RegistryCommands.request_handoff env h
  | AcceptHandoff id notes => RegistryCommands.accept_handoff env id notes
  | RejectHandoff id reason changes => RegistryCommands.reject_handoff env id reason changes
  | CreateRule r => RegistryCommands.create_rule env r
  | UpdateRule id patch => RegistryCommands.update_rule env id patch
  | DisableRule id => RegistryCommands.disable_rule env id
  | DeleteRule id => RegistryCommands.delete_rule id
  | RecordEvidence e => RegistryCommands.record_evidence env e
  | RegisterArtifact a => RegistryCommands.register_artifact env a
  | UpdateArtifact id title d => RegistryCommands.update_artifact env id title d
  | CommitArtifactWrite id agent token v => RegistryCommands.commit_artifact_write env id agent token v
  | DeprecateArtifact id reason => RegistryCommands.deprecate_artifact env id reason
  | AddArtifactRelation from to k => RegistryCommands.add_artifact_relation env from to k
  | RemoveArtifactRelation from to k => RegistryCommands.remove_artifact_relation env from to k
  | AssignArtifactOwner id owner => RegistryCommands.assign_artifact_owner env id owner
  | ChangeArtifactStatus id to => RegistryCommands.change_artifact_status env id to
  | ProposeRoleArtifact task role kind payload title old id =>
      RegistryCommands.propose_role_artifact uuid_display env task role kind payload title old id
  | SetRoleArtifactStatus id to => RegistryCommands.set_role_artifact_status env id to
  end.

(** ** Before the events are built *)
(** The source of the plan, with the warnings and the events that go ahead of the
    batch; the plan of the command is replaced by the resolved one. *)
Definition source_phase (cmd : Command) : M (Command * list LifecycleGate.MutationWarning * list Event) :=
  match cmd with
  | MaterializePlan plan ts None =>
      r ← SourceIntake.resolve_plan_source uuid_display env plan;
      let '(plan, ws, es) := r in
      _ ← (if NewPlan.separate plan then mret tt
           else SourceIntake.require_plan_choice uuid_display env plan es);
      mret (MaterializePlan plan ts None,
            ws ++ match SourcePolicy.plan_looks_raw (lowercase (crates env)) plan ts with
                  | Some w => [w] | None => [] end, es)
  | CreatePlan plan None =>
      r ← SourceIntake.resolve_plan_source uuid_display env plan;
      let '(plan, ws, es) := r in
      mret (CreatePlan plan None, ws, es)
  | CreatePlan plan (Some k) =>
      r ← SourceIntake.shape_plan_source uuid_display env plan;
      let '(plan, ws, es) := r in
      mret (CreatePlan plan (Some k), ws, es)
  | ExtendSource plan_id source_ref source upstream =>
      r ← SourceIntake.extend_source uuid_display env plan_id source_ref source upstream;
      mret (cmd, r.1, r.2)
  | _ => mret (cmd, [], [])
  end.

Definition is_extend (cmd : Command) : bool :=
  match cmd with ExtendSource _ _ _ _ => true | _ => false end.
Definition creates_plan (e : Event) : bool :=
  match e with Event.PlanCreated _ => true | _ => false end.
(** A no-op create writes no nodes. *)
Definition with_source (cmd : Command) (source_events events : list Event) : list Event :=
  if is_extend cmd || existsb creates_plan events then source_events ++ events else events.

(** Evidence is attributed to the authenticated principal. *)
Definition attribute (authenticated : option AgentId) (e : Event) : Event :=
  match e with
  | Event.EvidenceRecorded ev =>
      Event.EvidenceRecorded (ev <| Evidence.authenticated_actor_id := authenticated |>)
  | _ => e
  end.

Definition gate_override_of (cmd : Command) : LifecycleGate.GateOverride :=
  match cmd with
  | SetStatus _ _ force reason _ | SetPlanStatus _ _ force reason =>
      LifecycleGate.mkOverride force reason
  | _ => LifecycleGate.no_override
  end.

(** [EventEnvelope::new] of each event. *)
Fixpoint envelopes_of (events : list Event) : M (list EventEnvelope) :=
  match events with
  | [] => mret []
  | e :: events =>
      id ← fresh env KEvent;
      rest ← envelopes_of events;
      mret (Envelope.new id (now env) (actor env) e :: rest)
  end.

(** ** The gate *)
Definition id_json {k} (i : option (Id k)) : Json :=
  match i with Some i => JStr (uuid_display (as_uuid i)) | None => JNull end.

Definition observation_event (c : LifecycleGate.GateCheck) (o : LifecycleGate.RuleObservation)
  : Event :=
  Event.OperationalMetricRecorded
    (mkMetric (now env) MetricStep
       (match LifecycleGate.run_id c with Some r => Ids.display uuid_display r | None => [] end)
       (Some (Ids.display uuid_display (LifecycleGate.o_rule_id o)))
       (lit "daruma") (lit "rule.advisory_evaluated") OutcomeOk 0 None 0 None None
       (JObj [("rule_id"%string, id_json (Some (LifecycleGate.o_rule_id o)));
              ("rule_key"%string, JStr (LifecycleGate.o_rule_key o));
              ("rule_revision"%string, JNum (LifecycleGate.o_rule_revision o));
              ("triggered"%string, JBool (LifecycleGate.o_triggered o));
              ("trigger"%string, JStr (lit (LifecycleGate.as_str (LifecycleGate.trigger c))));
              ("project_id"%string, id_json (LifecycleGate.project_id c));
              ("plan_id"%string, id_json (LifecycleGate.plan_id c));
              ("task_id"%string, id_json (LifecycleGate.task_id c))])).

Definition warned (ws : list LifecycleGate.MutationWarning) : list (Json * Str) :=
  map (fun w => (LifecycleGate.w_details w, LifecycleGate.w_message w)) ws.

Definition fired (c : LifecycleGate.GateCheck) (d : RuleDecision) (reason : option Str)
    (outcomes : list (Json * Str)) : list Event :=
  LifecycleGate.rule_fired_events uuid_parse (now env) c (actor env) d reason outcomes.

(** [store.append_batch]. *)
Definition append_batch (es : list EventEnvelope) : M (list EventEnvelope) := fun s =>
  let '(r, l) := EventStore.append_batch (log s) es in (r, s <| log := l |>).

(** The events in the activity feed. *)
Definition feed (s : St) (es : list EventEnvelope) : ActivityTable :=
  foldl (ActivityRepo.apply_event uuid_display (serde (crates env)) (plans s) (runs s)) (activity s) es.

(** What the checks so far have gathered. *)
Record GateLog : Type := mkGateLog {
  rule_audit : list Event;
  rule_metrics : list Event;
  gate_warnings : list LifecycleGate.MutationWarning }.

(** The loop over the checks.  A block persists the audit trail of the checks
    made so far and then fails. *)
Fixpoint run_checks (gate : LifecycleGate.LifecycleGate St) (ov : LifecycleGate.GateOverride)
    (acc : GateLog) (checks : list LifecycleGate.GateCheck) : M GateLog :=
  match checks with
  | [] => mret acc
  | c :: checks =>
      r ← gets (fun s => @LifecycleGate.check_observed St gate s (actor env) c ov);
      r ← lift r;
      let '(decision, observations) := r in
      let metrics := rule_metrics acc ++ map (observation_event c) observations in
      match decision with
      | LifecycleGate.Allowed =>
          run_checks gate ov (mkGateLog (rule_audit acc) metrics (gate_warnings acc)) checks
      | LifecycleGate.Warning ws =>
          run_checks gate ov
            (mkGateLog (rule_audit acc ++ fired c DecisionWarning None (warned ws)) metrics
                       (gate_warnings acc ++ ws)) checks
      | LifecycleGate.Overridden overridden ws reason =>
          run_checks gate ov
            (mkGateLog (rule_audit acc ++ fired c DecisionWarning None (warned ws)
                          ++ fired c DecisionOverridden (Some reason) (warned overridden))
                       metrics (gate_warnings acc ++ ws ++ overridden)) checks
      | LifecycleGate.Blocked message details =>
          let audit := metrics ++ fired c DecisionBlocked None
                                    (LifecycleGate.blocked_outcomes details message) in
          _ ← (match audit with
               | [] => mret []
               | _ => envs ← envelopes_of audit;
                      persisted ← append_batch envs;
                      _ ← modify (fun s => s <| activity := feed s persisted |>);
                      mret persisted
               end);
          fail (Conflict "rule_blocked: {message}{hint}")
      end
  end.

(** ** Provenance of created tasks *)
Definition anchor (wanted : Event -> bool) (envs : list EventEnvelope) : option EventId :=
  Envelope.id <$> head (List.filter (fun e => wanted (Envelope.payload e)) envs).

Definition bind_tasks (anchor_id : option EventId) (envs : list EventEnvelope)
  : list EventEnvelope :=
  match anchor_id with
  | None => envs
  | Some a =>
      map (fun e => match Envelope.payload e with
                    | Event.TaskCreated t =>
                        e <| Envelope.payload :=
                          Event.TaskCreated (t <| NewTask.source_event_id := Some a |>) |>
                    | _ => e
                    end) envs
  end.

Definition relink_materialised_provenance (envs : list EventEnvelope) : list EventEnvelope :=
  bind_tasks
    (or_else (anchor (fun e => match e with Event.PlanCreated _ => true | _ => false end) envs)
    (or_else (anchor (fun e => match e with Event.PlanStatusChanged _ _ _ => true | _ => false end) envs)
             (anchor (fun e => match e with Event.PlanTaskAdded _ _ _ _ => true | _ => false end) envs)))
    envs.
Definition relink_split_provenance (envs : list EventEnvelope) : list EventEnvelope :=
  bind_tasks
    (anchor (fun e => match e with Event.TaskSplitGenerated _ _ => true | _ => false end) envs) envs.

Definition relink (cmd : Command) (envs : list EventEnvelope) : list EventEnvelope :=
  match cmd with
  | MaterializePlan _ _ _ => relink_materialised_provenance envs
  | SplitTask _ _ => relink_split_provenance envs
  | _ => envs
  end.

(** ** Persisting the batch

    The claim repository appends the batch in the transaction that changes the
    claims, so a failed append changes nothing. *)
Definition is_task_lifecycle (e : EventEnvelope) : bool :=
  match Envelope.payload e with
  | Event.TaskClosed _ _ _ | Event.TaskReopened _ _ _ | Event.TaskDeleted _ => true
  | _ => false
  end.
Definition is_plan_terminal (cmd : Command) : bool :=
  match cmd with
  | ArchivePlan _ | DeletePlan _
  | SetPlanStatus _ Completed _ _ | SetPlanStatus _ Abandoned _ _ => true
  | _ => false
  end.

(** The released claims are wrapped as they are recorded: each gets an id. *)
Fixpoint fresh_ids (es : list EventEnvelope) : M (list EventEnvelope) :=
  match es with
  | [] => mret []
  | e :: es =>
      id ← fresh env KEvent;
      rest ← fresh_ids es;
      mret (e <| Envelope.id := id |> :: rest)
  end.

Definition wrap (e : Event) : EventEnvelope := Envelope.new (mkId 0) (now env) (actor env) e.

(** Append [all], whose tail after [envs] was wrapped in the transaction, and
    then write the tables. *)
Definition record (envs all : list EventEnvelope) (write : St -> St) : M (list EventEnvelope) :=
  tail ← fresh_ids (drop (length envs) all);
  persisted ← append_batch (envs ++ tail);
  _ ← modify write;
  mret persisted.

Definition run_claims (s : St) : RunClaims.RunClaimTables :=
  RunClaims.mk (claims s) (runs s) (owners s).
Definition set_run_claims (t : RunClaims.RunClaimTables) (s : St) : St :=
  s <| claims := RunClaims.claims t |> <| runs := RunClaims.run_tables t |>
    <| owners := RunClaims.owners t |>.

Definition persist (authenticated : option AgentId) (is_admin : bool) (cmd : Command)
    (envs : list EventEnvelope) : M (list EventEnvelope) :=
  match authenticated, cmd with
  | Some owner, StartRun _ _ _ =>
      r ← gets (fun s => RunClaims.record_run_started (owners s) owner envs);
      o ← lift r;
      record envs envs (fun s => s <| owners := o |>)
  | Some agent, FailRun _ _ | Some agent, AbortRun _ _ =>
      r ← gets (fun s => RunClaims.record_run_terminal wrap (run_claims s) agent is_admin envs);
      r ← lift r;
      record envs r.1 (set_run_claims r.2)
  | _, _ =>
      if existsb is_task_lifecycle envs then
        r ← gets (fun s => ClaimRepo.record_task_lifecycle wrap (claims s) envs);
        record envs r.1 (fun s => s <| claims := r.2 |>)
      else if is_plan_terminal cmd then
        r ← gets (fun s => RunClaims.record_plan_terminal wrap (now env) (run_claims s)
                             authenticated is_admin envs);
        r ← lift r;
        record envs r.1 (set_run_claims r.2)
      else append_batch envs
  end.

(** ** Projecting *)
Definition put {A} (f : St -> Result CoreError A) (set : A -> St -> St) : M unit :=
  r ← gets f; a ← lift r; modify (set a).

(** The projections in the order of the source; [relations] and
    [external_refs] have an empty [apply_event]. *)
Definition project_tasks (e : EventEnvelope) : M unit :=
  id ← fresh env KTask;
  put (fun s => TaskRepo.apply_event_tx id (now env) (tasks s) e) (fun t s => s <| tasks := t |>).
Definition project_feed (e : EventEnvelope) : M unit :=
  _ ← modify (fun s => s <| projects := ProjectRepo.apply_event (projects s) e |>);
  _ ← modify (fun s => s <| comments := CommentRepo.apply_event (comments s) e |>);
  modify (fun s => s <| activity := feed s [e] |>).
Definition project_plans (e : EventEnvelope) : M unit :=
  modify (fun s =>
    let '(p, t) := PlanRepo.apply_event (now env) (plans s) (tasks s) e in
    s <| plans := p |> <| tasks := t |>).
Definition project_agents (e : EventEnvelope) : M unit :=
  _ ← modify (fun s => s <| runs := RunRepo.apply_event (runs s) e |>);
  _ ← modify (fun s => s <| run_notes := RunNoteRepo.apply_event (run_notes s) e |>);
  _ ← modify (fun s => s <| sessions := SessionRepo.apply_event (sessions s) e |>);
  _ ← put (fun s => ClaimRepo.apply_event (claims s) (now env) (Envelope.payload e))
          (fun t s => s <| claims := t |>);
  modify (fun s => s <| leases := WorkLeaseRepo.apply_event (leases s) e |>).
Definition project_registries (e : EventEnvelope) : M unit :=
  _ ← modify (fun s =>
        s <| versions := VersionRepo.insert_document_version uuid_display (versions s) (documents s) e |>
          <| documents := DocumentRepo.apply_event (documents s) e |>);
  _ ← modify (fun s => s <| settings := ProjectSettingsRepo.apply_event (settings s) e |>);
  _ ← modify (fun s => s <| work_units := WorkUnitRepo.apply_event (work_units s) e |>);
  _ ← put (fun s => HandoffRepo.apply_event (handoffs s) e) (fun t s => s <| handoffs := t |>);
  _ ← put (fun s => RuleRepo.apply_event (rules s) e) (fun t s => s <| rules := t |>);
  _ ← modify (fun s => s <| evidence := EvidenceRepo.apply_event (evidence s) e |>);
  put (fun s => ArtifactRepo.apply_event (artifacts s) (leases s) (now env) e)
      (fun t s => s <| artifacts := t |>).
Definition project_event (e : EventEnvelope) : M unit :=
  _ ← project_tasks e;
  _ ← project_feed e;
  _ ← project_plans e;
  _ ← project_agents e;
  project_registries e.

Fixpoint project_all (es : list EventEnvelope) : M unit :=
  match es with
  | [] => mret tt
  | e :: es => _ ← project_event e; project_all es
  end.

(** [persist_signal_event_as]: a system event without command validation. *)
Definition persist_signal_event_as (who : Actor) (e : Event) : M unit :=
  id ← fresh env KEvent;
  persisted ← append_batch [Envelope.new id (now env) who e];
  project_all persisted.

(** ** The automatic logs *)
Definition status_debug (s : Status) : string :=
  match s with
  | Inbox => "Inbox" | Todo => "Todo" | InProgress => "InProgress"
  | InReview => "InReview" | Done => "Done" | Cancelled => "Cancelled"
  end.
Definition author_name (a : Actor) : Str :=
  match a with
  | Agent _ name _ | User _ (Some name) _ => name
  | User _ None _ => lit "user"
  end.
Definition quote : Str := [34%N].

Definition interview_line (e : EventEnvelope) (action target rest : Str) : Str :=
  lit "[" ++ iso_time (crates env) (Envelope.occurred_at e) ++ lit "] agent=" ++ author_name (Envelope.actor e)
  ++ lit " action=" ++ action ++ lit " target=" ++ target ++ rest.
Definition human_line (e : EventEnvelope) (text : Str) : Str :=
  human_time (crates env) (Envelope.occurred_at e) ++ lit " — " ++ text.

Definition project_for_plan (s : St) (id : PlanId) : option ProjectId :=
  Plan.project_id <$> PlanRepo.get (plans s) id.
Definition project_for_run (s : St) (id : RunId) : option ProjectId :=
  r ← RunRepo.get (runs s) id;
  project_for_plan s (Run.plan_id r).

(** [new_id] is drawn for a created task without an id. *)
Definition log_line (s : St) (new_id : TaskId) (e : EventEnvelope) : option (ProjectId * DocumentKind * Str) :=
  let by_agent := ActorOps.is_agent (Envelope.actor e) in
  match Envelope.payload e with
  | Event.TaskCreated t =>
      p ← NewTask.project_id t;
      let title := trim (NewTask.title t) in
      Some (if by_agent
            then (p, Interview, interview_line e (lit "task_created")
                   (Ids.display uuid_display (default new_id (NewTask.id t)))
                   (lit " " ++ quote ++ title ++ quote))
            else (p, HumanLog, human_line e (lit "Created task '" ++ title ++ lit "'")))
  | Event.TaskStatusChanged id from to =>
      t ← TaskRepo.get (tasks s) id;
      p ← Task.project_id t;
      Some (if by_agent
            then (p, Interview, interview_line e (lit "status_changed") (Ids.display uuid_display id)
                   (lit " " ++ lit (status_debug from) ++ lit "->" ++ lit (status_debug to)))
            else (p, HumanLog, human_line e (lit "Task '" ++ trim (Task.title t) ++ lit "' status: "
                   ++ lit (status_debug from) ++ lit " → " ++ lit (status_debug to))))
  | Event.RunStarted r =>
      p ← project_for_plan s (Run.plan_id r);
      Some (p, Interview, interview_line e (lit "run_started") (Ids.display uuid_display (Run.id r))
                            (lit " plan=" ++ Ids.display uuid_display (Run.plan_id r)))
  | Event.RunCompleted id _ =>
      p ← project_for_run s id;
      Some (p, Interview, interview_line e (lit "run_completed") (Ids.display uuid_display id) [])
  | Event.RunAborted id reason _ =>
      p ← project_for_run s id;
      Some (p, Interview, interview_line e (lit "run_aborted") (Ids.display uuid_display id) (lit " reason=" ++ reason))
  | Event.RunNoteAppended id _ body _ _ =>
      p ← project_for_run s id;
      Some (p, Interview, interview_line e (lit "run_note") (Ids.display uuid_display id)
                            (lit " " ++ take 120 (replace_char 10 32 (trim body))))
  | Event.PlanStatusChanged id _ Completed =>
      plan ← PlanRepo.get (plans s) id;
      Some (Plan.project_id plan, HumanLog,
            human_line e (lit "Plan '" ++ trim (Plan.title plan) ++ lit "' completed"))
  | Event.ProjectUpdated id (Some title) _ =>
      Some (id, HumanLog, human_line e (lit "Project renamed to '" ++ trim title ++ lit "'"))
  | _ => None
  end.
Definition needs_id (e : EventEnvelope) : bool :=
  match Envelope.payload e with
  | Event.TaskCreated t => ActorOps.is_agent (Envelope.actor e)
      && bool_decide (is_Some (NewTask.project_id t)) && bool_decide (NewTask.id t = None)
  | _ => false
  end.
Definition render_log_line (e : EventEnvelope) : M (option (ProjectId * DocumentKind * Str)) :=
  new_id ← (if needs_id e then fresh env KTask else mret (mkId 0));
  gets (fun s => log_line s new_id e).

Definition log_enabled (s : St) (p : ProjectId) (k : DocumentKind) : bool :=
  let aa := ProjectSettingsRepo.auto_append (settings s) p in
  match k with Interview => aa_interview aa | HumanLog => aa_human_log aa end.
(** A failure is logged and dropped; what was written before it stays. *)
Definition attempt (m : M unit) : M unit := fun s => (Ok tt, (m s).2).
Definition append_log (e : EventEnvelope) (line : ProjectId * DocumentKind * Str) : M unit :=
  let '(p, k, text) := line in
  doc ← gets (fun s => if log_enabled s p k
                       then head (DocumentRepo.list_by_project (documents s) p (Some k) false) else None);
  match doc with
  | None => mret tt
  | Some d =>
      attempt (persist_signal_event_as ActorOps.user
                 (Event.DocumentContentAppended (Document.id d) text (Envelope.occurred_at e)))
  end.
Fixpoint auto_append_logs (es : list EventEnvelope) : M unit :=
  match es with
  | [] => mret tt
  | e :: es =>
      line ← render_log_line e;
      _ ← (match line with Some l => append_log e l | None => mret tt end);
      auto_append_logs es
  end.

(** ** The whole of it *)
Record DispatchOutcome : Type := mkOutcome {
  out_events : list EventEnvelope;
  out_warnings : list LifecycleGate.MutationWarning }.

Definition reconcile (events : list Event) : M (list Event) :=
  r ← gets (fun s => Reconcile.append_plan_reconciliations s events);
  some_or (Storage "out of fuel") r.

Definition gate_phase (gate : option (LifecycleGate.LifecycleGate St)) (cmd : Command)
    (events : list Event) : M GateLog :=
  match gate with
  | None => mret (mkGateLog [] [] [])
  | Some g => run_checks g (gate_override_of cmd) (mkGateLog [] [] [])
                         (LifecycleGate.derive_gate_checks events)
  end.

(** The two checks of [CompleteRun] that come first: whether the command is a
    retry that is already answered. *)
Definition completion_phase (authenticated : option AgentId) (is_admin : bool) (cmd : Command) : M bool :=
  match cmd with
  | CompleteRun run_id =>
      retry ← RunCommands.is_completed_run_retry run_id authenticated;
      if (retry : bool) then mret true
      else _ ← RunCommands.ensure_run_completion_owner run_id authenticated is_admin; mret false
  | _ => mret false
  end.

(** The events of the command, with the source nodes, the principal of evidence
    and the plans that close. *)
Definition command_events (authenticated : option AgentId) (cmd : Command)
  : M (Command * list LifecycleGate.MutationWarning * list Event) :=
  p ← source_phase cmd;
  let '(cmd, ws, source_events) := p in
  events ← build_events cmd;
  events ← reconcile (map (attribute authenticated) (with_source cmd source_events events));
  mret (cmd, ws, events).

Definition commit (gate : option (LifecycleGate.LifecycleGate St)) (authenticated : option AgentId)
    (is_admin : bool) (cmd : Command) (ws : list LifecycleGate.MutationWarning) (events : list Event)
  : M DispatchOutcome :=
  match events with
  | [] => mret (mkOutcome [] [])
  | _ =>
      gl ← gate_phase gate cmd events;
      envs ← envelopes_of (rule_audit gl ++ events ++ rule_metrics gl);
      persisted ← persist authenticated is_admin cmd (relink cmd envs);
      _ ← project_all persisted;
      _ ← auto_append_logs persisted;
      mret (mkOutcome persisted (ws ++ gate_warnings gl))
  end.

Definition dispatch_as (gate : option (LifecycleGate.LifecycleGate St))
    (authenticated : option AgentId) (is_admin : bool) (cmd : Command) : M DispatchOutcome :=
  answered ← completion_phase authenticated is_admin cmd;
  if (answered : bool) then mret (mkOutcome [] [])
  else
    p ← command_events authenticated cmd;
    let '(cmd, ws, events) := p in
    commit gate authenticated is_admin cmd ws events.
End Dispatch.

(** The id of the acting principal is pinned for evidence; the kind stays. *)
Definition pinned_actor (id : AgentId) (a : Actor) : Actor :=
  match a with
  | Agent _ name client => Agent id name client
  | User _ name client => User (Some id) name client
  end.
Definition pinned (authenticated : option AgentId) (cmd : Command) (env : Env) : Env :=
  match cmd, authenticated with
  | RecordEvidence _, Some id => env <| actor := pinned_actor id (actor env) |>
  | _, _ => env
  end.

Definition handle_with_run_owner (uuid_display : N -> Str) (uuid_parse : Str -> option N) (env : Env)
    (gate : option (LifecycleGate.LifecycleGate St)) (authenticated : option AgentId) (is_admin : bool)
    (cmd : Command) : M DispatchOutcome :=
  dispatch_as uuid_display uuid_parse (pinned authenticated cmd env) gate authenticated is_admin cmd.

(** [emit_system_event]. *)
Definition persist_signal_event (uuid_display : N -> Str) (env : Env) (e : Event) : M unit :=
  persist_signal_event_as uuid_display env ActorOps.user e.

(** ** The rule engine as the gate of the handler *)
Definition rule_world (s : St) : RuleEngine.World :=
  RuleEngine.mkWorld (rules s) (evidence s) (versions s) (tasks s) (plans s) (runs s) (documents s).
Definition rule_gate (uuid_display : N -> Str) : LifecycleGate.LifecycleGate St :=
  RuleEngine.rule_engine_gate uuid_display rule_world.
End Dispatch.
