(* ===== verification/ReplicaServer.v ===== *)
(** * The server a device replicates

    The endpoints a replica talks to (apps/server/src/routes/mod.rs), over the
    state of the handler; the mapping of errors to HTTP (error.rs); and the client
    behind [ReplicaSource] and [RemoteEventSink] (apps/desktop/src/remote.rs) over
    a wire that loses requests and replies.  [Net], a server behind such a wire,
    keeps the promises the replica and its queue rely on. *)

From S2P Require Import Prelude Shared TaskModel PlanModel RegistryModel Events EventStore TaskStore RelationStore PlanStore RunStore ActivityStore ClaimStore LeaseStore ArtifactStore DocumentStore RuleStore WorkStore ProjectStore SnapshotStore Outbox Replica Delivery Mirror Convergence Auth AuthLayer Handler Dispatch.

Module ReplicaServer.
Import Handler Dispatch.

Section Endpoints.
Context (uuid_display : N -> Str) (env : Env).

(** Events that only a guarded endpoint of the server may record. *)
Definition guarded_replica_event (e : Event) : bool :=
  match e with
  | Event.RunStarted _ | Event.RunStepStarted _ _ _ | Event.RunStepFinished _ _ _ _ | Event.RunCompleted _ _
  | Event.RunFailed _ _ _ | Event.RunAborted _ _ _ | Event.RunUnresponsive _ _ | Event.RunStale _ _
  | Event.RunNoteAppended _ _ _ _ _ | Event.AgentClaimed _ _ _ _ | Event.AgentReleased _ _ _
  | Event.PlanArchived _ _ | Event.PlanDeleted _ _
  | Event.PlanStatusChanged _ _ Completed | Event.PlanStatusChanged _ _ Abandoned => true
  | _ => false
  end.

(** The projectors of a replicated event: fewer than a dispatched one has. *)
Definition apply_persisted_event (e : EventEnvelope) : M unit :=
  _ ← project_tasks env e;
  _ ← project_feed uuid_display env e;
  _ ← project_plans env e;
  _ ← modify (fun s => s <| runs := RunRepo.apply_event (runs s) e |>);
  _ ← modify (fun s => s <| run_notes := RunNoteRepo.apply_event (run_notes s) e |>);
  _ ← modify (fun s => s <| sessions := SessionRepo.apply_event (sessions s) e |>);
  _ ← put (fun s => ClaimRepo.apply_event (claims s) (now env) (Envelope.payload e)) (fun t s => s <| claims := t |>);
  modify (fun s => s <| versions := VersionRepo.insert_document_version uuid_display (versions s) (documents s) e |>
                     <| documents := DocumentRepo.apply_event (documents s) e |>).

(** [store.append]. *)
Definition append (e : EventEnvelope) : M EventEnvelope := fun s =>
  match EventStore.append (log s) e with
  | Ok (p, l) => (Ok p, s <| log := l |>)
  | Err err => (Err err, s)
  end.

(** One event: the stored envelope, and whether it was a duplicate. *)
Definition accept (e : EventEnvelope) : M (EventEnvelope * nat) :=
  existing ← gets (fun s => EventStore.load_by_id (log s) (Envelope.id e));
  match existing with
  | Some x => mret (x, 1%nat)
  | None =>
      p ← append (e <| Envelope.seq := 0%Z |>);
      _ ← apply_persisted_event p;
      mret (p, 0%nat)
  end.
Fixpoint accept_each (es : list EventEnvelope) : M (list EventEnvelope * nat) :=
  match es with
  | [] => mret ([], 0%nat)
  | e :: es =>
      r ← accept e;
      rest ← accept_each es;
      mret (r.1 :: rest.1, (r.2 + rest.2)%nat)
  end.

Definition append_replica_events (auth : AuthContext) (es : list EventEnvelope) : M (list EventEnvelope * nat) :=
  _ ← lift (Revocation.require auth TaskWrite);
  _ ← guard_ (negb (Nat.eqb (length es) 0)) (Validation "events must not be empty");
  _ ← guard_ (length es <=? 1000)%nat (Validation "events batch must contain at most 1000 events");
  _ ← guard_ (negb (existsb (fun e => guarded_replica_event (Envelope.payload e)) es))
        (Forbidden "run, claim, and plan-terminal events require a guarded canonical endpoint");
  accept_each es.

Definition list_events (auth : AuthContext) (since : Z) (limit : nat) (s : St) : Result CoreError (list EventEnvelope) :=
  rbind (Revocation.require auth TaskRead) (fun _ => Ok (EventStore.load_since (log s) since (Nat.min limit 1000))).

Definition latest_bootstrap_snapshot (auth : AuthContext) (t : SnapshotTable) : Result CoreError (option Snapshot) :=
  rbind (Revocation.require auth TaskRead) (fun _ => Ok (SnapshotRepo.latest t)).
End Endpoints.
End ReplicaServer.

(** ** The response of an error (error.rs) *)
Module Http.
Definition status_code (e : CoreError) : Z :=
  match e with
  | NotFound _ => 404
  | Validation _ => 400
  | Conflict _ | CodedConflict _ _ _ => 409
  | Ai _ => 502
  | Unauthorized _ => 401
  | Forbidden _ => 403
  | QuotaExceeded _ _ _ => 402
  | Unprocessable _ _ _ => 422
  | _ => 500
  end.

(** A status, and the decoded body or the error's code. *)
Record Response (A : Type) : Type := mkResponse {
  status : Z;
  body : A + Str }.
Arguments mkResponse {A} status body.
Arguments status {A} r.
Arguments body {A} r.
Definition respond {A} (r : Result CoreError A) : Response A :=
  match r with
  | Ok a => mkResponse 200 (inl a)
  | Err e => mkResponse (status_code e) (inr (lit (code e)))
  end.
(** [render_auth_error]. *)
Definition refuse {A} (e : VerifyError) : Response A := mkResponse 401 (inr (lit (Verify.code e))).
End Http.

(** ** The client of the device (remote.rs) *)
Module HttpReplicaSink.
Import Http.
Definition EVENT_REJECTION_CODES : list Str := [lit "intake_source_admin_only"].

(** [None]: no response came. *)
Definition fetched {A} (r : option (Response A)) : Result CoreError A :=
  match r with
  | None => Err (Sync "{error}")
  | Some r =>
      match body r with
      | inl a => Ok a
      | inr _ => Err (Sync "replica fetch failed with {status}: {body}")
      end
  end.
Definition fetched_snapshot (r : option (Response (option Snapshot))) : Result CoreError (option Snapshot) :=
  match r with
  | Some (mkResponse 404 _) => Ok None
  | _ => fetched r
  end.
Definition is_client_error (status : Z) : bool := ((400 <=? status) && (status <? 500))%Z.
Definition pushed {A} (r : option (Response A)) : Result CoreError PushOutcome :=
  match r with
  | None => Err (Sync "{error}")
  | Some r =>
      match body r with
      | inl _ => Ok Accepted
      | inr code =>
          if is_client_error (status r) && bool_decide (code ∈ EVENT_REJECTION_CODES)
          then Ok (Rejected (status r) code)
          else Err (Sync "replica flush failed with {status} (code `{code}`): {message}")
      end
  end.
End HttpReplicaSink.

(** ** A server behind a wire *)
Inductive Wire : Set := Deliver | LoseRequest | LoseReply.

(** [principal]: what the middleware makes of the device's bearer; [wire]: the
    fate of the next requests, after which they all arrive. *)
Record Net : Type := mkNet {
  display : N -> Str;
  env : Handler.Env;
  principal : Result VerifyError AuthContext;
  server : Handler.St;
  snapshots : SnapshotTable;
  wire : list Wire }.
#[export] Instance Net_rebuild : Rebuild Net := fun w =>
  mkNet (display w) (env w) (principal w) (server w) (snapshots w) (wire w).

Module Net.
Import Http HttpReplicaSink ReplicaServer.

Definition with_wire (ws : list Wire) (w : Net) : Net := w <| wire := ws |>.
(** A request with a bearer. *)
Definition call {A} (f : AuthContext -> Handler.M A) (w : Net) : Response A * Net :=
  match principal w with
  | Err e => (refuse e, w)
  | Ok auth => let '(r, s) := f auth (server w) in (respond r, w <| server := s |>)
  end.
Definition exchange {A} (f : AuthContext -> Handler.M A) (w : Net) : option (Response A) * Net :=
  match wire w with
  | LoseRequest :: ws => (None, with_wire ws w)
  | LoseReply :: ws => (None, (call f (with_wire ws w)).2)
  | Deliver :: ws => let '(r, w) := call f (with_wire ws w) in (Some r, w)
  | [] => let '(r, w) := call f w in (Some r, w)
  end.

Definition fetch_events (since : Z) (limit : nat) (w : Net) : Result CoreError (list EventEnvelope) * Net :=
  let '(r, w) := exchange (fun auth s => (list_events auth since limit s, s)) w in (fetched r, w).
Definition fetch_snapshot (w : Net) : Result CoreError (option Snapshot) * Net :=
  let '(r, w) := exchange (fun auth s => (latest_bootstrap_snapshot auth (snapshots w), s)) w in
  (fetched_snapshot r, w).
(** [json!({ "events": [envelope] })]. *)
Definition push (e : EventEnvelope) (w : Net) : Result CoreError PushOutcome * Net :=
  let '(r, w) := exchange (fun auth => append_replica_events (display w) (env w) auth [e]) w in (pushed r, w).
End Net.

#[export] Instance Net_source : ReplicaSource Net := {|
  fetch_events since limit w := Some (Net.fetch_events since limit w);
  fetch_snapshot w := Some (Net.fetch_snapshot w) |}.
#[export] Instance Net_sink : RemoteEventSink Net := {| push e w := Some (Net.push e w) |}.

(** ** Specification of the endpoint *)
Module ReplicaSpec.
Import Handler.

(** The tables that only a dispatched command projects. *)
Definition registries (s : St) :=
  (leases s, settings s, work_units s, handoffs s, rules s, evidence s, artifacts s, owners s, relations s).
(** An event as the client named it. *)
Definition unnumbered (e : EventEnvelope) : EventEnvelope := e <| Envelope.seq := 0%Z |>.

Section Spec.
Context (uuid_display : N -> Str) (env : Env).

(** Every table a replicated event reaches, after the event. *)
Record projected (p : EventEnvelope) (s s' : St) : Prop := mkProjected {
  pr_log : log s' = log s;
  pr_tasks : exists id t, TaskRepo.apply_event_tx id (now env) (tasks s) p = Ok t /\
    PlanRepo.apply_event (now env) (plans s) t p = (plans s', tasks s');
  pr_projects : projects s' = ProjectRepo.apply_event (projects s) p;
  pr_comments : comments s' = CommentRepo.apply_event (comments s) p;
  pr_activity : activity s'
    = ActivityRepo.apply_event uuid_display (serde (crates env)) (plans s) (runs s) (activity s) p;
  pr_runs : runs s' = RunRepo.apply_event (runs s) p;
  pr_notes : run_notes s' = RunNoteRepo.apply_event (run_notes s) p;
  pr_sessions : sessions s' = SessionRepo.apply_event (sessions s) p;
  pr_claims : ClaimRepo.apply_event (claims s) (now env) (Envelope.payload p) = Ok (claims s');
  pr_versions : versions s' = VersionRepo.insert_document_version uuid_display (versions s) (documents s) p;
  pr_documents : documents s' = DocumentRepo.apply_event (documents s) p;
  pr_rest : registries s' = registries s }.

(** Events appended to the log and projected, one after the other. *)
Inductive replayed : St -> list EventEnvelope -> St -> Prop :=
| replayed_nil s : replayed s [] s
| replayed_cons s p l s1 ps s2 :
    EventStore.rows l = EventStore.rows (log s) ++ [p] -> projected p (s <| log := l |>) s1 ->
    replayed s1 ps s2 -> replayed s (p :: ps) s2.
End Spec.

(** A plan that is over. *)
Definition plan_over (p : Plan) : Prop :=
  Plan.status p = Completed \/ Plan.status p = Abandoned \/ is_Some (Plan.archived_at p).
Definition plans_keyed (t : PlanTables) : Prop := map_Forall (fun id p => Plan.id p = id) (PlanRepo.plans t).
(** No plan is deleted, and none ends but by a whole new row. *)
Record plans_guarded (es : list EventEnvelope) (t t' : PlanTables) : Prop := mkPlansGuarded {
  pg_keyed : plans_keyed t -> plans_keyed t';
  pg_plans : plans_keyed t -> forall id p, PlanRepo.get t id = Some p ->
    exists p', PlanRepo.get t' id = Some p' /\
      ((forall e q, e ∈ es -> Envelope.payload e = Event.PlanCreated q -> Plan.id q <> id) ->
       plan_over p' -> plan_over p) }.
(** What only a guarded endpoint does stays undone: runs, their notes and claims
    are as before, and plans as above. *)
Record unguarded (es : list EventEnvelope) (s s' : St) : Prop := mkUnguarded {
  ug_runs : runs s' = runs s;
  ug_notes : run_notes s' = run_notes s;
  ug_claims : claims s' = claims s;
  ug_plans : plans_guarded es (plans s) (plans s') }.
End ReplicaSpec.

(** ** What the endpoint does to the log *)
Module ReplicaServerFacts.
Import Handler Dispatch ReplicaServer ReplicaSpec.

(** A part of the state that an operation leaves alone. *)
Definition keeps {B A} (part : St -> B) (m : M A) : Prop := forall s, part (m s).2 = part s.
Lemma part_bind {B A C} (part : St -> B) (m : M A) (f : A -> M C) :
  keeps part m -> (forall a, keeps part (f a)) -> keeps part (m ≫= f).
Proof.
  intros Hm Hf s. unfold mbind, M_bind. specialize (Hm s). destruct (m s) as [[a|e] s1]; cbn in *; [|done].
  by rewrite Hf.
Qed.
Lemma part_modify {B} (part : St -> B) f : (forall s, part (f s) = part s) -> keeps part (modify f).
Proof. intros Hf s. apply Hf. Qed.
Lemma part_put {B A} (part : St -> B) (f : St -> Result CoreError A) set :
  (forall a s, part (set a s) = part s) -> keeps part (put f set).
Proof.
  intros Hs s. unfold put, mbind, M_bind, gets, lift, modify. destruct (f s); cbn; [apply Hs|done].
Qed.
Ltac apart := repeat first
  [ apply part_bind; [|intros ?] | apply part_modify; intros; cbn; done | apply part_put; intros; cbn; done
  | done ].

Section Facts.
Context (uuid_display : N -> Str) (env : Env).

Lemma project_plans_keeps {B} (part : St -> B) e :
  (forall s p t, part (s <| plans := p |> <| tasks := t |>) = part s) -> keeps part (project_plans env e).
Proof. intros Hp s. unfold project_plans, modify. destruct (PlanRepo.apply_event _ _ _ _). apply Hp. Qed.
Lemma apply_persisted_log e : keeps log (apply_persisted_event uuid_display env e).
Proof.
  unfold apply_persisted_event, project_tasks, project_feed, fresh. apart. by apply project_plans_keeps.
Qed.
Lemma apply_persisted_registries e : keeps registries (apply_persisted_event uuid_display env e).
Proof.
  unfold apply_persisted_event, project_tasks, project_feed, fresh. apart. by apply project_plans_keeps.
Qed.

Lemma load_app l more hw i x :
  EventStore.load_by_id l i = Some x -> EventStore.load_by_id (EventStore.mk (EventStore.rows l ++ more) hw) i = Some x.
Proof.
  unfold EventStore.load_by_id. cbn. rewrite List.filter_app. by destruct (List.filter _ (EventStore.rows l)).
Qed.
Lemma load_new l e hw :
  EventStore.load_by_id l (Envelope.id e) = None ->
  EventStore.load_by_id (EventStore.mk (EventStore.rows l ++ [e]) hw) (Envelope.id e) = Some e.
Proof.
  unfold EventStore.load_by_id. cbn. rewrite List.filter_app. destruct (List.filter _ (EventStore.rows l)); [|done].
  cbn. by rewrite bool_decide_eq_true_2.
Qed.

Lemma apply_persisted_projects p s s' :
  apply_persisted_event uuid_display env p s = (Ok tt, s') -> projected uuid_display env p s s'.
Proof.
  unfold apply_persisted_event, project_tasks, project_feed, project_plans, put, fresh, mbind, M_bind, gets, lift,
    modify, mret, M_ret. cbn.
  destruct (TaskRepo.apply_event_tx _ _ _ _) as [t|err] eqn:Et; [|done]. cbn.
  destruct (PlanRepo.apply_event _ _ _ _) as [pl t'] eqn:Ep. cbn.
  destruct (ClaimRepo.apply_event _ _ _) as [c|err] eqn:Ec; [|done]. cbn. intros [= <-].
  split; try done. exists (mkId (uuid_at env (drawn s))), t. by split.
Qed.

(** One event: known, or appended and then projected. *)
Lemma accept_cases e s :
  match accept uuid_display env e s with
  | (Ok (x, d), s') => EventStore.load_by_id (log s') (Envelope.id e) = Some x /\ Envelope.id x = Envelope.id e /\
      (d = 1%nat /\ s' = s \/
       d = 0%nat /\ Envelope.id e ∉ map Envelope.id (EventStore.rows (log s)) /\
       EventStore.append (log s) (e <| Envelope.seq := 0%Z |>) = Ok (x, log s') /\
       replayed uuid_display env s [x] s')
  | (Err _, s') => s' = s \/
      exists p, Envelope.id p = Envelope.id e /\ Envelope.id e ∉ map Envelope.id (EventStore.rows (log s)) /\
        EventStore.append (log s) (e <| Envelope.seq := 0%Z |>) = Ok (p, log s')
  end.
Proof.
  unfold accept, mbind at 1, M_bind at 1, gets. destruct (EventStore.load_by_id _ _) as [x|] eqn:L.
  { cbn. split; [done|]. split; [|by left]. by apply EventLogFacts.load_by_id_some in L as [_ ?]. }
  unfold mbind, M_bind, append. destruct (EventStore.append _ _) as [[p l]|err] eqn:A; [|by left].
  pose proof (apply_persisted_log p (s <| log := l |>)) as Hl.
  destruct (EventLogFacts.append_ok _ _ _ _ A) as (_ & Ep & El). apply EventLogFacts.load_by_id_none in L as Hn.
  destruct (apply_persisted_event _ _ _ _) as [[[]|err] s'] eqn:Ap; cbn in Hl; unfold mret, M_ret; cbn [fst snd]; rewrite ?Hl.
  - assert (Ei : Envelope.id p = Envelope.id e) by by rewrite Ep.
    split; [rewrite El, <- Ei; apply load_new; by rewrite Ei|]. split; [done|]. right. do 3 (split; [done|]).
    apply (replayed_cons _ _ _ _ l s'); [by rewrite El|by apply apply_persisted_projects|constructor].
  - right. exists p. split; [by rewrite Ep|by split].
Qed.

(** *** Replays *)
Lemma replayed_app s ps s1 qs s2 :
  replayed uuid_display env s ps s1 -> replayed uuid_display env s1 qs s2 -> replayed uuid_display env s (ps ++ qs) s2.
Proof. induction 1; [done|]. intros H2. econstructor; eauto. Qed.
Lemma replayed_rows s ps s' :
  replayed uuid_display env s ps s' -> EventStore.rows (log s') = EventStore.rows (log s) ++ ps.
Proof.
  induction 1 as [s|s p l s1 ps s2 Hl Hp _ ->]; [by rewrite app_nil_r|].
  rewrite (pr_log _ _ _ _ _ Hp). cbn. by rewrite Hl, <- app_assoc.
Qed.
Lemma append_unnumbered l e p l' : EventStore.append l e = Ok (p, l') -> unnumbered p = unnumbered e.
Proof. intros (_ & -> & _)%EventLogFacts.append_ok. done. Qed.

(** An accepted event adds at most itself. *)
Lemma accept_replays e s x d s' :
  accept uuid_display env e s = (Ok (x, d), s') ->
  exists new, replayed uuid_display env s new s' /\ map unnumbered new `sublist_of` [unnumbered e] /\
    (length new + d = 1)%nat /\ forall y, y ∈ new -> Envelope.id y ∉ map Envelope.id (EventStore.rows (log s)).
Proof.
  intros E. pose proof (accept_cases e s) as Ha. rewrite E in Ha.
  destruct Ha as (Hx & Ei & [[-> ->]|(-> & Hn & A & Hr)]).
  - exists []. repeat split; [constructor|apply sublist_nil_l|by intros y ?%elem_of_nil].
  - exists [x]. split; [done|]. cbn. rewrite (append_unnumbered _ _ _ _ A). do 2 (split; [done|]).
    intros y ->%list_elem_of_singleton. by rewrite Ei.
Qed.

Lemma accept_each_exact es s :
  match accept_each uuid_display env es s with
  | (Ok (acc, d), s') => map Envelope.id acc = map Envelope.id es /\
      (forall x, x ∈ acc -> EventStore.load_by_id (log s') (Envelope.id x) = Some x) /\
      exists new, replayed uuid_display env s new s' /\
        map unnumbered new `sublist_of` map unnumbered es /\ (length new + d)%nat = length es /\
        forall x, x ∈ new -> Envelope.id x ∉ map Envelope.id (EventStore.rows (log s))
  | (Err _, s') => exists whole tail s1, replayed uuid_display env s whole s1 /\
      EventStore.rows (log s') = EventStore.rows (log s1) ++ tail /\
      map unnumbered (whole ++ tail) `sublist_of` map unnumbered es /\ (tail = [] /\ s' = s1 \/ exists p, tail = [p])
  end.
Proof.
  revert s. induction es as [|e es IH]; intros s; cbn [accept_each].
  { cbn. split; [done|]. split; [by intros x ?%elem_of_nil|]. exists []. by repeat split; [constructor| |intros x ?%elem_of_nil]. }
  unfold mbind, M_bind. pose proof (accept_cases e s) as Ha. pose proof (accept_replays e s) as Hr.
  destruct (accept _ _ e s) as [[[x d]|err] s1].
  2: { destruct Ha as [->|(p & Ei & Hn & A)].
       - exists [], [], s. split; [constructor|]. rewrite app_nil_r. split; [done|]. split; [apply sublist_nil_l|by left].
       - exists [], [p], s. split; [constructor|]. pose proof (append_unnumbered _ _ _ _ A) as Eu.
         apply EventLogFacts.append_ok in A as (_ & _ & ->). split; [done|]. split; [|by right; exists p].
         cbn [app map]. rewrite Eu. constructor. apply sublist_nil_l. }
  destruct Ha as (Hx & Ei & _). destruct (Hr x d s1 eq_refl) as (new1 & R1 & Hs1 & Hl1 & Hn1). specialize (IH s1).
  destruct (accept_each _ _ es s1) as [[[acc d2]|err] s2].
  - destruct IH as (Em & Hacc & new & R2 & Hs2 & Hl2 & Hn2). unfold mret, M_ret. cbn [fst snd map]. rewrite Em, Ei. split; [done|]. split.
    + intros y [->|Hy]%elem_of_cons; [|by apply Hacc]. rewrite Ei. pose proof (replayed_rows _ _ _ R2) as E2.
      destruct (log s2) as [r2 h2]. cbn in E2. rewrite E2. by apply load_app.
    + exists (new1 ++ new). split; [by eapply replayed_app|].
      split; [rewrite map_app; by apply (sublist_app _ [unnumbered e])|].
      split; [rewrite length_app; cbn; lia|]. intros y [Hy|Hy]%elem_of_app; [by apply Hn1|]. intros Hin. apply (Hn2 y Hy).
      rewrite (replayed_rows _ _ _ R1), map_app. apply elem_of_app. by left.
  - destruct IH as (whole & tail & s3 & R2 & E2 & Hs2 & Ht). exists (new1 ++ whole), tail, s3.
    split; [by eapply replayed_app|]. split; [done|]. split; [|done]. rewrite <- app_assoc, map_app.
    by apply (sublist_app _ [unnumbered e]).
Qed.
Lemma accept_each_known es acc s :
  map Envelope.id acc = map Envelope.id es ->
  (forall x, x ∈ acc -> EventStore.load_by_id (log s) (Envelope.id x) = Some x) ->
  accept_each uuid_display env es s = (Ok (acc, length es), s).
Proof.
  revert acc. induction es as [|e es IH]; intros [|x acc]; try done. intros [= Ei Em] Hacc. cbn [accept_each].
  unfold mbind, M_bind. assert (accept uuid_display env e s = (Ok (x, 1%nat), s)) as ->.
  { unfold accept, mbind, M_bind, gets. rewrite <- Ei, (Hacc x) by left. done. }
  rewrite (IH acc); [done|done|]. intros y Hy. apply Hacc. by right.
Qed.

Lemma accept_registries e : keeps registries (accept uuid_display env e).
Proof.
  unfold accept. apply part_bind; [done|]. intros [x|]; [done|]. apply part_bind.
  - intros s. unfold append. by destruct (EventStore.append _ _) as [[p l]|err].
  - intros p. apply part_bind; [apply apply_persisted_registries|done].
Qed.
Lemma accept_each_registries es : keeps registries (accept_each uuid_display env es).
Proof.
  induction es as [|e es IH]; cbn [accept_each]; [done|].
  apply part_bind; [apply accept_registries|]. intros r. by apply part_bind.
Qed.

(** The checks come before any event is looked at. *)
Definition admitted (auth : AuthContext) (es : list EventEnvelope) : Prop :=
  is_ok (Revocation.require auth TaskWrite) = true /\ es <> [] /\ (length es <= 1000)%nat /\
  Forall (fun e => guarded_replica_event (Envelope.payload e) = false) es.
Lemma append_replica_cases auth es s :
  (admitted auth es /\ append_replica_events uuid_display env auth es s = accept_each uuid_display env es s) \/
  (~ admitted auth es /\ exists e, append_replica_events uuid_display env auth es s = (Err e, s)).
Proof.
  unfold append_replica_events, admitted, mbind, M_bind, lift, guard_, fail, mret, M_ret.
  destruct (Revocation.require auth TaskWrite) as [u|e]; [|right; split; [by intros (? & _)|eauto]].
  destruct (Nat.eqb_spec (length es) 0) as [Hz|Hz]; cbn [negb]; [right; split; [|eauto]|].
  { intros (_ & Hn & _). by apply nil_length_inv in Hz. }
  destruct (Nat.leb_spec (length es) 1000) as [Hl|Hl]; [|right; split; [intros (_ & _ & ? & _); lia|eauto]].
  destruct (existsb _ es) eqn:G; cbn [negb].
  - right. split; [|eauto]. intros (_ & _ & _ & Hg). apply existsb_exists in G as (e & He & Hge).
    rewrite Forall_forall in Hg. rewrite (Hg e) in Hge; [done|by apply list_elem_of_In].
  - left. split; [|done]. split; [done|]. split; [by intros ->|]. split; [done|]. apply Forall_forall. intros e He.
    apply not_true_iff_false. intros Hge. rewrite <- not_true_iff_false in G. apply G, existsb_exists. exists e.
    by rewrite <- list_elem_of_In.
Qed.
End Facts.
End ReplicaServerFacts.

(** ** What the guard keeps out *)
Module GuardFacts.
Import Handler Dispatch ReplicaServer ReplicaSpec ReplicaServerFacts.

Section Guard.
Context (es : list EventEnvelope).

#[local] Instance plans_guarded_pre : PreOrder (plans_guarded es).
Proof.
  split; [by intros t; split; [|eauto]|]. intros t1 t2 t3 [K1 P1] [K2 P2]. split; [auto|].
  intros Hk id p (p' & Hp' & H1)%P1; [|done]. destruct (P2 (K1 Hk) id p' Hp') as (p'' & Hp'' & H2). eauto 6.
Qed.
#[local] Instance unguarded_pre : PreOrder (unguarded es).
Proof.
  split; [by intros s; split|]. intros s1 s2 s3 [A1 A2 A3 A4] [B1 B2 B3 B4]. split; [congruence..|by etrans].
Qed.

(** *** Plans *)
Lemma update_plan_guarded t id f :
  (forall p, Plan.id (f p) = Plan.id p /\ (plan_over (f p) -> plan_over p)) ->
  plans_guarded es t (PlanRepo.update_plan t id f).
Proof.
  intros Hf. split.
  - intros Hk i p. cbn. intros [(-> & q & Hq & ->)|[_ Hp]]%lookup_alter_Some; [|by apply Hk].
    rewrite (proj1 (Hf q)). by apply Hk.
  - intros Hk i p Hp. unfold PlanRepo.get in *. cbn. destruct (decide (id = i)) as [->|Hne].
    + rewrite lookup_alter_eq, Hp. exists (f p). split; [done|]. intros _. apply Hf.
    + rewrite lookup_alter_ne by done. eauto.
Qed.
Lemma same_plans_guarded t t' : PlanRepo.plans t' = PlanRepo.plans t -> plans_guarded es t t'.
Proof. intros E. split; unfold plans_keyed, PlanRepo.get; rewrite E; eauto. Qed.

Lemma created_plan_guarded t e q :
  e ∈ es -> Envelope.payload e = Event.PlanCreated q -> plans_guarded es t (PlanRepo.upsert_plan t q).
Proof.
  intros He Hq. split.
  - intros Hk i p. cbn. intros [[<- <-]|[_ Hp]]%lookup_insert_Some; [done|by apply Hk].
  - intros Hk i p Hp. unfold PlanRepo.get in *. cbn. destruct (decide (Plan.id q = i)) as [<-|Hne].
    + exists q. rewrite lookup_insert_eq. split; [done|]. intros H. by destruct (H e q He Hq).
    + rewrite lookup_insert_ne by done. eauto.
Qed.

(** A patched row in the place of its own. *)
Lemma patched_plan_guarded t t' id p p' :
  plans_guarded es t t' -> PlanRepo.get t id = Some p -> Plan.id p' = Plan.id p ->
  (plan_over p' -> plan_over p) -> plans_guarded es t (PlanRepo.upsert_plan t' p').
Proof.
  intros [K P] Hp Hid Hover. split.
  - intros Hk i q. cbn. intros [[<- <-]|[_ Hq]]%lookup_insert_Some; [done|by apply K].
  - intros Hk i q Hq. assert (Eid : Plan.id p' = id) by (rewrite Hid; by apply Hk).
    unfold PlanRepo.get, PlanRepo.upsert_plan in *. cbn. rewrite Eid. destruct (decide (id = i)) as [->|Hne].
    + exists p'. rewrite lookup_insert_eq. split; [done|]. intros _. by replace q with p by congruence.
    + rewrite lookup_insert_ne by done. by apply P.
Qed.
Lemma reorder_plans t id order : PlanRepo.plans (PlanRepo.reorder t id order) = PlanRepo.plans t.
Proof. unfold PlanRepo.reorder. revert t. induction (zip _ _) as [|x l IH]; intros t; cbn; [done|]. by rewrite IH. Qed.

Lemma plan_event_guarded now t tasks p :
  guarded_replica_event (Envelope.payload p) = false ->
  (exists e, e ∈ es /\ Envelope.payload e = Envelope.payload p) ->
  plans_guarded es t (PlanRepo.apply_event now t tasks p).1.
Proof.
  intros Hg (e & He & Ee). unfold PlanRepo.apply_event. destruct (Envelope.payload p) eqn:E; try done; cbn [fst].
  - by eapply created_plan_guarded.
  - destruct (PlanRepo.get t plan_id) as [q|] eqn:G; [|done]. cbn [fst].
    eapply patched_plan_guarded; [|exact G| |].
    + repeat case_match; try done. by apply update_plan_guarded.
    + unfold PlanPatch.apply. by repeat case_match.
    + unfold PlanPatch.apply, plan_over. by repeat case_match.
  - apply update_plan_guarded. intros q. split; [done|]. unfold plan_over. cbn. destruct to; cbn in Hg; try done; naive_solver.
  - by apply update_plan_guarded.
  - by apply same_plans_guarded.
  - by apply same_plans_guarded.
  - apply same_plans_guarded, reorder_plans.
  - by apply same_plans_guarded.
  - apply update_plan_guarded. intros q. unfold plan_over. by destruct (Plan.source_ref q).
Qed.

(** *** The endpoint *)
Definition stays {A} (m : M A) : Prop := forall s, unguarded es s (m s).2.
Lemma stays_bind {A B} (m : M A) (f : A -> M B) : stays m -> (forall a, stays (f a)) -> stays (m ≫= f).
Proof.
  intros Hm Hf s. unfold mbind, M_bind. specialize (Hm s). destruct (m s) as [[a|e] s1]; cbn in *; [|done].
  etrans; [exact Hm|apply Hf].
Qed.
Definition guarded_parts (s : St) := (runs s, run_notes s, claims s, plans s).
Lemma keeps_stays {A} (m : M A) : keeps guarded_parts m -> stays m.
Proof. intros Hm s. specialize (Hm s). injection Hm as A1 A2 A3 A4. split; [done..|]. by rewrite A4. Qed.

Lemma persisted_stays display env p :
  guarded_replica_event (Envelope.payload p) = false ->
  (exists e, e ∈ es /\ Envelope.payload e = Envelope.payload p) ->
  stays (apply_persisted_event display env p).
Proof.
  intros Hg He. unfold apply_persisted_event.
  assert (Hr : forall t, RunRepo.apply_event t p = t) by (intros; unfold RunRepo.apply_event; by destruct (Envelope.payload p)).
  assert (Hn : forall t, RunNoteRepo.apply_event t p = t) by (intros; unfold RunNoteRepo.apply_event; by destruct (Envelope.payload p)).
  apply stays_bind; [apply keeps_stays; unfold project_tasks, fresh; apart|intros _].
  apply stays_bind; [apply keeps_stays; unfold project_feed; apart|intros _].
  apply stays_bind; [|intros _].
  { intros s. unfold project_plans, modify. pose proof (plan_event_guarded (now env) (plans s) (tasks s) p Hg He) as Hp.
    destruct (PlanRepo.apply_event _ _ _ _) as [pl t]. by split. }
  apply stays_bind; [apply keeps_stays, part_modify; intros s; unfold guarded_parts; cbn; by rewrite Hr|intros _].
  apply stays_bind; [apply keeps_stays, part_modify; intros s; unfold guarded_parts; cbn; by rewrite Hn|intros _].
  apply stays_bind; [apply keeps_stays; apart|intros _].
  apply stays_bind; [|intros _; apply keeps_stays; apart].
  apply keeps_stays. intros s. unfold put, mbind, M_bind, gets, lift, modify.
  replace (ClaimRepo.apply_event (claims s) (now env) (Envelope.payload p)) with (@Ok CoreError _ (claims s)); [done|].
  by destruct (Envelope.payload p).
Qed.
Lemma accept_stays display env e :
  e ∈ es -> guarded_replica_event (Envelope.payload e) = false -> stays (accept display env e).
Proof.
  intros He Hg s. unfold accept, mbind at 1, M_bind at 1, gets. destruct (EventStore.load_by_id _ _) as [x|]; [done|].
  unfold mbind at 1, M_bind at 1, append. destruct (EventStore.append _ _) as [[p l]|err] eqn:A; [|done].
  apply EventLogFacts.append_ok in A as (_ & -> & _).
  etrans; [|apply stays_bind; [apply persisted_stays; [done|by exists e]|by intros _ s0]].
  by split.
Qed.
Lemma accept_each_stays display env l :
  Forall (fun e => e ∈ es /\ guarded_replica_event (Envelope.payload e) = false) l -> stays (accept_each display env l).
Proof.
  induction 1 as [|e l [He Hg] _ IH]; cbn [accept_each]; [done|].
  apply stays_bind; [by apply accept_stays|]. intros r. apply stays_bind; [exact IH|done].
Qed.
End Guard.

Lemma append_replica_guarded display env auth es s :
  unguarded es s (append_replica_events display env auth es s).2.
Proof.
  destruct (append_replica_cases display env auth es s) as [[(_ & _ & _ & Hg) ->]|(_ & e & ->)].
  - apply accept_each_stays. rewrite Forall_forall in Hg |- *. intros e He. split; [done|by apply Hg].
  - by split; [..|apply same_plans_guarded].
Qed.
End GuardFacts.

(** ** The server keeps its promises *)
Module NetFacts.
Import Handler EventStore EventLogSpec Http HttpReplicaSink ReplicaServer ReplicaServerFacts.

(** Some events went to the end of the log, the rest of it stayed. *)
Definition logged (P : EventEnvelope -> Prop) (l l' : EventLog) : Prop :=
  exists es out, append_all l es = Ok (out, l') /\ Forall P es.
Lemma append_all_app l es es' out l1 out' l2 :
  append_all l es = Ok (out, l1) -> append_all l1 es' = Ok (out', l2) -> append_all l (es ++ es') = Ok (out ++ out', l2).
Proof.
  revert l out. induction es as [|e es IH]; intros l out; cbn [append_all app]; [by intros [= <- <-]|].
  intros ([p l0] & Hp & ([ps l3] & Hps & [= <- <-])%rbind_ok)%rbind_ok H2. rewrite Hp. cbn [rbind fst snd] in *.
  by rewrite (IH _ _ Hps H2).
Qed.
#[global] Instance logged_pre P : PreOrder (logged P).
Proof.
  split; [intros l; by exists [], []|]. intros l l1 l2 (es & out & Ha & Hf) (es' & out' & Ha' & Hf').
  exists (es ++ es'), (out ++ out'). split; [by eapply append_all_app|]. by apply Forall_app.
Qed.
Lemma logged_one (P : EventEnvelope -> Prop) l e p l' : P e -> EventStore.append l e = Ok (p, l') -> logged P l l'.
Proof. intros He Ha. exists [e], [p]. cbn. rewrite Ha. cbn. split; [done|by constructor]. Qed.
Lemma logged_mono P l l' : logged P l l' -> rtc step l l'.
Proof. intros (es & out & Ha & _). apply rtc_once. apply (step_append l es out). unfold append_batch. by rewrite Ha. Qed.

Section Server.
Context (P : EventEnvelope -> Prop).
Context (any_seq : forall e, P e -> P (e <| Envelope.seq := 0%Z |>)).

Lemma accept_logged display env e s : P e -> logged P (log s) (log (accept display env e s).2).
Proof.
  intros He. pose proof (accept_cases display env e s) as Hc. destruct (accept _ _ e s) as [[[x d]|err] s']; cbn [fst snd].
  - destruct Hc as (_ & _ & [[_ ->]|(_ & _ & Ha & _)]); [done|]. eapply logged_one; [|exact Ha]. auto.
  - destruct Hc as [-> |(p & _ & _ & Ha)]; [done|]. eapply logged_one; [|exact Ha]. auto.
Qed.
Lemma accept_each_logged display env es s :
  Forall P es -> logged P (log s) (log (accept_each display env es s).2).
Proof.
  intros Hes. revert s. induction Hes as [|e es He _ IH]; intros s; cbn [accept_each]; [done|].
  unfold mbind, M_bind. pose proof (accept_logged display env e s He) as H1. destruct (accept _ _ e s) as [[[x d]|err] s1]; [|done].
  specialize (IH s1). destruct (accept_each _ _ es s1) as [[[acc d2]|err] s2]; by etrans.
Qed.
Lemma append_replica_logged display env auth es s :
  Forall P es -> logged P (log s) (log (append_replica_events display env auth es s).2).
Proof.
  intros Hes. destruct (append_replica_cases display env auth es s) as [[_ ->]|(_ & e & ->)]; [by apply accept_each_logged|done].
Qed.

(** What a request does to the log. *)
Definition logs (f : AuthContext -> Handler.M unit) : Prop := forall auth s, logged P (log s) (log (f auth s).2).
Lemma call_logged {A} (f : AuthContext -> Handler.M A) w :
  (forall auth s, logged P (log s) (log (f auth s).2)) ->
  logged P (log (server w)) (log (server (Net.call f w).2)) /\ snapshots (Net.call f w).2 = snapshots w.
Proof.
  intros Hf. unfold Net.call. destruct (principal w) as [auth|e]; [|done]. specialize (Hf auth (server w)).
  by destruct (f auth (server w)).
Qed.
Lemma exchange_logged {A} (f : AuthContext -> Handler.M A) w :
  (forall auth s, logged P (log s) (log (f auth s).2)) ->
  logged P (log (server w)) (log (server (Net.exchange f w).2)) /\ snapshots (Net.exchange f w).2 = snapshots w.
Proof.
  intros Hf. unfold Net.exchange. destruct (wire w) as [|[] ws].
  - pose proof (call_logged f w Hf) as Hc. destruct (Net.call f w). exact Hc.
  - pose proof (call_logged f (Net.with_wire ws w) Hf) as Hc. destruct (Net.call f _). exact Hc.
  - split; [|done]. change (logged P (log (server w)) (log (server w))). reflexivity.
  - exact (call_logged f (Net.with_wire ws w) Hf).
Qed.
End Server.

(** A reply that came is the answer to the request. *)
Lemma exchange_answer {A} (f : AuthContext -> Handler.M A) w r w' :
  Net.exchange f w = (Some r, w') -> exists ws, let w1 := Net.with_wire ws w in Net.call f w1 = (r, w').
Proof.
  unfold Net.exchange. destruct (wire w) as [|[] ws] eqn:E; try done.
  - exists (wire w). replace (Net.with_wire (wire w) w) with w by by destruct w. cbn zeta. destruct (Net.call f w). naive_solver.
  - exists ws. cbn zeta. destruct (Net.call f _). naive_solver.
Qed.

(** *** The queue *)
Definition net_has (w : Net) (i : EventId) : Prop := i ∈ map Envelope.id (rows (log (server w))).
Lemma logged_keeps P l l' i : logged P l l' -> i ∈ map Envelope.id (rows l) -> i ∈ map Envelope.id (rows l').
Proof.
  intros (es & out & Ha & _) Hi. apply EventLogFacts.append_all_ok in Ha as [_ ->]. cbn. rewrite map_app. apply elem_of_app. by left.
Qed.
Lemma exchange_keeps {A} (f : AuthContext -> Handler.M A) w r w' i :
  (forall auth s, logged (fun _ => True) (log s) (log (f auth s).2)) -> Net.exchange f w = (r, w') -> net_has w i -> net_has w' i.
Proof.
  intros Hf E. destruct (exchange_logged (fun _ => True) f w Hf) as [Hl _]. rewrite E in Hl. by eapply logged_keeps.
Qed.
Lemma pushed_accepted {A} (r : option (Response A)) : pushed r = Ok Accepted -> exists st a, r = Some (mkResponse st (inl a)).
Proof.
  unfold pushed. destruct r as [[st [a|c]]|]; cbn; [by exists st, a| |done]. by destruct (_ && _).
Qed.
Lemma push_accepted_net e w w' : Net.push e w = (Ok Accepted, w') -> net_has w' (Envelope.id e).
Proof.
  unfold Net.push. destruct (Net.exchange _ w) as [r w1] eqn:E. intros [= Hp <-].
  apply pushed_accepted in Hp as (st & a & ->). apply exchange_answer in E as [ws E]. cbn zeta in E. unfold Net.call in E.
  change (principal (Net.with_wire ws w)) with (principal w) in E. change (server (Net.with_wire ws w)) with (server w) in E.
  destruct (principal w) as [auth|err]; [|done].
  destruct (append_replica_events _ _ _ _ _) as [[b|err] s'] eqn:A; [|done]. injection E as <- <- <-.
  destruct (append_replica_cases (display w) (env w) auth [e] (server w)) as [[_ Ea]|(_ & e' & Ea)]; rewrite Ea in A; [|done].
  pose proof (accept_each_exact (display w) (env w) [e] (server w)) as Hc. rewrite A in Hc. destruct b as [acc d].
  destruct acc as [|x acc]; [by destruct Hc|]. destruct Hc as ([= Ei _] & Hl & _). unfold net_has. cbn. rewrite <- Ei.
  destruct (EventLogFacts.load_by_id_some _ _ _ (Hl x ltac:(left))) as [Hx _]. apply list_elem_of_fmap. by exists x.
Qed.

(** *** The replica *)
Section Mirror.
Context (minted : EventId -> Actor * Z * Event).

Definition covered (l : EventLog) (s : Snapshot) : Prop :=
  Snapshot.is_consistent s = true -> (0 <= Snapshot.seq s)%Z /\ exists fresh now, SnapshotSpec.covers fresh now l s.
Definition net_sound (w : Net) : Prop :=
  wf (log (server w)) /\ Forall (honest minted) (rows (log (server w))) /\ Forall (covered (log (server w))) (snapshots w).
Definition net_later (w w' : Net) : Prop := net_sound w' /\ rtc step (log (server w)) (log (server w')).

Lemma honest_seq e n : honest minted e -> honest minted (e <| Envelope.seq := n |>).
Proof. done. Qed.
Lemma numbered_honest es n : Forall (honest minted) es -> Forall (honest minted) (numbered n es).
Proof. intros Hes. revert n. induction Hes as [|e es He _ IH]; intros n; cbn; constructor; auto. Qed.
Lemma logged_sound (w w' : Net) :
  net_sound w -> logged (honest minted) (log (server w)) (log (server w')) -> snapshots w' = snapshots w -> net_later w w'.
Proof.
  intros (Hwf & Hh & Hc) Hl Es. split; [|by eapply logged_mono]. destruct Hl as (es & out & Ha & Hes).
  pose proof (EventLogFacts.append_all_wf _ _ _ _ Hwf Ha) as Hwf'. split; [done|]. split.
  - destruct (EventLogFacts.append_all_ok _ _ _ _ Ha) as [-> ->]. cbn. apply Forall_app. split; [done|]. by apply numbered_honest.
  - rewrite Es. eapply Forall_impl; [exact Hc|]. intros s Hs Hcons. destruct (Hs Hcons) as (H0s & fresh & now & Hcov).
    split; [done|]. exists fresh, now. eapply (SnapshotFacts.covers_append fresh now (log (server w)) es); [|exact Hcov].
    unfold append_batch. by rewrite Ha.
Qed.
Lemma exchange_later {A} (f : AuthContext -> Handler.M A) w r w' :
  (forall auth s, logged (honest minted) (log s) (log (f auth s).2)) -> net_sound w -> Net.exchange f w = (r, w') -> net_later w w'.
Proof.
  intros Hf Hs E. destruct (exchange_logged (honest minted) f w Hf) as [Hl Es]. rewrite E in Hl, Es. by apply logged_sound.
Qed.
(** A request that only reads. *)
Lemma exchange_reads {A} (g : AuthContext -> St -> Result CoreError A) w r w' :
  net_sound w -> Net.exchange (fun auth s => (g auth s, s)) w = (r, w') ->
  net_later w w' /\ forall x, r = Some x -> (exists auth, x = respond (g auth (server w'))) \/ exists e, x = refuse e.
Proof.
  intros Hs E. split; [by eapply exchange_later; [|exact Hs|exact E]|]. intros x ->. apply exchange_answer in E as [ws E].
  cbn zeta in E. unfold Net.call in E. destruct (principal _) as [auth|e]; injection E as <- <-.
  - left. by exists auth.
  - right. by exists e.
Qed.

Lemma fetch_events_net since limit w r w' :
  net_sound w -> Net.fetch_events since limit w = (r, w') ->
  net_later w w' /\ forall es, r = Ok es -> es = load_since (log (server w')) since (Nat.min limit 1000).
Proof.
  intros Hs. unfold Net.fetch_events. destruct (Net.exchange _ w) as [x w1] eqn:E. intros [= <- <-].
  destruct (exchange_reads (fun auth s => list_events auth since limit s) w x w1 Hs E) as [Hl Hx]. split; [done|].
  intros es. destruct x as [x|]; [|done]. destruct (Hx x eq_refl) as [[auth ->]|[e ->]]; [|done].
  unfold list_events. destruct (Revocation.require _ _); cbn; [by intros [= <-]|done].
Qed.
Lemma fetch_snapshot_net w r w' :
  net_sound w -> Net.fetch_snapshot w = (r, w') ->
  net_later w w' /\ forall s, r = Ok (Some s) -> covered (log (server w')) s.
Proof.
  intros Hs. unfold Net.fetch_snapshot. destruct (Net.exchange _ w) as [x w1] eqn:E. intros [= <- <-].
  destruct (exchange_reads (fun auth s => latest_bootstrap_snapshot auth (snapshots w)) w x w1 Hs E) as [Hl Hx]. split; [done|].
  assert (Es : snapshots w1 = snapshots w).
  { destruct (exchange_logged (fun _ => True) (fun auth s => (latest_bootstrap_snapshot auth (snapshots w), s)) w) as [_ Es]; [done|]. by rewrite E in Es. }
  intros s. destruct x as [x|]; [|done]. destruct (Hx x eq_refl) as [[auth ->]|[e ->]]; [|done].
  unfold latest_bootstrap_snapshot. destruct (Revocation.require _ _); cbn; [|by repeat case_match].
  intros [= Hlat]. destruct Hl as [(_ & _ & Hc) _]. rewrite Es, Forall_forall in Hc. apply Hc.
  apply head_Some_elem_of in Hlat. unfold SnapshotRepo.consistent in Hlat.
  rewrite elem_of_sort_by, list_elem_of_In, filter_In, <- list_elem_of_In in Hlat. by destruct Hlat.
Qed.
Lemma push_net e w r w' : net_sound w -> honest minted e -> Net.push e w = (r, w') -> net_later w w'.
Proof.
  intros Hs He. unfold Net.push. destruct (Net.exchange _ w) as [x w1] eqn:E. intros [= _ <-].
  eapply exchange_later; [|exact Hs|exact E]. intros auth s. apply append_replica_logged; [|by constructor].
  intros e'. apply honest_seq.
Qed.
End Mirror.
End NetFacts.

#[export] Instance Net_delivers : DeliveryLaws Net.
Proof.
  refine {| has := NetFacts.net_has |}.
  - intros e w w' [= E]. by eapply NetFacts.push_accepted_net.
  - intros e w r w' i [= E]. unfold Net.push in E. destruct (Net.exchange _ w) as [x w1] eqn:X. injection E as _ <-.
    eapply NetFacts.exchange_keeps; [|exact X]. intros auth s. apply NetFacts.append_replica_logged; [done|].
    by apply Forall_forall.
  - intros since limit w r w' i [= E]. unfold Net.fetch_events in E. destruct (Net.exchange _ w) as [x w1] eqn:X.
    injection E as _ <-. eapply NetFacts.exchange_keeps; [|exact X]. intros auth s. reflexivity.
  - intros w r w' i [= E]. unfold Net.fetch_snapshot in E. destruct (Net.exchange _ w) as [x w1] eqn:X.
    injection E as _ <-. eapply NetFacts.exchange_keeps; [|exact X]. intros auth s. reflexivity.
Defined.
#[export] Instance Net_mirrors minted : MirrorLaws minted Net.
Proof.
  refine {| server_log := fun w => Handler.log (server w); sound := NetFacts.net_sound minted |}.
  - intros w (Hwf & Hh & _). by split.
  - intros since limit w r w' Hs [= E]. exact (NetFacts.fetch_events_net minted since limit w r w' Hs E).
  - intros w r w' Hs [= E]. exact (NetFacts.fetch_snapshot_net minted w r w' Hs E).
  - intros e w r w' Hs He [= E]. exact (NetFacts.push_net minted e w r w' Hs He E).
  - intros w _. split; [by eexists|by eexists].
Defined.

Section Property.
Import Handler EventStore ReplicaServer ReplicaSpec ReplicaServerFacts.

(** C26: a batch of replicated events is taken once and projected.  A request that
    lacks the capability, is empty, too long or holds a guarded event changes
    nothing.  Any other logs the events it did not know, in their order, each
    followed by its projectors ([projected] names every table and what the event
    does to it), and answers with the stored envelopes of all of them; sent again
    after its reply was lost, it is answered alike and changes nothing.  When an
    append or a projector fails, the events before it are logged and projected and
    at most that one is logged besides.  In every case runs, run notes and claims
    are as before, no plan is deleted, and a plan is over only if it was, or if
    the batch carries a whole new row for it. *)
Theorem replica_append_exact display env auth es s :
  unguarded es s (append_replica_events display env auth es s).2 /\
  match append_replica_events display env auth es s with
  | (Ok (accepted, duplicates), s') => admitted auth es /\ map Envelope.id accepted = map Envelope.id es /\
      (forall x, x ∈ accepted -> x ∈ rows (log s')) /\
      (exists new, rows (log s') = rows (log s) ++ new /\ replayed display env s new s' /\
         map unnumbered new `sublist_of` map unnumbered es /\ (length new + duplicates)%nat = length es /\
         forall x, x ∈ new -> Envelope.id x ∉ map Envelope.id (rows (log s))) /\
      forall env', append_replica_events display env' auth es s' = (Ok (accepted, length es), s')
  | (Err _, s') => (~ admitted auth es -> s' = s) /\
      exists whole tail s1, replayed display env s whole s1 /\ rows (log s') = rows (log s1) ++ tail /\
        map unnumbered (whole ++ tail) `sublist_of` map unnumbered es /\ (tail = [] /\ s' = s1 \/ exists p, tail = [p])
  end.
Proof.
  split; [apply GuardFacts.append_replica_guarded|].
  destruct (append_replica_cases display env auth es s) as [[Ha ->]|(Hn & e & ->)].
  2: { split; [done|]. exists [], [], s. rewrite app_nil_r. split; [constructor|]. split; [done|].
       split; [apply sublist_nil_l|by left]. }
  pose proof (accept_each_exact display env es s) as Hc.
  destruct (accept_each display env es s) as [[[acc d]|err] s']; [|by split].
  destruct Hc as (Em & Hacc & new & Hr & Hs & Hl & Hn). split; [done|]. split; [done|].
  split; [intros x Hx; by eapply EventLogFacts.load_by_id_some, Hacc|]. split.
  { exists new. by split; [eapply replayed_rows|]. }
  intros env'. destruct (append_replica_cases display env' auth es s') as [[_ ->]|[Hno _]]; [|done].
  by apply accept_each_known.
Qed.
End Property.

(** A plan ends by an event the guard lets through: [PlanCreated] carries the
    whole row, status included, and replaces the stored one. *)
Example created_plan_ends_a_plan auth env :
  is_ok (Revocation.require auth TaskWrite) = true ->
  let plan (st : PlanStatus) :=
    Plan.mk (mkId 1) (mkId 2) None [] [] [] [] st ActorOps.user 0 0 None None None in
  let s := Handler.empty <| Handler.plans := PlanRepo.upsert_plan PlanRepo.empty (plan Active) |> in
  let e := Envelope.new (mkId 300) 5 ActorOps.user (Event.PlanCreated (plan Completed)) in
  (Plan.status <$> PlanRepo.get (Handler.plans (ReplicaServer.append_replica_events (fun _ => []) env auth [e] s).2) (mkId 1))
  = Some Completed.
Proof.
  intros Ha. unfold ReplicaServer.append_replica_events, mbind, Handler.M_bind, Handler.lift. by destruct (Revocation.require auth TaskWrite).
Qed.

(** What the endpoint logs without a projector. *)
Lemma replica_events_skip_registries display env auth es s :
  ReplicaSpec.registries (ReplicaServer.append_replica_events display env auth es s).2 = ReplicaSpec.registries s.
Proof.
  destruct (ReplicaServerFacts.append_replica_cases display env auth es s) as [[_ ->]|(_ & e & ->)]; [|done].
  apply ReplicaServerFacts.accept_each_registries.
Qed.
