(* ===== verification/HandlerFacts.v ===== *)
(** * Reasoning about command handlers

    Inversion of the monad, the frame of [build_events] (a command being built
    touches relations and drawn ids only), and the rules that bound the events a
    command emits, with the tactics that apply them. *)

From S2P Require Import Prelude Shared TaskModel PlanModel RegistryModel Events EventStore TaskStore RelationStore PlanStore RunStore ClaimStore LeaseStore DocumentStore ProjectStore Handler SourceRef SourceChain SourcePolicy ActivityStore RuleStore WorkStore ArtifactStore TaskCommands SourceIntake PlanCommands DocumentCommands RunCommands RegistryCommands Reconcile Gate Dispatch.

Module HandlerFacts.
  Import Handler.

(** ** Inversion *)
Lemma bind_ok {A B} (m : M A) (f : A -> M B) s b s2 :
  (m ≫= f) s = (Ok b, s2) -> exists a s1, m s = (Ok a, s1) /\ f a s1 = (Ok b, s2).
Proof.
  unfold mbind, M_bind. destruct (m s) as [[a|e] s1]; [eauto|done].
Qed.
Lemma ret_ok {A} (a b : A) s s' : (mret a : M A) s = (Ok b, s') -> b = a /\ s' = s.
Proof. by intros [= <- <-]. Qed.
Lemma gets_ok {A} (f : St -> A) s b s' : gets f s = (Ok b, s') -> b = f s /\ s' = s.
Proof. by intros [= <- <-]. Qed.
Lemma lift_ok {A} (r : Result CoreError A) s b s' : lift r s = (Ok b, s') -> r = Ok b /\ s' = s.
Proof. by intros [= -> <-]. Qed.
Lemma guard_ok b e s (u : unit) s' : guard_ b e s = (Ok u, s') -> b = true /\ s' = s.
Proof. unfold guard_. destruct b; by intros [= ?]. Qed.
Lemma some_or_ok {A} e (o : option A) s a s' :
  some_or e o s = (Ok a, s') -> o = Some a /\ s' = s.
Proof. destruct o; by intros [= ?]; subst. Qed.
Lemma fail_ok {A} e s (a : A) s' : fail e s = (Ok a, s') -> False.
Proof. done. Qed.
Lemma fresh_ok env k s (i : Id k) s' :
  fresh env k s = (Ok i, s') ->
  i = mkId (uuid_at env (drawn s)) /\ s' = s <| drawn := S (drawn s) |>.
Proof. by intros [= <- <-]. Qed.
Lemma get_task_ok id s x s' :
  get_task id s = (Ok x, s') -> TaskRepo.get (tasks s) id = Some x /\ s' = s.
Proof.
  unfold get_task. intros (o & s1 & [-> ->]%gets_ok & [? ->]%some_or_ok)%bind_ok. done.
Qed.
Lemma ensure_direct_ok id to s s' :
  ensure_direct_status_write id to s = (Ok tt, s') -> s' = s.
Proof.
  unfold ensure_direct_status_write.
  by intros (p & s1 & [-> ->]%gets_ok & [_ ->]%guard_ok)%bind_ok.
Qed.
Lemma validate_target_ok p s s' : validate_pipeline_target p s = (Ok tt, s') -> s' = s.
Proof.
  unfold validate_pipeline_target.
  destruct (Pipeline.validate p); [by intros [_ ->]%guard_ok|by intros ?%fail_ok].
Qed.

(** ** The frame of a build *)
Definition frame (s s' : St) : Prop :=
  s' = s <| relations := relations s' |> <| drawn := drawn s' |> /\ (drawn s <= drawn s')%nat /\
  (RelationSpec.graph_ok (relations s) -> RelationSpec.graph_ok (relations s')).
Definition framed {A} (m : M A) : Prop := forall s, frame s (m s).2.

Lemma frame_refl s : frame s s.
Proof. split; [by destruct s|done]. Qed.
Lemma frame_trans a b c : frame a b -> frame b c -> frame a c.
Proof.
  intros (Hb & Hd & Hg) (Hc & Hd' & Hg'). split; [|split; [by eapply Nat.le_trans|auto]].
  rewrite Hc, Hb. by destruct a.
Qed.
Lemma framed_ok {A} (m : M A) s a s' : framed m -> m s = (Ok a, s') -> frame s s'.
Proof. intros H E. specialize (H s). by rewrite E in H. Qed.

Lemma frame_tasks s s' : frame s s' -> tasks s' = tasks s.
Proof. by intros [-> _]. Qed.
Lemma frame_plans s s' : frame s s' -> plans s' = plans s.
Proof. by intros [-> _]. Qed.
Lemma frame_runs s s' : frame s s' -> runs s' = runs s.
Proof. by intros [-> _]. Qed.
Lemma frame_documents s s' : frame s s' -> documents s' = documents s.
Proof. by intros [-> _]. Qed.
Lemma frame_claims s s' : frame s s' -> claims s' = claims s.
Proof. by intros [-> _]. Qed.
Lemma frame_refs s s' : frame s s' -> external_refs s' = external_refs s.
Proof. by intros [-> _]. Qed.
Lemma frame_graph s s' :
  frame s s' -> RelationSpec.graph_ok (relations s) -> RelationSpec.graph_ok (relations s').
Proof. by intros (_ & _ & H). Qed.
Lemma frame_log s s' : frame s s' -> log s' = log s.
Proof. by intros [-> _]. Qed.

Lemma framed_ret {A} (a : A) : framed (mret a).
Proof. intros s. apply frame_refl. Qed.
Lemma framed_bind {A B} (m : M A) (f : A -> M B) :
  framed m -> (forall a, framed (f a)) -> framed (m ≫= f).
Proof.
  intros Hm Hf s. unfold mbind, M_bind. specialize (Hm s).
  destruct (m s) as [[a|e] s1]; cbn in *; [|done]. eapply frame_trans; [done|]. apply Hf.
Qed.
Lemma framed_fail {A} e : framed (fail e : M A).
Proof. intros s. apply frame_refl. Qed.
Lemma framed_gets {A} (f : St -> A) : framed (gets f).
Proof. intros s. apply frame_refl. Qed.
Lemma framed_lift {A} (r : Result CoreError A) : framed (lift r).
Proof. intros s. apply frame_refl. Qed.
Lemma framed_some_or {A} e (o : option A) : framed (some_or e o).
Proof. destruct o; [apply framed_ret|apply framed_fail]. Qed.
Lemma framed_guard b e : framed (guard_ b e).
Proof. destruct b; [apply framed_ret|apply framed_fail]. Qed.
Lemma framed_when b m : framed m -> framed (when_ b m).
Proof. destruct b; [done|]. intros _. apply framed_ret. Qed.
Lemma framed_fresh env k : framed (fresh env k).
Proof. intros s. split; [by destruct s|]. split; [apply Nat.le_succ_diag_r|done]. Qed.
Lemma framed_relations m :
  (forall s, exists t, (m s).2 = s <| relations := t |> /\
     (RelationSpec.graph_ok (relations s) -> RelationSpec.graph_ok t)) -> @framed unit m.
Proof. intros H s. destruct (H s) as (t & -> & Hg). split; [by destruct s|done]. Qed.
Lemma framed_update_kind id k : k <> Blocks -> framed (update_kind id k).
Proof.
  intros Hk. apply framed_relations. intros s. unfold update_kind.
  destruct (RelationRepo.update_kind _ _ _) as [[b t]|] eqn:E.
  - exists t. split; [done|]. by apply (RelationFacts.update_kind_graph _ _ _ _ _ Hk E).
  - exists (relations s). split; [by destruct s|done].
Qed.
Lemma framed_migrated id : framed (update_kind id WasBlocking).
Proof. by apply framed_update_kind. Qed.
Lemma framed_delete_relation id : framed (delete_relation id).
Proof.
  apply framed_relations. intros s. eexists. split; [done|]. apply RelationFacts.delete_graph.
Qed.
Lemma framed_link env from to k : framed (TaskCommands.link_tasks env from to k).
Proof.
  intros s. unfold TaskCommands.link_tasks, gets, lift, fresh, modify, insert_relation, mbind, M_bind.
  destruct (RelationEnforcement.detect_cycle _ _ _ _) as [[]|] eqn:Ed; [|apply frame_refl].
  cbn. set (r := Relation.mk _ _ _ _ _ _).
  assert (Hd : (drawn s <= S (drawn s))%nat) by apply Nat.le_succ_diag_r.
  destruct (RelationRepo.insert (relations s) r) as [t|] eqn:Ei; cbn.
  - split; [by destruct s|]. split; [exact Hd|]. intros Hg. exact (RelationFacts.checked_insert_graph _ r _ Hg Ed Ei).
  - split; [by destruct s|]. split; [exact Hd|done].
Qed.
Lemma framed_concat {A} (f : A -> M (list Event)) l :
  (forall x, framed (f x)) -> framed (concat_mapM f l).
Proof.
  intros H. induction l as [|x l IH]; cbn [concat_mapM]; [apply framed_ret|].
  apply framed_bind; [apply H|intros es]. apply framed_bind; [exact IH|intros ?]. apply framed_ret.
Qed.
End HandlerFacts.

Create HintDb framed.
#[export] Hint Resolve HandlerFacts.framed_ret HandlerFacts.framed_fail HandlerFacts.framed_gets
  HandlerFacts.framed_lift HandlerFacts.framed_some_or HandlerFacts.framed_guard
  HandlerFacts.framed_fresh HandlerFacts.framed_migrated HandlerFacts.framed_delete_relation
  HandlerFacts.framed_link : framed.

(** [solve_framed] walks a handler down to its primitive steps. *)
Ltac framed_step :=
  first
  [ solve [eauto with framed]
  | match goal with
    | |- HandlerFacts.framed (mbind _ _) => apply HandlerFacts.framed_bind; [|intros ?]
    | |- HandlerFacts.framed (Handler.when_ _ _) => apply HandlerFacts.framed_when
    | |- HandlerFacts.framed (Handler.concat_mapM _ _) => apply HandlerFacts.framed_concat; intros ?
    | |- HandlerFacts.framed (if ?b then _ else _) => destruct b
    | |- HandlerFacts.framed (match ?x with _ => _ end) => destruct x
    | |- HandlerFacts.framed (let _ := _ in _) => cbv zeta
    end ].
Ltac solve_framed := repeat framed_step.

Module BuildFrame.
  Import Handler HandlerFacts.

Lemma framed_get_task id : framed (get_task id).
Proof. unfold get_task. solve_framed. Qed.
Lemma framed_list_active_blockers id : framed (list_active_blockers id).
Proof. unfold list_active_blockers. solve_framed. Qed.
Lemma framed_list_downstream id : framed (list_downstream_to_unblock id).
Proof. unfold list_downstream_to_unblock. solve_framed. Qed.
Lemma framed_list_plans id : framed (list_plans_for_task id).
Proof. unfold list_plans_for_task. solve_framed. Qed.
Lemma framed_active_run id : framed (active_run_for_plan id).
Proof. unfold active_run_for_plan. solve_framed. Qed.
Lemma framed_ensure id to : framed (ensure_direct_status_write id to).
Proof. unfold ensure_direct_status_write. solve_framed. Qed.
#[export] Hint Resolve framed_get_task framed_list_active_blockers framed_list_downstream
  framed_list_plans framed_active_run framed_ensure : framed.

Lemma framed_close_docs env id to : framed (close_task_documents env id to).
Proof. unfold close_task_documents. solve_framed. Qed.
Lemma framed_migrate env outgoing : framed (migrate_edges env outgoing).
Proof. induction outgoing; cbn [migrate_edges]; solve_framed. Qed.
#[export] Hint Resolve framed_close_docs framed_migrate : framed.
Lemma framed_cascade env id : framed (downstream_cascade env id).
Proof. unfold downstream_cascade. solve_framed. Qed.
Lemma framed_reject id msg : framed (reject_blocked id msg).
Proof. unfold reject_blocked. solve_framed. Qed.
#[export] Hint Resolve framed_cascade framed_reject : framed.
Lemma framed_transition env x to : framed (status_transition_events env x to).
Proof. unfold status_transition_events. solve_framed. Qed.
#[export] Hint Resolve framed_transition : framed.
Lemma framed_emit env x to : framed (emit_status_transition_events env x to).
Proof. unfold emit_status_transition_events. solve_framed. Qed.
Lemma framed_comment env id b k : framed (comment_events env id b k).
Proof. unfold comment_events. solve_framed. Qed.
Lemma framed_bulk_cap n : framed (validate_bulk_cap n).
Proof. unfold validate_bulk_cap. solve_framed. Qed.
Lemma framed_validate p : framed (validate_pipeline_target p).
Proof. unfold validate_pipeline_target. solve_framed. Qed.
Lemma framed_pipeline_task id : framed (pipeline_task id).
Proof. unfold pipeline_task. solve_framed. Qed.
#[export] Hint Resolve framed_emit framed_comment framed_bulk_cap framed_validate
  framed_pipeline_task : framed.
Lemma framed_advance env x p : framed (advance_pipeline_events env x p).
Proof. unfold advance_pipeline_events. solve_framed. Qed.
Lemma framed_assign env n : framed (TaskCommands.assign_id env n).
Proof. unfold TaskCommands.assign_id. solve_framed. Qed.
#[export] Hint Resolve framed_advance framed_assign : framed.
Lemma framed_unlink_all env rels : framed (TaskCommands.unlink_all env rels).
Proof. induction rels; cbn [TaskCommands.unlink_all]; solve_framed. Qed.
Lemma framed_prepare env p l : framed (TaskCommands.prepare_subtasks env p l).
Proof. induction l; cbn [TaskCommands.prepare_subtasks]; solve_framed. Qed.
Lemma framed_check_title t : framed (TaskCommands.check_title t).
Proof. unfold TaskCommands.check_title. solve_framed. Qed.
Lemma framed_check_plan_title t : framed (PlanCommands.check_plan_title t).
Proof. unfold PlanCommands.check_plan_title. solve_framed. Qed.
Lemma framed_check_doc_title t : framed (DocumentCommands.check_doc_title t).
Proof. unfold DocumentCommands.check_doc_title. solve_framed. Qed.
Lemma framed_check_note c : framed (TaskCommands.check_note c).
Proof. unfold TaskCommands.check_note. solve_framed. Qed.
Lemma framed_load ids msg : framed (TaskCommands.load_all ids msg).
Proof. unfold TaskCommands.load_all. solve_framed. Qed.
#[export] Hint Resolve framed_unlink_all framed_prepare framed_check_title
  framed_check_plan_title framed_check_doc_title framed_check_note framed_load : framed.
Lemma framed_check_parent id p : framed (PlanCommands.check_parent id p).
Proof. unfold PlanCommands.check_parent. solve_framed. Qed.
#[export] Hint Resolve framed_check_parent : framed.
Lemma framed_prepare_plan env p : framed (PlanCommands.prepare_plan env p).
Proof. unfold PlanCommands.prepare_plan. solve_framed. Qed.
Lemma framed_redelivered env id k n : framed (redelivered_create_events env id k n).
Proof. unfold redelivered_create_events, task_comment_events. solve_framed. Qed.
Lemma framed_note env id b : framed (task_comment_events env id b).
Proof. unfold task_comment_events. solve_framed. Qed.
#[export] Hint Resolve framed_prepare_plan framed_redelivered framed_note : framed.
Lemma framed_materialize_one env t keys n : framed (PlanCommands.materialize_one env t keys n).
Proof. unfold PlanCommands.materialize_one. solve_framed. Qed.
#[export] Hint Resolve framed_materialize_one : framed.
Lemma framed_materialized env t pos keys ns :
  framed (PlanCommands.materialized_task_events env t pos keys ns).
Proof.
  revert pos keys. induction ns as [|n ns IH]; intros pos keys;
    cbn [PlanCommands.materialized_task_events]; solve_framed.
Qed.
Lemma framed_require_document id : framed (DocumentCommands.require_document id).
Proof. unfold DocumentCommands.require_document. solve_framed. Qed.
Lemma framed_anchor st id : framed (DocumentCommands.require_live_document_anchor st id).
Proof. unfold DocumentCommands.require_live_document_anchor. solve_framed. Qed.
Lemma framed_get_plan id : framed (PlanCommands.get_plan id).
Proof. unfold PlanCommands.get_plan. solve_framed. Qed.
Lemma framed_get_run id : framed (PlanCommands.get_run id).
Proof. unfold PlanCommands.get_run. solve_framed. Qed.
Lemma framed_members id : framed (PlanCommands.members_of id).
Proof. unfold PlanCommands.members_of. solve_framed. Qed.
Lemma framed_active_runs id : framed (PlanCommands.active_runs id).
Proof. unfold PlanCommands.active_runs. solve_framed. Qed.
Lemma framed_get_project id : framed (ProjectCommands.get_project id).
Proof. unfold ProjectCommands.get_project. solve_framed. Qed.
#[export] Hint Resolve framed_materialized framed_require_document framed_anchor framed_get_plan
  framed_get_run framed_members framed_active_runs framed_get_project : framed.

(** *** The source of a plan *)
Section Source.
Context (disp : N -> Str) (env : Env).

Lemma framed_validated {A} (r : Result string A) : framed (SourceIntake.validated r).
Proof. unfold SourceIntake.validated. solve_framed. Qed.
#[local] Hint Resolve @framed_validated : framed.
Lemma framed_node i : framed (SourceIntake.node_of disp env i).
Proof. unfold SourceIntake.node_of. solve_framed. Qed.
#[local] Hint Resolve framed_node : framed.
Lemma framed_nodes top is_ : framed (SourceIntake.nodes_of disp env top is_).
Proof. revert top. induction is_; intros top; cbn [SourceIntake.nodes_of]; solve_framed. Qed.
#[local] Hint Resolve framed_nodes : framed.
Lemma framed_source_nodes h more : framed (SourceIntake.source_nodes disp env h more).
Proof. unfold SourceIntake.source_nodes. solve_framed. Qed.
#[local] Hint Resolve framed_source_nodes : framed.
Lemma framed_prepare_source plan : framed (SourceIntake.prepare_plan_source disp env plan).
Proof. unfold SourceIntake.prepare_plan_source. solve_framed. Qed.
Lemma framed_intake_policy p : framed (SourceIntake.intake_policy p).
Proof. unfold SourceIntake.intake_policy. solve_framed. Qed.
#[local] Hint Resolve framed_prepare_source framed_intake_policy : framed.
Lemma framed_explained b i r : framed (SourceIntake.source_explained b i r).
Proof. unfold SourceIntake.source_explained. solve_framed. Qed.
Lemma framed_resolve_ref p plan g : framed (SourceIntake.resolve_ref env p plan g).
Proof. unfold SourceIntake.resolve_ref. solve_framed. Qed.
Lemma framed_auto_parent plan r may : framed (SourceIntake.auto_parent disp env plan r may).
Proof. unfold SourceIntake.auto_parent. solve_framed. Qed.
#[local] Hint Resolve framed_explained framed_resolve_ref framed_auto_parent : framed.
Lemma framed_policy plan g n : framed (SourceIntake.apply_source_policy disp env plan g n).
Proof. unfold SourceIntake.apply_source_policy. solve_framed. Qed.
Lemma framed_link_nodes nodes k : framed (SourceIntake.link_in_state nodes k).
Proof. unfold SourceIntake.link_in_state. solve_framed. Qed.
Lemma framed_ref_node r : framed (SourceIntake.ref_node disp env r).
Proof. unfold SourceIntake.ref_node. solve_framed. Qed.
#[local] Hint Resolve framed_policy framed_link_nodes framed_ref_node : framed.
Lemma framed_source_events plan nodes : framed (SourceIntake.plan_source_events disp env plan nodes).
Proof. unfold SourceIntake.plan_source_events. solve_framed. Qed.
#[local] Hint Resolve framed_source_events : framed.
Lemma framed_resolve plan : framed (SourceIntake.resolve_plan_source disp env plan).
Proof. unfold SourceIntake.resolve_plan_source. solve_framed. Qed.
Lemma framed_shape plan : framed (SourceIntake.shape_plan_source disp env plan).
Proof. unfold SourceIntake.shape_plan_source. solve_framed. Qed.
Lemma framed_choice plan es : framed (SourceIntake.require_plan_choice disp env plan es).
Proof. unfold SourceIntake.require_plan_choice. solve_framed. Qed.
Lemma framed_source_note plan n : framed (SourceIntake.appended_source_note disp plan n).
Proof. unfold SourceIntake.appended_source_note. solve_framed. Qed.
Lemma framed_first_source i p n up : framed (SourceIntake.first_source disp env i p n up).
Proof. unfold SourceIntake.first_source. solve_framed. Qed.
Lemma framed_attach b r up : framed (SourceIntake.attach_upstream disp env b r up).
Proof. unfold SourceIntake.attach_upstream. solve_framed. Qed.
#[local] Hint Resolve framed_first_source framed_attach : framed.
Lemma framed_extend p r n up : framed (SourceIntake.extend_source disp env p r n up).
Proof. unfold SourceIntake.extend_source. solve_framed. Qed.
End Source.
#[export] Hint Resolve framed_validated framed_resolve framed_shape framed_choice framed_source_note framed_extend : framed.

(** *** Runs and registries *)
Lemma framed_check_steps env steps : framed (RunCommands.check_steps env steps).
Proof. induction steps; cbn [RunCommands.check_steps]; solve_framed. Qed.
#[export] Hint Resolve framed_check_steps : framed.
Lemma framed_postconditions env r : framed (RunCommands.ensure_run_postconditions env r).
Proof. unfold RunCommands.ensure_run_postconditions. solve_framed. Qed.
Lemma framed_or_fresh env k (i : option (Id k)) : framed (RegistryCommands.or_fresh env i).
Proof. unfold RegistryCommands.or_fresh. solve_framed. Qed.
Lemma framed_replace_default env k (i : Id k) : framed (RegistryCommands.replace_default env i).
Proof. unfold RegistryCommands.replace_default. solve_framed. Qed.
#[export] Hint Resolve framed_postconditions framed_or_fresh framed_replace_default : framed.
Lemma framed_live_comment id : framed (RegistryCommands.live_comment id).
Proof. unfold RegistryCommands.live_comment. solve_framed. Qed.
Lemma framed_check_audit env v : framed (RegistryCommands.check_audit env v).
Proof. unfold RegistryCommands.check_audit. solve_framed. Qed.
Lemma framed_work_unit id : framed (RegistryCommands.work_unit id).
Proof. unfold RegistryCommands.work_unit. solve_framed. Qed.
#[export] Hint Resolve framed_live_comment framed_check_audit framed_work_unit : framed.
Lemma framed_open_unit id : framed (RegistryCommands.open_unit id).
Proof. unfold RegistryCommands.open_unit. solve_framed. Qed.
Lemma framed_known_session id : framed (RegistryCommands.known_session id).
Proof. unfold RegistryCommands.known_session. solve_framed. Qed.
Lemma framed_get_handoff id : framed (RegistryCommands.get_handoff id).
Proof. unfold RegistryCommands.get_handoff. solve_framed. Qed.
Lemma framed_scope_exists sc : framed (RegistryCommands.scope_exists sc).
Proof. unfold RegistryCommands.scope_exists. solve_framed. Qed.
Lemma framed_placement r sc t : framed (RegistryCommands.check_placement r sc t).
Proof. unfold RegistryCommands.check_placement. solve_framed. Qed.
Lemma framed_get_rule id : framed (RegistryCommands.get_rule id).
Proof. unfold RegistryCommands.get_rule. solve_framed. Qed.
Lemma framed_get_artifact id : framed (RegistryCommands.get_artifact id).
Proof. unfold RegistryCommands.get_artifact. solve_framed. Qed.
Lemma framed_replacement id : framed (RegistryCommands.require_artifact_replacement id).
Proof. unfold RegistryCommands.require_artifact_replacement. solve_framed. Qed.
Lemma framed_uri_free u : framed (RegistryCommands.uri_free u).
Proof. unfold RegistryCommands.uri_free. solve_framed. Qed.
Lemma framed_segment v : framed (RegistryCommands.check_segment v).
Proof. unfold RegistryCommands.check_segment. solve_framed. Qed.
#[export] Hint Resolve framed_open_unit framed_known_session framed_get_handoff framed_scope_exists
  framed_placement framed_get_rule framed_get_artifact framed_replacement framed_uri_free framed_segment : framed.
Lemma framed_slot t r k i : framed (RegistryCommands.superseded_slot t r k i).
Proof. unfold RegistryCommands.superseded_slot. solve_framed. Qed.
#[export] Hint Resolve framed_slot : framed.

Create HintDb commands.
#[export] Hint Unfold TaskCommands.create_task TaskCommands.normalize_git TaskCommands.update_task
  TaskCommands.complete_task TaskCommands.delete_task TaskCommands.set_status
  TaskCommands.advance_pipeline TaskCommands.close_pipeline_stage TaskCommands.set_priority
  TaskCommands.bulk_set_status TaskCommands.bulk_attach_to_plan TaskCommands.attach_split
  TaskCommands.split_task TaskCommands.unlink_tasks
  TaskCommands.acquire_claim TaskCommands.release_claim TaskCommands.reserve_files
  TaskCommands.release_files ProjectCommands.create_project ProjectCommands.update_project
  ProjectCommands.delete_project PlanCommands.create_plan PlanCommands.materialize_plan
  PlanCommands.update_plan PlanCommands.amend_plan_task PlanCommands.archive_plan
  PlanCommands.delete_plan PlanCommands.add_plan_task PlanCommands.remove_plan_task
  PlanCommands.reorder_plan PlanCommands.set_plan_goal PlanCommands.set_plan_status
  PlanCommands.start_run PlanCommands.run_start_step PlanCommands.run_finish_step
  PlanCommands.fail_run PlanCommands.abort_run PlanCommands.append_run_note
  PlanCommands.send_run_signal PlanCommands.respond_run_signal DocumentCommands.create_document
  DocumentCommands.replace_document_content DocumentCommands.append_document_content
  DocumentCommands.rename_document DocumentCommands.archive_document
  DocumentCommands.set_document_status DocumentCommands.link_document_to_task
  PlanCommands.append_to_plan PlanCommands.append_materialized_tasks RunCommands.complete_run
  RegistryCommands.add_comment RegistryCommands.edit_comment RegistryCommands.delete_comment
  RegistryCommands.update_project_settings RegistryCommands.create_work_unit
  RegistryCommands.complete_work_unit RegistryCommands.release_work_unit
  RegistryCommands.set_work_unit_status RegistryCommands.start_agent_session
  RegistryCommands.end_agent_session RegistryCommands.update_agent_session_plan
  RegistryCommands.attach_session_artifact RegistryCommands.request_handoff
  RegistryCommands.accept_handoff RegistryCommands.reject_handoff RegistryCommands.create_rule
  RegistryCommands.update_rule RegistryCommands.disable_rule RegistryCommands.delete_rule
  RegistryCommands.record_evidence RegistryCommands.register_artifact RegistryCommands.update_artifact
  RegistryCommands.commit_artifact_write RegistryCommands.deprecate_artifact
  RegistryCommands.add_artifact_relation RegistryCommands.remove_artifact_relation
  RegistryCommands.assign_artifact_owner RegistryCommands.change_artifact_status
  RegistryCommands.propose_role_artifact RegistryCommands.set_role_artifact_status : commands.

(** Building the events of a command changes relations and the id supply
    only. *)
Lemma build_framed disp env cmd : framed (Dispatch.build_events disp env cmd).
Proof.
  destruct cmd; cbn [Dispatch.build_events]; try destruct plan_id; autounfold with commands; solve_framed.
Qed.

(** So do the checks and the sources that come before. *)
Lemma source_framed disp env cmd : framed (Dispatch.source_phase disp env cmd).
Proof. unfold Dispatch.source_phase. solve_framed. Qed.
Lemma completion_framed auth adm cmd : framed (Dispatch.completion_phase auth adm cmd).
Proof.
  unfold Dispatch.completion_phase, RunCommands.is_completed_run_retry,
    RunCommands.ensure_run_completion_owner. solve_framed.
Qed.
Lemma reconcile_framed es : framed (Dispatch.reconcile es).
Proof. unfold Dispatch.reconcile. solve_framed. Qed.
#[export] Hint Resolve build_framed source_framed completion_framed reconcile_framed : framed.
Lemma command_framed disp env auth cmd : framed (Dispatch.command_events disp env auth cmd).
Proof. unfold Dispatch.command_events. solve_framed. Qed.
End BuildFrame.

(** ** Steps that leave a table alone *)
Module Steady.
  Import Handler HandlerFacts Dispatch.

(** A step that leaves [f] of the state alone, whether it succeeds or fails. *)
Definition keeps {A B} (f : St -> B) (m : M A) : Prop := forall s, f (m s).2 = f s.

Section Rules.
Context {B : Type} (f : St -> B).
Lemma keeps_ret {A} (a : A) : keeps f (mret a).
Proof. done. Qed.
Lemma keeps_bind {A C} (m : M A) (k : A -> M C) : keeps f m -> (forall a, keeps f (k a)) -> keeps f (m ≫= k).
Proof.
  intros Hm Hf s. unfold mbind, M_bind. specialize (Hm s).
  destruct (m s) as [[a|e] s1]; cbn in *; [|done]. by rewrite Hf.
Qed.
Lemma keeps_fail {A} e : keeps f (fail e : M A).
Proof. done. Qed.
Lemma keeps_gets {A} (g : St -> A) : keeps f (gets g).
Proof. done. Qed.
Lemma keeps_lift {A} (r : Result CoreError A) : keeps f (lift r).
Proof. done. Qed.
Lemma keeps_some_or {A} e (o : option A) : keeps f (some_or e o).
Proof. by destruct o. Qed.
Lemma keeps_guard b e : keeps f (guard_ b e).
Proof. by destruct b. Qed.
Lemma keeps_modify g : (forall s, f (g s) = f s) -> keeps f (modify g).
Proof. intros H s. apply H. Qed.
Lemma keeps_put {A} (r : St -> Result CoreError A) g : (forall a s, f (g a s) = f s) -> keeps f (put r g).
Proof. intros H s. unfold put, gets, lift, modify, mbind, M_bind. destruct (r s); cbn; [apply H|done]. Qed.
Lemma keeps_attempt m : keeps f m -> keeps f (attempt m).
Proof. intros H s. apply H. Qed.
Lemma keeps_fresh env k : (forall n s, f (s <| drawn := n |>) = f s) -> keeps f (fresh env k).
Proof. intros H s. apply H. Qed.
Lemma keeps_append es : (forall l s, f (s <| log := l |>) = f s) -> keeps f (append_batch es).
Proof.
  intros H s. unfold append_batch. destruct (EventStore.append_batch (log s) es). apply H.
Qed.
End Rules.
End Steady.

Create HintDb steady.
#[export] Hint Resolve Steady.keeps_ret Steady.keeps_fail Steady.keeps_gets Steady.keeps_lift
  Steady.keeps_some_or Steady.keeps_guard : steady.

(** [solve_steady] walks a step down to its writes; a write of another table is
    seen by computation. *)
Ltac steady_step :=
  match goal with
  | |- Steady.keeps _ _ => solve [eauto with steady]
  | |- Steady.keeps _ (mbind _ _) => apply Steady.keeps_bind; [|intros ?]
  | |- Steady.keeps _ (Handler.modify _) =>
      apply Steady.keeps_modify; intros ?; repeat case_match; reflexivity
  | |- Steady.keeps _ (Dispatch.put _ _) => apply Steady.keeps_put; intros; reflexivity
  | |- Steady.keeps _ (Handler.fresh _ _) => apply Steady.keeps_fresh; reflexivity
  | |- Steady.keeps _ (Dispatch.append_batch _) => apply Steady.keeps_append; reflexivity
  | |- Steady.keeps _ (Dispatch.attempt _) => apply Steady.keeps_attempt
  | |- Steady.keeps _ (if ?b then _ else _) => destruct b
  | |- Steady.keeps _ (match ?x with _ => _ end) => destruct x
  end.
Ltac solve_steady := repeat steady_step.

Create HintDb intake.
#[export] Hint Unfold SourceIntake.resolve_plan_source SourceIntake.shape_plan_source
  SourceIntake.require_plan_choice SourceIntake.extend_source SourceIntake.first_source
  SourceIntake.attach_upstream SourceIntake.plan_source_events SourceIntake.link_in_state
  SourceIntake.ref_node SourceIntake.apply_source_policy SourceIntake.auto_parent
  SourceIntake.resolve_ref SourceIntake.source_explained SourceIntake.intake_policy
  SourceIntake.prepare_plan_source SourceIntake.source_nodes SourceIntake.node_of
  SourceIntake.validated : intake.

Module SourceSteady.
  Import Handler Steady.

Lemma steady_nodes disp env top is_ : keeps relations (SourceIntake.nodes_of disp env top is_).
Proof.
  revert top. induction is_ as [|i is_ IH]; intros top; cbn [SourceIntake.nodes_of];
    autounfold with intake; solve_steady.
Qed.
#[local] Hint Resolve steady_nodes : steady.
Lemma source_steady disp env cmd : keeps relations (Dispatch.source_phase disp env cmd).
Proof. unfold Dispatch.source_phase. autounfold with intake. solve_steady. Qed.
End SourceSteady.
