(* ===== verification/Projection.v ===== *)
(** * What a dispatched batch does to a task

    [view] is the status and pipeline position of a task; [track] says how one
    event moves it, and [dispatch_track] that a dispatched command moves every
    task as its own events say: audit rows, plan closings and released claims do
    not touch tasks. *)

From S2P Require Import Prelude Shared TaskModel PlanModel RegistryModel Events EventStore TaskStore RelationStore PlanStore RunStore ClaimStore LeaseStore DocumentStore ProjectStore SourceChain SourceIntake Handler TaskCommands PlanCommands DocumentCommands RunCommands Reconcile Gate Dispatch HandlerFacts.

Module TaskView.
  Import TaskRepo.

Abbreviation View := (option (Status * option PipelinePosition)).

Definition view (t : TaskTable) (id : TaskId) : View :=
  (fun r => (Task.status (TaskRow.task r), TaskRow.position r)) <$> rows t !! id.

Definition created (n : NewTask) (id : TaskId) (v : View) : View :=
  if bool_decide (NewTask.id n = Some id)
  then Some (default status_default (NewTask.status n), v ≫= snd) else v.

Definition track (id : TaskId) (v : View) (e : Event) : View :=
  let at_ i (f : Status * option PipelinePosition -> Status * option PipelinePosition) :=
    if bool_decide (i = id) then f <$> v else v in
  match e with
  | Event.TaskCreated n => created n id v
  | Event.TaskSplitGenerated _ ns => foldl (fun v n => created n id v) v ns
  | Event.TaskUpdated i patch =>
      at_ i (fun x => (default x.1 (TaskPatch.status patch),
                       or_else (TaskPatch.pipeline_position patch) x.2))
  | Event.TaskStatusChanged i _ to => at_ i (fun x => (to, x.2))
  | Event.TaskCompleted i _ _ => at_ i (fun x => (Done, x.2))
  | Event.TaskDeleted i => if bool_decide (i = id) then None else v
  | _ => v
  end.

Definition tracked (es : list Event) (id : TaskId) (v : View) : View := foldl (track id) v es.

(** Events that leave every task where it is. *)
Definition untracked (e : Event) : Prop :=
  match e with
  | Event.TaskCreated _ | Event.TaskSplitGenerated _ _ | Event.TaskUpdated _ _
  | Event.TaskStatusChanged _ _ _ | Event.TaskCompleted _ _ _ | Event.TaskDeleted _ => False
  | _ => True
  end.

(** Audit events of the gate, and released claims. *)
Definition is_audit (e : Event) : Prop :=
  match e with
  | Event.RuleFired _ _ _ _ _ _ _ _ _ _ _ | Event.OperationalMetricRecorded _ => True
  | _ => False
  end.
Definition is_release (e : Event) : Prop :=
  match e with Event.AgentReleased _ _ _ => True | _ => False end.

(** A created task carries its id, as every command assigns it. *)
Definition with_id (n : NewTask) : Prop := NewTask.id n <> None.
Definition ids_given (e : Event) : Prop :=
  match e with
  | Event.TaskCreated n => with_id n
  | Event.TaskSplitGenerated _ ns => Forall with_id ns
  | _ => True
  end.
End TaskView.

Module TaskViewFacts.
  Import TaskRepo TaskTableSpec TaskView.

Lemma track_untracked id v e : untracked e -> track id v e = v.
Proof. by destruct e. Qed.
Lemma tracked_untracked es id v : Forall untracked es -> tracked es id v = v.
Proof.
  unfold tracked. revert v. induction es as [|e es IH]; intros v; [done|].
  intros [He Hes]%Forall_cons. cbn. by rewrite track_untracked, IH.
Qed.
Lemma tracked_app es es' id v : tracked (es ++ es') id v = tracked es' id (tracked es id v).
Proof. unfold tracked. apply foldl_app. Qed.

Lemma audit_untracked e : is_audit e -> untracked e.
Proof. by destruct e. Qed.
Lemma release_untracked e : is_release e -> untracked e.
Proof. by destruct e. Qed.

Lemma untracked_ids e : untracked e -> ids_given e.
Proof. by destruct e. Qed.

Lemma view_get t id x : get t id = Some x -> exists p, view t id = Some (Task.status x, p).
Proof. unfold get, view. destruct (rows t !! id) as [r|]; [|done]. cbn. intros [= <-]. eauto. Qed.
Lemma view_status t id st p :
  view t id = Some (st, p) ->
  pipeline_position t id = p /\ exists x, get t id = Some x /\ Task.status x = st.
Proof.
  unfold get, view, pipeline_position. destruct (rows t !! id) as [r|]; [|done]. cbn.
  intros [= <- <-]. eauto.
Qed.
Lemma view_none t id : get t id = None -> view t id = None.
Proof. unfold get, view. by destruct (rows t !! id). Qed.
Lemma view_position t id : pipeline_position t id = view t id ≫= snd.
Proof. unfold pipeline_position, view. by destruct (rows t !! id). Qed.

Lemma view_update_row t i f id :
  view (update_row t i f) id =
  if bool_decide (i = id)
  then (fun r => (Task.status (TaskRow.task (f r)), TaskRow.position (f r))) <$> rows t !! i
  else view t id.
Proof.
  unfold view, update_row. cbn. case_bool_decide as H.
  - subst. rewrite lookup_alter_eq. by destruct (rows t !! id).
  - by rewrite lookup_alter_ne.
Qed.

Lemma view_upsert t x t' id :
  upsert_task_tx t x = Ok t' ->
  view t' id = if bool_decide (Task.id x = id) then Some (Task.status x, view t id ≫= snd)
               else view t id.
Proof.
  unfold upsert_task_tx. destruct (key_taken t x); [done|]. intros [= <-]. unfold view. cbn.
  case_bool_decide as H.
  - subst. rewrite lookup_insert_eq. by destruct (rows t !! Task.id x).
  - by rewrite lookup_insert_ne.
Qed.

Lemma view_with_task t i f t' id :
  keyed t -> TaskTableFacts.keeps_id f -> with_task t i f = Ok t' ->
  (forall x, get t i = Some x ->
     view t' id = if bool_decide (i = id)
                  then Some (Task.status (f x), view t id ≫= snd) else view t id) /\
  (get t i = None -> t' = t).
Proof.
  unfold with_task. intros Hk Hf. destruct (get t i) as [x|] eqn:G; [|by intros [= <-]].
  intros Hu. split; [|done]. intros y [= <-].
  by rewrite (view_upsert _ _ _ _ Hu), Hf, (Hk _ _ G).
Qed.

Lemma view_edit t i f g t' id :
  keyed t -> TaskTableFacts.keeps_id f -> (forall x, Task.status (f x) = g (Task.status x)) ->
  with_task t i f = Ok t' ->
  view t' id = if bool_decide (i = id) then (fun x => (g x.1, x.2)) <$> view t id else view t id.
Proof.
  intros Hk Hf Hg Hw. destruct (view_with_task _ _ _ _ id Hk Hf Hw) as [H1 H2].
  destruct (get t i) as [x|] eqn:G.
  - rewrite (H1 x eq_refl). case_bool_decide as Hi; [|done]. subst.
    destruct (view_get _ _ _ G) as [p Hp]. rewrite Hp, Hg. done.
  - rewrite (H2 eq_refl). case_bool_decide as Hi; [|done]. subst. by rewrite (view_none _ _ G).
Qed.

Lemma status_patched now p x :
  Task.status (TaskPatch.apply now p x) = default (Task.status x) (TaskPatch.status p).
Proof. unfold TaskPatch.apply. repeat case_match; done. Qed.
Lemma status_updated e now p x :
  Task.status (TaskRepo.on_updated e now p x) = default (Task.status x) (TaskPatch.status p).
Proof. exact (status_patched now p x). Qed.
Lemma status_changed e to x : Task.status (on_status_changed e to x) = to.
Proof. unfold on_status_changed. by repeat case_match. Qed.

Lemma view_stamp t i a id : view (stamp_status_changed_at t i a) id = view t id.
Proof.
  unfold stamp_status_changed_at. rewrite view_update_row. case_bool_decide; [|done]. subst.
  unfold view. by destruct (rows t !! id).
Qed.

Lemma view_created t e fresh src n t' id :
  with_id n -> upsert_task_tx t (created_task e fresh src n) = Ok t' ->
  view t' id = created n id (view t id).
Proof.
  intros Hn Hu. rewrite (view_upsert _ _ _ _ Hu). unfold created. cbn.
  destruct (NewTask.id n) as [i|] eqn:E; [|done]. cbn.
  case_bool_decide as H; [by subst; rewrite bool_decide_eq_true_2|].
  rewrite bool_decide_eq_false_2; [done|]. congruence.
Qed.

Lemma project_keeps_keyed fresh now t e t' :
  keyed t -> apply_event_tx fresh now t e = Ok t' -> keyed t'.
Proof.
  assert (Hup : forall t x t', keyed t -> upsert_task_tx t x = Ok t' -> keyed t').
  { clear. intros t x t' Hk Hu id y. rewrite (TaskTableFacts.upsert_get _ _ _ _ Hu).
    case_bool_decide; [by intros [= <-]|apply Hk]. }
  assert (Hw : forall t i f t', keyed t -> with_task t i f = Ok t' -> keyed t').
  { intros t0 i f t0' Hk. unfold with_task. destruct (get t0 i); [by apply Hup|by intros [= <-]]. }
  assert (Hst : forall t i a, keyed t -> keyed (stamp_status_changed_at t i a)).
  { intros t0 i a Hk id x. rewrite TaskTableFacts.get_stamp_status. apply Hk. }
  assert (Hpo : forall t i a, keyed t -> keyed (stamp_pipeline_position t i a)).
  { intros t0 i a Hk id x. rewrite TaskTableFacts.get_stamp_position. apply Hk. }
  intros Hk. unfold apply_event_tx. destruct (Envelope.payload e); try (by intros [= <-]).
  - intros (t1 & H1 & [= <-])%rbind_ok. eauto.
  - intros (t1 & H1 & [= <-])%rbind_ok. destruct (TaskPatch.pipeline_position patch); eauto.
  - intros (t1 & H1 & [= <-])%rbind_ok. eauto.
  - eauto.
  - intros (t1 & H1 & [= <-])%rbind_ok.
    destruct (match get t task_id with Some _ => _ | None => _ end); eauto.
  - intros [= <-] id x. rewrite TaskTableFacts.delete_get. case_bool_decide; [done|apply Hk].
  - revert t Hk. induction subtasks as [|n ns IH]; cbn; intros t Hk; [by intros [= <-]|].
    intros (t1 & H1 & H2)%rbind_ok. eapply IH; [|done]. eauto.
  - eauto.
  - eauto.
Qed.

(** Projecting an event moves the view as [track] says. *)
Lemma apply_event_track fresh now t e t' id :
  keyed t -> ids_given (Envelope.payload e) -> apply_event_tx fresh now t e = Ok t' ->
  view t' id = track id (view t id) (Envelope.payload e).
Proof.
  intros Hk Hids. unfold apply_event_tx.
  destruct (Envelope.payload e); cbn [track] in *; try (by intros [= <-]).
  - intros (t1 & H1 & [= <-])%rbind_ok. rewrite view_stamp. by eapply view_created.
  - intros (t1 & H1 & [= <-])%rbind_ok.
    pose proof (view_edit _ _ _ (fun st => default st (TaskPatch.status patch)) _ id Hk
                  (TaskTableFacts.keeps_id_updated e now patch) (status_updated e now patch) H1) as Hv.
    destruct (TaskPatch.pipeline_position patch) as [p|]; [|by rewrite Hv].
    unfold stamp_pipeline_position. rewrite view_update_row.
    destruct (decide (task_id = id)) as [->|Hne].
    + rewrite !bool_decide_eq_true_2 in * by done. unfold view in *.
      destruct (rows t1 !! id) as [r|], (rows t !! id) as [r0|]; cbn in *; try done.
      by injection Hv as -> _.
    + by rewrite !bool_decide_eq_false_2 in * by done.
  - intros (t1 & H1 & [= <-])%rbind_ok. rewrite view_stamp.
    apply (view_edit _ _ _ (fun _ => to) _ id Hk (TaskTableFacts.keeps_id_status e to)
             (status_changed e to) H1).
  - intros H1. rewrite (view_edit _ _ _ (fun st => st) _ id Hk
      (TaskTableFacts.keeps_id_priority e to) (fun _ => eq_refl) H1).
    case_bool_decide; [|done]. by destruct (view t id) as [[]|].
  - intros (t1 & H1 & [= <-])%rbind_ok.
    pose proof (view_edit _ _ _ (fun _ => Done) _ id Hk (TaskTableFacts.keeps_id_completed e completed_at)
             (fun _ => eq_refl) H1) as Hv.
    destruct (match get t task_id with Some _ => _ | None => _ end); [by rewrite view_stamp|done].
  - intros [= <-]. unfold view. cbn. case_bool_decide as Hi.
    + subst. by rewrite lookup_delete_eq.
    + by rewrite lookup_delete_ne.
  - revert t Hk Hids. induction subtasks as [|n ns IH]; cbn; intros t Hk Hids; [by intros [= <-]|].
    apply Forall_cons in Hids as [Hn Hns]. intros (t1 & H1 & H2)%rbind_ok.
    rewrite (IH t1); [by rewrite (view_created _ _ _ _ _ _ _ Hn H1)| |done|done].
    intros i x. rewrite (TaskTableFacts.upsert_get _ _ _ _ H1).
    case_bool_decide; [by intros [= <-]|apply Hk].
  - intros H1. rewrite (view_edit _ _ _ (fun st => st) _ id Hk
      (TaskTableFacts.keeps_id_reopened e at_) (fun _ => eq_refl) H1).
    case_bool_decide; [|done]. by destruct (view t id) as [[]|].
  - intros H1. rewrite (view_edit _ _ _ (fun st => st) _ id Hk
      (TaskTableFacts.keeps_id_closed e at_) (fun _ => eq_refl) H1).
    case_bool_decide; [|done]. by destruct (view t id) as [[]|].
Qed.
End TaskViewFacts.

(** ** Projecting a batch *)
Module BatchFacts.
  Import Handler HandlerFacts TaskTableSpec TaskView TaskViewFacts Dispatch.

Lemma plan_event_tasks now p t e :
  (forall id, view (PlanRepo.apply_event now p t e).2 id = view t id) /\
  (keyed t -> keyed (PlanRepo.apply_event now p t e).2).
Proof.
  unfold PlanRepo.apply_event. destruct (Envelope.payload e); try done.
  - by destruct (PlanRepo.get p plan_id).
  - unfold PlanRepo.add_task. cbn. destruct (_ =? 1)%nat; [|done]. split.
    + intros id. rewrite view_update_row. case_bool_decide as H; [|done]. subst. unfold view.
      destruct (TaskRepo.rows t !! id) as [r|]; [|done]. cbn. by destruct (Task.project_id _).
    + intros Hk id x. unfold TaskRepo.get, TaskRepo.update_row. cbn.
      destruct (decide (task_id = id)) as [->|Hne].
      * rewrite lookup_alter_eq. destruct (TaskRepo.rows t !! id) as [r|] eqn:G; [|done]. cbn.
        specialize (Hk id (TaskRow.task r)). unfold TaskRepo.get in Hk. rewrite G in Hk.
        destruct (Task.project_id _); intros [= <-]; cbn; by apply Hk.
      * rewrite lookup_alter_ne by done. apply Hk.
Qed.

Lemma put_ok {A} (f : St -> Result CoreError A) g s (u : unit) s' :
  put f g s = (Ok u, s') -> exists a, f s = Ok a /\ s' = g a s.
Proof. unfold put, gets, lift, modify, mbind, M_bind. destruct (f s) as [a|e]; intros [= _ <-]. by exists a. Qed.

(** The projections beside those of tasks and plans. *)
Lemma feed_tasks disp env e : Steady.keeps tasks (project_feed disp env e).
Proof. unfold project_feed. solve_steady. Qed.
Lemma agents_tasks env e : Steady.keeps tasks (project_agents env e).
Proof. unfold project_agents. solve_steady. Qed.
Lemma registries_tasks disp env e : Steady.keeps tasks (project_registries disp env e).
Proof. unfold project_registries. solve_steady. Qed.
Lemma plans_tasks env e s :
  (forall id, view (tasks (project_plans env e s).2) id = view (tasks s) id) /\
  (keyed (tasks s) -> keyed (tasks (project_plans env e s).2)).
Proof.
  unfold project_plans, modify. cbn. pose proof (plan_event_tasks (now env) (plans s) (tasks s) e) as H.
  by destruct (PlanRepo.apply_event _ _ _ e).
Qed.

Lemma kept_ok {A B} (f : St -> B) (m : M A) s a s' : Steady.keeps f m -> m s = (Ok a, s') -> f s' = f s.
Proof. intros H E. specialize (H s). by rewrite E in H. Qed.

Lemma project_event_tasks disp env e s s' :
  keyed (tasks s) -> ids_given (Envelope.payload e) ->
  project_event disp env e s = (Ok tt, s') ->
  keyed (tasks s') /\
  forall id, view (tasks s') id = track id (view (tasks s) id) (Envelope.payload e).
Proof.
  intros Hk Hids. unfold project_event. intros ([] & s1 & H1 & H)%bind_ok.
  apply bind_ok in H as ([] & s2 & H2%(kept_ok _ _ _ _ _ (feed_tasks _ _ _)) & H).
  apply bind_ok in H as ([] & s3 & H3 & H).
  apply bind_ok in H as ([] & s4 & H4%(kept_ok _ _ _ _ _ (agents_tasks _ _)) & H).
  apply (kept_ok _ _ _ _ _ (registries_tasks _ _ _)) in H.
  unfold project_tasks in H1. apply bind_ok in H1 as (fid & s0 & [-> ->]%fresh_ok & H1).
  apply put_ok in H1 as (t & Ht & ->). cbn [tasks] in *.
  pose proof (plans_tasks env e s2) as [Hv Hk']. rewrite H3 in Hv, Hk'. cbn [snd] in *. rewrite H, H4.
  rewrite H2 in *. cbn in *. split; [by apply Hk', (project_keeps_keyed _ _ _ _ _ Hk Ht)|].
  intros id. rewrite Hv. by eapply apply_event_track.
Qed.

Lemma project_all_tasks disp env es s s' :
  keyed (tasks s) -> Forall ids_given (map Envelope.payload es) ->
  project_all disp env es s = (Ok tt, s') ->
  keyed (tasks s') /\
  forall id, view (tasks s') id = tracked (map Envelope.payload es) id (view (tasks s) id).
Proof.
  revert s. induction es as [|e es IH]; intros s Hk Hids; cbn [project_all map].
  - intros [_ <-]%ret_ok. done.
  - apply Forall_cons in Hids as [He Hes]. intros ([] & s1 & H1 & H2)%bind_ok.
    destruct (project_event_tasks _ _ _ _ _ Hk He H1) as [Hk1 Hv1].
    destruct (IH s1 Hk1 Hes H2) as [Hk2 Hv2]. split; [done|]. intros id. by rewrite Hv2, Hv1.
Qed.

(** *** Persisting *)
Definition persist_frame (s s' : St) : Prop :=
  s' = s <| claims := claims s' |> <| runs := runs s' |> <| owners := owners s' |>
         <| log := log s' |> <| drawn := drawn s' |>.

Lemma persist_frame_refl s : persist_frame s s.
Proof. by destruct s. Qed.
Lemma persist_frame_trans a b c : persist_frame a b -> persist_frame b c -> persist_frame a c.
Proof. unfold persist_frame. intros -> ->. by destruct a, b, c. Qed.

Lemma envelopes_of_ok env es s envs s' :
  envelopes_of env es s = (Ok envs, s') ->
  map Envelope.payload envs = es /\ persist_frame s s' /\ log s' = log s /\
  Forall (fun e => Envelope.actor e = actor env /\ Envelope.occurred_at e = now env) envs.
Proof.
  revert s envs. induction es as [|e es IH]; intros s envs; cbn [envelopes_of].
  - intros [-> ->]%ret_ok. split; [done|]. split; [apply persist_frame_refl|]. done.
  - intros (i & s1 & [-> ->]%fresh_ok & H)%bind_ok.
    apply bind_ok in H as (rest & s2 & H & [-> ->]%ret_ok).
    destruct (IH _ _ H) as (<- & Hf & Hl & Ha). split; [done|]. split; [|split].
    + eapply persist_frame_trans; [|exact Hf]. by destruct s.
    + by rewrite Hl.
    + by constructor.
Qed.

(** Who says what. *)
Definition said (e : EventEnvelope) : Actor * Event := (Envelope.actor e, Envelope.payload e).
Lemma said_payload es : map snd (map said es) = map Envelope.payload es.
Proof. by rewrite map_map. Qed.
Lemma said_payloads es es' extra :
  map said es' = map said es ++ extra -> map Envelope.payload es' = map Envelope.payload es ++ map snd extra.
Proof. intros H. by rewrite <- !said_payload, H, map_app. Qed.

Lemma numbered_said n es : map said (EventLogSpec.numbered n es) = map said es.
Proof. revert n. induction es as [|e es IH]; intros n; cbn; [done|]. by rewrite IH. Qed.

Lemma append_batch_ok es s out s' :
  append_batch es s = (Ok out, s') ->
  map said out = map said es /\ persist_frame s s' /\
  EventStore.rows (log s') = EventStore.rows (log s) ++ out.
Proof.
  unfold append_batch. destruct (EventStore.append_batch (log s) es) as [r l] eqn:A.
  intros [= -> <-]. apply EventLogFacts.append_batch_inv in A as [(o & [= <-] & A)|(? & ? & _)]; [|done].
  apply EventLogFacts.append_all_ok in A as [-> ->]. cbn.
  split; [apply numbered_said|]. split; [by destruct s|]. done.
Qed.

Lemma fresh_ids_ok env es s out s' :
  fresh_ids env es s = (Ok out, s') ->
  map said out = map said es /\ persist_frame s s'.
Proof.
  revert s out. induction es as [|e es IH]; intros s out; cbn [fresh_ids].
  - intros [-> ->]%ret_ok. split; [done|apply persist_frame_refl].
  - intros (i & s1 & [-> ->]%fresh_ok & H)%bind_ok.
    apply bind_ok in H as (rest & s2 & H & [-> ->]%ret_ok).
    destruct (IH _ _ H) as [Hp Hf]. cbn. unfold said at 1. cbn. rewrite Hp. split; [done|].
    eapply persist_frame_trans; [|exact Hf]. by destruct s.
Qed.

Lemma record_ok env envs extra write s out s' :
  (forall s, persist_frame s (write s)) ->
  record env envs (envs ++ extra) write s = (Ok out, s') ->
  map said out = map said (envs ++ extra) /\ persist_frame s s'.
Proof.
  intros Hw. unfold record. rewrite drop_app_length.
  intros (tail & s1 & H1 & H)%bind_ok. apply bind_ok in H as (o & s2 & H2 & H).
  apply bind_ok in H as ([] & s3 & [= <-] & [-> ->]%ret_ok).
  apply fresh_ids_ok in H1 as [Hp1 Hf1]. apply append_batch_ok in H2 as (Hp2 & Hf2 & _).
  rewrite Hp2, !map_app, Hp1. split; [done|].
  eapply persist_frame_trans; [exact Hf1|]. eapply persist_frame_trans; [exact Hf2|]. apply Hw.
Qed.

(** A released claim, said by the acting principal. *)
Definition quiet_said (env : Env) (p : Actor * Event) : Prop := p.1 = actor env /\ is_release p.2.
Lemma released_quiet env rs :
  Forall (quiet_said env) (map said (map (fun r => wrap env (ClaimRepo.released_event r)) rs)).
Proof. apply Forall_map, Forall_map, Forall_forall. done. Qed.

(** The persisted batch is the batch followed by released claims. *)
Definition persists (env : Env) (envs : list EventEnvelope) (m : M (list EventEnvelope)) : Prop :=
  forall s out s', m s = (Ok out, s') ->
    persist_frame s s' /\
    exists extra, map said out = map said envs ++ extra /\ Forall (quiet_said env) extra.

Lemma persists_append env envs : persists env envs (append_batch envs).
Proof.
  intros s out s' (Hp & Hf & _)%append_batch_ok. split; [done|]. exists []. by rewrite app_nil_r.
Qed.

Lemma persists_record env envs rs write :
  (forall s, persist_frame s (write s)) ->
  persists env envs (record env envs (envs ++ map (fun r => wrap env (ClaimRepo.released_event r)) rs) write).
Proof.
  intros Hw s out s' [Hp Hf]%record_ok; [|done]. rewrite Hp, map_app. split; [done|].
  eexists. split; [done|]. apply released_quiet.
Qed.

Lemma frame_set_run_claims t s : persist_frame s (set_run_claims t s).
Proof. by destruct s. Qed.

Lemma persists_run_terminal env agent adm envs :
  persists env envs (r ← gets (fun s => RunClaims.record_run_terminal (wrap env) (run_claims s) agent adm envs);
                 r ← lift r; record env envs r.1 (set_run_claims r.2)).
Proof.
  intros s out s' (r & s1 & [-> ->]%gets_ok & H)%bind_ok.
  apply bind_ok in H as (r & s2 & [Hr ->]%lift_ok & H). revert Hr. unfold RunClaims.record_run_terminal.
  destruct (head _) as [[[[run status] ended] outcome]|]; [|done].
  destruct (RunRepo.get _ _); [|done]. destruct (negb _); [done|].
  intros (u & _ & Hr)%rbind_ok. destruct (ClaimRepo.delete_rows _ _) as [rel cl].
  injection Hr as <-. by apply persists_record in H; [|apply frame_set_run_claims].
Qed.

Lemma persists_lifecycle env envs :
  persists env envs (r ← gets (fun s => ClaimRepo.record_task_lifecycle (wrap env) (claims s) envs);
                 record env envs r.1 (fun s => s <| claims := r.2 |>)).
Proof.
  intros s out s' (r & s1 & [-> ->]%gets_ok & H)%bind_ok. unfold ClaimRepo.record_task_lifecycle in H.
  destruct (ClaimRepo.cleanup _ _) as [rel cl]. by apply persists_record in H; [|intros []].
Qed.

Lemma persists_plan_terminal env auth adm envs :
  persists env envs (r ← gets (fun s => RunClaims.record_plan_terminal (wrap env) (now env) (run_claims s)
                                      auth adm envs);
                 r ← lift r; record env envs r.1 (set_run_claims r.2)).
Proof.
  intros s out s' (r & s1 & [-> ->]%gets_ok & H)%bind_ok.
  apply bind_ok in H as (r & s2 & [Hr ->]%lift_ok & H). revert Hr. unfold RunClaims.record_plan_terminal.
  destruct (head _) as [[[[plan status] reason] ended]|]; [|done].
  destruct (match auth with Some _ => _ | None => _ end); [done|].
  destruct (RunClaims.end_runs _ _ _ _ _) as [rel rc]. intros [= <-].
  by apply persists_record in H; [|apply frame_set_run_claims].
Qed.

Lemma persists_started env owner envs :
  persists env envs (r ← gets (fun s => RunClaims.record_run_started (owners s) owner envs);
                 o ← lift r; record env envs envs (fun s => s <| owners := o |>)).
Proof.
  intros s out s' (r & s1 & [-> ->]%gets_ok & H)%bind_ok.
  apply bind_ok in H as (o & s2 & [_ ->]%lift_ok & H).
  rewrite <- (app_nil_r envs) in H at 2. by apply (persists_record env envs []) in H; [|intros []].
Qed.

Lemma persist_ok env auth adm cmd envs : persists env envs (persist env auth adm cmd envs).
Proof.
  assert (Hgen : persists env envs
    (if existsb is_task_lifecycle envs then
       r ← gets (fun s => ClaimRepo.record_task_lifecycle (wrap env) (claims s) envs);
       record env envs r.1 (fun s => s <| claims := r.2 |>)
     else if is_plan_terminal cmd then
       r ← gets (fun s => RunClaims.record_plan_terminal (wrap env) (now env) (run_claims s) auth adm envs);
       r ← lift r;
       record env envs r.1 (set_run_claims r.2)
     else append_batch envs)).
  { destruct (existsb _ _); [apply persists_lifecycle|].
    destruct (is_plan_terminal cmd); [apply persists_plan_terminal|apply persists_append]. }
  unfold persist. destruct auth as [agent|]; [|by destruct cmd].
  destruct cmd; try exact Hgen; try apply persists_run_terminal. apply persists_started.
Qed.
Lemma persist_payload env auth adm cmd envs s out s' :
  persist env auth adm cmd envs s = (Ok out, s') ->
  persist_frame s s' /\
  exists extra, map Envelope.payload out = map Envelope.payload envs ++ extra /\ Forall untracked extra.
Proof.
  intros (Hf & extra & Hs & He)%persist_ok. split; [done|]. exists (map snd extra).
  split; [by apply said_payloads|]. apply Forall_map. eapply Forall_impl; [exact He|].
  intros p [_ H]. by apply release_untracked.
Qed.

(** *** The automatic logs *)
Definition holds_tasks {A} (m : M A) : Prop :=
  forall s, keyed (tasks s) ->
    keyed (tasks (m s).2) /\ forall id, view (tasks (m s).2) id = view (tasks s) id.

Lemma holds_ret {A} (a : A) : holds_tasks (mret a).
Proof. by intros s Hk. Qed.
Lemma holds_bind {A B} (m : M A) (f : A -> M B) :
  holds_tasks m -> (forall a, holds_tasks (f a)) -> holds_tasks (m ≫= f).
Proof.
  intros Hm Hf s Hk. destruct (Hm s Hk) as [Hk1 Hv1]. unfold mbind, M_bind.
  destruct (m s) as [[a|e] s1]; cbn in *; [|done]. destruct (Hf a s1 Hk1) as [Hk2 Hv2].
  split; [done|]. intros id. by rewrite Hv2.
Qed.
Lemma holds_steady {A} (m : M A) : (forall s, tasks (m s).2 = tasks s) -> holds_tasks m.
Proof. intros H s Hk. by rewrite H. Qed.
Lemma holds_put {A} (f : St -> Result CoreError A) g :
  (forall a s, f s = Ok a -> keyed (tasks s) ->
     keyed (tasks (g a s)) /\ forall id, view (tasks (g a s)) id = view (tasks s) id) ->
  holds_tasks (put f g).
Proof.
  intros H s Hk. unfold put, gets, lift, modify, mbind, M_bind. destruct (f s) as [a|e] eqn:E; cbn; [|done].
  by apply H.
Qed.

Lemma holds_append es : holds_tasks (append_batch es).
Proof. apply holds_steady. intros s. unfold append_batch. by destruct (EventStore.append_batch (log s) es). Qed.
Lemma holds_project disp env e : untracked (Envelope.payload e) -> holds_tasks (project_event disp env e).
Proof.
  intros Hu. unfold project_event. apply holds_bind; [|intros _].
  { unfold project_tasks. apply holds_bind; [by apply holds_steady|intros fid].
    apply holds_put. intros t s Ht Hk. cbn. split; [by eapply project_keeps_keyed|]. intros id.
    rewrite (apply_event_track _ _ _ _ _ id Hk (untracked_ids _ Hu) Ht). by apply track_untracked. }
  apply holds_bind; [apply holds_steady, feed_tasks|intros _].
  apply holds_bind; [intros s Hk; by split; [apply plans_tasks|intros id; apply plans_tasks]|intros _].
  apply holds_bind; [apply holds_steady, agents_tasks|intros _]. apply holds_steady, registries_tasks.
Qed.
Lemma holds_project_all disp env es :
  Forall untracked (map Envelope.payload es) -> holds_tasks (project_all disp env es).
Proof.
  induction es as [|e es IH]; cbn [project_all map]; [intros _; apply holds_ret|].
  intros [He Hes]%Forall_cons. apply holds_bind; [by apply holds_project|intros _]. by apply IH.
Qed.
Lemma holds_signal disp env who e : untracked e -> holds_tasks (persist_signal_event_as disp env who e).
Proof.
  intros He. unfold persist_signal_event_as. apply holds_bind; [by apply holds_steady|intros i].
  intros s Hk. unfold mbind, M_bind.
  pose proof (holds_append [Envelope.new i (now env) who e] s Hk) as H.
  destruct (append_batch [Envelope.new i (now env) who e] s) as [[out|err] s2] eqn:E; [|exact H]. clear H.
  apply append_batch_ok in E as (Hp & Hf & _). assert (Ht : tasks s2 = tasks s) by by rewrite Hf.
  rewrite <- Ht in Hk |- *. apply holds_project_all; [|done]. rewrite <- said_payload, Hp. cbn. by repeat constructor.
Qed.
Lemma holds_logs disp env es : holds_tasks (auto_append_logs disp env es).
Proof.
  induction es as [|e es IH]; cbn [auto_append_logs]; [apply holds_ret|].
  apply holds_bind; [|intros line; apply holds_bind; [|intros _; exact IH]].
  - unfold render_log_line. apply holds_steady. intros s. by destruct (needs_id e).
  - destruct line as [[[p k] text]|]; [|apply holds_ret]. unfold append_log.
    apply holds_bind; [by apply holds_steady|intros [d|]]; [|apply holds_ret].
    intros s Hk. unfold attempt. cbn. by apply holds_signal.
Qed.

(** *** The gate and the links of created tasks *)
Lemma audit_fired up env c d r os : Forall is_audit (fired up env c d r os).
Proof.
  unfold fired, LifecycleGate.rule_fired_events. apply Forall_forall.
  intros e (o & _ & H)%list_elem_of_omap. case_match; [by injection H as <-|done].
Qed.
Lemma audit_metrics disp env c obs : Forall is_audit (map (observation_event disp env c) obs).
Proof. apply Forall_map, Forall_forall. done. Qed.

Definition gl_audit (gl : GateLog) : Prop :=
  Forall is_audit (rule_audit gl) /\ Forall is_audit (rule_metrics gl).

Lemma run_checks_ok disp up env g ov acc checks s gl s' :
  gl_audit acc -> run_checks disp up env g ov acc checks s = (Ok gl, s') ->
  gl_audit gl /\ s' = s.
Proof.
  revert acc. induction checks as [|c checks IH]; intros acc [Ha Hm]; cbn [run_checks].
  { by intros [-> ->]%ret_ok. }
  intros (r & s1 & [-> ->]%gets_ok & H)%bind_ok.
  apply bind_ok in H as ([d obs] & s2 & [_ ->]%lift_ok & H).
  assert (Hm' : Forall is_audit (rule_metrics acc ++ map (observation_event disp env c) obs)).
  { apply Forall_app. split; [done|apply audit_metrics]. }
  destruct d; [by apply IH in H|apply IH in H; [done|]|apply IH in H; [done|]|].
  - split; cbn; [|done]. apply Forall_app. split; [done|apply audit_fired].
  - split; cbn; [|done]. rewrite !Forall_app. split; [done|]. split; apply audit_fired.
  - by apply bind_ok in H as (? & ? & _ & []%fail_ok).
Qed.

Lemma gate_phase_ok disp up env gate cmd es s gl s' :
  gate_phase disp up env gate cmd es s = (Ok gl, s') -> gl_audit gl /\ s' = s.
Proof.
  unfold gate_phase. destruct gate; [apply run_checks_ok; by split; constructor|].
  intros [-> ->]%ret_ok. by repeat constructor.
Qed.

Lemma bind_tasks_track a envs id v :
  tracked (map Envelope.payload (bind_tasks a envs)) id v = tracked (map Envelope.payload envs) id v.
Proof.
  destruct a as [a|]; [|done]. unfold bind_tasks, tracked. revert v.
  induction envs as [|e envs IH]; intros v; cbn; [done|]. rewrite IH. f_equal.
  by destruct (Envelope.payload e) eqn:E; cbn; rewrite ?E.
Qed.
Lemma bind_tasks_ids a envs :
  Forall ids_given (map Envelope.payload envs) ->
  Forall ids_given (map Envelope.payload (bind_tasks a envs)).
Proof.
  destruct a as [a|]; [|done]. unfold bind_tasks. rewrite !Forall_map. intros H. eapply Forall_impl; [exact H|].
  intros e. by destruct (Envelope.payload e) eqn:E; cbn; rewrite ?E.
Qed.
Lemma relink_track cmd envs id v :
  tracked (map Envelope.payload (relink cmd envs)) id v = tracked (map Envelope.payload envs) id v.
Proof. destruct cmd; try done; apply bind_tasks_track. Qed.
Lemma relink_ids cmd envs :
  Forall ids_given (map Envelope.payload envs) ->
  Forall ids_given (map Envelope.payload (relink cmd envs)).
Proof. destruct cmd; try done; apply bind_tasks_ids. Qed.

Lemma drain_untracked fuel s ov cands es :
  Reconcile.drain fuel s ov cands = Some es -> Forall untracked es.
Proof.
  revert ov cands es. induction fuel as [|fuel IH]; intros ov [|id cands] es; cbn; try done.
  1,2: by intros [= <-].
  destruct (Reconcile.to_close s ov id); [|apply IH].
  intros (es' & Hd & ->)%fmap_Some. constructor; [done|]. by eapply IH.
Qed.

Lemma reconcile_ok es s es' s' :
  reconcile es s = (Ok es', s') ->
  s' = s /\ exists closings, es' = es ++ closings /\ Forall untracked closings.
Proof.
  unfold reconcile. intros (r & s1 & [-> ->]%gets_ok & [H ->]%some_or_ok)%bind_ok.
  split; [done|]. unfold Reconcile.append_plan_reconciliations in H.
  destruct (Reconcile.collect s es) as [cands ov]. apply fmap_Some in H as (cl & Hd & ->).
  exists cl. split; [done|]. by eapply drain_untracked.
Qed.

(** *** The source events *)
Definition of_source (e : Event) : Prop :=
  match e with Event.SourceUpserted _ | Event.PlanSourceSet _ _ _ => True | _ => False end.
Lemma source_untracked e : of_source e -> untracked e.
Proof. by destruct e. Qed.

Lemma merge_nodes_sources t keep nodes merged merged' es ws :
  SourceChain.merge_nodes t keep merged nodes = Ok (merged', es, ws) -> Forall of_source es.
Proof.
  revert merged merged' es ws. induction nodes as [|n nodes IH]; intros merged merged' es ws; cbn; [by intros [= _ <- _]|].
  intros ([next kept] & _ & H)%rbind_ok.
  assert (Hn : Forall of_source (if bool_decide (SourceChain.lookup_node t merged (SourceNode.source_ref n) = Some next)
                                 then [] else [Event.SourceUpserted next])).
  { case_bool_decide; by repeat constructor. }
  destruct kept; [by injection H as _ <- _|]. apply rbind_ok in H as ([[m2 rest] ws2] & H2 & [= _ <- _]).
  apply Forall_app. split; [done|]. by eapply IH.
Qed.
Lemma link_sources_only t nodes keep es ws :
  SourceChain.link_sources t nodes keep = Ok (es, ws) -> Forall of_source es.
Proof.
  unfold SourceChain.link_sources. intros ([[m es'] ws'] & H%merge_nodes_sources & H2)%rbind_ok.
  destruct (SourceChain.link_up nodes); [by injection H2 as <- _|].
  by apply rbind_ok in H2 as (_ & _ & [= <- _]).
Qed.

(** Whatever a step returns satisfies [Q]. *)
Definition yields {A} (Q : A -> Prop) (m : M A) : Prop := forall s a s', m s = (Ok a, s') -> Q a.
Lemma yields_bind {A B} (m : M A) (f : A -> M B) (Q : B -> Prop) : (forall a, yields Q (f a)) -> yields Q (m ≫= f).
Proof. intros Hf s b s' (a & s1 & _ & H)%bind_ok. by eapply Hf. Qed.
Lemma yields_after {A B} (m : M A) (f : A -> M B) (P : A -> Prop) (Q : B -> Prop) :
  yields P m -> (forall a, P a -> yields Q (f a)) -> yields Q (m ≫= f).
Proof. intros Hm Hf s b s' (a & s1 & Ha & H)%bind_ok. by eapply Hf; [eapply Hm|]. Qed.
Lemma yields_ret {A} (a : A) (Q : A -> Prop) : Q a -> yields Q (mret a).
Proof. by intros H s b s' [-> _]%ret_ok. Qed.
Lemma yields_fail {A} e (Q : A -> Prop) : yields Q (fail e).
Proof. by intros s a s' ?%fail_ok. Qed.

Lemma yields_link nodes keep : yields (fun r => Forall of_source r.1) (SourceIntake.link_in_state nodes keep).
Proof.
  intros s [es ws] s'. unfold SourceIntake.link_in_state.
  intros (r & s1 & [-> ->]%gets_ok & [H _]%lift_ok)%bind_ok. by eapply link_sources_only.
Qed.
Lemma yields_source_events disp env plan nodes :
  yields (fun r => Forall of_source r.1) (SourceIntake.plan_source_events disp env plan nodes).
Proof.
  unfold SourceIntake.plan_source_events. destruct nodes; [|apply yields_link].
  destruct (NewPlan.source_ref plan); [|by apply yields_ret]. apply yields_bind. intros ?. apply yields_link.
Qed.

Lemma yields_resolve disp env plan :
  yields (fun r => Forall of_source r.2) (SourceIntake.resolve_plan_source disp env plan).
Proof.
  unfold SourceIntake.resolve_plan_source. apply yields_bind. intros [[p g] nodes].
  apply yields_bind. intros [p' ws]. eapply yields_after; [apply yields_source_events|].
  intros [es ws'] Hes. by apply yields_ret.
Qed.
Lemma yields_shape disp env plan :
  yields (fun r => Forall of_source r.2) (SourceIntake.shape_plan_source disp env plan).
Proof.
  unfold SourceIntake.shape_plan_source. apply yields_bind. intros [[p g] nodes].
  eapply yields_after; [apply yields_source_events|]. intros [es ws'] Hes. by apply yields_ret.
Qed.
Lemma yields_attach disp env b r up :
  yields (fun r => Forall of_source r.2) (SourceIntake.attach_upstream disp env b r up).
Proof.
  unfold SourceIntake.attach_upstream. do 5 (apply yields_bind; intros ?).
  eapply yields_after; [apply yields_link|]. intros [es ws'] Hes. by apply yields_ret.
Qed.
Lemma yields_extend disp env p r n up :
  yields (fun r => Forall of_source r.2) (SourceIntake.extend_source disp env p r n up).
Proof.
  unfold SourceIntake.extend_source. destruct p as [id|], r as [r|]; try apply yields_fail.
  - apply yields_bind. intros plan. apply yields_bind. intros pl.
    destruct (Plan.source_ref pl), n; try apply yields_fail; [apply yields_attach|].
    unfold SourceIntake.first_source. do 5 (apply yields_bind; intros ?).
    eapply yields_after; [apply yields_link|]. intros [es ws'] Hes. apply yields_ret, Forall_app. cbn in *.
    split; [done|]. by repeat constructor.
  - do 4 (apply yields_bind; intros ?). apply yields_attach.
Qed.

(** The commands that differ in the plan they carry only. *)
Definition same_but_plan (a b : Command) : Prop :=
  match a, b with
  | MaterializePlan _ ts None, MaterializePlan _ ts' None => ts' = ts
  | CreatePlan _ k, CreatePlan _ k' => k' = k
  | _, _ => b = a
  end.
Lemma same_but_plan_refl cmd : same_but_plan cmd cmd.
Proof. by destruct cmd; cbn; try destruct plan_id. Qed.
Lemma source_phase_ok disp env cmd :
  yields (fun r => same_but_plan cmd r.1.1 /\ Forall of_source r.2) (source_phase disp env cmd).
Proof.
  assert (Hsame : yields (fun r => same_but_plan cmd r.1.1 /\ Forall of_source r.2)
                    (mret (cmd, [], []) : M (Command * list LifecycleGate.MutationWarning * list Event))).
  { apply yields_ret. split; [apply same_but_plan_refl|constructor]. }
  destruct cmd; try exact Hsame; cbn [source_phase].
  - destruct external_ref; (eapply yields_after; [first [apply yields_resolve|apply yields_shape]|]);
      intros [[np ws] es] Hes; by apply yields_ret.
  - destruct plan_id; [exact Hsame|]. eapply yields_after; [apply yields_resolve|].
    intros [[np ws] es] Hes. apply yields_bind. intros []. by apply yields_ret.
  - eapply yields_after; [apply yields_extend|]. intros [ws es] Hes. by apply yields_ret.
Qed.

(** The batch of a command: the events of its arm, from a state that has the same
    tables, among events that leave tasks alone. *)
Definition batch_of (disp : N -> Str) (env : Env) (cmd cmd' : Command) (s s' : St) (events : list Event) : Prop :=
  exists s0 es, same_but_plan cmd cmd' /\ frame s s0 /\ relations s0 = relations s /\
    build_events disp env cmd' s0 = (Ok es, s') /\ frame s0 s' /\
    (forall id v, tracked events id v = tracked es id v) /\
    (Forall ids_given es -> Forall ids_given events).

Lemma attribute_track auth id v e : track id v (attribute auth e) = track id v e.
Proof. by destruct e. Qed.
Lemma attributed auth es id v : tracked (map (attribute auth) es) id v = tracked es id v.
Proof.
  unfold tracked. revert v. induction es as [|e es IH]; intros v; cbn; [done|]. by rewrite attribute_track, IH.
Qed.
Lemma attribute_ids auth e : ids_given e -> ids_given (attribute auth e).
Proof. by destruct e. Qed.
Lemma with_source_track cmd src es id v :
  Forall of_source src -> tracked (with_source cmd src es) id v = tracked es id v.
Proof.
  intros Hs. unfold with_source. destruct (_ || _); [|done]. rewrite tracked_app, (tracked_untracked src); [done|].
  eapply Forall_impl; [exact Hs|apply source_untracked].
Qed.
Lemma with_source_ids cmd src es :
  Forall of_source src -> Forall ids_given es -> Forall ids_given (with_source cmd src es).
Proof.
  intros Hs He. unfold with_source. destruct (_ || _); [|done]. apply Forall_app. split; [|done].
  eapply Forall_impl; [exact Hs|]. intros e H. by apply untracked_ids, source_untracked.
Qed.

Lemma command_events_ok disp env auth cmd s cmd' ws events s' :
  command_events disp env auth cmd s = (Ok (cmd', ws, events), s') -> batch_of disp env cmd cmd' s s' events.
Proof.
  unfold command_events. intros ([[c w] src] & s0 & Hs & H)%bind_ok.
  apply bind_ok in H as (es & s1 & Hb & H). apply bind_ok in H as (es' & s2 & Hr & [[= -> -> ->] ->]%ret_ok).
  pose proof (source_phase_ok _ _ _ _ _ _ Hs) as [Hsame Hsrc]. cbn in *.
  apply reconcile_ok in Hr as (-> & cl & -> & Hcl). exists s0, es. split; [done|].
  split; [eapply framed_ok; [apply BuildFrame.source_framed|exact Hs]|].
  split; [by pose proof (SourceSteady.source_steady disp env cmd s) as Hst; rewrite Hs in Hst|]. split; [done|].
  split; [eapply framed_ok; [apply BuildFrame.build_framed|exact Hb]|]. split.
  - intros id v. rewrite tracked_app, (tracked_untracked cl) by done. by rewrite attributed, with_source_track.
  - intros Hids. apply Forall_app. split; [|eapply Forall_impl; [exact Hcl|apply untracked_ids]].
    apply Forall_map. eapply Forall_impl; [by apply with_source_ids|]. intros e. apply attribute_ids.
Qed.

Lemma commit_track disp up env gate auth adm cmd ws events s out s' :
  keyed (tasks s) -> Forall ids_given events ->
  commit disp up env gate auth adm cmd ws events s = (Ok out, s') ->
  keyed (tasks s') /\ forall id, view (tasks s') id = tracked events id (view (tasks s) id).
Proof.
  intros Hk Hids. unfold commit. destruct events as [|e0 es0] eqn:E; [by intros [_ ->]%ret_ok|].
  rewrite <- E in *. clear e0 es0 E. intros (gl & s2 & [Hgl ->]%gate_phase_ok & H)%bind_ok.
  assert (Ha : Forall untracked (rule_audit gl)) by (eapply Forall_impl; [apply Hgl|apply audit_untracked]).
  assert (Hm : Forall untracked (rule_metrics gl)) by (eapply Forall_impl; [apply Hgl|apply audit_untracked]).
  apply bind_ok in H as (envs & s3 & (He & Hf3 & _)%envelopes_of_ok & H).
  apply bind_ok in H as (persisted & s4 & Hp & H).
  apply bind_ok in H as ([] & s5 & Hproj & H). apply bind_ok in H as ([] & s6 & Hlogs & [_ ->]%ret_ok).
  destruct (persist_payload _ _ _ _ _ _ _ _ Hp) as (Hf4 & extra & Hpay & Hextra).
  assert (Ht4 : tasks s4 = tasks s) by by rewrite Hf4, Hf3.
  destruct (project_all_tasks disp env persisted s4 s5) as [Hk' Hv]; [by rewrite Ht4| |done|].
  - rewrite Hpay. apply Forall_app. split; [|by eapply Forall_impl; [eassumption|apply untracked_ids]].
    apply relink_ids. rewrite He, !Forall_app.
    repeat split; try done; by eapply Forall_impl; [eassumption|apply untracked_ids].
  - destruct (holds_logs disp env persisted s5 Hk') as [Hk6 Hv6]. rewrite Hlogs in Hk6, Hv6. cbn in *.
    split; [done|]. intros id. rewrite Hv6, Hv, Hpay, tracked_app, (tracked_untracked extra) by done.
    rewrite relink_track, He, !tracked_app, Ht4.
    by rewrite !(tracked_untracked (rule_audit gl)), !(tracked_untracked (rule_metrics gl)) by done.
Qed.

Lemma completion_quiet auth adm cmd s b s' : completion_phase auth adm cmd s = (Ok b, s') -> s' = s.
Proof.
  unfold completion_phase, RunCommands.is_completed_run_retry, RunCommands.ensure_run_completion_owner.
  destruct cmd; try by intros [_ ->]%ret_ok. intros (r & s2 & [_ ->]%gets_ok & H)%bind_ok.
  destruct r; [by apply ret_ok in H as [_ ->]|]. apply bind_ok in H as ([] & s3 & H & [_ ->]%ret_ok).
  destruct auth; [|by apply ret_ok in H as [_ ->]]. apply bind_ok in H as (act & s4 & [_ ->]%gets_ok & H).
  destruct (negb act); [by apply ret_ok in H as [_ ->]|].
  apply bind_ok in H as (o & s5 & [_ ->]%gets_ok & H). destruct adm; [by apply ret_ok in H as [_ ->]|].
  destruct o; [by apply guard_ok in H as [_ ->]|by apply fail_ok in H].
Qed.

(** A dispatched command moves every task as the events of its arm say, from
    the tables of the state before. *)
Lemma dispatch_track disp up env gate auth adm cmd s out s' :
  keyed (tasks s) ->
  handle_with_run_owner disp up env gate auth adm cmd s = (Ok out, s') ->
  s' = s \/
  exists cmd' s0 es s1, same_but_plan cmd cmd' /\ frame s s0 /\ relations s0 = relations s /\
    build_events disp (pinned auth cmd env) cmd' s0 = (Ok es, s1) /\
    (Forall ids_given es -> keyed (tasks s') /\
       forall id, view (tasks s') id = tracked es id (view (tasks s) id)).
Proof.
  intros Hk. unfold handle_with_run_owner, dispatch_as. set (env' := pinned auth cmd env).
  intros (answered & s1 & Hc & H)%bind_ok.
  apply completion_quiet in Hc as ->. destruct answered; [apply ret_ok in H as [_ ->]; by left|]. right.
  apply bind_ok in H as ([[c ws] events] & s1 & He & H).
  apply command_events_ok in He as (s0 & es & Hsame & Hf0 & Hrel & Hb & Hf1 & Ht & Hids).
  exists c, s0, es, s1. do 4 (split; [done|]). intros Hes.
  assert (Hts : tasks s1 = tasks s) by (by rewrite (frame_tasks _ _ Hf1), (frame_tasks _ _ Hf0)).
  destruct (commit_track _ _ _ _ _ _ _ _ _ _ _ _ (eq_ind_r keyed Hk Hts) (Hids Hes) H) as [Hk' Hv].
  split; [done|]. intros id. by rewrite Hv, Ht, Hts.
Qed.
End BatchFacts.
