(* ===== verification/TaskLifecycle.v ===== *)
(** * Invariants of tasks under every command

    The rules that bound the events a command emits ([emits]), and the
    guarantees about tasks that hold whatever command is dispatched. *)

From S2P Require Import Prelude Shared TaskModel PlanModel RegistryModel Events EventStore TaskStore RelationStore PlanStore RunStore ClaimStore LeaseStore DocumentStore ProjectStore Handler TaskCommands PlanCommands DocumentCommands Reconcile Gate Dispatch HandlerFacts Projection.

Module Emits.
  Import Handler HandlerFacts.

(** Every event of a successful build satisfies [P], when the build starts from
    the task table [t] with at least [d] ids drawn. *)
Definition emits (t : TaskTable) (d : nat) (P : Event -> Prop) (m : M (list Event)) : Prop :=
  forall s es s', tasks s = t -> (d <= drawn s)%nat -> m s = (Ok es, s') -> Forall P es.

(** A value a step of the build may return. *)
Definition returns {A} (t : TaskTable) (d : nat) (Q : A -> Prop) (m : M A) : Prop :=
  forall s a s', tasks s = t -> (d <= drawn s)%nat -> m s = (Ok a, s') -> Q a.

Section Rules.
Context (t : TaskTable) (d : nat) (P : Event -> Prop).

Lemma emits_ret es : Forall P es -> emits t d P (mret es).
Proof. by intros H s es' s' _ _ [-> _]%ret_ok. Qed.
Lemma emits_fail e : emits t d P (fail e).
Proof. by intros s es s' _ _ ?%fail_ok. Qed.

Lemma frame_start s s' : frame s s' -> tasks s = t -> (d <= drawn s)%nat ->
  tasks s' = t /\ (d <= drawn s')%nat.
Proof.
  intros Hf Ht Hd. split; [by rewrite (frame_tasks _ _ Hf)|].
  destruct Hf as (_ & Hle & _). exact (Nat.le_trans _ _ _ Hd Hle).
Qed.

Lemma emits_bind_spec {A} (Q : A -> Prop) (m : M A) f :
  framed m -> returns t d Q m -> (forall a, Q a -> emits t d P (f a)) -> emits t d P (m ≫= f).
Proof.
  intros Hm Hq Hf s es s' Ht Hd (a & s1 & H1 & H2)%bind_ok.
  destruct (frame_start _ _ (framed_ok _ _ _ _ Hm H1) Ht Hd) as [Ht1 Hd1].
  eapply (Hf a); [|exact Ht1|exact Hd1|exact H2]. exact (Hq _ _ _ Ht Hd H1).
Qed.
Lemma emits_bind {A} (m : M A) f :
  framed m -> (forall a, emits t d P (f a)) -> emits t d P (m ≫= f).
Proof. intros Hm Hf. apply (emits_bind_spec (fun _ => True)); [done|intros ? ? ? _ _ _; exact I|intros a _; apply Hf]. Qed.
Lemma emits_bind_events (m : M (list Event)) f :
  framed m -> emits t d P m -> (forall es, Forall P es -> emits t d P (f es)) ->
  emits t d P (m ≫= f).
Proof. intros Hm He Hf. by apply (emits_bind_spec (Forall P)). Qed.
Lemma emits_when b m : emits t d P m -> emits t d P (when_ b m).
Proof. destruct b; [done|]. intros _. apply emits_ret. constructor. Qed.
Lemma emits_concat {A} (f : A -> M (list Event)) l :
  (forall x, framed (f x)) -> (forall x, x ∈ l -> emits t d P (f x)) -> emits t d P (concat_mapM f l).
Proof.
  intros Hfr He. induction l as [|x l IH]; cbn [concat_mapM]; [apply emits_ret; constructor|].
  apply emits_bind_events; [apply Hfr|apply He, list_elem_of_here|intros es Hes].
  apply emits_bind_events; [by apply framed_concat|apply IH; intros y Hy; by apply He, list_elem_of_further|].
  intros rest Hrest. by apply emits_ret, Forall_app.
Qed.
Lemma emits_weaken (P' : Event -> Prop) m :
  (forall e, P' e -> P e) -> emits t d P' m -> emits t d P m.
Proof. intros Hi He s es s' Ht Hd H. eapply Forall_impl; [by eapply He|done]. Qed.
End Rules.

Lemma emits_run P m s es s' :
  emits (tasks s) (drawn s) P m -> m s = (Ok es, s') -> Forall P es.
Proof. intros H Hm. by eapply H. Qed.
Lemma returns_run {A} (Q : A -> Prop) m s a s' :
  returns (tasks s) (drawn s) Q m -> m s = (Ok a, s') -> Q a.
Proof. intros H Hm. by eapply H. Qed.

Lemma returns_ret {A} t d (Q : A -> Prop) a : Q a -> returns t d Q (mret a).
Proof. by intros H s b s' _ _ [-> _]%ret_ok. Qed.
Lemma returns_any {A} t d (m : M A) : returns t d (fun _ => True) m.
Proof. by intros s a s' _ _ _. Qed.
Lemma returns_bind {A B} t d (R : A -> Prop) (Q : B -> Prop) (m : M A) f :
  framed m -> returns t d R m -> (forall a, R a -> returns t d Q (f a)) -> returns t d Q (m ≫= f).
Proof.
  intros Hm Hq Hf s b s' Ht Hd (a & s1 & H1 & H2)%bind_ok.
  destruct (frame_start t d _ _ (framed_ok _ _ _ _ Hm H1) Ht Hd) as [Ht1 Hd1].
  eapply (Hf a); [|exact Ht1|exact Hd1|exact H2]. exact (Hq _ _ _ Ht Hd H1).
Qed.
End Emits.

Create HintDb emits.

(** Bound a list of events constructor by constructor. *)
Ltac solve_events :=
  repeat first
  [ assumption
  | match goal with
    | |- Forall _ [] => apply Forall_nil; exact I
    | |- Forall _ (_ :: _) => apply Forall_cons; split
    | |- Forall _ (_ ++ _) => apply Forall_app; split
    | |- Forall _ (map _ _) => apply Forall_map, Forall_forall; intros ? _
    | |- Forall _ (match ?x with _ => _ end) => destruct x
    end
  | solve [eauto with emits]
  | exact I ].

Ltac emits_step :=
  first
  [ solve [eauto with emits]
  | match goal with
    | |- Emits.emits _ _ _ (mbind (A := list Event) _ _) =>
        apply Emits.emits_bind_events; [solve_framed| |intros ? ?]
    | |- Emits.emits _ _ _ (mbind _ _) => apply Emits.emits_bind; [solve_framed|intros ?]
    | |- Emits.emits _ _ _ (mret _) => apply Emits.emits_ret; solve_events
    | |- Emits.emits _ _ _ (Handler.fail _) => apply Emits.emits_fail
    | |- Emits.emits _ _ _ (Handler.when_ _ _) => apply Emits.emits_when
    | |- Emits.emits _ _ _ (Handler.concat_mapM _ _) =>
        apply Emits.emits_concat; [intros; solve_framed|intros ? ?]
    | |- Emits.emits _ _ _ (if ?b then _ else _) => destruct b
    | |- Emits.emits _ _ _ (match ?x with _ => _ end) => destruct x
    end ].
Ltac solve_emits := repeat emits_step.

(** ** Steps that leave tasks alone *)
Module Quiet.
  Import Handler HandlerFacts BuildFrame Emits TaskView.

Section Steps.
Context (env : Env) (t : TaskTable) (d : nat).

Abbreviation quiet m := (emits t d untracked m).

Lemma quiet_comment id body kind : quiet (comment_events env id body kind).
Proof. unfold comment_events. solve_emits. Qed.
Lemma quiet_docs id to : quiet (close_task_documents env id to).
Proof. unfold close_task_documents. solve_emits. Qed.
Lemma quiet_migrate outgoing : quiet (migrate_edges env outgoing).
Proof. induction outgoing; cbn [migrate_edges]; solve_emits. Qed.
Lemma quiet_cascade id : quiet (downstream_cascade env id).
Proof.
  unfold downstream_cascade. apply emits_bind; [solve_framed|intros ?].
  apply emits_bind; [solve_framed|intros ?].
  apply emits_bind_events; [solve_framed|apply quiet_migrate|intros ? ?]. solve_emits.
Qed.
Lemma quiet_note id body : quiet (task_comment_events env id body).
Proof. apply quiet_comment. Qed.
Lemma quiet_redelivered id k n : quiet (redelivered_create_events env id k n).
Proof. apply quiet_comment. Qed.
Lemma quiet_unlink rels : quiet (TaskCommands.unlink_all env rels).
Proof. induction rels; cbn [TaskCommands.unlink_all]; solve_emits. Qed.
Lemma quiet_link from to k : quiet (TaskCommands.link_tasks env from to k).
Proof.
  intros s es s' _ _. unfold TaskCommands.link_tasks. intros (? & s1 & _ & H)%bind_ok.
  apply bind_ok in H as (? & s2 & _ & H). apply bind_ok in H as (? & s3 & _ & H).
  apply bind_ok in H as (? & s4 & _ & [-> _]%ret_ok). by repeat constructor.
Qed.
Lemma untracked_add_at plan first ids : Forall untracked (TaskCommands.add_at plan first ids).
Proof.
  unfold TaskCommands.add_at. apply Forall_forall.
  by intros e (i & id & -> & _)%elem_of_lookup_imap_1.
Qed.
Lemma untracked_abort plan reason rs : Forall untracked (PlanCommands.abort_events env plan reason rs).
Proof. unfold PlanCommands.abort_events. induction rs; cbn; [constructor|]. by repeat constructor. Qed.
End Steps.
#[export] Hint Resolve quiet_comment quiet_docs quiet_migrate quiet_cascade quiet_note quiet_redelivered
  quiet_unlink quiet_link untracked_add_at untracked_abort : emits.

(** The commands that may touch a task's status, position or existence. *)
Definition loud (cmd : Dispatch.Command) : bool :=
  match cmd with
  | Dispatch.CreateTask _ | Dispatch.UpdateTask _ _ | Dispatch.CompleteTask _ _
  | Dispatch.DeleteTask _ | Dispatch.SetStatus _ _ _ _ _ | Dispatch.AdvancePipeline _ _
  | Dispatch.ClosePipelineStage _ _ _ _ | Dispatch.BulkSetStatus _ _ | Dispatch.SplitTask _ _
  | Dispatch.MaterializePlan _ _ _ | Dispatch.AmendPlanTask _ _ _ => true
  | _ => false
  end.

Lemma quiet_build disp env t d cmd :
  loud cmd = false -> emits t d untracked (Dispatch.build_events disp env cmd).
Proof.
  destruct cmd; try done; intros _; cbn [Dispatch.build_events]; autounfold with commands; solve_emits.
Qed.

(** A transition is one status change followed by events that leave tasks
    alone; none at all when the status is the same. *)
Lemma transition_shape env x to s es s' :
  status_transition_events env x to s = (Ok es, s') ->
  if bool_decide (Task.status x = to) then es = []
  else exists rest, es = Event.TaskStatusChanged (Task.id x) (Task.status x) to :: rest /\
         Forall untracked rest.
Proof.
  unfold status_transition_events. case_bool_decide; [by intros [-> _]%ret_ok|].
  intros ([] & s1 & _ & H1)%bind_ok. apply bind_ok in H1 as (cas & s2 & H2 & H1).
  apply bind_ok in H1 as (docs & s3 & H3 & [-> _]%ret_ok). eexists. split; [done|].
  apply Forall_app. split.
  - unfold lifecycle_events. by repeat case_match; repeat constructor.
  - apply Forall_app. split.
    + eapply emits_run; [|exact H2]. apply emits_when, quiet_cascade.
    + eapply emits_run; [|exact H3]. apply emits_when, quiet_docs.
Qed.
End Quiet.

(** ** A managed task's status follows its pipeline *)
Module PipelineSpec.
  Import Handler TaskView.

(** The status of a task with a pipeline position is the one its position
    gives it, or cancelled. *)
Definition coherent (v : View) : Prop :=
  match v with
  | Some (st, Some p) => st = Pipeline.canonical_status p \/ st = Cancelled
  | _ => True
  end.
Definition pipeline_ok (t : TaskTable) : Prop := forall id, coherent (view t id).

(** No task has an id that is still to be drawn. *)
Definition fresh_supply (env : Env) (s : St) : Prop :=
  forall n, (drawn s <= n)%nat -> TaskRepo.get (tasks s) (mkId (uuid_at env n)) = None.

Definition new_to (t : TaskTable) (n : NewTask) : Prop :=
  forall id, NewTask.id n = Some id -> TaskRepo.get t id = None.

(** Ids chosen by the caller are new. *)
Definition new_ids (t : TaskTable) (cmd : Dispatch.Command) : Prop :=
  match cmd with
  | Dispatch.CreateTask n => new_to t n
  | Dispatch.SplitTask _ ns | Dispatch.MaterializePlan _ ns _ => Forall (new_to t) ns
  | _ => True
  end.
(** And an amended field is a plan-owned one. *)
Definition admissible (t : TaskTable) (cmd : Dispatch.Command) : Prop :=
  match cmd with
  | Dispatch.CreateTask n => new_to t n
  | Dispatch.SplitTask _ ns | Dispatch.MaterializePlan _ ns _ => Forall (new_to t) ns
  | Dispatch.AmendPlanTask _ _ patch => TaskPatch.pipeline_position patch = None
  | _ => True
  end.

(** An event that may bring in tasks with new ids, amend fields other than the
    status and the position, or delete. *)
Definition gentle (t : TaskTable) (e : Event) : Prop :=
  match e with
  | Event.TaskCreated n => with_id n /\ new_to t n
  | Event.TaskSplitGenerated _ ns => Forall (fun n => with_id n /\ new_to t n) ns
  | Event.TaskUpdated _ patch =>
      TaskPatch.pipeline_position patch = None /\ TaskPatch.status patch = None
  | Event.TaskStatusChanged _ _ _ | Event.TaskCompleted _ _ _ => False
  | _ => True
  end.

(** An event that keeps the status of a managed task as it is or cancels it. *)
Definition lawful (t : TaskTable) (e : Event) : Prop :=
  let free id := TaskRepo.pipeline_position t id = None in
  match e with
  | Event.TaskCreated n => with_id n /\ forall id, NewTask.id n = Some id -> free id
  | Event.TaskSplitGenerated _ ns =>
      Forall (fun n => with_id n /\ forall id, NewTask.id n = Some id -> free id) ns
  | Event.TaskUpdated id patch =>
      TaskPatch.pipeline_position patch = None /\
      (TaskPatch.status patch = None \/ free id \/ TaskPatch.status patch = Some Cancelled)
  | Event.TaskStatusChanged id _ to => free id \/ to = Cancelled
  | Event.TaskCompleted id _ _ => free id
  | _ => True
  end.
End PipelineSpec.

Module PipelineFacts.
  Import Handler HandlerFacts BuildFrame Emits TaskRepo TaskTableSpec TaskView TaskViewFacts Quiet PipelineSpec.

(** The position of a task stays what it was, or is lost. *)
Definition held (p0 : option PipelinePosition) (v : View) : Prop :=
  coherent v /\ (v ≫= snd = None \/ v ≫= snd = p0).

Lemma lawful_ids t e : lawful t e -> ids_given e.
Proof.
  destruct e; try done; cbn; [by intros []|]. intros H. eapply Forall_impl; [exact H|].
  by intros n [].
Qed.
Lemma untracked_lawful t e : untracked e -> lawful t e.
Proof. by destruct e. Qed.

Lemma held_created p0 v n id :
  (NewTask.id n = Some id -> p0 = None) -> held p0 v -> held p0 (created n id v).
Proof.
  intros Hn [Hc Hp]. unfold created. case_bool_decide as H; [|done]. rewrite (Hn H) in *.
  assert (Hv : v ≫= snd = None) by (by destruct Hp). rewrite Hv. split; [done|by left].
Qed.

Lemma held_track t id v e :
  lawful t e -> held (TaskRepo.pipeline_position t id) v ->
  held (TaskRepo.pipeline_position t id) (track id v e).
Proof.
  intros Hl Hv. destruct e; try done; cbn [track lawful] in *.
  - apply held_created; [|done]. destruct Hl as [_ Hl]. apply Hl.
  - destruct Hl as [Hpp Hst]. case_bool_decide as Hi; [subst|done]. rewrite Hpp.
    destruct v as [[st p]|]; [|done]. cbn. destruct Hv as [Hc Hp]. split; [|done]. cbn in *.
    destruct p as [p|]; [|done]. destruct Hst as [->|[Hf| ->]]; [done| |by right].
    rewrite Hf in Hp. by destruct Hp.
  - case_bool_decide as Hi; [subst|done]. destruct v as [[st p]|]; [|done].
    destruct Hv as [Hc Hp]. split; [|done]. cbn in *. destruct p as [p|]; [|done].
    destruct Hl as [Hf| ->]; [|by right]. rewrite Hf in Hp. by destruct Hp.
  - case_bool_decide as Hi; [subst|done]. destruct v as [[st p]|]; [|done].
    destruct Hv as [Hc Hp]. split; [|done]. cbn in *. destruct p as [p|]; [|done].
    rewrite Hl in Hp. by destruct Hp.
  - case_bool_decide; [|done]. split; [done|by left].
  - revert v Hv. induction subtasks as [|n ns IH]; intros v Hv; cbn; [done|].
    apply Forall_cons in Hl as [[_ Hn] Hns]. apply IH; [done|]. apply held_created; [apply Hn|done].
Qed.

Lemma held_tracked t id v es :
  Forall (lawful t) es -> held (TaskRepo.pipeline_position t id) v ->
  held (TaskRepo.pipeline_position t id) (tracked es id v).
Proof.
  intros Hes. unfold tracked. revert v. induction Hes as [|e es He _ IH]; intros v Hv; cbn; [done|].
  apply IH. by apply held_track.
Qed.

Lemma held_start t id : pipeline_ok t -> held (TaskRepo.pipeline_position t id) (view t id).
Proof. intros H. split; [apply H|]. rewrite view_position. by right. Qed.

(** *** What the arms emit *)
Section Arms.
Context (env : Env) (t : TaskTable) (d : nat).

Lemma returns_direct id to :
  returns t d (fun _ => TaskRepo.pipeline_position t id = None \/ to = Cancelled)
    (ensure_direct_status_write id to).
Proof.
  intros s [] s' <- _ (p & s1 & [-> ->]%gets_ok & [Hg _]%guard_ok)%bind_ok.
  destruct (TaskRepo.pipeline_position (tasks s) id); cbn in Hg; [right; by bsplit|by left].
Qed.

Lemma lawful_transition x to :
  (TaskRepo.pipeline_position t (Task.id x) = None \/ to = Cancelled) ->
  emits t d (lawful t) (status_transition_events env x to).
Proof.
  intros Hl s es s' _ _ H%transition_shape. case_bool_decide; [by subst|].
  destruct H as (rest & -> & Hr). constructor; [exact Hl|].
  eapply Forall_impl; [exact Hr|apply untracked_lawful].
Qed.

Lemma lawful_emit x to : emits t d (lawful t) (emit_status_transition_events env x to).
Proof.
  unfold emit_status_transition_events. eapply emits_bind_spec; [solve_framed|apply returns_direct|].
  intros [] Hl. by apply lawful_transition.
Qed.

(** Created tasks: the id is the caller's or a drawn one. *)
Context (supply : forall n, (d <= n)%nat -> TaskRepo.get t (mkId (uuid_at env n)) = None).

Definition placed (n : NewTask) : Prop := with_id n /\ new_to t n.

Lemma returns_assign n : new_to t n -> returns t d placed (TaskCommands.assign_id env n).
Proof.
  intros Hn s n' s' Ht Hd. unfold TaskCommands.assign_id. destruct (NewTask.id n) as [id|] eqn:E.
  - intros [-> _]%ret_ok. split; [unfold with_id; by rewrite E|done].
  - intros (i & s1 & [-> ->]%fresh_ok & [-> _]%ret_ok)%bind_ok. split; [done|].
    intros i [= <-]. by apply supply.
Qed.

Lemma returns_prepare p ns :
  Forall (new_to t) ns -> returns t d (Forall placed) (TaskCommands.prepare_subtasks env p ns).
Proof.
  induction 1 as [|n ns Hn _ IH]; cbn [TaskCommands.prepare_subtasks]; [by apply returns_ret|].
  eapply returns_bind; [solve_framed|by apply returns_assign|intros st Hst].
  eapply returns_bind; [solve_framed|exact IH|intros rest Hrest]. apply returns_ret.
  constructor; [exact Hst|done].
Qed.

Lemma lawful_quiet m : emits t d untracked m -> emits t d (lawful t) m.
Proof. apply emits_weaken, untracked_lawful. Qed.
Lemma gentle_quiet m : emits t d untracked m -> emits t d (gentle t) m.
Proof. apply emits_weaken. by intros []. Qed.

Lemma gentle_create n : new_to t n -> emits t d (gentle t) (TaskCommands.create_task env n).
Proof.
  intros Hn. unfold TaskCommands.create_task. apply emits_bind; [solve_framed|intros _].
  apply emits_bind; [solve_framed|intros title]. apply emits_bind; [solve_framed|intros [[k x]|]].
  { apply gentle_quiet, quiet_redelivered. }
  eapply emits_bind_spec; [solve_framed|by apply returns_assign|intros n' Hn'].
  apply emits_bind; [solve_framed|intros ?]. apply emits_bind; [solve_framed|intros ?].
  apply emits_ret. constructor; [exact Hn'|constructor].
Qed.

Lemma gentle_split parent ns :
  Forall (new_to t) ns -> emits t d (gentle t) (TaskCommands.split_task env parent ns).
Proof.
  intros Hns. unfold TaskCommands.split_task. apply emits_bind; [solve_framed|intros _].
  apply emits_bind; [solve_framed|intros x].
  eapply emits_bind_spec; [solve_framed|by apply returns_prepare|intros prepared Hp].
  assert (Hev : Forall (gentle t) (Event.TaskSplitGenerated parent prepared
                                   :: map Event.TaskCreated prepared)).
  { constructor; [exact Hp|]. by apply Forall_map. }
  destruct (plan_only_intake env); [|by apply emits_ret].
  apply emits_bind; [solve_framed|intros pp]. apply emits_bind; [solve_framed|intros _].
  apply emits_bind_events; [unfold TaskCommands.attach_split; solve_framed| |].
  - apply gentle_quiet. unfold TaskCommands.attach_split. solve_emits.
  - intros es Hes. by apply emits_ret, Forall_app.
Qed.

Lemma gentle_materialize_one target keys n :
  new_to t n ->
  returns t d (fun r => Forall (gentle t) r.1.1) (PlanCommands.materialize_one env target keys n).
Proof.
  intros Hn. unfold PlanCommands.materialize_one.
  eapply returns_bind with (R := fun _ => True); [solve_framed|apply returns_any|intros title _].
  eapply returns_bind with (R := fun _ => True); [solve_framed|apply returns_any|intros keys' _].
  eapply returns_bind with (R := fun _ => True); [solve_framed|apply returns_any|intros [[k x]|] _].
  - eapply returns_bind with (R := fun _ => True); [solve_framed|apply returns_any|intros _ _].
    eapply returns_bind with (R := Forall (gentle t)); [solve_framed| |].
    + intros s es s' Ht Hd. apply (gentle_quiet _ (quiet_redelivered env t d _ _ _) s es s' Ht Hd).
    + intros es Hes. by apply returns_ret.
  - eapply returns_bind; [solve_framed|by apply returns_assign|intros n' Hn'].
    eapply returns_bind with (R := Forall (gentle t)); [solve_framed| |].
    + destruct (PlanCommands.mt_source_note target); [|by apply returns_ret].
      intros s es s' Ht Hd. apply (gentle_quiet _ (quiet_note env t d _ _) s es s' Ht Hd).
    + intros note Hnote. apply returns_ret. cbn. constructor; [exact Hn'|]. apply Forall_app.
      split; [|done]. destruct (PlanCommands.mt_git_context target); [|done].
      constructor; [|constructor]. cbn. auto.
Qed.

Lemma gentle_materialized target pos keys ns :
  Forall (new_to t) ns ->
  emits t d (gentle t) (PlanCommands.materialized_task_events env target pos keys ns).
Proof.
  intros Hns. revert pos keys. induction Hns as [|n ns Hn _ IH]; intros pos keys;
    cbn [PlanCommands.materialized_task_events]; [by apply emits_ret|].
  eapply emits_bind_spec; [solve_framed|by apply gentle_materialize_one|].
  intros [[es id] keys'] Hes. apply emits_bind_events; [solve_framed|apply IH|].
  intros rest Hrest. apply emits_ret, Forall_app. split; [exact Hes|]. apply Forall_app.
  split; [|done]. by destruct (negb _); repeat constructor.
Qed.

Lemma lawful_complete id note : emits t d (lawful t) (TaskCommands.complete_task env id note).
Proof.
  unfold TaskCommands.complete_task. apply emits_bind; [solve_framed|intros x].
  apply emits_bind; [solve_framed|intros _].
  eapply emits_bind_spec; [solve_framed|apply returns_direct|intros [] [Hfree|]; [|done]].
  apply emits_bind; [solve_framed|intros _].
  apply emits_bind_events; [solve_framed|apply lawful_quiet, quiet_cascade|intros cas Hcas].
  apply emits_bind_events; [solve_framed|apply lawful_quiet, quiet_docs|intros docs Hdocs].
  apply emits_ret, Forall_app. split; [|by apply Forall_app].
  constructor; [by left|]. constructor; [exact Hfree|]. by constructor.
Qed.

Lemma gentle_delete id : emits t d (gentle t) (TaskCommands.delete_task env id).
Proof.
  unfold TaskCommands.delete_task. do 5 (apply emits_bind; [solve_framed|intros ?]).
  apply emits_bind_events; [solve_framed|apply gentle_quiet, quiet_unlink|intros un Hun].
  apply emits_bind; [solve_framed|intros plans]. apply emits_ret. rewrite !Forall_app.
  split; [done|]. split; [by apply Forall_map, Forall_forall|].
  split; [by apply Forall_map, Forall_forall|by repeat constructor].
Qed.

Lemma lawful_set_status id to c : emits t d (lawful t) (TaskCommands.set_status env id to c).
Proof.
  unfold TaskCommands.set_status. do 2 (apply emits_bind; [solve_framed|intros ?]).
  apply emits_bind_events; [solve_framed|apply lawful_emit|intros es Hes].
  destruct a0 as [[body kind]|]; [|by apply emits_ret]. destruct es as [|e es]; [by apply emits_ret|].
  apply emits_bind_events; [solve_framed|apply lawful_quiet, quiet_comment|intros tail Htail].
  by apply emits_ret, Forall_app.
Qed.

Lemma lawful_bulk ids to : emits t d (lawful t) (TaskCommands.bulk_set_status env ids to).
Proof.
  unfold TaskCommands.bulk_set_status. do 2 (apply emits_bind; [solve_framed|intros ?]).
  apply emits_concat; [intros; solve_framed|intros x _; apply lawful_emit].
Qed.

Lemma gentle_materialize plan ns :
  Forall (new_to t) ns -> emits t d (gentle t) (PlanCommands.materialize_plan env plan ns).
Proof.
  intros Hns. unfold PlanCommands.materialize_plan. apply emits_bind; [solve_framed|intros _].
  apply emits_bind; [solve_framed|intros [id p]].
  apply emits_bind_events; [solve_framed|by apply gentle_materialized|intros es Hes].
  apply emits_ret. by constructor.
Qed.

Lemma gentle_append disp id plan ns :
  Forall (new_to t) ns -> emits t d (gentle t) (PlanCommands.append_to_plan disp env id plan ns).
Proof.
  intros Hns. unfold PlanCommands.append_to_plan, PlanCommands.append_materialized_tasks.
  do 3 (apply emits_bind; [solve_framed|intros ?]).
  apply emits_bind_events; [solve_framed| |intros reopened Hreopened].
  { apply gentle_quiet. destruct (Plan.status _); solve_emits. }
  do 3 (apply emits_bind; [solve_framed|intros ?]).
  apply emits_bind_events; [solve_framed|by apply gentle_materialized|intros es Hes].
  by apply emits_ret, Forall_app.
Qed.

(** An amended field is never the status. *)
Lemma emits_amend P plan task patch :
  (forall e, untracked e -> P e) -> (TaskPatch.status patch = None -> P (Event.TaskUpdated task patch)) ->
  emits t d P (PlanCommands.amend_plan_task plan task patch).
Proof.
  intros Hu Hp. unfold PlanCommands.amend_plan_task. apply emits_bind; [solve_framed|intros _].
  eapply (emits_bind_spec _ _ _ (fun _ => TaskPatch.status patch = None)); [solve_framed| |].
  { intros s [] s' _ _ [Hg _]%guard_ok. unfold PlanCommands.is_set in Hg.
    by destruct (TaskPatch.status patch). }
  intros [] Hst. do 6 (apply emits_bind; [solve_framed|intros ?]). apply emits_ret.
  constructor; [by apply Hu|]. constructor; [by apply Hp|]. constructor; [by apply Hu|constructor].
Qed.
Lemma gentle_amend plan task patch :
  TaskPatch.pipeline_position patch = None ->
  emits t d (gentle t) (PlanCommands.amend_plan_task plan task patch).
Proof. intros Hp. apply emits_amend; [by intros []|by split]. Qed.
End Arms.

Lemma free_new t id : TaskRepo.get t id = None -> TaskRepo.pipeline_position t id = None.
Proof. intros H. by rewrite view_position, (view_none _ _ H). Qed.

(** *** The arms that move the pipeline *)
Lemma update_shape env id patch s es s' :
  TaskCommands.update_task env id patch s = (Ok es, s') ->
  exists patch' x, es = [Event.TaskUpdated id patch'] /\ TaskRepo.get (tasks s) id = Some x /\
    TaskPatch.pipeline_position patch' = None /\ TaskPatch.status patch' = TaskPatch.status patch /\
    (TaskPatch.status patch' = None \/ TaskPatch.status patch' = Some (Task.status x) \/
     TaskRepo.pipeline_position (tasks s) id = None \/ TaskPatch.status patch' = Some Cancelled).
Proof.
  unfold TaskCommands.update_task. intros ([] & s1 & [_ ->]%guard_ok & H)%bind_ok.
  apply bind_ok in H as ([] & s1 & [_ ->]%guard_ok & H).
  apply bind_ok in H as (p1 & s1 & H1 & H). apply bind_ok in H as ([] & s2 & [Hp ->]%guard_ok & H).
  bsplit. apply bind_ok in H as (x & s3 & [Hx ->]%get_task_ok & H).
  apply bind_ok in H as ([] & s4 & H4 & [-> _]%ret_ok).
  assert (Hfr : tasks s1 = tasks s).
  { apply frame_tasks. eapply framed_ok; [|exact H1]. unfold TaskCommands.normalize_git. solve_framed. }
  assert (Hst : TaskPatch.status p1 = TaskPatch.status patch).
  { unfold TaskCommands.normalize_git in H1. repeat case_match;
      first [by apply ret_ok in H1 as [-> _]|by apply fail_ok in H1]. }
  rewrite Hfr in Hx. exists p1, x. repeat (split; [done|]). clear Hst.
  destruct (TaskPatch.status p1) as [to|]; [right|by left].
  case_bool_decide as Heq; [left; by subst|right].
  rewrite <- Hfr. destruct (returns_run _ _ _ _ _ (returns_direct _ _ id to) H4) as [| -> ]; auto.
Qed.

Lemma tracked_cons e es id v : tracked (e :: es) id v = tracked es id (track id v e).
Proof. done. Qed.

Lemma tracked_transition env x to s es s' id v :
  status_transition_events env x to s = (Ok es, s') ->
  tracked es id v =
    if bool_decide (Task.id x = id) && negb (bool_decide (Task.status x = to))
    then (fun w => (to, w.2)) <$> v else v.
Proof.
  intros H%transition_shape. case_bool_decide as Hst.
  - subst es. by rewrite andb_false_r.
  - destruct H as (rest & -> & Hr). rewrite tracked_cons, tracked_untracked by done. cbn.
    by rewrite andb_true_r.
Qed.

(** Moving to a position and its status. *)
Lemma advance_track env x p s es s' id v :
  advance_pipeline_events env x p s = (Ok es, s') ->
  (forall st q, id = Task.id x -> v = Some (st, q) -> st = Task.status x) ->
  coherent v -> coherent (tracked es id v).
Proof.
  unfold advance_pipeline_events. intros ([] & s1 & _ & H)%bind_ok Hv Hc.
  apply bind_ok in H as (tr & s2 & H2 & [-> _]%ret_ok).
  rewrite tracked_cons, (tracked_transition _ _ _ _ _ _ _ _ H2). cbn [track].
  case_bool_decide as Hid; [|exact Hc]. destruct v as [[st q]|]; [|by destruct (_ && _)].
  rewrite (Hv st q (eq_sym Hid) eq_refl). cbn. case_bool_decide as Hst; cbn; left; congruence.
Qed.

Lemma advance_ids env x p s es s' :
  advance_pipeline_events env x p s = (Ok es, s') -> Forall ids_given es.
Proof.
  unfold advance_pipeline_events. intros ([] & s1 & _ & H)%bind_ok.
  apply bind_ok in H as (tr & s2 & H2%transition_shape & [-> _]%ret_ok). constructor; [done|].
  case_bool_decide; [by subst|]. destruct H2 as (rest & -> & Hr). constructor; [done|].
  eapply Forall_impl; [exact Hr|apply untracked_ids].
Qed.

(** What a command's own events must do for the tasks to stay as they should. *)
Definition keeps (t : TaskTable) (es : list Event) : Prop :=
  Forall ids_given es /\ forall id, coherent (tracked es id (view t id)).

Lemma keeps_lawful t es : pipeline_ok t -> Forall (lawful t) es -> keeps t es.
Proof.
  intros Hp Hes. split; [eapply Forall_impl; [exact Hes|apply lawful_ids]|].
  intros id. apply (held_tracked t id _ es Hes), held_start, Hp.
Qed.

Lemma keeps_advance env x p s es s' t :
  advance_pipeline_events env x p s = (Ok es, s') -> keyed t ->
  TaskRepo.get t (Task.id x) = Some x -> pipeline_ok t -> keeps t es.
Proof.
  intros H Hk Hx Hp. split; [by eapply advance_ids|]. intros id.
  eapply advance_track; [exact H| |apply Hp]. intros st q -> Hv.
  destruct (view_status _ _ _ _ Hv) as [_ (y & Hy & <-)]. congruence.
Qed.

Lemma pipeline_task_ok id s x s' :
  pipeline_task id s = (Ok x, s') -> s' = s /\ TaskRepo.get (tasks s) id = Some x.
Proof.
  unfold pipeline_task. intros (y & s1 & [Hy ->]%get_task_ok & H)%bind_ok.
  by apply bind_ok in H as ([] & s2 & [_ ->]%guard_ok & [-> ->]%ret_ok).
Qed.

Lemma keeps_update env id patch s es s' :
  keyed (tasks s) -> pipeline_ok (tasks s) ->
  TaskCommands.update_task env id patch s = (Ok es, s') -> keeps (tasks s) es.
Proof.
  intros Hk Hp (patch' & x & -> & Hx & Hpp & _ & Hst)%update_shape. split; [by repeat constructor|].
  intros i. rewrite tracked_cons. cbn [track]. unfold tracked. cbn [foldl].
  case_bool_decide as Hi; [subst i|apply Hp]. rewrite Hpp. pose proof (Hp id) as Hc.
  destruct (view (tasks s) id) as [[st q]|] eqn:Ev; [|done]. cbn in *.
  destruct (view_status _ _ _ _ Ev) as [Hpos (y & Hy & Hys)].
  assert (y = x) as -> by congruence. destruct q as [q|]; [|done].
  destruct Hst as [->|[->|[Hf| ->]]]; [done|by rewrite Hys|congruence|by right].
Qed.

Lemma keeps_pipeline env id p s es s' :
  keyed (tasks s) -> pipeline_ok (tasks s) ->
  TaskCommands.advance_pipeline env id p s = (Ok es, s') -> keeps (tasks s) es.
Proof.
  intros Hk Hp. unfold TaskCommands.advance_pipeline. intros ([] & s1 & H1 & H)%bind_ok.
  apply validate_target_ok in H1 as ->.
  apply bind_ok in H as (x & s1 & [-> Hx]%pipeline_task_ok & H).
  apply bind_ok in H as (cur & s1 & [-> ->]%gets_ok & H).
  case_bool_decide; [apply ret_ok in H as [-> _]; split; [constructor|exact Hp]|].
  apply bind_ok in H as ([] & s1 & H1' & H). assert (s1 = s) as ->.
  { destruct (_ ≫= _); [by apply fail_ok in H1'|by apply ret_ok in H1' as [_ ->]]. }
  eapply keeps_advance; [exact H|done| |done]. by rewrite (Hk _ _ Hx).
Qed.

(** Closing an instance keeps the stage the pipeline is at. *)
Lemma close_instance_status p i r p' :
  Pipeline.close_instance p i = (r, p') -> Pipeline.canonical_status p' = Pipeline.canonical_status p.
Proof.
  unfold Pipeline.close_instance. repeat case_match; intros [= _ <-]; done.
Qed.

Lemma keeps_closed t id p p' es :
  TaskRepo.pipeline_position t id = Some p -> pipeline_ok t ->
  Pipeline.canonical_status p' = Pipeline.canonical_status p ->
  (forall i v, (forall st q, view t i = Some (st, q) -> exists q', v = Some (st, q')) ->
     coherent v -> coherent (tracked es i v)) ->
  Forall ids_given es -> keeps t (Event.TaskUpdated id (position_patch p') :: es).
Proof.
  intros Hpos Hp Hcs Hes Hids. split; [by constructor|]. intros i. rewrite tracked_cons. cbn [track].
  pose proof (Hp i) as Hc. apply Hes.
  - intros st q ->. case_bool_decide; cbn; eauto.
  - case_bool_decide as Hi; [subst i|done]. rewrite view_position in Hpos.
    destruct (view t id) as [[st q]|]; [|done]. cbn in *. subst q. by rewrite Hcs.
Qed.

Lemma keeps_close_stage env id i inst next s es s' :
  keyed (tasks s) -> pipeline_ok (tasks s) ->
  TaskCommands.close_pipeline_stage env id i inst next s = (Ok es, s') -> keeps (tasks s) es.
Proof.
  intros Hk Hp. unfold TaskCommands.close_pipeline_stage.
  intros (x & s1 & [-> Hx]%pipeline_task_ok & H)%bind_ok.
  apply bind_ok in H as (cur & s1 & [-> ->]%gets_ok & H).
  apply bind_ok in H as (p & s1 & [Hpos ->]%some_or_ok & H).
  apply bind_ok in H as ([] & s1 & [_ ->]%guard_ok & H). apply bind_ok in H as ([] & s2 & _ & H).
  destruct (Pipeline.close_instance p inst) as [r p'] eqn:Ec. apply close_instance_status in Ec.
  assert (Hhead : keeps (tasks s) [Event.TaskUpdated id (position_patch p')]).
  { by eapply keeps_closed; [exact Hpos|done|exact Ec| |constructor]. }
  destruct r as [[| |]|]; [| | |by apply fail_ok in H].
  - by apply ret_ok in H as [-> _].
  - by apply ret_ok in H as [-> _].
  - destruct next as [q|]; [|by apply ret_ok in H as [-> _]].
    apply bind_ok in H as (adv & s3 & Ha & [-> _]%ret_ok).
    eapply keeps_closed; [exact Hpos|done|exact Ec| |by eapply advance_ids].
    intros j v Hv Hc. eapply advance_track; [exact Ha| |exact Hc]. intros st q0 -> ->.
    rewrite (Hk _ _ Hx) in Hv. destruct (view_get _ _ _ Hx) as [p0 Hview].
    destruct (Hv _ _ Hview) as [q' [= -> _]]. done.
Qed.

Lemma keeps_emits s m es s' :
  pipeline_ok (tasks s) -> emits (tasks s) (drawn s) (lawful (tasks s)) m -> m s = (Ok es, s') ->
  keeps (tasks s) es.
Proof. intros Hp Hm H. apply keeps_lawful; [done|]. by eapply emits_run. Qed.

(** The commands that may move an existing task to another status. *)
Definition moves (cmd : Dispatch.Command) : bool :=
  match cmd with
  | Dispatch.UpdateTask _ _ | Dispatch.CompleteTask _ _ | Dispatch.SetStatus _ _ _ _ _
  | Dispatch.AdvancePipeline _ _ | Dispatch.ClosePipelineStage _ _ _ _
  | Dispatch.BulkSetStatus _ _ => true
  | _ => false
  end.

Lemma gentle_build disp env cmd s :
  moves cmd = false -> fresh_supply env s -> admissible (tasks s) cmd ->
  emits (tasks s) (drawn s) (gentle (tasks s)) (Dispatch.build_events disp env cmd).
Proof.
  intros Hm Hf Ha. destruct (loud cmd) eqn:E; [|by apply gentle_quiet, quiet_build].
  destruct cmd; try done; cbn [Dispatch.build_events];
    first [ by apply gentle_create | by apply gentle_split | by apply gentle_delete
          | (destruct plan_id; [by apply gentle_append|by apply gentle_materialize]) | by apply gentle_amend ].
Qed.

Lemma admissible_new_ids t cmd : admissible t cmd -> new_ids t cmd.
Proof. by destruct cmd. Qed.

(** What the commands that move no status emit, whatever they amend. *)
Lemma emits_build (P : Event -> Prop) disp env cmd s :
  (forall e, gentle (tasks s) e -> P e) ->
  (forall i patch, TaskPatch.status patch = None -> P (Event.TaskUpdated i patch)) ->
  moves cmd = false -> fresh_supply env s -> new_ids (tasks s) cmd ->
  emits (tasks s) (drawn s) P (Dispatch.build_events disp env cmd).
Proof.
  intros Hg Hu Hm Hf Hn.
  assert (Hgentle : admissible (tasks s) cmd -> emits (tasks s) (drawn s) P (Dispatch.build_events disp env cmd)).
  { intros Ha. eapply emits_weaken; [exact Hg|by apply gentle_build]. }
  destruct cmd; try (by apply Hgentle).
  cbn [Dispatch.build_events]. apply emits_amend; [|by apply Hu]. intros e He. apply Hg. by destruct e.
Qed.

Lemma gentle_lawful t e : gentle t e -> lawful t e.
Proof.
  destruct e; try done; cbn.
  - intros [Hi Hn]. split; [done|]. intros i Hin. by apply free_new, Hn.
  - intros [-> ->]. auto.
  - intros H. eapply Forall_impl; [exact H|]. intros n [Hi Hn]. split; [done|].
    intros i Hin. by apply free_new, Hn.
Qed.

Lemma keeps_build disp env cmd s es s' :
  keyed (tasks s) -> pipeline_ok (tasks s) -> fresh_supply env s -> admissible (tasks s) cmd ->
  Dispatch.build_events disp env cmd s = (Ok es, s') -> keeps (tasks s) es.
Proof.
  intros Hk Hp Hf Ha H. destruct (moves cmd) eqn:E.
  - destruct cmd; try done; cbn [Dispatch.build_events] in H;
      first [ by eapply keeps_update | by eapply keeps_pipeline | by eapply keeps_close_stage
            | (eapply keeps_emits; [exact Hp| |exact H]);
              first [ by apply lawful_complete | by apply lawful_set_status | by apply lawful_bulk ] ].
  - eapply keeps_emits; [exact Hp| |exact H].
    by eapply emits_weaken; [apply gentle_lawful|apply gentle_build].
Qed.

(** Created tasks carry their ids. *)
Lemma ids_close_stage env id i inst next s es s' :
  TaskCommands.close_pipeline_stage env id i inst next s = (Ok es, s') -> Forall ids_given es.
Proof.
  unfold TaskCommands.close_pipeline_stage. intros (x & s1 & _ & H)%bind_ok.
  apply bind_ok in H as (cur & s2 & _ & H). apply bind_ok in H as (p & s3 & _ & H).
  apply bind_ok in H as ([] & s4 & _ & H). apply bind_ok in H as ([] & s5 & _ & H).
  destruct (Pipeline.close_instance p inst) as [[[| |]|] p'];
    [by apply ret_ok in H as [-> _]|by apply ret_ok in H as [-> _]; repeat constructor| |by apply fail_ok in H].
  destruct next; [|by apply ret_ok in H as [-> _]; repeat constructor].
  apply bind_ok in H as (adv & s6 & Ha%advance_ids & [-> _]%ret_ok). by constructor.
Qed.

Lemma ids_pipeline env id p s es s' :
  TaskCommands.advance_pipeline env id p s = (Ok es, s') -> Forall ids_given es.
Proof.
  unfold TaskCommands.advance_pipeline. intros ([] & s1 & _ & H)%bind_ok.
  apply bind_ok in H as (x & s2 & _ & H). apply bind_ok in H as (cur & s3 & _ & H).
  case_bool_decide; [by apply ret_ok in H as [-> _]|].
  apply bind_ok in H as ([] & s4 & _ & H). by eapply advance_ids.
Qed.

Lemma ids_emits t d m : emits t d (lawful t) m -> emits t d ids_given m.
Proof. apply emits_weaken, lawful_ids. Qed.

Lemma ids_build disp env cmd s es s' :
  fresh_supply env s -> new_ids (tasks s) cmd ->
  Dispatch.build_events disp env cmd s = (Ok es, s') -> Forall ids_given es.
Proof.
  intros Hf Ha H. destruct (moves cmd) eqn:E.
  - destruct cmd; try done; cbn [Dispatch.build_events] in H;
      first [ by eapply ids_pipeline | by eapply ids_close_stage
            | by apply update_shape in H as (p & x & -> & _); repeat constructor
            | eapply emits_run; [apply ids_emits|exact H];
              first [ by apply lawful_complete | by apply lawful_set_status | by apply lawful_bulk ] ].
  - eapply emits_run; [|exact H]. apply emits_build; [|done..]. intros e He. by eapply lawful_ids, gentle_lawful.
Qed.
End PipelineFacts.

(** ** What holds of tasks across commands *)
Module ResolvedCommands.
  Import Handler HandlerFacts Dispatch TaskRepo TaskTableSpec PipelineSpec BatchFacts.

Lemma same_admissible t cmd cmd' : same_but_plan cmd cmd' -> admissible t cmd -> admissible t cmd'.
Proof.
  destruct cmd; try (by intros ->); cbn.
  - destruct cmd'; intros H _; done.
  - destruct plan_id; [by intros ->|]. destruct cmd'; try done. destruct plan_id; [done|]. by intros ->.
Qed.
Lemma same_new_ids t cmd cmd' : same_but_plan cmd cmd' -> new_ids t cmd -> new_ids t cmd'.
Proof.
  destruct cmd; try (by intros ->); cbn.
  - destruct cmd'; intros H _; done.
  - destruct plan_id; [by intros ->|]. destruct cmd'; try done. destruct plan_id; [done|]. by intros ->.
Qed.
Lemma pinned_uuid auth cmd env : uuid_at (pinned auth cmd env) = uuid_at env.
Proof. unfold pinned. destruct cmd, auth; done. Qed.
Lemma framed_supply auth cmd env s s0 :
  frame s s0 -> fresh_supply env s -> fresh_supply (pinned auth cmd env) s0.
Proof.
  intros Hf Hs n Hn. rewrite pinned_uuid, (frame_tasks _ _ Hf). apply Hs. destruct Hf as (_ & Hd & _).
  by eapply Nat.le_trans.
Qed.
End ResolvedCommands.

Module TaskGuarantees.
  Import Handler HandlerFacts Dispatch TaskRepo TaskTableSpec PipelineSpec PipelineFacts ResolvedCommands.

(** C32: a command that gives new tasks new ids and amends no pipeline position of
    a plan's task ([admissible]), and succeeds, keeps the status of every managed
    task derived: a task with a pipeline position has the status its position
    gives it, or is cancelled. *)
Theorem pipeline_status_derived disp up env gate auth adm cmd s out s' :
  keyed (tasks s) -> fresh_supply env s -> admissible (tasks s) cmd ->
  pipeline_ok (tasks s) ->
  handle_with_run_owner disp up env gate auth adm cmd s = (Ok out, s') ->
  keyed (tasks s') /\ pipeline_ok (tasks s').
Proof.
  intros Hk Hf Ha Hp H.
  destruct (BatchFacts.dispatch_track _ _ _ _ _ _ _ _ _ _ Hk H)
    as [->|(cmd' & s0 & es & s1 & Hsame & Hfr & Hrel & Hb & Hv)]; [done|].
  pose proof (frame_tasks _ _ Hfr) as Ht.
  destruct (keeps_build disp (pinned auth cmd env) cmd' s0 es s1) as [Hids Hco]; rewrite ?Ht; try done.
  { by eapply framed_supply. }
  { by eapply same_admissible. }
  rewrite Ht in Hco. destruct (Hv Hids) as [Hk' Hview]. split; [done|]. intros id. by rewrite Hview.
Qed.
End TaskGuarantees.
