(* ===== verification/TaskRows.v ===== *)
(** * Which task rows a dispatch writes

    [spares k e]: projecting event [e] does not touch the row of task [k].  A
    dispatched command whose own events spare a task leaves the whole row as it
    is; [avoids] says which tasks a command leaves alone, from its arguments. *)

From S2P Require Import Prelude Shared TaskModel PlanModel RegistryModel Events EventStore TaskStore PlanStore RunStore RelationStore Gate Handler TaskCommands SourceIntake PlanCommands DocumentCommands RunCommands RegistryCommands Reconcile Dispatch HandlerFacts Projection TaskLifecycle.

Module TaskRows.
  Import TaskRepo TaskView.

(** The row a created task gets, and the rows edited: projects come from plans. *)
Definition other (k : TaskId) (n : NewTask) : Prop := with_id n /\ NewTask.id n <> Some k.
Definition spares (k : TaskId) (e : Event) : Prop :=
  match e with
  | Event.TaskCreated n => other k n
  | Event.TaskSplitGenerated _ ns => Forall (other k) ns
  | Event.TaskUpdated id _ | Event.TaskStatusChanged id _ _ | Event.TaskPriorityChanged id _ _
  | Event.TaskCompleted id _ _ | Event.TaskDeleted id | Event.TaskReopened id _ _ | Event.TaskClosed id _ _
  | Event.PlanTaskAdded _ id _ _ => id <> k
  | _ => True
  end.
Definition row (t : TaskTable) (k : TaskId) : option TaskRow := rows t !! k.
End TaskRows.

Module TaskRowFacts.
  Import TaskRepo TaskTableSpec TaskView TaskViewFacts TaskRows.

Lemma row_upsert t x t' k : Task.id x <> k -> upsert_task_tx t x = Ok t' -> row t' k = row t k.
Proof.
  intros Hne. unfold upsert_task_tx. destruct (key_taken t x); [done|]. intros [= <-].
  unfold row. cbn. by rewrite lookup_insert_ne.
Qed.
Lemma row_update t i f k : i <> k -> row (update_row t i f) k = row t k.
Proof. intros Hne. unfold row, update_row. cbn. by rewrite lookup_alter_ne. Qed.
Lemma row_edit t i f t' k :
  keyed t -> TaskTableFacts.keeps_id f -> i <> k -> with_task t i f = Ok t' -> row t' k = row t k.
Proof.
  intros Hk Hf Hne. unfold with_task. destruct (get t i) as [x|] eqn:G; [|by intros [= <-]].
  apply row_upsert. by rewrite Hf, (Hk _ _ G).
Qed.
Lemma row_created t e fresh src n t' k :
  other k n -> upsert_task_tx t (created_task e fresh src n) = Ok t' -> row t' k = row t k.
Proof.
  intros [Hn Hne]. apply row_upsert. unfold with_id in Hn. cbn. by destruct (NewTask.id n) as [i|]; [cbn; congruence|].
Qed.

Lemma apply_event_row fresh now t e t' k :
  keyed t -> spares k (Envelope.payload e) -> apply_event_tx fresh now t e = Ok t' -> row t' k = row t k.
Proof.
  intros Hk Hs. unfold apply_event_tx.
  assert (Hst : forall t i a, i <> k -> row (stamp_status_changed_at t i a) k = row t k) by (intros; by apply row_update).
  destruct (Envelope.payload e); cbn [spares] in *; try (by intros [= <-]).
  - intros (t1 & H1 & [= <-])%rbind_ok. pose proof (row_created _ _ _ _ _ _ _ Hs H1) as Hr. rewrite Hst; [done|].
    destruct Hs as [Hn Hne]. unfold with_id in Hn. cbn. by destruct (NewTask.id _); [cbn; congruence|].
  - intros (t1 & H1 & [= <-])%rbind_ok. apply row_edit with (k := k) in H1; [|done|apply TaskTableFacts.keeps_id_updated|done].
    destruct (TaskPatch.pipeline_position patch); [|done]. unfold stamp_pipeline_position. by rewrite row_update.
  - intros (t1 & H1 & [= <-])%rbind_ok. apply row_edit with (k := k) in H1; [|done|apply TaskTableFacts.keeps_id_status|done].
    by rewrite Hst.
  - apply row_edit; [done|apply TaskTableFacts.keeps_id_priority|done].
  - intros (t1 & H1 & [= <-])%rbind_ok. apply row_edit with (k := k) in H1; [|done|apply TaskTableFacts.keeps_id_completed|done].
    destruct (match get t task_id with Some _ => _ | None => _ end); [by rewrite Hst|done].
  - intros [= <-]. unfold row. cbn. by rewrite lookup_delete_ne.
  - revert t Hk. induction subtasks as [|n ns IH]; cbn; intros t Hk; [by intros [= <-]|].
    apply Forall_cons in Hs as [Hn Hns]. intros (t1 & H1 & H2)%rbind_ok.
    rewrite (IH Hns t1); [by eapply row_created| |done].
    intros i x. rewrite (TaskTableFacts.upsert_get _ _ _ _ H1). case_bool_decide; [by intros [= <-]|apply Hk].
  - apply row_edit; [done|apply TaskTableFacts.keeps_id_reopened|done].
  - apply row_edit; [done|apply TaskTableFacts.keeps_id_closed|done].
Qed.

Lemma plan_event_row now p t e k :
  spares k (Envelope.payload e) -> row (PlanRepo.apply_event now p t e).2 k = row t k.
Proof.
  unfold PlanRepo.apply_event. destruct (Envelope.payload e); try done; cbn [spares].
  - intros _. by destruct (PlanRepo.get p plan_id).
  - intros Hne. unfold PlanRepo.add_task. cbn. destruct (_ =? 1)%nat; [|done]. by apply row_update.
Qed.
End TaskRowFacts.

(** ** Through a dispatch *)
Module RowDispatch.
  Import Handler HandlerFacts TaskTableSpec TaskView TaskViewFacts Dispatch BatchFacts TaskRows TaskRowFacts.

Section Row.
Context (k : TaskId).

(** A step that leaves the row of [k] alone. *)
Definition leaves {A} (m : M A) : Prop :=
  forall s, keyed (tasks s) -> keyed (tasks (m s).2) /\ row (tasks (m s).2) k = row (tasks s) k.

Lemma leaves_ret {A} (a : A) : leaves (mret a).
Proof. by intros s Hk. Qed.
Lemma leaves_bind {A B} (m : M A) (f : A -> M B) : leaves m -> (forall a, leaves (f a)) -> leaves (m ≫= f).
Proof.
  intros Hm Hf s Hk. destruct (Hm s Hk) as [Hk1 Hv1]. unfold mbind, M_bind.
  destruct (m s) as [[a|e] s1]; cbn in *; [|done]. destruct (Hf a s1 Hk1) as [Hk2 Hv2].
  split; [done|]. by rewrite Hv2.
Qed.
Lemma leaves_steady {A} (m : M A) : (forall s, tasks (m s).2 = tasks s) -> leaves m.
Proof. intros H s Hk. by rewrite H. Qed.
Lemma leaves_append es : leaves (append_batch es).
Proof. apply leaves_steady. intros s. unfold append_batch. by destruct (EventStore.append_batch (log s) es). Qed.

Lemma leaves_project disp env e : spares k (Envelope.payload e) -> leaves (project_event disp env e).
Proof.
  intros Hu. unfold project_event. apply leaves_bind; [|intros _].
  { unfold project_tasks. apply leaves_bind; [by apply leaves_steady|intros fid].
    intros s Hk. unfold put, gets, lift, modify, mbind, M_bind.
    destruct (TaskRepo.apply_event_tx _ _ (tasks s) e) as [t|err] eqn:E; cbn; [|done].
    split; [by eapply project_keeps_keyed|by eapply apply_event_row]. }
  apply leaves_bind; [apply leaves_steady, feed_tasks|intros _].
  apply leaves_bind; [|intros _; apply leaves_bind; [apply leaves_steady, agents_tasks|intros _; apply leaves_steady, registries_tasks]].
  intros s Hk. split; [by apply plans_tasks|]. unfold project_plans, modify. cbn.
  pose proof (plan_event_row (now env) (plans s) (tasks s) e k Hu) as H.
  by destruct (PlanRepo.apply_event _ _ _ e).
Qed.
Lemma leaves_project_all disp env es :
  Forall (spares k) (map Envelope.payload es) -> leaves (project_all disp env es).
Proof.
  induction es as [|e es IH]; cbn [project_all map]; [intros _; apply leaves_ret|].
  intros [He Hes]%Forall_cons. apply leaves_bind; [by apply leaves_project|intros _]. by apply IH.
Qed.
Lemma leaves_signal disp env who e : spares k e -> leaves (persist_signal_event_as disp env who e).
Proof.
  intros He. unfold persist_signal_event_as. apply leaves_bind; [by apply leaves_steady|intros i].
  intros s Hk. unfold mbind, M_bind.
  pose proof (leaves_append [Envelope.new i (now env) who e] s Hk) as H.
  destruct (append_batch [Envelope.new i (now env) who e] s) as [[out|err] s2] eqn:E; [|exact H]. clear H.
  apply append_batch_ok in E as (Hp & Hf & _). assert (Ht : tasks s2 = tasks s) by by rewrite Hf.
  rewrite <- Ht in Hk |- *. apply leaves_project_all; [|done]. rewrite <- said_payload, Hp. cbn. by repeat constructor.
Qed.
Lemma leaves_logs disp env es : leaves (auto_append_logs disp env es).
Proof.
  induction es as [|e es IH]; cbn [auto_append_logs]; [apply leaves_ret|].
  apply leaves_bind; [|intros line; apply leaves_bind; [|intros _; exact IH]].
  - unfold render_log_line. apply leaves_steady. intros s. by destruct (needs_id e).
  - destruct line as [[[p kind] text]|]; [|apply leaves_ret]. unfold append_log.
    apply leaves_bind; [by apply leaves_steady|intros [d|]]; [|apply leaves_ret].
    intros s Hk. unfold attempt. cbn. by apply leaves_signal.
Qed.

(** The events beside those of the arm. *)
Lemma audit_spares e : is_audit e -> spares k e.
Proof. by destruct e. Qed.
Lemma release_spares e : is_release e -> spares k e.
Proof. by destruct e. Qed.
Lemma source_spares e : of_source e -> spares k e.
Proof. by destruct e. Qed.
Lemma attribute_spares auth e : spares k e -> spares k (attribute auth e).
Proof. by destruct e. Qed.
Lemma relink_spares cmd envs :
  Forall (spares k) (map Envelope.payload envs) -> Forall (spares k) (map Envelope.payload (relink cmd envs)).
Proof.
  assert (H : forall a, Forall (spares k) (map Envelope.payload envs) ->
                Forall (spares k) (map Envelope.payload (bind_tasks a envs))).
  { intros [a|]; [|done]. unfold bind_tasks. rewrite !Forall_map. intros H. eapply Forall_impl; [exact H|].
    intros e. by destruct (Envelope.payload e) eqn:E; cbn; rewrite ?E. }
  destruct cmd; try done; apply H.
Qed.
Lemma drain_spares fuel s ov cands es : Reconcile.drain fuel s ov cands = Some es -> Forall (spares k) es.
Proof.
  revert ov cands es. induction fuel as [|fuel IH]; intros ov [|id cands] es; cbn; try done.
  1,2: by intros [= <-].
  destruct (Reconcile.to_close s ov id); [|apply IH].
  intros (es' & Hd & ->)%fmap_Some. constructor; [done|]. by eapply IH.
Qed.
End Row.
End RowDispatch.

(** ** What the arms write *)
Module Avoiding.
  Import Handler HandlerFacts BuildFrame Emits TaskTableSpec TaskView TaskRows Dispatch Quiet PipelineSpec.

(** A new task that is not [k], and is not delivered again as [k]. *)
Definition clear (t : TaskTable) (k : TaskId) (n : NewTask) : Prop :=
  NewTask.id n <> Some k /\
  forall key x, NewTask.external_key n = Some key ->
    TaskRepo.find_by_external_key t (trim key) = Some x -> Task.id x <> k.
Definition avoids (t : TaskTable) (k : TaskId) (cmd : Command) : Prop :=
  match cmd with
  | CreateTask n => NewTask.id n <> Some k
  | UpdateTask id _ | CompleteTask id _ | DeleteTask id | SetStatus id _ _ _ _ | SetPriority id _
  | AdvancePipeline id _ | ClosePipelineStage id _ _ _ | AmendPlanTask _ id _ | AddPlanTask _ id _ _ => id <> k
  | BulkSetStatus ids _ | BulkAttachToPlan _ ids => k ∉ ids
  | MaterializePlan _ ns _ => Forall (clear t k) ns
  | SplitTask _ _ => False
  | _ => True
  end.

Section Arms.
Context (env : Env) (t : TaskTable) (d : nat) (k : TaskId).
Context (Hkeyed : keyed t) (Hrow : is_Some (TaskRepo.get t k)).
Context (supply : forall n, (d <= n)%nat -> TaskRepo.get t (mkId (uuid_at env n)) = None).
Abbreviation spared m := (emits t d (spares k) m).

Lemma spared_comment id body kind : spared (comment_events env id body kind).
Proof. unfold comment_events. solve_emits. Qed.
Lemma spared_docs id to : spared (close_task_documents env id to).
Proof. unfold close_task_documents. solve_emits. Qed.
Lemma spared_migrate outgoing : spared (migrate_edges env outgoing).
Proof. induction outgoing; cbn [migrate_edges]; solve_emits. Qed.
Lemma spared_cascade id : spared (downstream_cascade env id).
Proof.
  unfold downstream_cascade. apply emits_bind; [solve_framed|intros ?].
  apply emits_bind; [solve_framed|intros ?].
  apply emits_bind_events; [solve_framed|apply spared_migrate|intros ? ?]. solve_emits.
Qed.
Lemma spared_note id body : spared (task_comment_events env id body).
Proof. apply spared_comment. Qed.
Lemma spared_redelivered id key n : spared (redelivered_create_events env id key n).
Proof. apply spared_comment. Qed.
Lemma spared_unlink rels : spared (TaskCommands.unlink_all env rels).
Proof. induction rels; cbn [TaskCommands.unlink_all]; solve_emits. Qed.
Lemma spared_link from to kind : spared (TaskCommands.link_tasks env from to kind).
Proof.
  intros s es s' _ _. unfold TaskCommands.link_tasks. intros (? & s1 & _ & H)%bind_ok.
  apply bind_ok in H as (? & s2 & _ & H). apply bind_ok in H as (? & s3 & _ & H).
  apply bind_ok in H as (? & s4 & _ & [-> _]%ret_ok). by repeat constructor.
Qed.
Lemma spared_abort plan reason rs : Forall (spares k) (PlanCommands.abort_events env plan reason rs).
Proof. unfold PlanCommands.abort_events. induction rs; cbn; [constructor|]. by repeat constructor. Qed.
Lemma spared_add_at plan first ids : k ∉ ids -> Forall (spares k) (TaskCommands.add_at plan first ids).
Proof.
  intros Hk. unfold TaskCommands.add_at. apply Forall_forall.
  intros e (i & id & -> & Hi)%elem_of_lookup_imap_1. cbn. intros ->. by apply Hk, (list_elem_of_lookup_2 _ i).
Qed.
#[local] Hint Resolve spared_comment spared_docs spared_migrate spared_cascade spared_note spared_redelivered
  spared_unlink spared_link spared_abort : emits.

Lemma returns_task id : returns t d (fun x => TaskRepo.get t id = Some x) (get_task id).
Proof. intros s x s' Ht _ [H _]%get_task_ok. by rewrite Ht in H. Qed.

Lemma spared_transition x to : Task.id x <> k -> spared (status_transition_events env x to).
Proof.
  intros Hne. unfold status_transition_events. case_bool_decide; [apply emits_ret; constructor|].
  apply emits_bind; [solve_framed|intros _].
  apply emits_bind_events; [solve_framed|apply emits_when, spared_cascade|intros cas Hc].
  apply emits_bind_events; [solve_framed|apply emits_when, spared_docs|intros docs Hd].
  apply emits_ret. constructor; [done|]. rewrite !Forall_app. split; [|done].
  unfold lifecycle_events. by repeat case_match; repeat constructor.
Qed.
Lemma spared_emit x to : Task.id x <> k -> spared (emit_status_transition_events env x to).
Proof.
  intros Hne. unfold emit_status_transition_events. apply emits_bind; [solve_framed|intros _].
  by apply spared_transition.
Qed.
Lemma spared_advance x p : Task.id x <> k -> spared (advance_pipeline_events env x p).
Proof.
  intros Hne. unfold advance_pipeline_events. apply emits_bind; [solve_framed|intros _].
  apply emits_bind_events; [solve_framed|by apply spared_transition|intros es Hes]. apply emits_ret. by constructor.
Qed.

(** Tasks of other rows. *)
Lemma got_other id x : TaskRepo.get t id = Some x -> id <> k -> Task.id x <> k.
Proof. intros Hx. by rewrite (Hkeyed _ _ Hx). Qed.
Lemma returns_other id : id <> k -> returns t d (fun x => Task.id x <> k) (get_task id).
Proof. intros Hne s x s' Ht Hd H. eapply got_other; [|exact Hne]. by eapply returns_task. Qed.
Lemma returns_pipeline id : id <> k -> returns t d (fun x => Task.id x <> k) (pipeline_task id).
Proof.
  intros Hne. unfold pipeline_task. eapply returns_bind; [solve_framed|by apply returns_other|intros x Hx].
  eapply returns_bind with (R := fun _ => True); [solve_framed|apply returns_any|intros _ _]. by apply returns_ret.
Qed.
Lemma dedupe_sub seen ids x : x ∈ dedupe_from seen ids -> x ∈ ids.
Proof.
  revert seen. induction ids as [|id ids IH]; intros seen; cbn; [done|].
  destruct (bool_decide (id ∈ seen)); [intros Hx; right; by eapply IH|]. intros [->|Hx]%elem_of_cons; [left|right; by eapply IH].
Qed.
Lemma returns_loaded ids msg :
  k ∉ ids -> returns t d (Forall (fun x => Task.id x <> k)) (TaskCommands.load_all ids msg).
Proof.
  intros Hk s xs s' Ht _. unfold TaskCommands.load_all.
  intros (found & s1 & [-> ->]%gets_ok & H)%bind_ok. apply bind_ok in H as ([] & s2 & _ & [-> _]%ret_ok).
  apply Forall_forall. intros x (o & Ho & Hx)%list_elem_of_omap. cbn in Hx. subst o. rewrite Ht in Ho.
  apply list_elem_of_fmap in Ho as (id & Hid & Hin). eapply got_other; [by symmetry|]. by intros ->.
Qed.

Lemma returns_assigned n : NewTask.id n <> Some k -> returns t d (other k) (TaskCommands.assign_id env n).
Proof.
  intros Hn s n' s' Ht Hd. unfold TaskCommands.assign_id. destruct (NewTask.id n) as [id|] eqn:E.
  - intros [-> _]%ret_ok. split; [unfold with_id; by rewrite E|by rewrite E].
  - intros (i & s1 & [-> ->]%fresh_ok & [-> _]%ret_ok)%bind_ok. split; [done|].
    cbn. intros [= <-]. destruct Hrow as [x Hx]. by rewrite supply in Hx.
Qed.

Lemma spared_create n : NewTask.id n <> Some k -> spared (TaskCommands.create_task env n).
Proof.
  intros Hn. unfold TaskCommands.create_task. apply emits_bind; [solve_framed|intros _].
  apply emits_bind; [solve_framed|intros title]. apply emits_bind; [solve_framed|intros [[key x]|]].
  { apply spared_redelivered. }
  eapply emits_bind_spec; [solve_framed|by apply returns_assigned|intros n' Hn'].
  apply emits_bind; [solve_framed|intros ?]. apply emits_bind; [solve_framed|intros ?].
  apply emits_ret. constructor; [exact Hn'|constructor].
Qed.
Lemma spared_complete id note : id <> k -> spared (TaskCommands.complete_task env id note).
Proof.
  intros Hne. unfold TaskCommands.complete_task. do 4 (apply emits_bind; [solve_framed|intros ?]).
  apply emits_bind_events; [solve_framed|apply spared_cascade|intros cas Hcas].
  apply emits_bind_events; [solve_framed|apply spared_docs|intros docs Hdocs].
  apply emits_ret, Forall_app. split; [by repeat constructor|by apply Forall_app].
Qed.
Lemma spared_delete id : id <> k -> spared (TaskCommands.delete_task env id).
Proof.
  intros Hne. unfold TaskCommands.delete_task. do 5 (apply emits_bind; [solve_framed|intros ?]).
  apply emits_bind_events; [solve_framed|apply spared_unlink|intros un Hun].
  apply emits_bind; [solve_framed|intros plans]. apply emits_ret. rewrite !Forall_app.
  split; [done|]. split; [by apply Forall_map, Forall_forall|].
  split; [by apply Forall_map, Forall_forall|by repeat constructor].
Qed.
Lemma spared_set_status id to c : id <> k -> spared (TaskCommands.set_status env id to c).
Proof.
  intros Hne. unfold TaskCommands.set_status.
  eapply emits_bind_spec; [solve_framed|by apply returns_other|intros x Hx].
  apply emits_bind; [solve_framed|intros note].
  apply emits_bind_events; [solve_framed|by apply spared_emit|intros es Hes].
  destruct note as [[body kind]|]; [|by apply emits_ret]. destruct es as [|e es]; [by apply emits_ret|].
  apply emits_bind_events; [solve_framed|apply spared_comment|intros tail Htail].
  by apply emits_ret, Forall_app.
Qed.
Lemma spared_bulk ids to : k ∉ ids -> spared (TaskCommands.bulk_set_status env ids to).
Proof.
  intros Hk. unfold TaskCommands.bulk_set_status. apply emits_bind; [solve_framed|intros _].
  eapply emits_bind_spec; [solve_framed|apply returns_loaded; by intros H%dedupe_sub|intros xs Hxs].
  apply emits_concat; [intros; solve_framed|intros x Hx]. apply spared_emit. by eapply Forall_forall in Hxs.
Qed.
Lemma spared_attach plan ids : k ∉ ids -> spared (TaskCommands.bulk_attach_to_plan plan ids).
Proof.
  intros Hk. unfold TaskCommands.bulk_attach_to_plan. do 6 (apply emits_bind; [solve_framed|intros ?]).
  apply emits_ret, Forall_app. split; [|by case_match; repeat constructor].
  apply spared_add_at. rewrite list_elem_of_In, filter_In, <- list_elem_of_In. by intros [H%dedupe_sub _].
Qed.
Lemma spared_pipeline id p : id <> k -> spared (TaskCommands.advance_pipeline env id p).
Proof.
  intros Hne. unfold TaskCommands.advance_pipeline. apply emits_bind; [solve_framed|intros _].
  eapply emits_bind_spec; [solve_framed|by apply returns_pipeline|intros x Hx].
  apply emits_bind; [solve_framed|intros cur]. case_bool_decide; [apply emits_ret; constructor|].
  apply emits_bind; [solve_framed|intros _]. by apply spared_advance.
Qed.
Lemma spared_stage id i inst next : id <> k -> spared (TaskCommands.close_pipeline_stage env id i inst next).
Proof.
  intros Hne. unfold TaskCommands.close_pipeline_stage.
  eapply emits_bind_spec; [solve_framed|by apply returns_pipeline|intros x Hx].
  do 4 (apply emits_bind; [solve_framed|intros ?]). destruct (Pipeline.close_instance _ _) as [[[]|] q]; solve_emits.
  by apply spared_advance.
Qed.

Lemma normalized_key n key :
  NewTask.external_key (normalize_external_key n) = Some key ->
  exists raw, NewTask.external_key n = Some raw /\ key = trim raw.
Proof.
  unfold normalize_external_key. cbn. destruct (NewTask.external_key n) as [raw|]; [|done]. cbv zeta.
  destruct (str_is_empty (trim raw)); [done|]. intros [= <-]. by exists raw.
Qed.
Lemma returns_materialized target keys n :
  clear t k n ->
  returns t d (fun r => Forall (spares k) r.1.1 /\ r.1.2 <> k) (PlanCommands.materialize_one env target keys n).
Proof.
  intros [Hid Hkey]. unfold PlanCommands.materialize_one.
  eapply returns_bind with (R := fun _ => True); [solve_framed|apply returns_any|intros title _].
  eapply returns_bind with (R := fun _ => True); [solve_framed|apply returns_any|intros keys' _].
  eapply returns_bind with (R := fun o : option (Str * Task) => forall key x, o = Some (key, x) -> Task.id x <> k);
    [solve_framed| |intros [[key x]|] Hold].
  { intros s o s' Ht _ [-> _]%gets_ok key x Hx. rewrite Ht in Hx. cbn [NewTask.external_key set_field] in Hx.
    apply bind_Some in Hx as (key0 & Hk0 & (y & Hy & [= <- <-])%fmap_Some).
    apply normalized_key in Hk0 as (raw & Hraw & ->). by eapply Hkey. }
  - specialize (Hold _ _ eq_refl).
    eapply returns_bind with (R := fun _ => True); [solve_framed|apply returns_any|intros _ _].
    eapply returns_bind with (R := Forall (spares k)); [solve_framed| |].
    + intros s es s' Ht Hd. apply (spared_redelivered _ _ _ s es s' Ht Hd).
    + intros es Hes. by apply returns_ret.
  - eapply returns_bind; [solve_framed|by apply returns_assigned|intros n' Hn'].
    assert (Hne : default (mkId 0) (NewTask.id n') <> k).
    { destruct Hn' as [Hn Hk]. unfold with_id in Hn. by destruct (NewTask.id n') as [i|]; [cbn; congruence|]. }
    eapply returns_bind with (R := Forall (spares k)); [solve_framed| |].
    + destruct (PlanCommands.mt_source_note target); [|by apply returns_ret].
      intros s es s' Ht Hd. apply (spared_note _ _ s es s' Ht Hd).
    + intros note Hnote. apply returns_ret. split; [|done]. cbn. constructor; [exact Hn'|]. apply Forall_app.
      split; [|done]. destruct (PlanCommands.mt_git_context target); by repeat constructor.
Qed.
Lemma spared_materialized target pos keys ns :
  Forall (clear t k) ns -> spared (PlanCommands.materialized_task_events env target pos keys ns).
Proof.
  intros Hns. revert pos keys. induction Hns as [|n ns Hn _ IH]; intros pos keys;
    cbn [PlanCommands.materialized_task_events]; [by apply emits_ret|].
  eapply emits_bind_spec; [solve_framed|by apply returns_materialized|].
  intros [[es id] keys'] [Hes Hid]. apply emits_bind_events; [solve_framed|apply IH|].
  intros rest Hrest. apply emits_ret, Forall_app. split; [exact Hes|]. apply Forall_app.
  split; [|done]. by destruct (negb _); repeat constructor.
Qed.
Lemma spared_materialize plan ns : Forall (clear t k) ns -> spared (PlanCommands.materialize_plan env plan ns).
Proof.
  intros Hns. unfold PlanCommands.materialize_plan. apply emits_bind; [solve_framed|intros _].
  apply emits_bind; [solve_framed|intros [id p]].
  apply emits_bind_events; [solve_framed|by apply spared_materialized|intros es Hes].
  apply emits_ret. by constructor.
Qed.
Lemma spared_append disp id plan ns :
  Forall (clear t k) ns -> spared (PlanCommands.append_to_plan disp env id plan ns).
Proof.
  intros Hns. unfold PlanCommands.append_to_plan, PlanCommands.append_materialized_tasks.
  do 3 (apply emits_bind; [solve_framed|intros ?]).
  apply emits_bind_events; [solve_framed| |intros reopened Hreopened].
  { destruct (Plan.status _); solve_emits. }
  do 3 (apply emits_bind; [solve_framed|intros ?]).
  apply emits_bind_events; [solve_framed|by apply spared_materialized|intros es Hes].
  by apply emits_ret, Forall_app.
Qed.

(** The arms of a command that avoids [k] write no event about its row. *)
Lemma avoiding_build disp cmd : avoids t k cmd -> spared (build_events disp env cmd).
Proof.
  destruct cmd; cbn [avoids build_events]; intros Ha;
    first [ by apply spared_create | by apply spared_complete | by apply spared_delete | by apply spared_set_status
          | by apply spared_bulk | by apply spared_attach | by apply spared_pipeline | by apply spared_stage
          | (destruct plan_id; [by apply spared_append|by apply spared_materialize])
          | done | (autounfold with commands; solve_emits) ].
Qed.
End Arms.
End Avoiding.

(** ** The row after a dispatch *)
Module RowTheorem.
  Import Handler HandlerFacts BuildFrame TaskTableSpec TaskView TaskViewFacts Dispatch BatchFacts TaskRows TaskRowFacts RowDispatch Avoiding PipelineSpec.

Section Dispatched.
Context (disp : N -> Str) (up : Str -> option N) (env : Env) (k : TaskId).

Lemma leaves_framed {A} (m : M A) : framed m -> leaves k m.
Proof. intros H. apply leaves_steady. intros s. by apply frame_tasks. Qed.
Lemma tasks_envelopes es : Steady.keeps tasks (envelopes_of env es).
Proof. induction es; cbn [envelopes_of]; solve_steady. Qed.
Lemma tasks_fresh_ids es : Steady.keeps tasks (fresh_ids env es).
Proof. induction es; cbn [fresh_ids]; solve_steady. Qed.
#[local] Hint Resolve tasks_envelopes tasks_fresh_ids : steady.
Lemma tasks_checks g ov acc checks : Steady.keeps tasks (run_checks disp up env g ov acc checks).
Proof. revert acc. induction checks as [|c cs IH]; intros acc; cbn [run_checks]; solve_steady. Qed.
Lemma tasks_gate gate cmd es : Steady.keeps tasks (gate_phase disp up env gate cmd es).
Proof. unfold gate_phase. destruct gate; [apply tasks_checks|solve_steady]. Qed.
Lemma tasks_record envs all write :
  (forall s, tasks (write s) = tasks s) -> Steady.keeps tasks (record env envs all write).
Proof.
  intros Hw. unfold record. apply Steady.keeps_bind; [solve_steady|intros tail].
  apply Steady.keeps_bind; [solve_steady|intros p]. apply Steady.keeps_bind; [by apply Steady.keeps_modify|].
  intros ?. apply Steady.keeps_ret.
Qed.
Lemma tasks_persist auth adm cmd envs : Steady.keeps tasks (persist env auth adm cmd envs).
Proof. unfold persist. repeat first [by apply tasks_record|steady_step]. Qed.

Lemma leaves_after {A B} (Q : A -> Prop) (m : M A) (f : A -> M B) :
  leaves k m -> yields Q m -> (forall a, Q a -> leaves k (f a)) -> leaves k (m ≫= f).
Proof.
  intros Hm Hq Hf s Hk. destruct (Hm s Hk) as [Hk1 Hv1]. unfold mbind, M_bind.
  destruct (m s) as [[a|e] s1] eqn:E; cbn in *; [|done]. destruct (Hf a (Hq _ _ _ E) s1 Hk1) as [Hk2 Hv2].
  split; [done|]. by rewrite Hv2.
Qed.

Lemma leaves_commit gate auth adm cmd ws events :
  Forall (spares k) events -> leaves k (commit disp up env gate auth adm cmd ws events).
Proof.
  intros He. unfold commit. destruct events as [|e0 es0] eqn:E; [apply leaves_ret|]. rewrite <- E in *. clear e0 es0 E.
  apply (leaves_after (fun gl => Forall is_audit (rule_audit gl) /\ Forall is_audit (rule_metrics gl)));
    [apply leaves_steady, tasks_gate|by intros s gl s' [H _]%gate_phase_ok|intros gl [Ha Hm]].
  apply (leaves_after (fun envs => Forall (spares k) (map Envelope.payload envs))); [apply leaves_steady, tasks_envelopes| |].
  { intros s envs s' (-> & _)%envelopes_of_ok. rewrite !Forall_app.
    split; [by eapply Forall_impl; [exact Ha|apply audit_spares]|].
    split; [done|by eapply Forall_impl; [exact Hm|apply audit_spares]]. }
  intros envs Henvs. apply (leaves_after (fun out => Forall (spares k) (map Envelope.payload out)));
    [apply leaves_steady, tasks_persist| |].
  { intros s out s' (_ & extra & Hs & Hx)%persist_ok. rewrite (said_payloads _ _ _ Hs). apply Forall_app.
    split; [by apply relink_spares|]. apply Forall_map. eapply Forall_impl; [exact Hx|].
    intros p [_ H]. by apply release_spares. }
  intros out Hout. apply leaves_bind; [by apply leaves_project_all|intros _].
  apply leaves_bind; [apply leaves_logs|intros _]. apply leaves_ret.
Qed.

Lemma avoids_same t cmd cmd' : same_but_plan cmd cmd' -> avoids t k cmd -> avoids t k cmd'.
Proof.
  destruct cmd; try (by intros ->); cbn; [by destruct cmd'|].
  destruct plan_id; [by intros ->|]. destruct cmd'; try done. destruct plan_id; [done|]. by intros ->.
Qed.

Lemma command_spares auth cmd s cmd' ws events s' :
  keyed (tasks s) -> is_Some (TaskRepo.get (tasks s) k) -> fresh_supply env s -> avoids (tasks s) k cmd ->
  command_events disp env auth cmd s = (Ok (cmd', ws, events), s') -> Forall (spares k) events.
Proof.
  intros Hk Hrow Hf Ha. unfold command_events. intros ([[c w] src] & s0 & Hs & H)%bind_ok.
  pose proof (framed_ok _ _ _ _ (source_framed disp env cmd) Hs) as Hfr.
  apply bind_ok in H as (es & s1 & Hb & H). apply bind_ok in H as (es' & s2 & Hr & [[= -> -> ->] ->]%ret_ok).
  pose proof (source_phase_ok _ _ _ _ _ _ Hs) as [Hsame Hsrc]. cbn in Hsame, Hsrc.
  assert (Hes : Forall (spares k) es).
  { eapply (avoiding_build env (tasks s) (drawn s) k Hk Hrow Hf disp); [by eapply avoids_same| | |exact Hb].
    - by apply frame_tasks.
    - by destruct Hfr as (_ & Hle & _). }
  unfold reconcile in Hr. apply bind_ok in Hr as (o & s3 & [-> ->]%gets_ok & [Ho _]%some_or_ok).
  unfold Reconcile.append_plan_reconciliations in Ho. destruct (Reconcile.collect _ _) as [cands ov].
  apply fmap_Some in Ho as (cl & Hd & ->). apply Forall_app. split; [|by eapply drain_spares].
  apply Forall_map. eapply Forall_impl; [|apply attribute_spares].
  unfold with_source. destruct (_ || _); [|done]. apply Forall_app. split; [|done].
  eapply Forall_impl; [exact Hsrc|apply source_spares].
Qed.
End Dispatched.

(** A command that avoids a task leaves its row as it is, whatever comes of the
    command. *)
Lemma dispatch_row disp up env gate auth adm cmd s k :
  keyed (tasks s) -> is_Some (TaskRepo.get (tasks s) k) -> fresh_supply env s -> avoids (tasks s) k cmd ->
  row (tasks (handle_with_run_owner disp up env gate auth adm cmd s).2) k = row (tasks s) k.
Proof.
  intros Hk Hrow Hf Ha. unfold handle_with_run_owner, dispatch_as.
  assert (Hf' : fresh_supply (pinned auth cmd env) s) by (unfold pinned; by destruct cmd, auth).
  set (env' := pinned auth cmd env) in *. clearbody env'.
  unfold mbind at 1, M_bind at 1. pose proof (leaves_framed k _ (completion_framed auth adm cmd) s Hk) as [Hk1 Hr1].
  destruct (completion_phase auth adm cmd s) as [[b|e] s1] eqn:Ec; cbn [snd] in *; [|done].
  apply completion_quiet in Ec as ->. destruct b; [done|].
  unfold mbind at 1, M_bind at 1. pose proof (leaves_framed k _ (command_framed disp env' auth cmd) s Hk) as [Hk2 Hr2].
  destruct (command_events disp env' auth cmd s) as [[[[c ws] events]|e] s2] eqn:E; cbn [snd] in *; [|done].
  rewrite <- Hr2. apply leaves_commit; [|done]. eapply command_spares; [exact Hk|exact Hrow|exact Hf'|exact Ha|exact E].
Qed.
End RowTheorem.
