(* ===== verification/TaskCompletion.v ===== *)
(** * Completion and blockers under every command

    A command that completes a task leaves none of its blockers unfinished: the
    task had no active blocker, or every active one is completed in the same
    batch, as a bulk update does.  The one exception is an update whose patch sets
    the status of the task itself to done. *)

From S2P Require Import Prelude Shared TaskModel PlanModel RegistryModel Events EventStore TaskStore RelationStore PlanStore RunStore ClaimStore LeaseStore DocumentStore ProjectStore Handler TaskCommands PlanCommands DocumentCommands Reconcile Gate Dispatch HandlerFacts Projection TaskLifecycle.

Module CompletionSpec.
  Import Handler TaskView PipelineSpec.

Definition done_view (v : View) : Prop := exists p, v = Some (Done, p).

(** [a] blocks [id] and is not done. *)
Definition waits_for (s : St) (a id : TaskId) : Prop :=
  RelationSpec.blocks (relations s) a id /\
  exists x, TaskRepo.get (tasks s) a = Some x /\ Task.status x <> Done.

(** If the events complete task [id], they complete all its blockers. *)
Definition sound_for (s : St) (es : list Event) (id : TaskId) : Prop :=
  forall x, TaskRepo.get (tasks s) id = Some x -> Task.status x <> Done ->
    done_view (tracked es id (view (tasks s) id)) ->
    forall a, waits_for s a id -> done_view (tracked es a (view (tasks s) a)).
Definition sound_batch (s : St) (es : list Event) : Prop := forall id, sound_for s es id.

(** The command patches the status of [id] to done. *)
Definition patched_done (cmd : Dispatch.Command) (id : TaskId) : Prop :=
  exists patch, cmd = Dispatch.UpdateTask id patch /\ TaskPatch.status patch = Some Done.

(** An event that completes no task of the table. *)
Definition undone (t : TaskTable) (e : Event) : Prop :=
  match e with
  | Event.TaskCreated n => new_to t n
  | Event.TaskSplitGenerated _ ns => Forall (new_to t) ns
  | Event.TaskUpdated _ patch => TaskPatch.status patch <> Some Done
  | Event.TaskStatusChanged _ _ to => to <> Done
  | Event.TaskCompleted _ _ _ => False
  | _ => True
  end.
End CompletionSpec.

Module CompletionFacts.
  Import Handler HandlerFacts BuildFrame Emits TaskRepo TaskTableSpec TaskView TaskViewFacts Quiet PipelineSpec PipelineFacts CompletionSpec.

Lemma undone_created t n id v :
  new_to t n -> is_Some (get t id) -> ~ done_view v -> ~ done_view (created n id v).
Proof.
  intros Hn [x Hx] Hv. unfold created. case_bool_decide as H; [|done].
  apply Hn in H. congruence.
Qed.

Lemma undone_track t e id v :
  undone t e -> is_Some (get t id) -> ~ done_view v -> ~ done_view (track id v e).
Proof.
  intros He Hx Hv. destruct e; try done; cbn [track undone] in *.
  - by eapply undone_created.
  - case_bool_decide; [|done]. destruct v as [[st p]|]; [|done]. intros [q [= Hq]].
    destruct (TaskPatch.status patch) as [to|]; cbn in Hq; [congruence|]. apply Hv. exists p. congruence.
  - case_bool_decide; [|done]. destruct v as [[st p]|]; [|done]. intros [q [= Hq]]. done.
  - case_bool_decide; [|done]. by intros [].
  - revert v Hv. induction subtasks as [|n ns IH]; intros v Hv; [done|].
    apply Forall_cons in He as [Hn Hns]. apply (IH Hns). by eapply undone_created.
Qed.

Lemma undone_tracked t es id v :
  Forall (undone t) es -> is_Some (get t id) -> ~ done_view v -> ~ done_view (tracked es id v).
Proof.
  intros Hes Hx. revert v. induction Hes as [|e es He _ IH]; intros v Hv; [done|].
  rewrite tracked_cons. apply IH. by eapply undone_track.
Qed.

Lemma not_done t id x :
  get t id = Some x -> Task.status x <> Done -> ~ done_view (view t id).
Proof.
  intros Hx Hs [p Hp]. destruct (view_get _ _ _ Hx) as [q Hq]. congruence.
Qed.

Lemma sound_undone s es : Forall (undone (tasks s)) es -> sound_batch s es.
Proof.
  intros Hes id x Hx Hs Hd. exfalso. revert Hd. eapply undone_tracked; [exact Hes|eauto|].
  by eapply not_done.
Qed.

(** Only one task may be completed, and it has no active blocker. *)
Lemma sound_single s es i :
  (forall a, ~ waits_for s a i) ->
  (forall id v, id <> i -> ~ done_view v -> ~ done_view (tracked es id v)) -> sound_batch s es.
Proof.
  intros Hfree Hes id x Hx Hs Hd a Ha. destruct (decide (id = i)) as [->|Hne].
  - by destruct (Hfree a).
  - exfalso. revert Hd. apply Hes; [done|]. by eapply not_done.
Qed.

Lemma reject_free id msg s r s' :
  reject_blocked id msg s = (Ok r, s') -> s' = s /\ forall a, ~ waits_for s a id.
Proof.
  unfold reject_blocked. intros (l & s1 & [-> ->]%gets_ok & [Hg ->]%guard_ok)%bind_ok.
  split; [done|]. bsplit. intros a Ha. apply RelationFacts.elem_of_active in Ha.
  rewrite Hg in Ha. by apply not_elem_of_nil in Ha.
Qed.

Lemma transition_free env x s es s' :
  status_transition_events env x Done s = (Ok es, s') -> Task.status x <> Done ->
  forall a, ~ waits_for s a (Task.id x).
Proof.
  unfold status_transition_events. intros H Hs. rewrite bool_decide_eq_false_2 in H by done.
  apply bind_ok in H as ([] & s1 & H1 & _). rewrite bool_decide_eq_true_2 in H1 by done.
  by apply reject_free in H1 as [_ ?].
Qed.

(** A transition moves one task. *)
Lemma transition_single env x to s es s' id v :
  status_transition_events env x to s = (Ok es, s') -> id <> Task.id x -> tracked es id v = v.
Proof.
  intros H Hne. rewrite (tracked_transition _ _ _ _ _ _ _ _ H).
  by rewrite bool_decide_eq_false_2 by done.
Qed.

Lemma undone_quiet t es : Forall untracked es -> Forall (undone t) es.
Proof. intros H. eapply Forall_impl; [exact H|]. by intros []. Qed.

Lemma sound_transition env x to s es s' :
  status_transition_events env x to s = (Ok es, s') -> sound_batch s es.
Proof.
  intros H. destruct (decide (to = Done /\ Task.status x <> Done)) as [[-> Hs]|Hto].
  - apply sound_single with (Task.id x); [by eapply transition_free|].
    intros id v Hne Hv. by rewrite (transition_single _ _ _ _ _ _ _ _ H).
  - apply sound_undone. apply transition_shape in H. case_bool_decide as Hst; [by subst|].
    destruct H as (rest & -> & Hr). constructor; [|by apply undone_quiet].
    cbn. intros ->. by apply Hto.
Qed.

(** The status of a tracked task does not depend on its position. *)
Lemma done_fst v : done_view v <-> fst <$> v = Some Done.
Proof.
  split; [by intros [p ->]|]. destruct v as [[st p]|]; [|done]. intros [= ->]. by exists p.
Qed.
Lemma fst_created n id (v w : View) :
  fst <$> v = fst <$> w -> fst <$> created n id v = fst <$> created n id w.
Proof. unfold created. by case_bool_decide. Qed.
Lemma fst_track e id (v w : View) :
  fst <$> v = fst <$> w -> fst <$> track id v e = fst <$> track id w e.
Proof.
  intros H. destruct e; try done; cbn [track]; try (by apply fst_created);
    try (case_bool_decide; [|done]; destruct v as [[]|], w as [[]|]; cbn in *; congruence).
  revert v w H. induction subtasks as [|n ns IH]; intros v w H; [done|]. by apply IH, fst_created.
Qed.
Lemma fst_tracked es id (v w : View) :
  fst <$> v = fst <$> w -> fst <$> tracked es id v = fst <$> tracked es id w.
Proof.
  revert v w. induction es as [|e es IH]; intros v w H; [done|].
  rewrite !tracked_cons. by apply IH, fst_track.
Qed.
Lemma done_moved es id i p v :
  done_view (tracked (Event.TaskUpdated i (position_patch p) :: es) id v) <->
  done_view (tracked es id v).
Proof.
  rewrite !done_fst, tracked_cons. erewrite fst_tracked; [done|]. cbn [track].
  case_bool_decide; [|done]. by destruct v as [[]|].
Qed.

(** Position changes before and other events after do not matter. *)
Lemma sound_moved s id p es :
  sound_batch s es -> sound_batch s (Event.TaskUpdated id (position_patch p) :: es).
Proof.
  intros H i x Hx Hs Hd a Ha. rewrite done_moved in *. by eapply H.
Qed.
Lemma sound_app s es tail :
  Forall untracked tail -> sound_batch s es -> sound_batch s (es ++ tail).
Proof.
  intros Ht H i x Hx Hs Hd a Ha. rewrite tracked_app, tracked_untracked in * by done.
  by eapply H.
Qed.

(** *** The arms *)
Lemma emit_ok env x to s es s' :
  emit_status_transition_events env x to s = (Ok es, s') ->
  status_transition_events env x to s = (Ok es, s').
Proof.
  unfold emit_status_transition_events. by intros ([] & s1 & ->%ensure_direct_ok & H2)%bind_ok.
Qed.

Lemma sound_set_status env id to c s es s' :
  TaskCommands.set_status env id to c s = (Ok es, s') -> sound_batch s es.
Proof.
  unfold TaskCommands.set_status. intros (x & s1 & [_ ->]%get_task_ok & H)%bind_ok.
  apply bind_ok in H as (note & s2 & H2 & H). assert (s2 = s) as ->.
  { destruct c as [c|]; [|by apply ret_ok in H2 as [_ ->]].
    apply bind_ok in H2 as (n & s3 & H3 & [_ ->]%ret_ok). unfold TaskCommands.check_note in H3.
    apply bind_ok in H3 as ([] & s4 & [_ ->]%guard_ok & H3).
    by apply bind_ok in H3 as ([] & s4 & [_ ->]%guard_ok & [_ ->]%ret_ok). }
  apply bind_ok in H as (tr & s3 & Htr%emit_ok%sound_transition & H).
  destruct note as [[body kind]|]; [|by apply ret_ok in H as [-> _]].
  destruct tr as [|e tr]; [by apply ret_ok in H as [-> _]|].
  apply bind_ok in H as (tail & s4 & Ht & [-> _]%ret_ok). apply sound_app; [|done].
  eapply emits_run; [|exact Ht]. apply quiet_comment.
Qed.

Lemma sound_complete env id note s es s' :
  keyed (tasks s) -> TaskCommands.complete_task env id note s = (Ok es, s') -> sound_batch s es.
Proof.
  unfold TaskCommands.complete_task. intros Hk (x & s1 & [_ ->]%get_task_ok & H)%bind_ok.
  apply bind_ok in H as ([] & s1 & [_ ->]%guard_ok & H).
  apply bind_ok in H as ([] & s1 & Hd & H). apply ensure_direct_ok in Hd as ->.
  apply bind_ok in H as ([] & s1 & [-> Hfree]%reject_free & H).
  apply bind_ok in H as (cas & s2 & Hc & H). apply bind_ok in H as (docs & s3 & Hd' & [-> _]%ret_ok).
  assert (Hq : Forall untracked (cas ++ docs)).
  { apply Forall_app. split; eapply emits_run; [apply quiet_cascade|exact Hc|apply quiet_docs|exact Hd']. }
  apply sound_single with id; [done|]. intros i v Hne Hv.
  rewrite tracked_app, (tracked_untracked (cas ++ docs)) by done.
  unfold tracked. cbn. by rewrite !bool_decide_eq_false_2 by done.
Qed.

Lemma sound_advance env x p s es s' :
  advance_pipeline_events env x p s = (Ok es, s') -> sound_batch s es.
Proof.
  unfold advance_pipeline_events. intros ([] & s1 & Hv & H)%bind_ok. apply validate_target_ok in Hv as ->.
  apply bind_ok in H as (tr & s2 & Htr%sound_transition & [-> _]%ret_ok). by apply sound_moved.
Qed.

Lemma sound_pipeline env id p s es s' :
  TaskCommands.advance_pipeline env id p s = (Ok es, s') -> sound_batch s es.
Proof.
  unfold TaskCommands.advance_pipeline. intros ([] & s1 & ->%validate_target_ok & H)%bind_ok.
  apply bind_ok in H as (x & s1 & [-> Hx]%pipeline_task_ok & H).
  apply bind_ok in H as (cur & s1 & [-> ->]%gets_ok & H).
  case_bool_decide; [apply ret_ok in H as [-> _]; by apply sound_undone|].
  apply bind_ok in H as ([] & s1 & H1 & H). assert (s1 = s) as ->.
  { destruct (_ ≫= _); [by apply fail_ok in H1|by apply ret_ok in H1 as [_ ->]]. }
  by eapply sound_advance.
Qed.

Lemma sound_close_stage env id i inst next s es s' :
  TaskCommands.close_pipeline_stage env id i inst next s = (Ok es, s') -> sound_batch s es.
Proof.
  unfold TaskCommands.close_pipeline_stage. intros (x & s1 & [-> Hx]%pipeline_task_ok & H)%bind_ok.
  apply bind_ok in H as (cur & s1 & [-> ->]%gets_ok & H).
  apply bind_ok in H as (p & s1 & [Hpos ->]%some_or_ok & H).
  apply bind_ok in H as ([] & s1 & [_ ->]%guard_ok & H).
  apply bind_ok in H as ([] & s2 & Hv & H). assert (s2 = s) as ->.
  { destruct next; [by apply validate_target_ok in Hv|by apply ret_ok in Hv as [_ ->]]. }
  destruct (Pipeline.close_instance p inst) as [r p'].
  assert (Hnil : sound_batch s []) by (by apply sound_undone).
  destruct r as [[| |]|]; [| | |by apply fail_ok in H]; try (apply ret_ok in H as [-> _]);
    [done|by apply sound_moved|].
  destruct next as [q|]; [|apply ret_ok in H as [-> _]; by apply sound_moved].
  apply bind_ok in H as (adv & s3 & Ha%sound_advance & [-> _]%ret_ok). by apply sound_moved.
Qed.

(** *** Bulk completion *)
(** Row [rid] exists and leaves task [i]. *)
Definition leaves (t : RelationTable) (rid : RelationId) (i : TaskId) : Prop :=
  exists r, r ∈ t /\ Relation.id r = rid /\ Relation.from r = i.

Lemma update_kind_keeps t rid i k b t' :
  RelationSpec.wf t -> leaves t rid i -> RelationRepo.update_kind t rid k = Ok (b, t') ->
  (forall rid' i', leaves t rid' i' -> leaves t' rid' i') /\
  (forall x y, x <> i -> RelationSpec.blocks t x y -> RelationSpec.blocks t' x y).
Proof.
  intros [Hid _] (r & Hr & <- & <-). unfold RelationRepo.update_kind.
  destruct (RelationRepo.get t (Relation.id r)) as [r0|]; [|by intros [= <- <-]].
  destruct (existsb _ t); [done|]. intros [= <- <-]. split.
  - intros rid' i' (x & Hx & <- & <-). eexists. split; [by apply list_elem_of_fmap_2|].
    by case_bool_decide.
  - intros x y Hne (q & Hq & <- & <- & Hk). exists q. split; [|done].
    apply list_elem_of_fmap. exists q. split; [|done]. case_bool_decide as E; [|done].
    exfalso. apply Hne. f_equal. by eapply RelationFacts.unique_row.
Qed.

Lemma update_kind_run rid k s s' :
  update_kind rid k s = (Ok tt, s') ->
  exists b r, RelationRepo.update_kind (relations s) rid k = Ok (b, r) /\ relations s' = r.
Proof.
  unfold update_kind. destruct (RelationRepo.update_kind _ _ _) as [[b r]|]; [|done].
  intros [= <-]. by exists b, r.
Qed.

(** Rewriting the edges of a completed task keeps those of the others. *)
Lemma migrate_keeps env i rels s es s' :
  RelationSpec.wf (relations s) ->
  (forall r, r ∈ rels -> leaves (relations s) (Relation.id r) i) ->
  migrate_edges env rels s = (Ok es, s') ->
  RelationSpec.wf (relations s') /\
  forall a b, a <> i -> RelationSpec.blocks (relations s) a b -> RelationSpec.blocks (relations s') a b.
Proof.
  revert s es. induction rels as [|rel rels IH]; intros s es Hw Hl; cbn [migrate_edges].
  { by intros [_ ->]%ret_ok. }
  intros ([] & s1 & (b & t1 & H1 & Ht1)%update_kind_run & H)%bind_ok.
  apply bind_ok in H as (rest & s2 & Hrest & [_ ->]%ret_ok).
  assert (Hrel : leaves (relations s) (Relation.id rel) i) by apply Hl, list_elem_of_here.
  destruct (update_kind_keeps _ _ _ _ _ _ Hw Hrel H1) as [Hleaves Hblocks].
  apply RelationFacts.update_kind_wf in H1 as Hw1; [|done]. subst t1.
  destruct (IH s1 rest Hw1) as [Hw2 Hb2]; [|done|].
  { intros r Hr. by apply Hleaves, Hl, list_elem_of_further. }
  split; [done|]. intros a c Hne Hac. by apply Hb2, Hblocks.
Qed.

Lemma cascade_keeps env id s es s' :
  RelationSpec.wf (relations s) -> downstream_cascade env id s = (Ok es, s') ->
  RelationSpec.wf (relations s') /\
  forall a b, a <> id -> RelationSpec.blocks (relations s) a b -> RelationSpec.blocks (relations s') a b.
Proof.
  unfold downstream_cascade. intros Hw (l & s1 & [_ ->]%gets_ok & H)%bind_ok.
  apply bind_ok in H as (out & s1 & [-> ->]%gets_ok & H).
  apply bind_ok in H as (ch & s2 & Hm & [_ ->]%ret_ok).
  eapply migrate_keeps; [done| |exact Hm]. intros r Hr.
  apply RelationFacts.elem_of_select in Hr as [Hr Hf]. bsplit. by exists r.
Qed.

Lemma transition_keeps env x s es s' :
  RelationSpec.wf (relations s) -> emit_status_transition_events env x Done s = (Ok es, s') ->
  RelationSpec.wf (relations s') /\
  forall a b, (a = Task.id x -> Task.status x = Done) ->
    RelationSpec.blocks (relations s) a b -> RelationSpec.blocks (relations s') a b.
Proof.
  intros Hw H%emit_ok. unfold status_transition_events in H. case_bool_decide as Hs.
  { apply ret_ok in H as [_ ->]. done. }
  rewrite !bool_decide_eq_true_2 in H by done. apply bind_ok in H as ([] & s1 & [-> _]%reject_free & H).
  apply bind_ok in H as (cas & s2 & [Hw2 Hb2]%cascade_keeps & H); [|done].
  apply bind_ok in H as (docs & s3 & Hd & [_ ->]%ret_ok). cbn in Hd.
  apply bind_ok in Hd as (l & s4 & [_ ->]%gets_ok & [_ ->]%ret_ok). split; [done|].
  intros a b Ha. apply Hb2. intros ->. by apply Hs, Ha.
Qed.

Section Bulk.
Context (env : Env).
Abbreviation complete_all xs := (concat_mapM (fun x => emit_status_transition_events env x Done) xs).

Lemma complete_all_done xs s es s' id v :
  complete_all xs s = (Ok es, s') -> done_view v -> done_view (tracked es id v).
Proof.
  revert s es s' v. induction xs as [|x xs IH]; intros s es s' v; cbn [concat_mapM].
  { by intros [-> _]%ret_ok. }
  intros (tr & s1 & Htr%emit_ok & H)%bind_ok [p ->].
  apply bind_ok in H as (rest & s2 & Hr & [-> _]%ret_ok).
  rewrite tracked_app, (tracked_transition _ _ _ _ _ _ _ _ Htr). eapply IH; [exact Hr|].
  destruct (_ && _); by exists p.
Qed.

Lemma complete_all_reaches xs s es s' x p :
  complete_all xs s = (Ok es, s') -> x ∈ xs ->
  done_view (tracked es (Task.id x) (Some (Task.status x, p))).
Proof.
  revert s es s'. induction xs as [|y xs IH]; intros s es s'; cbn [concat_mapM]; [by intros _ ?%not_elem_of_nil|].
  intros (tr & s1 & Htr%emit_ok & H)%bind_ok Hx.
  apply bind_ok in H as (rest & s2 & Hr & [-> _]%ret_ok).
  rewrite tracked_app, (tracked_transition _ _ _ _ _ _ _ _ Htr).
  apply elem_of_cons in Hx as [->|Hx].
  - eapply complete_all_done; [exact Hr|]. rewrite bool_decide_eq_true_2 by done.
    case_bool_decide as Hs; [rewrite Hs; by exists p|by exists p].
  - destruct (_ && _); [|by eapply IH]. eapply complete_all_done; [exact Hr|by exists p].
Qed.

Lemma complete_all_others xs s es s' id v :
  complete_all xs s = (Ok es, s') -> id ∉ map Task.id xs -> tracked es id v = v.
Proof.
  revert s es s'. induction xs as [|y xs IH]; intros s es s'; cbn [concat_mapM]; [by intros [-> _]%ret_ok|].
  intros (tr & s1 & Htr%emit_ok & H)%bind_ok Hx.
  apply bind_ok in H as (rest & s2 & Hr & [-> _]%ret_ok). cbn in Hx. apply not_elem_of_cons in Hx as [Hy Hx].
  rewrite tracked_app, (transition_single _ _ _ _ _ _ _ _ Htr) by done. by eapply IH.
Qed.

(** A blocker of a task completed in bulk is in the bulk as well. *)
Lemma complete_all_blockers xs s es s' x a :
  keyed (tasks s) -> RelationSpec.wf (relations s) ->
  Forall (fun x => get (tasks s) (Task.id x) = Some x) xs ->
  complete_all xs s = (Ok es, s') -> x ∈ xs -> Task.status x <> Done ->
  waits_for s a (Task.id x) -> a ∈ map Task.id xs.
Proof.
  intros Hk. revert s es s' Hk. induction xs as [|y xs IH]; intros s es s' Hk Hw Hget; cbn [concat_mapM];
    [by intros _ ?%not_elem_of_nil|].
  intros (tr & s1 & Htr & H)%bind_ok Hx Hs [Hb (z & Hz & Hzs)].
  apply bind_ok in H as (rest & s2 & Hr & [_ ->]%ret_ok).
  apply Forall_cons in Hget as [Hy Hget]. cbn.
  destruct (decide (a = Task.id y)) as [->|Hay]; [apply list_elem_of_here|].
  apply elem_of_cons in Hx as [->|Hx].
  - exfalso. apply emit_ok in Htr. apply (transition_free _ _ _ _ _ Htr Hs a). split; eauto.
  - apply list_elem_of_further.
    assert (Ht : tasks s1 = tasks s).
    { apply frame_tasks. eapply framed_ok; [|exact Htr]. solve_framed. }
    destruct (transition_keeps _ _ _ _ _ Hw Htr) as [Hw1 Hb1].
    eapply (IH s1 rest s2); rewrite ?Ht; [done|done|done|exact Hr|exact Hx|exact Hs|].
    split; [by apply Hb1|]. rewrite Ht. eauto.
Qed.
End Bulk.

Lemma load_all_ok ids msg s xs s' :
  keyed (tasks s) -> TaskCommands.load_all ids msg s = (Ok xs, s') ->
  s' = s /\ Forall (fun x => get (tasks s) (Task.id x) = Some x) xs.
Proof.
  unfold TaskCommands.load_all. intros Hk (found & s1 & [-> ->]%gets_ok & H)%bind_ok.
  apply bind_ok in H as ([] & s1 & [_ ->]%guard_ok & [-> ->]%ret_ok). split; [done|].
  apply Forall_forall. intros x (o & Ho & Hox)%list_elem_of_omap. cbn in Hox. subst o.
  apply list_elem_of_fmap in Ho as (i & Hi & _). by rewrite (Hk i x).
Qed.

Lemma sound_bulk env ids to s es s' :
  keyed (tasks s) -> RelationSpec.wf (relations s) ->
  TaskCommands.bulk_set_status env ids to s = (Ok es, s') -> sound_batch s es.
Proof.
  intros Hk Hw. unfold TaskCommands.bulk_set_status. intros ([] & s1 & Hv & H)%bind_ok.
  assert (s1 = s) as ->.
  { unfold validate_bulk_cap in Hv. destruct (_ =? 0)%nat; [by apply fail_ok in Hv|].
    by apply guard_ok in Hv as [_ ->]. }
  apply bind_ok in H as (xs & s1 & [-> Hxs]%load_all_ok & H); [|done].
  destruct (decide (to = Done)) as [->|Hto].
  - intros id x Hx Hs Hd a Ha. destruct (decide (id ∈ map Task.id xs)) as [Hin|Hin].
    + apply list_elem_of_fmap in Hin as (y & -> & Hy). rewrite Forall_forall in Hxs.
      assert (y = x) as -> by (specialize (Hxs y Hy); congruence).
      assert (Hax : a ∈ map Task.id xs).
      { eapply complete_all_blockers; [done|done| |exact H|exact Hy|done|done]. by apply Forall_forall. }
      apply list_elem_of_fmap in Hax as (z & -> & Hz). pose proof (Hxs z Hz) as Hgz.
      destruct (view_get _ _ _ Hgz) as [p ->]. by eapply complete_all_reaches.
    + exfalso. apply (not_done _ _ _ Hx Hs). by erewrite complete_all_others in Hd.
  - apply sound_undone. eapply emits_run; [|exact H]. apply emits_concat; [intros; solve_framed|].
    intros x _ s1 tr s2 _ _ Htr%emit_ok%transition_shape. case_bool_decide; [by subst|].
    destruct Htr as (rest & -> & Hr). constructor; [done|]. by apply undone_quiet.
Qed.

(** *** Every arm *)
Lemma undone_gentle t e : gentle t e -> undone t e.
Proof.
  destruct e; try done; cbn.
  - by intros [].
  - by intros [_ ->].
  - intros H. eapply Forall_impl; [exact H|]. by intros n [].
Qed.

(** An update completes no other task, and its own by its patch only. *)
Lemma sound_update env i patch s es s' id :
  TaskCommands.update_task env i patch s = (Ok es, s') ->
  sound_for s es id \/ patched_done (Dispatch.UpdateTask i patch) id.
Proof.
  intros (patch' & x & -> & _ & _ & Hp & _)%update_shape.
  destruct (decide (TaskPatch.status patch = Some Done)) as [Hd|Hd].
  - destruct (decide (id = i)) as [->|Hne]; [right; by exists patch|left].
    intros y Hy Hs Hv. exfalso. apply (not_done _ _ _ Hy Hs). revert Hv.
    unfold tracked. cbn. by rewrite bool_decide_eq_false_2.
  - left. apply sound_undone. constructor; [|done]. cbn. by rewrite Hp.
Qed.

Lemma sound_build disp env cmd s es s' id :
  keyed (tasks s) -> RelationSpec.wf (relations s) -> fresh_supply env s -> new_ids (tasks s) cmd ->
  Dispatch.build_events disp env cmd s = (Ok es, s') -> sound_for s es id \/ patched_done cmd id.
Proof.
  intros Hk Hw Hf Ha H. destruct (moves cmd) eqn:E.
  - destruct cmd; try done; cbn [Dispatch.build_events] in H; try (by eapply sound_update); left; revert id;
      first [ by eapply sound_complete | by eapply sound_set_status | by eapply sound_pipeline
            | by eapply sound_close_stage | by eapply sound_bulk ].
  - left. revert id. apply sound_undone. eapply emits_run; [|exact H].
    apply emits_build; [apply undone_gentle|intros i patch Hp; cbn; by rewrite Hp|done..].
Qed.

Lemma same_patched cmd cmd' id :
  BatchFacts.same_but_plan cmd cmd' -> patched_done cmd' id -> patched_done cmd id.
Proof.
  intros Hs (patch & -> & Hp). exists patch. split; [|done].
  destruct cmd; try done. by destruct plan_id.
Qed.

Lemma done_view_done t id : done_view (view t id) <-> RelationEnforcement.is_done t id = true.
Proof.
  rewrite RelationFacts.is_done_spec. split.
  - intros [p Hp]. by apply view_status in Hp as [_ Hx].
  - intros (x & Hx & Hs). destruct (view_get _ _ _ Hx) as [p ->]. rewrite Hs. by exists p.
Qed.
End CompletionFacts.

Section Property.
  Import Handler HandlerFacts Dispatch TaskRepo TaskTableSpec TaskView TaskViewFacts PipelineSpec PipelineFacts ResolvedCommands CompletionSpec CompletionFacts.

(** C1: a command that completes a task leaves none of its blockers
    unfinished, unless it is an update whose patch sets the status of that very
    task to done.  Take any command that gives new tasks new ids.  If a task was
    not done before it and is done after it, then every task that blocked it and
    was not done is done as well, as when a bulk update completes a task together
    with its blockers; only [UpdateTask], which treats the status as a plain field
    and does not look at blockers, can break this, and for its own task alone. *)
Theorem done_needs_finished_blockers disp up env gate auth adm cmd s out s' id x a :
  keyed (tasks s) -> RelationSpec.wf (relations s) -> fresh_supply env s ->
  new_ids (tasks s) cmd ->
  handle_with_run_owner disp up env gate auth adm cmd s = (Ok out, s') ->
  get (tasks s) id = Some x -> Task.status x <> Done ->
  RelationEnforcement.is_done (tasks s') id = true ->
  waits_for s a id -> RelationEnforcement.is_done (tasks s') a = true \/ patched_done cmd id.
Proof.
  intros Hk Hw Hf Ha H Hx Hs Hd Hwait.
  destruct (BatchFacts.dispatch_track _ _ _ _ _ _ _ _ _ _ Hk H)
    as [->|(cmd' & s0 & es & s1 & Hsame & Hfr & Hrel & Hb & Hv)].
  { exfalso. apply RelationFacts.is_done_spec in Hd as (y & Hy & Hys). congruence. }
  pose proof (frame_tasks _ _ Hfr) as Ht. pose proof (framed_supply auth cmd _ _ _ Hfr Hf) as Hf0.
  pose proof (same_new_ids _ _ _ Hsame Ha) as Ha0. rewrite <- Ht in Ha0, Hk, Hx.
  destruct (Hv (ids_build _ _ _ _ _ _ Hf0 Ha0 Hb)) as [_ Hview].
  rewrite <- Hrel in Hw. assert (Hwait0 : waits_for s0 a id) by by unfold waits_for; rewrite Hrel, Ht.
  rewrite <- done_view_done, Hview, <- Ht in *.
  destruct (sound_build _ _ _ _ _ _ id Hk Hw Hf0 Ha0 Hb) as [Hsound|Hp]; [left|right].
  - by eapply Hsound.
  - by eapply same_patched.
Qed.
End Property.
