(* ===== verification/Invariants.v ===== *)
(** * What every dispatch keeps, failed ones included

    The relation graph stays well formed and acyclic whatever is dispatched, and
    a command that fails before its batch is recorded leaves every projection
    but the relations alone. *)

From S2P Require Import Prelude Shared TaskModel PlanModel RegistryModel Events EventStore TaskStore RelationStore PlanStore RunStore ClaimStore LeaseStore DocumentStore ProjectStore Handler TaskCommands PlanCommands DocumentCommands Reconcile Gate Dispatch HandlerFacts Projection.

Module DispatchSteady.
  Import Handler HandlerFacts Dispatch Steady.

Section Steps.
Context (disp : N -> Str) (up : Str -> option N) (env : Env).
Abbreviation steady := (keeps relations).

Lemma steady_envelopes es : steady (envelopes_of env es).
Proof. induction es; cbn [envelopes_of]; solve_steady. Qed.
Lemma steady_fresh_ids es : steady (fresh_ids env es).
Proof. induction es; cbn [fresh_ids]; solve_steady. Qed.
#[local] Hint Resolve steady_envelopes steady_fresh_ids : steady.

Lemma steady_checks gate ov acc checks : steady (run_checks disp up env gate ov acc checks).
Proof. revert acc. induction checks as [|c cs IH]; intros acc; cbn [run_checks]; solve_steady. Qed.
Lemma steady_gate gate cmd es : steady (gate_phase disp up env gate cmd es).
Proof. unfold gate_phase. destruct gate; [apply steady_checks|apply keeps_ret]. Qed.
Lemma steady_record envs all write :
  (forall s, relations (write s) = relations s) -> steady (record env envs all write).
Proof.
  intros Hw. unfold record. apply keeps_bind; [solve_steady|intros tail].
  apply keeps_bind; [solve_steady|intros p]. apply keeps_bind; [by apply keeps_modify|].
  intros ?. apply keeps_ret.
Qed.
Lemma steady_persist auth adm cmd envs : steady (persist env auth adm cmd envs).
Proof. unfold persist. repeat first [by apply steady_record|steady_step]. Qed.
Lemma steady_plans e : steady (project_plans env e).
Proof. intros s. unfold project_plans, modify. cbn. by destruct (PlanRepo.apply_event _ _ _ _). Qed.
#[local] Hint Resolve steady_plans : steady.
Lemma steady_project e : steady (project_event disp env e).
Proof. unfold project_event, project_tasks, project_feed, project_agents, project_registries. solve_steady. Qed.
#[local] Hint Resolve steady_project : steady.
Lemma steady_project_all es : steady (project_all disp env es).
Proof. induction es; cbn [project_all]; solve_steady. Qed.
#[local] Hint Resolve steady_gate steady_persist steady_project_all : steady.
Lemma steady_logs es : steady (auto_append_logs disp env es).
Proof.
  induction es as [|e es IH]; cbn [auto_append_logs]; [solve_steady|].
  unfold render_log_line, append_log, persist_signal_event_as. solve_steady.
Qed.
Lemma steady_reconcile es : steady (reconcile es).
Proof. unfold reconcile. solve_steady. Qed.
#[local] Hint Resolve steady_logs steady_reconcile SourceSteady.source_steady : steady.
Lemma steady_commit gate auth adm cmd ws es : steady (commit disp up env gate auth adm cmd ws es).
Proof. unfold commit. solve_steady. Qed.
End Steps.

(** A step after which the relation graph is well formed and acyclic if it was
    before. *)
Definition graphs {A} (m : M A) : Prop :=
  forall s, RelationSpec.graph_ok (relations s) -> RelationSpec.graph_ok (relations (m s).2).
Lemma graphs_framed {A} (m : M A) : framed m -> graphs m.
Proof. intros H s. apply (frame_graph s), H. Qed.
Lemma graphs_steady {A} (m : M A) : keeps relations m -> graphs m.
Proof. intros H s Hg. by rewrite H. Qed.
Lemma graphs_bind {A B} (m : M A) (f : A -> M B) : graphs m -> (forall a, graphs (f a)) -> graphs (m ≫= f).
Proof.
  intros Hm Hf s Hg. specialize (Hm s Hg). unfold mbind, M_bind.
  destruct (m s) as [[a|e] s1]; [by apply Hf|done].
Qed.
Lemma handle_graphs disp up env gate auth adm cmd :
  graphs (handle_with_run_owner disp up env gate auth adm cmd).
Proof.
  unfold handle_with_run_owner, dispatch_as. apply graphs_bind; [apply graphs_framed, BuildFrame.completion_framed|].
  intros [|]; [by apply graphs_steady|]. apply graphs_bind; [apply graphs_framed, BuildFrame.command_framed|].
  intros [[c ws] es]. apply graphs_steady, steady_commit.
Qed.
End DispatchSteady.

Section RelationGraph.
  Import Handler HandlerFacts Dispatch.

(** C2: whatever command is dispatched, and whether it succeeds or fails
    half-way, the relation table keeps its two constraints (unique ids, unique
    from-to-kind triples) and the blocking relation stays free of cycles, so no
    set of tasks can end up waiting for itself. *)
Theorem relation_graph_invariant disp up env gate auth adm cmd s :
  RelationSpec.wf (relations s) -> RelationSpec.acyclic (relations s) ->
  let s' := (handle_with_run_owner disp up env gate auth adm cmd s).2 in
  RelationSpec.wf (relations s') /\ RelationSpec.acyclic (relations s').
Proof.
  intros Hw Ha. by apply DispatchSteady.handle_graphs.
Qed.
End RelationGraph.

(** ** Commands that fail *)
Module RefusedSpec.
  Import Handler TaskView.

(** The projections are untouched but for the relations, and the log and the
    activity feed have at most audit events more. *)
Definition refused (disp : N -> Str) (env : Env) (s s' : St) : Prop :=
  s' = s <| relations := relations s' |> <| activity := activity s' |> <| log := log s' |>
         <| drawn := drawn s' |> /\
  exists audit, EventStore.rows (log s') = EventStore.rows (log s) ++ audit /\
    activity s' = Dispatch.feed disp env s audit /\
    Forall is_audit (map Envelope.payload audit).
End RefusedSpec.

Module RefusedFacts.
  Import Handler HandlerFacts Dispatch TaskView RefusedSpec.

Section Steps.
Context (disp : N -> Str) (up : Str -> option N) (env : Env).
Abbreviation refused := (refused disp env).

Lemma refused_quiet s s' :
  s' = s <| relations := relations s' |> <| drawn := drawn s' |> -> refused s s'.
Proof.
  intros H. assert (Ha : activity s' = activity s) by by rewrite H.
  assert (Hl : log s' = log s) by by rewrite H. split; [rewrite Ha, Hl; rewrite H at 1; by destruct s|].
  exists []. rewrite Hl, app_nil_r. split; [done|]. by split; [exact Ha|constructor].
Qed.
Lemma refused_refl s : refused s s.
Proof. apply refused_quiet. by destruct s. Qed.
Lemma refused_trans a b c : refused a b -> refused b c -> refused a c.
Proof.
  intros [Hb (x & Hx & Ax & Fx)] [Hc (y & Hy & Ay & Fy)]. split; [rewrite Hc, Hb; by destruct a|].
  exists (x ++ y). rewrite Hy, Hx, <- app_assoc, map_app. split; [done|]. split; [|by apply Forall_app].
  rewrite Ay. unfold feed. rewrite foldl_app. unfold feed in Ax. rewrite <- Ax.
  assert (Hp : plans b = plans a /\ runs b = runs a) by by rewrite Hb. by destruct Hp as [-> ->].
Qed.
Lemma refused_frame s s' : frame s s' -> refused s s'.
Proof. intros [Hs _]. by apply refused_quiet. Qed.

(** A step that fails without effect, and one that does nothing to the
    projections when it succeeds. *)
Definition refuses {A} (m : M A) : Prop := forall s e s', m s = (Err e, s') -> refused s s'.
Definition intact {A} (m : M A) : Prop := forall s a s', m s = (Ok a, s') -> refused s s'.

Lemma refuses_bind {A B} (m : M A) (f : A -> M B) :
  refuses m -> intact m -> (forall a, refuses (f a)) -> refuses (m ≫= f).
Proof.
  intros Hm Hi Hf s e s'. unfold mbind, M_bind. destruct (m s) as [[a|e'] s1] eqn:E.
  - intros H. eapply refused_trans; [by eapply Hi|by eapply Hf].
  - intros [= <- <-]. by eapply Hm.
Qed.
Lemma intact_bind {A B} (m : M A) (f : A -> M B) :
  intact m -> (forall a, intact (f a)) -> intact (m ≫= f).
Proof.
  intros Hi Hf s b s' (a & s1 & H1 & H2)%bind_ok.
  eapply refused_trans; [by eapply Hi|by eapply Hf].
Qed.
Lemma framed_refuses {A} (m : M A) : framed m -> refuses m /\ intact m.
Proof.
  intros Hm. split; intros s a s' H; apply refused_frame; specialize (Hm s); by rewrite H in Hm.
Qed.
Lemma refuses_framed {A B} (m : M A) (f : A -> M B) :
  framed m -> (forall a, refuses (f a)) -> refuses (m ≫= f).
Proof. intros [? ?]%framed_refuses Hf. by apply refuses_bind. Qed.
Lemma intact_framed {A B} (m : M A) (f : A -> M B) :
  framed m -> (forall a, intact (f a)) -> intact (m ≫= f).
Proof. intros [_ ?]%framed_refuses Hf. by apply intact_bind. Qed.

Lemma framed_envelopes es : framed (envelopes_of env es).
Proof. induction es; cbn [envelopes_of]; solve_framed. Qed.
Lemma framed_fresh_ids es : framed (fresh_ids env es).
Proof. induction es; cbn [fresh_ids]; solve_framed. Qed.
Lemma refuses_append es : refuses (append_batch es).
Proof.
  intros s e s'. unfold append_batch. destruct (EventStore.append_batch (log s) es) as [r l] eqn:A.
  intros [= -> <-]. apply EventLogFacts.append_batch_inv in A as [(? & [=] & _)|(? & _ & -> & _)].
  apply refused_quiet. by destruct s.
Qed.
Lemma intact_ret {A} (a : A) : intact (mret a).
Proof. intros s b s' [_ ->]%ret_ok. apply refused_refl. Qed.

(** The audit events of a rejected batch. *)
Lemma intact_audit audit :
  Forall is_audit audit ->
  intact (envs ← envelopes_of env audit;
          persisted ← append_batch envs;
          _ ← modify (fun s => s <| activity := feed disp env s persisted |>);
          mret persisted).
Proof.
  intros Ha s p s' (envs & s1 & H1 & H2)%bind_ok.
  apply bind_ok in H2 as (o & s2 & H2 & H3). apply bind_ok in H3 as ([] & s3 & [= <-] & [-> ->]%ret_ok).
  eapply refused_trans; [apply refused_frame; eapply framed_ok; [apply framed_envelopes|exact H1]|].
  apply BatchFacts.envelopes_of_ok in H1 as (Hp & _).
  pose proof (BatchFacts.append_batch_ok _ _ _ _ H2) as (Hpay & _ & Hl).
  unfold append_batch in H2. destruct (EventStore.append_batch _ _) as [r l]. injection H2 as _ <-.
  split; [by destruct s1|]. exists o. split; [exact Hl|]. split; [done|]. by rewrite <- BatchFacts.said_payload, Hpay, BatchFacts.said_payload, Hp.
Qed.

Lemma checks_refuse gate ov acc checks :
  Forall is_audit (rule_metrics acc) ->
  refuses (run_checks disp up env gate ov acc checks) /\
  intact (run_checks disp up env gate ov acc checks).
Proof.
  revert acc. induction checks as [|c cs IH]; intros acc Hacc; cbn [run_checks];
    [apply framed_refuses; solve_framed|].
  split.
  - apply refuses_framed; [solve_framed|intros r]. apply refuses_framed; [solve_framed|intros [d obs]].
    assert (Hm : Forall is_audit (rule_metrics acc ++ map (observation_event disp env c) obs)).
    { apply Forall_app. split; [done|apply BatchFacts.audit_metrics]. }
    destruct d as [|ws|o ws re|m det]; [by apply IH|by apply IH|by apply IH|].
    destruct (_ ++ fired _ _ _ _ _ _) eqn:E.
    { apply refuses_framed; [solve_framed|intros _]. apply framed_refuses. solve_framed. }
    rewrite <- E. apply refuses_bind.
    + apply refuses_framed; [apply framed_envelopes|intros envs]. intros s err s'. unfold mbind, M_bind.
      destruct (append_batch envs s) as [[o|e'] s1] eqn:A; [done|]. intros [= <- <-]. by eapply refuses_append.
    + apply intact_audit. apply Forall_app. split; [done|apply BatchFacts.audit_fired].
    + intros _. apply framed_refuses. solve_framed.
  - apply intact_framed; [solve_framed|intros r]. apply intact_framed; [solve_framed|intros [d obs]].
    assert (Hm : Forall is_audit (rule_metrics acc ++ map (observation_event disp env c) obs)).
    { apply Forall_app. split; [done|apply BatchFacts.audit_metrics]. }
    destruct d as [|ws|o ws re|m det]; [by apply IH|by apply IH|by apply IH|].
    intros s b s' (? & ? & _ & []%fail_ok)%bind_ok.
Qed.

Lemma gate_refuses gate cmd es :
  refuses (gate_phase disp up env gate cmd es) /\ intact (gate_phase disp up env gate cmd es).
Proof.
  unfold gate_phase. destruct gate; [by apply checks_refuse|apply framed_refuses; solve_framed].
Qed.

(** Persisting either fails without effect or logs the batch it returns. *)
Definition logs (m : M (list EventEnvelope)) : Prop :=
  forall s p s', m s = (Ok p, s') ->
    EventStore.rows (log s') = EventStore.rows (log s) ++ p.

Lemma record_refuses envs all write : refuses (record env envs all write).
Proof.
  unfold record. apply refuses_framed; [apply framed_fresh_ids|intros tail].
  intros s e s'. unfold mbind, M_bind. destruct (append_batch _ s) as [[p|e'] s1] eqn:A; [done|].
  intros [= <- <-]. by eapply refuses_append.
Qed.
Lemma record_logs envs all write :
  (forall s, log (write s) = log s) -> logs (record env envs all write).
Proof.
  intros Hw s p s'. unfold record. intros (tail & s1 & H1 & H)%bind_ok.
  apply bind_ok in H as (o & s2 & H2 & H). apply bind_ok in H as ([] & s3 & [= <-] & [-> ->]%ret_ok).
  apply BatchFacts.append_batch_ok in H2 as (_ & _ & Hl). rewrite Hw, Hl.
  by rewrite (frame_log s s1) by (eapply framed_ok; [apply framed_fresh_ids|exact H1]).
Qed.
Lemma logs_framed {A} (m : M A) f : framed m -> (forall a, logs (f a)) -> logs (m ≫= f).
Proof.
  intros Hm Hf s p s' (a & s1 & H1 & H2)%bind_ok.
  rewrite (Hf a _ _ _ H2). by rewrite (frame_log s s1) by (by eapply framed_ok).
Qed.
Lemma append_logs envs : logs (append_batch envs).
Proof. by intros s p s' (_ & _ & ?)%BatchFacts.append_batch_ok. Qed.

Lemma persist_refuses auth adm cmd envs :
  refuses (persist env auth adm cmd envs) /\ logs (persist env auth adm cmd envs).
Proof.
  unfold persist. split.
  - repeat first [apply record_refuses|apply refuses_append|apply refuses_framed; [solve_framed|intros ?]
                 |case_match].
  - repeat first [apply record_logs; reflexivity|apply append_logs|apply logs_framed; [solve_framed|intros ?]
                 |case_match].
Qed.
End Steps.
End RefusedFacts.

Section FailedDispatch.
  Import Handler HandlerFacts Dispatch RefusedSpec RefusedFacts.
Context (disp : N -> Str) (up : Str -> option N) (env : Env).

(** The step fails without effect, or in a projection of the batch it logged. *)
Definition fails_cleanly {A} (m : M A) : Prop :=
  forall s e s', m s = (Err e, s') ->
    refused disp env s s' \/
    exists persisted s1,
      EventStore.rows (log s1) = EventStore.rows (log s) ++ persisted /\
      project_all disp env persisted s1 = (Err e, s').

Lemma clean_bind {A B} (m : M A) (f : A -> M B) :
  refuses disp env m -> (forall s a s', m s = (Ok a, s') -> frame s s') ->
  (forall a, fails_cleanly (f a)) -> fails_cleanly (m ≫= f).
Proof.
  intros Hm Hi Hf s e s'. unfold mbind, M_bind. destruct (m s) as [[a|e'] s1] eqn:E.
  - intros H. pose proof (Hi _ _ _ E) as Hfr. destruct (Hf _ _ _ _ H) as [Hr|(p & s2 & Hp & Hpr)].
    + left. eapply refused_trans; [by apply refused_frame|done].
    + right. exists p, s2. by rewrite Hp, (frame_log _ _ Hfr).
  - intros [= <- <-]. left. by eapply Hm.
Qed.
Lemma clean_framed {A B} (m : M A) (f : A -> M B) :
  framed m -> (forall a, fails_cleanly (f a)) -> fails_cleanly (m ≫= f).
Proof.
  intros Hm Hf. apply clean_bind; [by apply framed_refuses| |done].
  intros s a s' H. by eapply framed_ok.
Qed.

(** The automatic logs never fail. *)
Lemma append_log_succeeds e line s : exists s', append_log disp env e line s = (Ok tt, s').
Proof.
  destruct line as [[p k] text]. unfold append_log, gets, mbind, M_bind.
  destruct (if log_enabled s p k then _ else _) as [d|]; [by unfold attempt; eexists|by exists s].
Qed.
Lemma logs_succeed es s : exists s', auto_append_logs disp env es s = (Ok tt, s').
Proof.
  revert s. induction es as [|e es IH]; intros s; cbn [auto_append_logs]; [by eexists|].
  unfold mbind, M_bind. destruct (render_log_line disp env e s) as [[line|err] s1] eqn:E.
  - destruct line as [line|]; [|apply IH]. destruct (append_log_succeeds e line s1) as [s2 ->]. apply IH.
  - exfalso. revert E. unfold render_log_line. by destruct (needs_id e).
Qed.

Lemma clean_persisted auth adm cmd envs ws gl :
  fails_cleanly (persisted ← persist env auth adm cmd envs;
                 _ ← project_all disp env persisted;
                 _ ← auto_append_logs disp env persisted;
                 mret (mkOutcome persisted (ws ++ gate_warnings gl))).
Proof.
  destruct (persist_refuses disp env auth adm cmd envs) as [Hr Hl]. intros s e s'.
  unfold mbind at 1, M_bind at 1. destruct (persist env auth adm cmd envs s) as [[p|e'] s1] eqn:E.
  - intros H. right. exists p, s1. split; [exact (Hl _ _ _ E)|]. revert H.
    unfold mbind, M_bind. destruct (project_all disp env p s1) as [[[]|e''] s2]; intros H; [|congruence].
    destruct (logs_succeed p s2) as [s3 Hs]. by rewrite Hs in H.
  - intros [= <- <-]. left. by eapply Hr.
Qed.

Lemma dispatch_clean gate auth adm cmd : fails_cleanly (dispatch_as disp up env gate auth adm cmd).
Proof.
  unfold dispatch_as. apply clean_framed; [apply BuildFrame.completion_framed|intros [|]]; [by intros s e s'|].
  apply clean_framed; [apply BuildFrame.command_framed|intros [[c ws] es]]. unfold commit.
  destruct es as [|e0 es']; [by intros s e s'|].
  apply clean_bind; [apply gate_refuses| |intros gl].
  { intros s gl s' [_ ->]%BatchFacts.gate_phase_ok. apply frame_refl. }
  apply clean_framed; [apply framed_envelopes|intros envs]. apply clean_persisted.
Qed.
End FailedDispatch.

Section Failures.
  Import Handler HandlerFacts Dispatch RefusedSpec RefusedFacts.

(** Only the actor of an event is pinned. *)
Lemma refused_pinned disp env auth cmd s s' : refused disp (pinned auth cmd env) s s' -> refused disp env s s'.
Proof. by destruct env, cmd, auth. Qed.
Lemma project_all_pinned disp env auth cmd es :
  project_all disp (pinned auth cmd env) es = project_all disp env es.
Proof. by destruct env, cmd, auth. Qed.

(** C3: a command that fails has no effect on the projections and records no
    event, apart from the two effects the code has before the batch is written:
    edges rewritten while the events were built, and the audit events of a rule
    that blocked it, which also reach the activity feed.  Otherwise the whole
    batch is in the log and the failure is that of a projection; the automatic
    logs never make a command fail. *)
Theorem failed_dispatch_effects disp up env gate auth adm cmd s e s' :
  handle_with_run_owner disp up env gate auth adm cmd s = (Err e, s') ->
  refused disp env s s' \/
  exists persisted s1,
    EventStore.rows (log s1) = EventStore.rows (log s) ++ persisted /\
    project_all disp env persisted s1 = (Err e, s').
Proof.
  intros [H|(p & s1 & Hl & Hp)]%dispatch_clean; [left; by eapply refused_pinned|right].
  exists p, s1. split; [done|]. by rewrite project_all_pinned in Hp.
Qed.
End Failures.
