(* ===== verification/Outcome.v ===== *)
(** * What a successful dispatch reports

    The events a command returns are the ones it recorded: they extend the log in
    the order they are reported, in the name of the acting principal, and only
    the automatic log documents follow them. *)

From S2P Require Import Prelude Shared TaskModel PlanModel RegistryModel Events EventStore PlanStore ClaimStore Gate Handler Dispatch HandlerFacts Projection TaskLifecycle Invariants.

Module OutcomeSpec.
  Import Handler.

(** An entry of a project's interview or human log. *)
Definition log_entry (e : EventEnvelope) : Prop :=
  Envelope.actor e = ActorOps.user /\
  match Envelope.payload e with Event.DocumentContentAppended _ _ _ => True | _ => False end.

(** What the log gains. *)
Definition gains (s s' : St) (P : EventEnvelope -> Prop) : Prop :=
  exists es, EventStore.rows (log s') = EventStore.rows (log s) ++ es /\ Forall P es.

(** The gate lets the check pass: it allows it, warns, or is overridden. *)
Definition passes (g : LifecycleGate.LifecycleGate St) (s : St) (who : Actor)
    (ov : LifecycleGate.GateOverride) (c : LifecycleGate.GateCheck) : Prop :=
  exists d obs, @LifecycleGate.check_observed St g s who c ov = Ok (d, obs) /\
    match d with LifecycleGate.Blocked _ _ => False | _ => True end.

(** An event as recorded: a created task may carry the event it comes from. *)
Definition recorded_as (e e' : Event) : Prop :=
  e' = e \/ exists t i, e = Event.TaskCreated t /\
                     e' = Event.TaskCreated (t <| NewTask.source_event_id := Some i |>).
End OutcomeSpec.

Module OutcomeFacts.
  Import Handler HandlerFacts Dispatch TaskView BatchFacts Steady OutcomeSpec.

Section Steps.
Context (disp : N -> Str) (up : Str -> option N) (env : Env).

Lemma log_plans e : keeps log (project_plans env e).
Proof. intros s. unfold project_plans, modify. cbn. by destruct (PlanRepo.apply_event _ _ _ _). Qed.
#[local] Hint Resolve log_plans : steady.
Lemma log_project e : keeps log (project_event disp env e).
Proof. unfold project_event, project_tasks, project_feed, project_agents, project_registries. solve_steady. Qed.
#[local] Hint Resolve log_project : steady.
Lemma log_project_all es : keeps log (project_all disp env es).
Proof. induction es; cbn [project_all]; solve_steady. Qed.

Lemma gains_refl s P : gains s s P.
Proof. exists []. by rewrite app_nil_r. Qed.
Lemma gains_same s s' P : log s' = log s -> gains s s' P.
Proof. intros H. exists []. by rewrite H, app_nil_r. Qed.
Lemma gains_trans a b c P : gains a b P -> gains b c P -> gains a c P.
Proof.
  intros (x & Hx & Px) (y & Hy & Py). exists (x ++ y). rewrite Hy, Hx, <- app_assoc.
  split; [done|]. by apply Forall_app.
Qed.

Lemma said_in es es' : map said es' = map said es -> Forall (fun p => log_entry (Envelope.new (mkId 0) 0 p.1 p.2)) (map said es) ->
  Forall log_entry es'.
Proof. intros <-. rewrite Forall_map. intros H. eapply Forall_impl; [exact H|]. by intros []. Qed.

(** A step that adds only log entries to the log, whether it succeeds or not. *)
Definition logging {A} (m : M A) : Prop := forall s, gains s (m s).2 log_entry.
Lemma logging_bind {A B} (m : M A) (f : A -> M B) : logging m -> (forall a, logging (f a)) -> logging (m ≫= f).
Proof.
  intros Hm Hf s. specialize (Hm s). unfold mbind, M_bind.
  destruct (m s) as [[a|e] s1]; [|done]. eapply gains_trans; [exact Hm|]. apply Hf.
Qed.
Lemma logging_keeps {A} (m : M A) : keeps log m -> logging m.
Proof. intros H s. apply gains_same, H. Qed.

Lemma logging_signal id text at_ :
  logging (persist_signal_event_as disp env ActorOps.user (Event.DocumentContentAppended id text at_)).
Proof.
  unfold persist_signal_event_as. apply logging_bind; [by apply logging_keeps|intros i].
  apply logging_bind; [|intros out; apply logging_keeps, log_project_all]. intros s.
  destruct (append_batch _ s) as [[out|e] s2] eqn:E; cbn.
  - apply append_batch_ok in E as (Hs & _ & Hl). exists out. split; [exact Hl|].
    apply (said_in _ _ Hs). by repeat constructor.
  - apply gains_same. unfold append_batch in E. destruct (EventStore.append_batch _ _) as [r l] eqn:A.
    injection E as -> <-. by apply EventLogFacts.append_batch_inv in A as [(? & [=] & _)|(? & _ & -> & _)].
Qed.
Lemma logging_logs es : logging (auto_append_logs disp env es).
Proof.
  induction es as [|e es IH]; cbn [auto_append_logs]; [by apply logging_keeps|].
  apply logging_bind; [apply logging_keeps; unfold render_log_line; solve_steady|].
  intros line. apply logging_bind; [|intros _; exact IH].
  destruct line as [[[p k] text]|]; [|by apply logging_keeps]. unfold append_log.
  apply logging_bind; [by apply logging_keeps|]. intros [d|]; [|by apply logging_keeps].
  intros s. apply logging_signal.
Qed.

Lemma relink_said cmd envs : map Envelope.actor (relink cmd envs) = map Envelope.actor envs.
Proof.
  assert (H : forall a, map Envelope.actor (bind_tasks a envs) = map Envelope.actor envs).
  { intros [a|]; [|done]. unfold bind_tasks. rewrite map_map. apply map_ext. intros e.
    by destruct (Envelope.payload e). }
  destruct cmd; done || apply H.
Qed.

(** *** What the gate let pass *)
Lemma checks_passed g ov acc checks s gl s' :
  run_checks disp up env g ov acc checks s = (Ok gl, s') -> Forall (passes g s (actor env) ov) checks.
Proof.
  revert acc. induction checks as [|c checks IH]; intros acc; cbn [run_checks]; [constructor|].
  intros (r & s1 & [-> ->]%gets_ok & H)%bind_ok. apply bind_ok in H as ([d obs] & s2 & [Hc ->]%lift_ok & H).
  constructor.
  - exists d, obs. split; [exact Hc|]. destruct d; try done.
    by apply bind_ok in H as (? & ? & _ & []%fail_ok).
  - destruct d; try (by eapply IH). by apply bind_ok in H as (? & ? & _ & []%fail_ok).
Qed.

Lemma bound_as a envs : Forall2 recorded_as (map Envelope.payload envs) (map Envelope.payload (bind_tasks a envs)).
Proof.
  assert (Hsame : forall es, Forall2 recorded_as es es) by (induction es; constructor; [by left|done]).
  destruct a as [a|]; [|apply Hsame]. unfold bind_tasks. induction envs as [|e envs IH]; cbn; [constructor|].
  constructor; [|exact IH]. destruct (Envelope.payload e) eqn:E; try (left; exact E). right. eauto.
Qed.
Lemma relinked_as cmd envs :
  Forall2 recorded_as (map Envelope.payload envs) (map Envelope.payload (relink cmd envs)).
Proof.
  assert (Hsame : forall es, Forall2 recorded_as es es) by (induction es; constructor; [by left|done]).
  destruct cmd; try apply Hsame; apply bound_as.
Qed.
Lemma audit_recorded es es' : Forall2 recorded_as es es' -> Forall is_audit es -> Forall is_audit es'.
Proof.
  induction 1 as [|e e' es es' He _ IH]; [done|]. intros [Ha Hes]%Forall_cons. constructor; [|by apply IH].
  destruct He as [->|(t & i & -> & ->)]; done.
Qed.

(** The batch of a command among audit events and released claims. *)
Definition batch_shape (events : list Event) (out : DispatchOutcome) : Prop :=
  exists audit batch metrics released,
    map Envelope.payload (out_events out) = audit ++ batch ++ metrics ++ released /\
    Forall is_audit audit /\ Forall2 recorded_as events batch /\ Forall is_audit metrics /\
    Forall is_release released.

Lemma commit_passed g auth adm cmd ws events s out s' :
  commit disp up env (Some g) auth adm cmd ws events s = (Ok out, s') ->
  Forall (passes g s (actor env) (gate_override_of cmd)) (LifecycleGate.derive_gate_checks events) /\
  batch_shape events out.
Proof.
  unfold commit. destruct events as [|e0 es0] eqn:E.
  { intros [-> ->]%ret_ok. split; [constructor|]. by exists [], [], [], []. }
  rewrite <- E. clear e0 es0 E. intros (gl & s2 & Hg & H)%bind_ok. split; [by eapply checks_passed|].
  apply gate_phase_ok in Hg as [[Ha Hm] ->].
  apply bind_ok in H as (envs & s3 & (He & _)%envelopes_of_ok & H).
  apply bind_ok in H as (persisted & s4 & (_ & extra & Hs & Hx)%persist_ok & H).
  apply bind_ok in H as ([] & s5 & _ & H). apply bind_ok in H as ([] & s6 & _ & [-> _]%ret_ok).
  pose proof (relinked_as cmd envs) as Hr. rewrite He in Hr.
  apply Forall2_app_inv_l in Hr as (audit & rest & Hr1 & (batch & metrics & Hr2 & Hr3 & ->)%Forall2_app_inv_l & Hr).
  exists audit, batch, metrics, (map snd extra). cbn. split.
  { apply said_payloads in Hs. by rewrite Hs, Hr, <- !app_assoc. }
  split; [by eapply audit_recorded|]. split; [done|]. split; [by eapply audit_recorded|].
  apply Forall_map. eapply Forall_impl; [exact Hx|]. by intros p [].
Qed.

Lemma same_override cmd cmd' : same_but_plan cmd cmd' -> gate_override_of cmd' = gate_override_of cmd.
Proof.
  destruct cmd; try (by intros ->); cbn; [by destruct cmd'|].
  destruct plan_id; [by intros ->|]. by destruct cmd'.
Qed.

Lemma commit_records gate auth adm cmd ws events s out s' :
  commit disp up env gate auth adm cmd ws events s = (Ok out, s') ->
  exists s1, EventStore.rows (log s1) = EventStore.rows (log s) ++ out_events out /\
    Forall (fun e => Envelope.actor e = actor env) (out_events out) /\ gains s1 s' log_entry.
Proof.
  unfold commit. destruct events as [|e0 es0].
  { intros [-> ->]%ret_ok. exists s. cbn. rewrite app_nil_r. split; [done|]. split; [done|apply gains_refl]. }
  intros (gl & s2 & [_ ->]%gate_phase_ok & H)%bind_ok.
  apply bind_ok in H as (envs & s3 & (_ & _ & Hl3 & Ha)%envelopes_of_ok & H).
  apply bind_ok in H as (persisted & s4 & Hp & H).
  apply bind_ok in H as ([] & s5 & Hproj & H). apply bind_ok in H as ([] & s6 & Hlogs & [-> ->]%ret_ok).
  destruct (RefusedFacts.persist_refuses disp env auth adm cmd (relink cmd envs)) as [_ Hl].
  exists s4. cbn. split; [by rewrite (Hl _ _ _ Hp), Hl3|]. split.
  - apply persist_ok in Hp as (_ & extra & Hs & He).
    assert (Hact : map Envelope.actor persisted = map Envelope.actor (relink cmd envs) ++ map fst extra).
    { apply (f_equal (map fst)) in Hs. by rewrite map_app, !map_map in Hs. }
    assert (Hall : Forall (fun a => a = actor env) (map Envelope.actor persisted)); [|by rewrite Forall_map in Hall].
    rewrite Hact, relink_said. apply Forall_app. split; apply Forall_map.
    + eapply Forall_impl; [exact Ha|]. by intros e [].
    + eapply Forall_impl; [exact He|]. by intros p [].
  - eapply gains_trans; [apply gains_same; by apply (kept_ok _ _ _ _ _ (log_project_all persisted)) in Hproj|].
    pose proof (logging_logs persisted s5) as Hg. by rewrite Hlogs in Hg.
Qed.
End Steps.
End OutcomeFacts.

Section Property.
  Import Handler HandlerFacts Dispatch BatchFacts OutcomeSpec OutcomeFacts.

(** C4: a dispatched command records what it reports.  When a command succeeds
    the log is the one before, followed by exactly the events it returns, all in
    the name of the acting principal -- the authenticated one for evidence --
    and by entries of the automatic log documents only. *)
Theorem dispatch_records_outcome disp up env gate auth adm cmd s out s' :
  handle_with_run_owner disp up env gate auth adm cmd s = (Ok out, s') ->
  exists entries,
    EventStore.rows (log s') = EventStore.rows (log s) ++ out_events out ++ entries /\
    Forall (fun e => Envelope.actor e = actor (pinned auth cmd env)) (out_events out) /\
    Forall log_entry entries.
Proof.
  unfold handle_with_run_owner, dispatch_as. intros (answered & s1 & Hc & H)%bind_ok.
  pose proof (frame_log _ _ (framed_ok _ _ _ _ (BuildFrame.completion_framed _ _ _) Hc)) as Hl1.
  destruct answered.
  { apply ret_ok in H as [-> ->]. exists []. cbn. rewrite app_nil_r, Hl1. by split; [|split]. }
  apply bind_ok in H as ([[c ws] events] & s2 & He & H).
  pose proof (frame_log _ _ (framed_ok _ _ _ _ (BuildFrame.command_framed _ _ _ _) He)) as Hl2.
  apply commit_records in H as (s3 & Hl3 & Ha & entries & Hl4 & Hent).
  exists entries. split; [by rewrite Hl4, Hl3, Hl2, Hl1, <- app_assoc|done].
Qed.

(** C5: nothing is recorded past the gate.  Whatever gate is installed, a command
    that succeeds and records events was let through: every check derived from
    its batch -- the events of its arm with the plans reconciliation closes -- got
    a decision other than a block, in the state the batch was built in and with
    the override the command carries; and beside that batch the command recorded
    audit events of the gate and released claims only. *)
Theorem gate_guards_dispatch disp up env g auth adm cmd s out s' :
  handle_with_run_owner disp up env (Some g) auth adm cmd s = (Ok out, s') ->
  out_events out = [] \/
  exists cmd' ws events s0,
    command_events disp (pinned auth cmd env) auth cmd s = (Ok (cmd', ws, events), s0) /\
    Forall (passes g s0 (actor (pinned auth cmd env)) (gate_override_of cmd))
      (LifecycleGate.derive_gate_checks events) /\
    batch_shape events out.
Proof.
  unfold handle_with_run_owner, dispatch_as. intros (answered & s1 & Hc & H)%bind_ok.
  apply completion_quiet in Hc as ->. destruct answered; [left; by apply ret_ok in H as [-> _]|right].
  apply bind_ok in H as ([[c ws] events] & s2 & He & H). exists c, ws, events, s2. split; [done|].
  pose proof (command_events_ok _ _ _ _ _ _ _ _ _ He) as (s0 & es & Hsame & _).
  apply commit_passed in H. by rewrite (same_override _ _ Hsame) in H.
Qed.
End Property.
