(* ===== verification/Fixtures.v ===== *)
(** * A small running system

    One environment, a few dispatched commands and the decidable form of the
    state invariants, for the concrete runs that accompany the theorems about
    dispatched commands. *)

From S2P Require Import Prelude Shared TaskModel PlanModel RegistryModel Events EventStore TaskStore RelationStore PlanStore RunStore ActivityStore ClaimStore LeaseStore DocumentStore ProjectStore Handler TaskCommands PlanCommands DocumentCommands Reconcile Gate Dispatch HandlerFacts Projection TaskLifecycle TaskCompletion.

Module Fixtures.
  Import Handler Dispatch TaskRepo TaskTableSpec PipelineSpec.

(** Texts are constant, no pattern compiles and every date is valid. *)
Definition demo_crates : Crates :=
  mkCrates demo_serde (fun _ => None) (fun _ => true) to_ascii_lowercase (fun _ => lit "now") (fun _ => lit "now") None.
(** Drawn ids start at 1000; those of the fixtures are below. *)
Definition demo_env : Env := mkEnv 100 ActorOps.user false (fun n => (1000 + N.of_nat n)%N) demo_crates.
Definition demo_display (_ : N) : Str := lit "uuid".
Definition demo_parse (_ : Str) : option N := None.
Definition demo_handle (cmd : Command) (s : St) : Result CoreError DispatchOutcome * St :=
  handle_with_run_owner demo_display demo_parse demo_env None None false cmd s.
Definition demo_run (cmds : list Command) (s : St) : St :=
  foldl (fun s cmd => (demo_handle cmd s).2) s cmds.

Definition demo_new (i : N) (title : string) : NewTask :=
  NewTask.new (lit title) <| NewTask.id := Some (mkId i) |>.
Definition demo_stage (i : Z) (role : string) (fanout : Z) : PipelinePosition :=
  Pipeline.mk i (lit role) false fanout true [].

(** A gate that refuses everything. *)
Definition closed_gate : LifecycleGate.LifecycleGate St :=
  LifecycleGate.Build_LifecycleGate St
    (fun _ _ _ _ => Ok (LifecycleGate.Blocked (lit "not today") JNull))
    (fun _ _ _ _ => Ok (LifecycleGate.Blocked (lit "not today") JNull, [])).
Definition demo_gated (cmd : Command) (s : St) : Result CoreError DispatchOutcome * St :=
  handle_with_run_owner demo_display demo_parse demo_env (Some closed_gate) None false cmd s.

Definition edges (s : St) : list (TaskId * TaskId * RelationKind) :=
  map RelationSpec.edge_key (relations s).
Definition is_ok {A} (r : Result CoreError A) : bool := match r with Ok _ => true | Err _ => false end.

(** The outcome of a run that succeeds. *)
Definition outcome (r : Result CoreError DispatchOutcome * St) : DispatchOutcome :=
  match r.1 with Ok out => out | Err _ => mkOutcome [] [] end.
Lemma outcome_ok r : is_ok r.1 = true -> r = (Ok (outcome r), r.2).
Proof. by destruct r as [[]]. Qed.

(** *** Deciding the invariants *)
Definition keyed_rows (t : TaskTable) : Prop :=
  map_Forall (fun id r => Task.id (TaskRow.task r) = id) (rows t).
#[export] Instance keyed_rows_dec t : Decision (keyed_rows t).
Proof. unfold keyed_rows. apply _. Defined.
Lemma keyed_rows_ok t : keyed_rows t -> keyed t.
Proof. intros H id x (r & Hr & ->)%fmap_Some. by apply H. Qed.

#[export] Instance coherent_dec v : Decision (coherent v).
Proof. destruct v as [[st [p|]]|]; cbn; apply _. Defined.
Definition coherent_rows (t : TaskTable) : Prop :=
  map_Forall (fun _ r => coherent (Some (Task.status (TaskRow.task r), TaskRow.position r))) (rows t).
#[export] Instance coherent_rows_dec t : Decision (coherent_rows t).
Proof. unfold coherent_rows. apply _. Defined.
Lemma coherent_rows_ok t : coherent_rows t -> pipeline_ok t.
Proof.
  intros H id. unfold TaskView.view. destruct (rows t !! id) as [r|] eqn:E; [|done].
  by apply H in E.
Qed.

Definition small_rows (t : TaskTable) : Prop :=
  map_Forall (fun (id : TaskId) _ => (as_uuid id < 1000)%N) (rows t).
#[export] Instance small_rows_dec t : Decision (small_rows t).
Proof. unfold small_rows. apply _. Defined.
Lemma small_rows_ok s : small_rows (tasks s) -> fresh_supply demo_env s.
Proof.
  intros H n _. unfold get. destruct (rows (tasks s) !! _) as [r|] eqn:E; [|done].
  apply H in E. cbn in E. lia.
Qed.

(** Edges that only go up have no cycle. *)
Definition upward (t : RelationTable) : Prop :=
  Forall (fun r => (as_uuid (Relation.from r) < as_uuid (Relation.to r))%N) t.
#[export] Instance upward_dec t : Decision (upward t).
Proof. unfold upward. apply _. Defined.
Lemma upward_acyclic t : upward t -> RelationSpec.acyclic t.
Proof.
  intros Hup. assert (H : forall a b, tc (RelationSpec.blocks t) a b -> (as_uuid a < as_uuid b)%N).
  { induction 1 as [a b (r & Hr & <- & <- & _)|a b c (r & Hr & <- & <- & _) _ IH];
      unfold upward in Hup; rewrite Forall_forall in Hup; specialize (Hup r Hr); cbn in Hup; lia. }
  intros a Ha%H. lia.
Qed.
End Fixtures.

(** Decide a closed proposition by evaluation. *)
Ltac decided := refine (bool_decide_unpack _ _); vm_compute; exact I.
