(* ===== verification/Readiness.v ===== *)
(** * Whether a task can start, and what a transition will leave undone

    [Readiness] has [can_start] of core/plan_readiness.rs, which asks the lifecycle
    gate about a start before anybody starts, and its endpoint; [MutationWarnings]
    the advice the server attaches to a transition (apps/server/src/routes/mod.rs):
    open blockers of a start, plans a completion will not close, other open work
    of an agent.  The theorems compare both forecasts with what a dispatch does. *)

From Stdlib Require Import DecimalString.
From S2P Require Import Prelude Shared TaskModel PlanModel RegistryModel Events Gate EventStore TaskStore RelationStore PlanStore RunStore ClaimStore PlanLogic RuleStore RuleEngine Handler TaskCommands Reconcile Dispatch HandlerFacts Projection TaskLifecycle Outcome Fixtures.

Module Readiness.
  Import LifecycleGate.

(** domain/plan.rs *)
Record CanStartBlocker : Type := mkBlocker {
  b_task_id : TaskId;
  b_title : Str;
  b_status : Status }.
Record CanStartRule : Type := mkRule {
  r_rule_key : Str;
  r_message : Str }.
Record CanStart : Type := mkCanStart {
  ready : bool;
  blockers : list CanStartBlocker;
  rule_blockers : list CanStartRule;
  rule_warnings : list CanStartRule;
  reason : Str }.

Definition UNNAMED_RULE : Str := lit "unnamed_rule".
Definition rule_key_of (details : Json) : option Str := json_get details "rule_key" ≫= as_text.
Definition warning_rule_key (w : MutationWarning) : Str :=
  match rule_key_of (w_details w) with
  | Some key => key
  | None => default (w_code w) (strip_prefix (lit "rule_warning:") (w_code w))
  end.
Definition warning_rule (w : MutationWarning) : CanStartRule := mkRule (warning_rule_key w) (w_message w).
Definition warning_outcomes (details : Json) : list CanStartRule :=
  match json_get details "outcomes" ≫= as_array with
  | None => []
  | Some outcomes =>
      map (fun o => mkRule (default UNNAMED_RULE (rule_key_of o)) (default [] (json_get o "message" ≫= as_text)))
        (List.filter (fun o => bool_decide (json_get o "decision" ≫= as_text = Some (lit "warning"))) outcomes)
  end.
Definition blocking_rules (message : Str) (details : Json) : list CanStartRule :=
  map (fun p => mkRule (default UNNAMED_RULE (rule_key_of p.1)) p.2) (blocked_outcomes details message).

(** The event a start would emit. *)
Definition start_of (task : Task) : Event :=
  Event.TaskStatusChanged (Task.id task) (Task.status task) InProgress.

Section Gate.
(** The projections behind the gate. *)
Context {W : Type} (w : W).

(** What one decision adds: (rules that block, rules that warn). *)
Definition told (d : GateDecision) : list CanStartRule * list CanStartRule :=
  match d with
  | Allowed => ([], [])
  | Warning ws => ([], map warning_rule ws)
  | Overridden overridden ws _ => (map warning_rule overridden, map warning_rule ws)
  | Blocked message details => (blocking_rules message details, warning_outcomes details)
  end.
Fixpoint ask (g : LifecycleGate W) (actor : Actor) (acc : list CanStartRule * list CanStartRule)
    (checks : list GateCheck) : Result CoreError (list CanStartRule * list CanStartRule) :=
  match checks with
  | [] => Ok acc
  | c :: checks =>
      rbind (@check W g w actor c no_override) (fun d =>
        ask g actor (acc.1 ++ (told d).1, acc.2 ++ (told d).2) checks)
  end.
Definition rule_readiness (gate : option (LifecycleGate W * Actor)) (task : Task)
  : Result CoreError (list CanStartRule * list CanStartRule) :=
  match gate with
  | None => Ok ([], [])
  | Some (g, actor) =>
      if bool_decide (Task.status task = InProgress) then Ok ([], [])
      else ask g actor ([], []) (derive_gate_checks [start_of task])
  end.

Definition decimal (n : nat) : Str := lit (NilZero.string_of_uint (Nat.to_uint n)).
Definition reason_of (terminal : bool) (tasks rules : nat) : Str :=
  if terminal then lit "terminal_task"
  else match tasks, rules with
  | O, O => lit "ready"
  | O, r => lit "blocked_by_" ++ decimal r ++ lit "_rule(s)"
  | t, O => lit "blocked_by_" ++ decimal t ++ lit "_task(s)"
  | t, r => lit "blocked_by_" ++ decimal t ++ lit "_task(s)_and_" ++ decimal r ++ lit "_rule(s)"
  end.

Definition open_blockers (tasks : TaskTable) (relations : RelationTable) (id : TaskId) : list CanStartBlocker :=
  map (fun t => mkBlocker (Task.id t) (Task.title t) (Task.status t))
    (List.filter (fun t => negb (bool_decide (Task.status t = Done)))
       (TaskRepo.get_many tasks (map Relation.from (RelationRepo.list_blockers relations id)))).
Definition can_start (tasks : TaskTable) (relations : RelationTable) (gate : option (LifecycleGate W * Actor))
    (task_id : TaskId) : Result CoreError CanStart :=
  match TaskRepo.get tasks task_id with
  | None => Err (NotFound "task {task_id}")
  | Some task =>
      let blockers := open_blockers tasks relations task_id in
      rbind (rule_readiness gate task) (fun '(rule_blockers, rule_warnings) =>
        Ok (mkCanStart
              (negb (is_terminal (Task.status task)) && (length blockers =? 0)%nat && (length rule_blockers =? 0)%nat)
              blockers rule_blockers rule_warnings
              (reason_of (is_terminal (Task.status task)) (length blockers) (length rule_blockers))))
  end.

(** [GET /v1/tasks/{id}/can_start]: a claim of somebody else overrides. *)
Definition get_can_start (tasks : TaskTable) (relations : RelationTable) (claims : ClaimTable) (now : Z)
    (agent : AgentId) (gate : option (LifecycleGate W * Actor)) (task_id : TaskId)
  : Result CoreError (CanStart * option ClaimRow) :=
  rbind (can_start tasks relations gate task_id) (fun readiness =>
    let current_claim := ClaimRepo.get_active_for_task claims now task_id in
    match current_claim with
    | Some claim =>
        if bool_decide (ClaimRow.agent_id claim = agent) then Ok (readiness, current_claim)
        else Ok (mkCanStart false (blockers readiness) (rule_blockers readiness) (rule_warnings readiness)
                   (lit "claimed_by_other"), current_claim)
    | None => Ok (readiness, None)
    end).
End Gate.
End Readiness.

(** ** The advice of the server *)
Module MutationWarnings.
  Import LifecycleGate Handler Dispatch Readiness PlanReadiness.

Section Warnings.
Context (uuid_display : N -> Str).

Definition id_str {k} (i : Id k) : Json := JStr (uuid_display (as_uuid i)).
Definition blocker_json (b : CanStartBlocker) : Json :=
  JObj [("task_id"%string, id_str (b_task_id b)); ("title"%string, JStr (b_title b));
        ("status"%string, JStr (lit (status_as_str (b_status b))))].

(** The statuses of a plan's members with this task counted as done. *)
Definition member_statuses (s : St) (task_id : TaskId) (plan_id : PlanId) : list (option Status) :=
  map (fun member => if bool_decide (PlanTask.task_id member = task_id) then Some Done
                     else Task.status <$> TaskRepo.get (tasks s) (PlanTask.task_id member))
    (PlanRepo.list_tasks_ordered (plans s) plan_id).
(** One plan of the task; [None]: nothing to say. *)
Definition plan_close_warning (s : St) (task_id : TaskId) (plan_id : PlanId) : option MutationWarning :=
  plan ← PlanRepo.get (plans s) plan_id;
  if negb (bool_decide (Plan.archived_at plan = None))
     || negb (bool_decide (Plan.status plan = Draft) || bool_decide (Plan.status plan = Active))
  then None
  else if negb (plan_ready_to_close (member_statuses s task_id plan_id)
                  (map Plan.status (PlanRepo.list_children (plans s) plan_id)))
  then None
  else if bool_decide (Plan.status plan = Draft) then
      Some (mkWarning (lit "plan_draft_no_autoclose")
              (lit "plan {plan_id} is draft and will not auto-close")
              (JObj [("plan_id"%string, id_str plan_id); ("task_id"%string, id_str task_id);
                     ("plan_status"%string, JStr (lit "draft"))]))
    else
      match map Run.id (RunRepo.list_active_for_plan (runs s) plan_id) with
      | [] => None
      | run_id :: _ as run_ids =>
          Some (mkWarning (lit "plan_close_blocked_by_run")
                  (lit "plan {plan_id} will not auto-close: {} run(s) still active")
                  (JObj [("plan_id"%string, id_str plan_id); ("task_id"%string, id_str task_id);
                         ("run_id"%string, id_str run_id); ("run_ids"%string, JArr (map id_str run_ids))]))
      end.
Definition plan_close_warnings (s : St) (task_id : TaskId) : list MutationWarning :=
  match TaskRepo.get (tasks s) task_id with
  | None => []
  | Some task =>
      if is_terminal (Task.status task) then []
      else omap (plan_close_warning s task_id)
             (map Plan.id (PlanRepo.list_plans_for_task (plans s) task_id))
  end.

Definition mutation_warnings (s : St) (command : Command) : Result CoreError (list MutationWarning) :=
  match command with
  | CompleteTask id _ | SetStatus id Done _ _ _ | SetStatus id Cancelled _ _ _ =>
      Ok (plan_close_warnings s id)
  | SetStatus id InProgress false _ _ =>
      rbind (can_start s (tasks s) (relations s) None id) (fun readiness =>
        if ready readiness then Ok []
        else Ok [mkWarning (lit "task_blocked")
                   (lit "task {id} has {} active blocker(s); pass force=true to acknowledge")
                   (JObj [("task_id"%string, id_str id); ("ready"%string, JBool (ready readiness));
                          ("reason"%string, JStr (reason readiness));
                          ("blockers"%string, JArr (map blocker_json (blockers readiness)))])])
  | _ => Ok []
  end.

Definition agent_open_tasks_warning (s : St) (now : Z) (agent_id : AgentId) (project_id : option ProjectId)
    (current : option TaskId) : option MutationWarning :=
  let task_ids :=
    omap (fun claim =>
      if bool_decide (ClaimRow.agent_id claim = agent_id) && negb (bool_decide (Some (ClaimRow.task_id claim) = current))
      then match TaskRepo.get (tasks s) (ClaimRow.task_id claim) with
           | Some t => if bool_decide (Task.status t = InProgress) then Some (ClaimRow.task_id claim) else None
           | None => None
           end
      else None) (ClaimRepo.list_active (claims s) (tasks s) now project_id) in
  match task_ids with
  | [] => None
  | _ => Some (mkWarning (lit "agent_has_open_tasks")
                 (lit "agent already has {} task(s) in progress; complete or release them before taking more")
                 (JObj [("agent_id"%string, id_str agent_id); ("count"%string, JNum (Z.of_nat (length task_ids)));
                        ("task_ids"%string, JArr (map id_str task_ids))]))
  end.
End Warnings.
End MutationWarnings.

(** ** What a gate promises

    Its two questions have one answer, and without an override nothing is
    overridden. *)
Class GateLaws {W : Type} (g : LifecycleGate.LifecycleGate W) : Prop := {
  check_observes w a c ov :
    @LifecycleGate.check W g w a c ov = rbind (@LifecycleGate.check_observed W g w a c ov) (fun r => Ok r.1);
  plainly_not_overridden w a c overridden ws reason obs :
    @LifecycleGate.check_observed W g w a c LifecycleGate.no_override
    <> Ok (LifecycleGate.Overridden overridden ws reason, obs) }.
#[export] Instance rule_engine_laws {W} display (world_of : W -> RuleEngine.World) :
  GateLaws (RuleEngine.rule_engine_gate display world_of).
Proof.
  split; [done|]. intros w a c overridden ws reason obs. cbn. unfold RuleEngine.check_observed.
  destruct (RuleEngine.scope_chains _ _) as [chains|]; [|done]. cbn [rbind]. intros [= H _].
  unfold RuleEngine.decide_tally, RuleEngine.blocked_decision in H. by destruct (RuleEngine.acting _), (RuleEngine.warnings _).
Qed.

Module ReadinessFacts.
  Import LifecycleGate Handler Dispatch HandlerFacts Readiness.

Section Start.
Context (disp : N -> Str) (up : Str -> option N) (env : Env) (g : LifecycleGate St) `{!GateLaws g}.

(** Starting without an override. *)
Definition start (id : TaskId) : Command := SetStatus id InProgress false None None.

Lemma open_blockers_active t rels id b :
  TaskTableSpec.keyed t ->
  b ∈ map b_task_id (open_blockers t rels id) <-> b ∈ RelationEnforcement.list_active_blockers rels t id.
Proof.
  intros Hk. rewrite RelationFacts.elem_of_active, <- RelationFacts.elem_of_blockers. unfold open_blockers, TaskRepo.get_many.
  rewrite map_map, list_elem_of_fmap. split.
  - intros (x & -> & Hx). rewrite list_elem_of_In, !filter_In, <- list_elem_of_In in Hx.
    destruct Hx as [[(r & -> & Hr)%list_elem_of_fmap Hin] Hd]. bsplit. split; [done|]. exists (TaskRow.task r).
    split; [|done]. apply list_elem_of_fmap in Hr as ([k r'] & -> & Hr%elem_of_map_to_list). cbn.
    assert (Hg : TaskRepo.get t k = Some (TaskRow.task r')) by (unfold TaskRepo.get; by rewrite Hr).
    by rewrite (Hk _ _ Hg).
  - intros (Hb & x & Hx & Hs). exists x. pose proof (Hk _ _ Hx) as Hid. split; [done|].
    rewrite list_elem_of_In, !filter_In, <- list_elem_of_In, Hid. split; [|by rewrite bool_decide_eq_false_2].
    split; [|by apply bool_decide_eq_true]. unfold TaskRepo.get in Hx. apply fmap_Some in Hx as (r & Hr & ->).
    apply list_elem_of_fmap. exists r. split; [done|]. apply list_elem_of_fmap. exists (b, r).
    split; [done|]. by apply elem_of_map_to_list.
Qed.

(** The batch of a start, and the one check it has. *)
Definition start_check (task : Task) : GateCheck :=
  new TaskBeforeStart <| task_id := Some (Task.id task) |> <| status_from := Some (Task.status task) |>
    <| status_to := Some InProgress |> <| pending_statuses := [(Task.id task, InProgress)] |>.
Definition start_batch (task : Task) : list Event :=
  start_of task :: lifecycle_events env (Task.id task) (Task.status task) InProgress.
Lemma start_checks task : derive_gate_checks (start_batch task) = [start_check task].
Proof. unfold start_batch, lifecycle_events. by destruct (Task.status task). Qed.
Lemma dry_checks task : derive_gate_checks [start_of task] = [start_check task].
Proof. done. Qed.

Lemma bind_after {A B} (m : M A) (f : A -> M B) s a s1 : m s = (Ok a, s1) -> (m ≫= f) s = f a s1.
Proof. unfold mbind, M_bind. by intros ->. Qed.
Lemma bind_failed {A B} (m : M A) (f : A -> M B) s e s1 : m s = (Err e, s1) -> (m ≫= f) s = (Err e, s1).
Proof. unfold mbind, M_bind. by intros ->. Qed.

Lemma start_reconciled s task :
  Reconcile.append_plan_reconciliations s (start_batch task) = Some (start_batch task).
Proof.
  unfold Reconcile.append_plan_reconciliations, start_batch, lifecycle_events.
  destruct (Task.status task); cbn; by destruct (size _).
Qed.

(** A start is refused for the pipeline of the task, or its batch is built. *)
Lemma start_events auth id task s :
  TaskTableSpec.keyed (tasks s) -> TaskRepo.get (tasks s) id = Some task -> Task.status task <> InProgress ->
  if Pipeline.direct_status_write_allowed (TaskRepo.pipeline_position (tasks s) id) InProgress
  then command_events disp env auth (start id) s = (Ok (start id, [], start_batch task), s)
  else exists m, command_events disp env auth (start id) s = (Err (Conflict m), s).
Proof.
  intros Hk Ht Hne. pose proof (Hk _ _ Ht) as Hid.
  assert (Hg : get_task id s = (Ok task, s)).
  { unfold get_task. rewrite (bind_after _ _ _ (Some task) s); [done|]. unfold gets. by rewrite Ht. }
  assert (Hp : command_events disp env auth (start id) s =
    (emit_status_transition_events env task InProgress ≫= fun events =>
     (events ← reconcile (map (attribute auth) (with_source (start id) [] events)); mret (start id, [], events))) s).
  { unfold command_events. rewrite (bind_after _ _ _ (start id, [], []) s) by done. cbv beta iota.
    unfold build_events, start, TaskCommands.set_status. unfold mbind, M_bind. rewrite Hg. cbn.
    by destruct (emit_status_transition_events _ _ _ s) as [[es|e] s1]. }
  rewrite Hp. clear Hp. unfold emit_status_transition_events, ensure_direct_status_write. rewrite Hid.
  destruct (Pipeline.direct_status_write_allowed _ InProgress) eqn:D.
  - rewrite (bind_after _ _ _ (start_batch task) s).
    + cbv beta. rewrite (bind_after _ _ _ (start_batch task) s); [done|].
      replace (map _ _) with (start_batch task); [|unfold start_batch, lifecycle_events; by destruct (Task.status task)].
      unfold reconcile. rewrite (bind_after _ _ _ (Some (start_batch task)) s); [done|]. unfold gets. by rewrite start_reconciled.
    + rewrite (bind_after _ _ _ tt s).
      * unfold status_transition_events. rewrite !bool_decide_eq_false_2 by done. unfold when_, mbind, M_bind. cbn. unfold start_batch, start_of. by rewrite app_nil_r.
      * rewrite (bind_after _ _ _ (TaskRepo.pipeline_position (tasks s) id) s) by done. by rewrite D.
  - eexists. apply bind_failed, bind_failed. rewrite (bind_after _ _ _ (TaskRepo.pipeline_position (tasks s) id) s) by done.
    by rewrite D.
Qed.

(** The dry run hears what the dispatch hears. *)
Lemma dry_run s actor task :
  Task.status task <> InProgress ->
  rule_readiness s (Some (g, actor)) task =
  rbind (@check_observed St g s actor (start_check task) no_override) (fun r => Ok (told r.1)).
Proof.
  intros Hne. unfold rule_readiness. rewrite bool_decide_eq_false_2 by done. rewrite dry_checks. cbn [ask].
  rewrite check_observes. destruct (check_observed _ _ _ _) as [[d obs]|e]; [|done]. cbn. by destruct (told d).
Qed.
Lemma blocking_rules_some message details : blocking_rules message details <> [].
Proof.
  unfold blocking_rules, blocked_outcomes. intros H%List.map_eq_nil. by repeat case_match.
Qed.
Lemma told_allows d :
  (told d).1 = [] -> (forall overridden ws reason, d <> Overridden overridden ws reason) ->
  d = Allowed \/ exists ws, d = Warning ws.
Proof.
  destruct d as [|ws|o ws r|m det]; cbn; eauto; [intros _ H; by destruct (H o ws r)|].
  by intros H%blocking_rules_some.
Qed.

(** The gate lets the batch pass exactly when the dry run names no rule. *)
Lemma gate_of_start id s task d obs :
  @check_observed St g s (actor env) (start_check task) no_override = Ok (d, obs) ->
  ((told d).1 <> [] -> exists e, (gate_phase disp up env (Some g) (start id) (start_batch task) s).1 = Err e) /\
  ((told d).1 = [] -> exists gl, gate_phase disp up env (Some g) (start id) (start_batch task) s = (Ok gl, s) /\
     map warning_rule (gate_warnings gl) = (told d).2).
Proof.
  intros Hc. assert (Hn : forall o ws r, d <> Overridden o ws r).
  { intros o ws r ->. by apply plainly_not_overridden in Hc. }
  unfold gate_phase. change (gate_override_of (start id)) with no_override. rewrite start_checks. cbn [run_checks].
  rewrite (bind_after _ _ _ (Ok (d, obs)) s) by (unfold gets; cbv beta; by rewrite Hc). rewrite (bind_after _ _ _ (d, obs) s) by done.
  split.
  - intros Hb. destruct d as [|ws|o ws r|m det]; [done|done|by destruct (Hn o ws r)|]. cbv beta iota zeta.
    unfold mbind at 1, M_bind at 1.
    match goal with |- context [match ?m s with _ => _ end] => destruct (m s) as [[x|e] s1] end; by eexists.
  - intros Hb. destruct (told_allows d Hb Hn) as [->|[ws ->]]; eexists; (split; [reflexivity|]); cbn; [done|]. by rewrite ?app_nil_l.
Qed.

(** The answer of [can_start], in its parts. *)
Lemma answered s id task cs :
  TaskRepo.get (tasks s) id = Some task -> Task.status task <> InProgress ->
  can_start s (tasks s) (relations s) (Some (g, actor env)) id = Ok cs ->
  exists d obs, @check_observed St g s (actor env) (start_check task) no_override = Ok (d, obs) /\
    rule_blockers cs = (told d).1 /\ rule_warnings cs = (told d).2 /\
    blockers cs = open_blockers (tasks s) (relations s) id /\
    ready cs = negb (is_terminal (Task.status task)) && (length (blockers cs) =? 0)%nat && (length (rule_blockers cs) =? 0)%nat.
Proof.
  intros Ht Hne. unfold can_start. rewrite Ht, dry_run by done.
  destruct (check_observed _ _ _ _) as [[d obs]|e] eqn:Hc; [|done]. cbn. destruct (told d) as [b w] eqn:E.
  intros [= <-]. exists d, obs. cbn. by rewrite E.
Qed.
End Start.
End ReadinessFacts.

Section Property.
  Import LifecycleGate Handler Dispatch HandlerFacts Readiness ReadinessFacts.

(** C23: [can_start] forecasts a start.  For a task that is not in progress and any
    gate that answers both its questions alike, ask [can_start] and then start the
    task without an override.  If a rule is named, the command fails.  If none is,
    the gate lets the batch through, with the very warnings forecast, or the status
    of the task belongs to its pipeline.  The open blockers named are those a
    completion would be refused for, and [ready] means that the task is open, that
    none of them is left, and that no rule was named. *)
Theorem can_start_forecasts_start disp up env (g : LifecycleGate St) `{!GateLaws g} auth adm s id task cs :
  TaskTableSpec.keyed (tasks s) -> TaskRepo.get (tasks s) id = Some task -> Task.status task <> InProgress ->
  can_start s (tasks s) (relations s) (Some (g, actor env)) id = Ok cs ->
  (rule_blockers cs <> [] ->
     exists e, (handle_with_run_owner disp up env (Some g) auth adm (start id) s).1 = Err e) /\
  (rule_blockers cs = [] ->
     Pipeline.direct_status_write_allowed (TaskRepo.pipeline_position (tasks s) id) InProgress = true ->
     exists events gl, command_events disp env auth (start id) s = (Ok (start id, [], events), s) /\
       Event.TaskStatusChanged id (Task.status task) InProgress ∈ events /\
       gate_phase disp up env (Some g) (start id) events s = (Ok gl, s) /\
       map warning_rule (gate_warnings gl) = rule_warnings cs) /\
  (forall b, b ∈ map b_task_id (blockers cs) <->
     b ∈ RelationEnforcement.list_active_blockers (relations s) (tasks s) id) /\
  (ready cs = true <-> is_terminal (Task.status task) = false /\ blockers cs = [] /\ rule_blockers cs = []).
Proof.
  intros Hk Ht Hne Hcs. destruct (answered env g _ _ _ _ Ht Hne Hcs) as (d & obs & Hc & -> & -> & Hb & Hr).
  destruct (gate_of_start disp up env g id s task d obs Hc) as [Hblock Hpass].
  pose proof (start_events disp env auth _ _ _ Hk Ht Hne) as He. split_and!.
  - intros Hne'. destruct (Hblock Hne') as [e Hg].
    change (exists e, (dispatch_as disp up env (Some g) auth adm (start id) s).1 = Err e).
    unfold dispatch_as. rewrite (bind_after _ _ _ false s) by done. cbv beta iota.
    destruct (Pipeline.direct_status_write_allowed _ _).
    + rewrite (bind_after _ _ _ _ _ He). cbv beta iota. unfold commit, start_batch. fold (start_batch env task).
      exists e. unfold mbind, M_bind at 1. destruct (gate_phase _ _ _ _ _ _ s) as [[gl|e'] s1]; cbn in Hg |- *; congruence.
    + destruct He as [m He]. eexists. by rewrite (bind_failed _ _ _ _ _ He).
  - intros Hnil Ha. rewrite Ha in He. destruct (Hpass Hnil) as (gl & Hg & Hw). exists (start_batch env task), gl.
    split; [done|]. split; [|done]. unfold start_batch, start_of. rewrite (Hk _ _ Ht). left.
  - intros b. rewrite Hb. by apply open_blockers_active.
  - rewrite Hr, !andb_true_iff, negb_true_iff, !Nat.eqb_eq, !length_zero_iff_nil. tauto.
Qed.
End Property.

(** ** Plans a completion closes *)
Module CloseFacts.
  Import Handler PlanReadiness Reconcile ReconcileSpec ReconcileFacts ReconcileTheorems.

(** Closing another plan leaves the work of a plan done. *)
Lemma work_done_other s ov id j :
  plans_keyed s -> work_done s ov j -> j <> id -> work_done s (close1 ov id) j.
Proof.
  intros Hk [(p & Hp & Hs & Ha) Hne Hm Hc Hr] Hj. constructor; [|done|done| |done].
  - exists p. split; [done|]. split; [|done]. cbn. by rewrite lookup_insert_ne.
  - intros c Hin. unfold status_of in *. cbn. destruct (decide (Plan.id c = id)) as [->|Hid].
    + left. by rewrite lookup_insert_eq.
    + rewrite lookup_insert_ne by done. by apply Hc.
Qed.
Lemma closings_leave s ov es ov' j :
  plans_keyed s -> closings s ov es ov' -> work_done s ov j ->
  work_done s ov' j \/ exists p, PlanRepo.get (plans s) j = Some p /\ Event.PlanStatusChanged j (Plan.status p) Completed ∈ es.
Proof.
  intros Hk. induction 1 as [ov|ov id p es ov' Hp Hw Hes IH]; intros Hj; [by left|].
  destruct (decide (j = id)) as [->|Hne]; [right; exists p; split; [done|left]|].
  destruct (IH (work_done_other _ _ _ _ Hk Hj Hne)) as [?|(q & Hq & Hin)]; [by left|right; exists q; split; [done|by right]].
Qed.
(** What closes had its work done with the tasks and runs of the batch. *)
Lemma closings_due s ov es ov' :
  closings s ov es ov' -> forall e, e ∈ es ->
  exists id p ov1, e = Event.PlanStatusChanged id (Plan.status p) Completed /\ PlanRepo.get (plans s) id = Some p /\
    work_done s ov1 id /\ ended_runs ov1 = ended_runs ov /\
    (forall q, plan_statuses ov1 !! q = plan_statuses ov !! q \/ plan_statuses ov1 !! q = Some Completed).
Proof.
  induction 1 as [ov|ov id p es ov' Hp Hw Hes IH]; intros e; [by intros ?%elem_of_nil|].
  intros [->|Hin]%elem_of_cons; [exists id, p, ov; naive_solver|].
  destruct (IH e Hin) as (id' & p' & ov1 & -> & Hp' & Hw' & Hr & Hst). exists id', p', ov1.
  split; [done|]. split; [done|]. split; [done|]. split; [by rewrite Hr|]. intros q.
  destruct (Hst q) as [-> | ->]; [|by right]. cbn. destruct (decide (q = id)) as [->|Hq].
  - right. by rewrite lookup_insert_eq.
  - left. by rewrite lookup_insert_ne.
Qed.

(** An event reconciliation does not look at. *)
Definition unnoted (e : Event) : Prop :=
  match e with
  | Event.TaskStatusChanged _ _ _ | Event.PlanStatusChanged _ _ _ | Event.PlanArchived _ _
  | Event.RunCompleted _ _ | Event.RunFailed _ _ _ | Event.RunAborted _ _ _ => False
  | _ => True
  end.
Lemma unnoted_fold s rest acc : Forall unnoted rest -> foldl (note_event s) acc rest = acc.
Proof.
  intros H. revert acc. induction H as [|e rest He _ IH]; intros acc; [done|]. cbn. destruct acc as [cands ov]. by destruct e.
Qed.

Section Batch.
  Import HandlerFacts BuildFrame Emits TaskCommands Dispatch ReadinessFacts MutationWarnings.
Context (env : Env) (t : TaskTable) (d : nat).
Lemma unnoted_migrate outgoing : emits t d unnoted (migrate_edges env outgoing).
Proof. induction outgoing; cbn [migrate_edges]; solve_emits. Qed.
Lemma unnoted_cascade id : emits t d unnoted (downstream_cascade env id).
Proof.
  unfold downstream_cascade. apply emits_bind; [solve_framed|intros ?]. apply emits_bind; [solve_framed|intros ?].
  apply emits_bind_events; [solve_framed|apply unnoted_migrate|intros ? ?]. solve_emits.
Qed.
Lemma unnoted_docs id to : emits t d unnoted (close_task_documents env id to).
Proof. unfold close_task_documents. solve_emits. Qed.
Lemma unnoted_comment id body kind : emits t d unnoted (comment_events env id body kind).
Proof. unfold comment_events. solve_emits. Qed.
End Batch.

Section Ending.
  Import HandlerFacts BuildFrame Emits TaskCommands Dispatch ReadinessFacts MutationWarnings.
Context (env : Env).
(** A command that ends one task. *)
Definition ends (cmd : Command) (id : TaskId) (to : Status) : Prop :=
  (exists note, cmd = CompleteTask id note /\ to = Done) \/
  (exists force reason comment, cmd = SetStatus id to force reason comment /\ is_terminal to = true).

Lemma transition_noted x to s es s' :
  Task.status x <> to -> status_transition_events env x to s = (Ok es, s') ->
  exists rest, es = Event.TaskStatusChanged (Task.id x) (Task.status x) to :: rest /\ Forall unnoted rest.
Proof.
  unfold status_transition_events. intros Hne. rewrite bool_decide_eq_false_2 by done.
  intros ([] & s1 & _ & H1)%bind_ok. apply bind_ok in H1 as (cas & s2 & H2 & H1).
  apply bind_ok in H1 as (docs & s3 & H3 & [-> _]%ret_ok). eexists. split; [done|].
  rewrite !Forall_app. split; [unfold lifecycle_events; by repeat case_match; repeat constructor|]. split.
  - eapply emits_run; [|exact H2]. apply emits_when, unnoted_cascade.
  - eapply emits_run; [|exact H3]. apply emits_when, unnoted_docs.
Qed.

Lemma ending_arm disp cmd id to task s es s' :
  ends cmd id to -> TaskTableSpec.keyed (tasks s) -> TaskRepo.get (tasks s) id = Some task ->
  is_terminal (Task.status task) = false -> build_events disp env cmd s = (Ok es, s') ->
  exists rest, es = Event.TaskStatusChanged id (Task.status task) to :: rest /\ Forall unnoted rest.
Proof.
  intros Hcmd Hk Ht Hopen. pose proof (Hk _ _ Ht) as Hid.
  destruct Hcmd as [(note & -> & ->)|(force & reason & comment & -> & Hto)]; cbn [build_events].
  - unfold complete_task. intros (x & s1 & [Hx ->]%get_task_ok & H)%bind_ok. rewrite Ht in Hx. injection Hx as <-.
    apply bind_ok in H as ([] & s2 & _ & H). apply bind_ok in H as ([] & s3 & _ & H). apply bind_ok in H as ([] & s4 & _ & H).
    cbv zeta in H. apply bind_ok in H as (cas & s5 & Hc & H). apply bind_ok in H as (docs & s6 & Hd & [-> _]%ret_ok).
    eexists. split; [reflexivity|]. do 2 (apply Forall_cons; split; [done|]). apply Forall_app. split.
    + eapply emits_run; [|exact Hc]. apply unnoted_cascade.
    + eapply emits_run; [|exact Hd]. apply unnoted_docs.
  - unfold set_status. intros (x & s1 & [Hx ->]%get_task_ok & H)%bind_ok. rewrite Ht in Hx. injection Hx as <-.
    apply bind_ok in H as (note & s2 & _ & H). apply bind_ok in H as (tr & s3 & H1 & H).
    apply bind_ok in H1 as ([] & s4 & _ & H1). apply transition_noted in H1 as (rest & -> & Hr); [|by intros Hst; rewrite Hst, Hto in Hopen].
    rewrite Hid in *. destruct note as [[body kind]|]; [|apply ret_ok in H as [-> _]; eauto].
    apply bind_ok in H as (tail & s5 & Htail & [-> _]%ret_ok). exists (rest ++ tail). split; [done|].
    apply Forall_app. split; [done|]. eapply emits_run; [|exact Htail]. apply unnoted_comment.
Qed.

Lemma unnoted_attributed auth e : unnoted e -> unnoted (attribute auth e).
Proof. by destruct e. Qed.

(** The batch of such a command: the transition, events reconciliation passes
    over, and the plans it closes. *)
Lemma ending_batch disp auth cmd id to task s cmd' ws events s' :
  ends cmd id to -> TaskTableSpec.keyed (tasks s) -> TaskRepo.get (tasks s) id = Some task ->
  is_terminal (Task.status task) = false -> command_events disp env auth cmd s = (Ok (cmd', ws, events), s') ->
  exists rest es s1, events = (Event.TaskStatusChanged id (Task.status task) to :: rest) ++ es /\ Forall unnoted rest /\
    frame s s1 /\ append_plan_reconciliations s1 (Event.TaskStatusChanged id (Task.status task) to :: rest) = Some events.
Proof.
  intros Hcmd Hk Ht Hopen. unfold command_events. intros ([[c w] src] & s0 & Hs & H)%bind_ok.
  assert (Hsrc : c = cmd /\ src = [] /\ s0 = s).
  { by destruct Hcmd as [(note & -> & ->)|(force & reason & comment & -> & Hto)]; apply ret_ok in Hs as [[= -> _ ->] ->]. }
  destruct Hsrc as (-> & -> & ->). apply bind_ok in H as (es & s1 & Hb & H).
  apply bind_ok in H as (es' & s2 & Hr & [[= _ _ ->] _]%ret_ok).
  pose proof (framed_ok _ _ _ _ (build_framed disp env cmd) Hb) as Hf.
  destruct (ending_arm _ _ _ _ _ _ _ _ Hcmd Hk Ht Hopen Hb) as (rest & -> & Hrest).
  unfold reconcile in Hr. apply bind_ok in Hr as (o & s3 & [-> ->]%gets_ok & [Ho ->]%some_or_ok).
  assert (Hw : map (attribute auth) (with_source cmd [] (Event.TaskStatusChanged id (Task.status task) to :: rest))
             = Event.TaskStatusChanged id (Task.status task) to :: map (attribute auth) rest).
  { unfold with_source. by destruct (_ || _). }
  rewrite Hw in Ho. pose proof Ho as Ho'. unfold append_plan_reconciliations in Ho'.
  destruct (collect _ _) as [cands ov]. apply fmap_Some in Ho' as (es & _ & ->).
  exists (map (attribute auth) rest), es, s1. split; [done|]. split; [|done].
  apply Forall_map. eapply Forall_impl; [exact Hrest|]. apply unnoted_attributed.
Qed.

(** What the batch tells reconciliation: the task counts as ended. *)
Definition ended (id : TaskId) (to : Status) : Overlay := mkOverlay {[ id := to ]} ∅ ∅.
Lemma ending_collected s id from to rest :
  is_terminal to = true -> Forall unnoted rest ->
  collect s (Event.TaskStatusChanged id from to :: rest)
  = (map Plan.id (PlanRepo.list_plans_for_task (plans s) id), ended id to).
Proof. intros Hto Hrest. unfold collect. cbn [foldl note_event]. rewrite Hto. cbn. by rewrite unnoted_fold. Qed.

Lemma warned_plan disp s id p plan w :
  PlanRepo.get (plans s) p = Some plan -> plan_close_warning disp s id p = Some w ->
  Plan.status plan = Draft \/ Plan.status plan = Active /\ RunRepo.list_active_for_plan (runs s) p <> [].
Proof.
  intros Hp. unfold plan_close_warning. rewrite Hp. unfold mbind, option_bind.
  destruct (_ || _) eqn:E; [done|]. destruct (plan_ready_to_close _ _); cbn [negb]; [|done].
  apply orb_false_iff in E as [_ E]. apply negb_false_iff, orb_true_iff in E.
  destruct (bool_decide (Plan.status plan = Draft)) eqn:D; bsplit; [by left|]. destruct E as [?|E]; [done|]. bsplit.
  intros Hw. right. split; [done|]. intros Hn. by rewrite Hn in Hw.
Qed.
Lemma unwarned_plan disp s id p plan :
  PlanRepo.get (plans s) p = Some plan -> Plan.status plan = Active -> Plan.archived_at plan = None ->
  plan_ready_to_close (member_statuses s id p) (map Plan.status (PlanRepo.list_children (plans s) p)) = true ->
  plan_close_warning disp s id p = None -> RunRepo.list_active_for_plan (runs s) p = [].
Proof.
  intros Hp Hs Ha Hr. unfold plan_close_warning. rewrite Hp. unfold mbind, option_bind. rewrite Hs, Ha, Hr.
  by destruct (RunRepo.list_active_for_plan _ _).
Qed.

Lemma counted_done s id to task p plan :
  TaskTableSpec.keyed (tasks s) -> TaskRepo.get (tasks s) id = Some task -> is_terminal to = true ->
  PlanRepo.get (plans s) p = Some plan -> Plan.status plan = Active -> Plan.archived_at plan = None ->
  plan_ready_to_close (member_statuses s id p) (map Plan.status (PlanRepo.list_children (plans s) p)) = true ->
  RunRepo.list_active_for_plan (runs s) p = [] -> work_done s (ended id to) p.
Proof.
  intros Hk Ht Hto Hp Hs Ha (Hne & Hm & Hc)%ready_to_close_iff Hr. constructor.
  - by exists plan.
  - intros Hn. unfold member_statuses in Hne. by rewrite Hn in Hne.
  - intros m Hin. destruct (Hm (if bool_decide (PlanTask.task_id m = id) then Some Done
        else Task.status <$> TaskRepo.get (tasks s) (PlanTask.task_id m))) as (st & Hst & Hterm).
    { unfold member_statuses. apply list_elem_of_fmap. by exists m. }
    unfold member_status. case_bool_decide as Hid.
    + rewrite Hid, Ht. cbn. rewrite (Hk _ _ Ht), lookup_singleton_eq. by exists to.
    + apply fmap_Some in Hst as (x & Hx & ->). rewrite Hx. cbn.
      rewrite (Hk _ _ Hx), lookup_singleton_ne by congruence. by exists (Task.status x).
  - intros c Hin. unfold status_of. cbn. rewrite lookup_empty. cbn. apply Hc. apply list_elem_of_fmap. by exists c.
  - intros r Hin. rewrite Hr in Hin. by apply elem_of_nil in Hin.
Qed.
End Ending.
End CloseFacts.

Section Property.
  Import Handler PlanReadiness Reconcile ReconcileSpec ReconcileTheorems Dispatch HandlerFacts MutationWarnings CloseFacts.

(** C24: the advice about closing plans is exact.  When a command ends a task that
    was open, each plan of the task is foretold: a plan there is a warning about --
    a draft, or one with a run that is still active -- is not closed by the batch,
    and an active plan whose other members and children are finished and that no
    warning names is. *)
Theorem plan_close_warnings_exact disp disp' env auth cmd id to task s cmd' ws events s' p plan :
  plans_keyed s -> TaskTableSpec.keyed (tasks s) -> runs_keyed s ->
  ends cmd id to -> TaskRepo.get (tasks s) id = Some task -> is_terminal (Task.status task) = false ->
  command_events disp env auth cmd s = (Ok (cmd', ws, events), s') ->
  p ∈ map Plan.id (PlanRepo.list_plans_for_task (plans s) id) -> PlanRepo.get (plans s) p = Some plan ->
  (forall w from to', plan_close_warning disp' s id p = Some w -> Event.PlanStatusChanged p from to' ∉ events) /\
  (Plan.status plan = Active -> Plan.archived_at plan = None ->
   plan_ready_to_close (member_statuses s id p) (map Plan.status (PlanRepo.list_children (plans s) p)) = true ->
   plan_close_warning disp' s id p = None -> Event.PlanStatusChanged p Active Completed ∈ events).
Proof.
  intros Hkp Hkt Hkr Hcmd Ht Hopen He Hin Hp.
  assert (Hto : is_terminal to = true) by (by destruct Hcmd as [(? & _ & ->)|(? & ? & ? & _ & ?)]).
  destruct (ending_batch _ _ _ _ _ _ _ _ _ _ _ _ Hcmd Hkt Ht Hopen He) as (rest & es & s1 & -> & Hrest & Hf & Hrec).
  unfold append_plan_reconciliations in Hrec. rewrite ending_collected in Hrec by done.
  apply fmap_Some in Hrec as (es' & Hd & Hes%app_inv_head). subst es'.
  pose proof (frame_tasks _ _ Hf) as Et. pose proof (frame_plans _ _ Hf) as Ep. pose proof (frame_runs _ _ Hf) as Er.
  assert (Hkp1 : plans_keyed s1) by (unfold plans_keyed; by rewrite Ep).
  destruct (drain_settles _ _ _ _ _ Hkp1 Hd) as (ov & Hc & Hset). rewrite <- Ep in Hp, Hin.
  split.
  - intros w from to' Hw Hin'. apply elem_of_app in Hin' as [[|Hin']%elem_of_cons|Hin']; [done|rewrite Forall_forall in Hrest; by apply Hrest in Hin'|].
    destruct (closings_due _ _ _ _ Hc _ Hin') as (q & pl & ov1 & [= <- _ _] & Hq & Hdone & Hr & Hst).
    rewrite Hp in Hq. injection Hq as <-. rewrite Ep in Hp.
    destruct (warned_plan _ _ _ _ _ _ Hp Hw) as [Hs|[Hs Hruns]]; destruct Hdone as [(pl & Hpl & Ha & _) _ _ _ Hwr].
    + rewrite Ep, Hp in Hpl. injection Hpl as <-. destruct (Hst p) as [E|E]; rewrite E in Ha; cbn in Ha; [|done].
      rewrite lookup_empty, Hs in Ha. done.
    + rewrite Er in Hwr. destruct (RunRepo.list_active_for_plan (runs s) p) as [|r l]; [done|].
      specialize (Hwr r ltac:(left)). by rewrite Hr in Hwr.
  - intros Hs Ha Hready Hno. rewrite Ep in Hp.
    pose proof (unwarned_plan _ _ _ _ _ Hp Hs Ha Hready Hno) as Hruns.
    pose proof (counted_done _ _ _ _ _ _ Hkt Ht Hto Hp Hs Ha Hready Hruns) as Hwork.
    assert (Hwork1 : work_done s1 (ended id to) p).
    { destruct Hf as [-> _]. by destruct Hwork. }
    apply elem_of_app. right. destruct (closings_leave _ _ _ _ _ Hkp1 Hc Hwork1) as [Hw|(q & Hq & Hin')].
    + exfalso. eapply Hset; [|exact Hw]. intros _. exact Hin.
    + rewrite Ep, Hp in Hq. injection Hq as <-. by rewrite Hs in Hin'.
Qed.
End Property.

(** ** Concrete runs

    The family of plans of [Reconcile]: task 20 of plan 2 is open, task 10 of its
    parent is done.  [ruled] adds a required rule about starts. *)
Definition ruled : Handler.St := family <| Handler.rules := guarded |>.
Definition ruled_start : Readiness.CanStart :=
  match Readiness.can_start ruled (Handler.tasks ruled) (Handler.relations ruled)
          (Some (Dispatch.rule_gate Fixtures.demo_display, ActorOps.user)) (mkId 20) with
  | Ok cs => cs
  | Err _ => Readiness.mkCanStart false [] [] [] []
  end.
#[export] Instance rule_gate_laws display : GateLaws (Dispatch.rule_gate display) := rule_engine_laws display Dispatch.rule_world.

Lemma can_start_forecasts_start_witness :
  Readiness.ready ruled_start = false /\ Readiness.reason ruled_start = lit "blocked_by_1_rule(s)" /\
  exists e, (Dispatch.handle_with_run_owner Fixtures.demo_display Fixtures.demo_parse Fixtures.demo_env
    (Some (Dispatch.rule_gate Fixtures.demo_display)) None false (ReadinessFacts.start (mkId 20)) ruled).1 = Err e.
Proof.
  split; [vm_compute; reflexivity|]. split; [vm_compute; reflexivity|].
  destruct (can_start_forecasts_start Fixtures.demo_display Fixtures.demo_parse Fixtures.demo_env
    (Dispatch.rule_gate Fixtures.demo_display) None false ruled (mkId 20) (TaskRow.task (demo_todo 20)) ruled_start)
    as (H & _).
  - apply Fixtures.keyed_rows_ok. refine (bool_decide_unpack _ _). vm_compute. exact I.
  - reflexivity.
  - done.
  - vm_compute. reflexivity.
  - apply H. vm_compute. discriminate.
Defined.

(** Task 20 is completed; in [held] a run keeps its plan open. *)
Definition held : Handler.St :=
  family <| Handler.runs := RunRepo.mk {[ mkId 7 := demo_run <| Run.plan_id := mkId 2 |> ]} [] |>.
Definition completed (s : Handler.St) : Result CoreError (Dispatch.Command * list LifecycleGate.MutationWarning * list Event) * Handler.St :=
  Dispatch.command_events Fixtures.demo_display Fixtures.demo_env None (Dispatch.CompleteTask (mkId 20) None) s.
Definition completed_batch (s : Handler.St) : list Event :=
  match (completed s).1 with Ok p => p.2 | Err _ => [] end.

Lemma plan_close_warnings_exact_witness :
  completed family = (Ok (Dispatch.CompleteTask (mkId 20) None, [], completed_batch family), (completed family).2) /\
  Event.PlanStatusChanged (mkId 2) Active Completed ∈ completed_batch family.
Proof.
  assert (E : completed family = (Ok (Dispatch.CompleteTask (mkId 20) None, [], completed_batch family), (completed family).2))
    by (vm_compute; reflexivity).
  split; [exact E|].
  destruct (plan_close_warnings_exact Fixtures.demo_display Fixtures.demo_display Fixtures.demo_env None
    (Dispatch.CompleteTask (mkId 20) None) (mkId 20) Done (TaskRow.task (demo_todo 20)) family
    (Dispatch.CompleteTask (mkId 20) None) [] (completed_batch family) (completed family).2
    (mkId 2) (demo_plan 2 (Some (mkId 1)))) as [_ H].
  - refine (bool_decide_unpack _ _). vm_compute. exact I.
  - apply Fixtures.keyed_rows_ok. refine (bool_decide_unpack _ _). vm_compute. exact I.
  - refine (bool_decide_unpack _ _). vm_compute. exact I.
  - left. by exists None.
  - reflexivity.
  - reflexivity.
  - exact E.
  - vm_compute. left.
  - reflexivity.
  - apply H; vm_compute; reflexivity.
Defined.

Example held_plan_is_foretold :
  map LifecycleGate.w_code (MutationWarnings.plan_close_warnings Fixtures.demo_display held (mkId 20))
    = [lit "plan_close_blocked_by_run"] /\
  existsb (fun e => match e with Event.PlanStatusChanged _ _ _ => true | _ => false end) (completed_batch held) = false.
Proof. split; vm_compute; reflexivity. Qed.

(** [can_start] does not ask about the pipeline of a task: it reports a managed
    task as ready although its status cannot be written directly. *)
Definition managed : Handler.St :=
  family <| Handler.tasks := TaskRepo.mk
    {[ mkId 20 := demo_todo 20 <| TaskRow.position := Some (Fixtures.demo_stage 0 "planner" 1) |> ]} ∅ |>.
Lemma managed_task_seems_ready :
  exists cs m, Readiness.can_start managed (Handler.tasks managed) (Handler.relations managed)
    (Some (Dispatch.rule_gate Fixtures.demo_display, ActorOps.user)) (mkId 20) = Ok cs /\
  Readiness.ready cs = true /\
  (Dispatch.handle_with_run_owner Fixtures.demo_display Fixtures.demo_parse Fixtures.demo_env
    (Some (Dispatch.rule_gate Fixtures.demo_display)) None false (ReadinessFacts.start (mkId 20)) managed).1 = Err (Conflict m).
Proof.
  eexists _, _. split; [vm_compute; reflexivity|]. split; [reflexivity|]. vm_compute. reflexivity.
Qed.
