(* ===== verification/ProjectScope.v ===== *)
(** * Tokens restricted to projects

    [ProjectScope] is the boundary of apps/server/src/routes/project_scope.rs: what
    a token whose [ProjectFilter] names projects may reach, decided from the
    projections before a request runs.  [CommandEndpoint] is [POST /v1/commands]
    around it.  The theorem confines such a token: no command it gets through the
    boundary touches a task outside its projects. *)

From S2P Require Import Prelude Shared TaskModel PlanModel SourceRef RegistryModel Events Gate TaskStore RelationStore PlanStore SourceChain SourcePolicy RunStore PlanLogic RuleStore WorkStore Auth Handler SourceIntake AuthLayer TaskCommands PlanCommands RunCommands RegistryCommands Reconcile Dispatch HandlerFacts Projection TaskLifecycle TaskRows Fixtures Readiness.

(** ** plan_repo.rs: chains of sources and the plans under them *)
Module SourceQueries.
(** The recursive query: nearest first, [UNION ALL], at most [fuel] nodes. *)
Fixpoint chain_up (t : PlanTables) (fuel : nat) (ref : Str) : list SourceNode :=
  match fuel with
  | O => []
  | S fuel =>
      match PlanRepo.get_source t ref with
      | None => []
      | Some node => node :: match SourceNode.upstream_ref node with
                             | Some up => chain_up t fuel up
                             | None => []
                             end
      end
  end.
Definition source_chain (t : PlanTables) (ref : Str) : list SourceNode := chain_up t SourceRef.SOURCE_CHAIN_MAX ref.
Definition list_by_source (t : PlanTables) (project_id : option ProjectId) (ref : Str) : list Plan :=
  let down := SourcePolicy.refs_below t SourceRef.SOURCE_CHAIN_MAX ref in
  sort_by PlanRepo.by_created
    (List.filter (fun p =>
       match Plan.source_ref p with Some r => bool_decide (r ∈ down) | None => false end
       && match project_id with Some id => bool_decide (Plan.project_id p = id) | None => true end)
       (PlanRepo.all_plans t)).
End SourceQueries.

Module ProjectScope.
  Import Handler Dispatch SourceQueries.

Definition denied : CoreError := Forbidden "this operation requires workspace-wide access".

(** routes/mod.rs *)
Definition project_visible (auth : AuthContext) (project_id : option ProjectId) : bool :=
  match TokenScope.projects (AuthContext.scope auth) with
  | All => true
  | f => match project_id with Some id => TokenScope.allows f (Some id) | None => false end
  end.
Definition require_project_scope (auth : AuthContext) (project_id : option ProjectId) : Result CoreError unit :=
  if project_visible auth project_id then Ok tt else Err (Forbidden "project access denied").
Definition require_plan_scope (s : St) (auth : AuthContext) (plan_id : PlanId) : Result CoreError unit :=
  match TokenScope.projects (AuthContext.scope auth) with
  | All => Ok tt
  | _ => match PlanRepo.get (plans s) plan_id with
         | Some plan => require_project_scope auth (Some (Plan.project_id plan))
         | None => Ok tt
         end
  end.

(** [a?; b] and a loop of such steps. *)
Definition then_ (a b : Result CoreError unit) : Result CoreError unit := rbind a (fun _ => b).
Fixpoint each {A} (f : A -> Result CoreError unit) (l : list A) : Result CoreError unit :=
  match l with
  | [] => Ok tt
  | x :: l => then_ (f x) (each f l)
  end.
Definition opt {A} (f : A -> Result CoreError unit) (o : option A) : Result CoreError unit :=
  match o with Some x => f x | None => Ok tt end.
Definition found {A} (o : option A) (f : A -> Result CoreError unit) : Result CoreError unit :=
  match o with Some x => f x | None => Err denied end.

Section Scope.
Context (uuid_display : N -> Str) (env : Env) (s : St) (auth : AuthContext).

Definition task_scope (id : TaskId) (include_history : bool) : Result CoreError unit :=
  found (TaskRepo.get (tasks s) id) (fun t =>
  then_ (require_project_scope auth (Task.project_id t))
  (then_ (each (fun p => require_project_scope auth (Some (Plan.project_id p)))
            (PlanRepo.list_plans_for_task (plans s) id))
  (each (fun rel =>
     if negb include_history && bool_decide (Relation.kind rel = WasBlocking) then Ok tt
     else each (fun other => found (TaskRepo.get (tasks s) other) (fun t =>
                               require_project_scope auth (Task.project_id t)))
            [Relation.from rel; Relation.to rel])
     (RelationRepo.list_by_task (relations s) id)))).
Definition task (id : TaskId) : Result CoreError unit := task_scope id false.

Definition source_scope (source : Str) : Result CoreError unit :=
  match SourceRef.normalize_source_ref source with
  | Err _ => Err denied
  | Ok source =>
      each (fun node =>
        match list_by_source (plans s) None (SourceNode.source_ref node) with
        | [] => Err denied
        | owners => each (fun owner => require_project_scope auth (Some (Plan.project_id owner))) owners
        end) (source_chain (plans s) source)
  end.

Definition plan (id : PlanId) : Result CoreError unit :=
  found (PlanRepo.get (plans s) id) (fun p =>
  then_ (require_project_scope auth (Some (Plan.project_id p)))
  (then_ (opt (require_plan_scope s auth) (Plan.parent_plan_id p))
  (then_ (each (fun child => require_project_scope auth (Some (Plan.project_id child)))
            (PlanRepo.list_children (plans s) id))
  (then_ (opt source_scope (Plan.source_ref p))
  (each (fun member => then_ (task (PlanTask.task_id member)) (each task (PlanTask.depends_on member)))
     (PlanRepo.list_tasks_ordered (plans s) id)))))).

(** The runs from one up its parents; [None] is fuel exhausted. *)
Fixpoint run_up (fuel : nat) (seen : gset RunId) (next : option RunId) : option (Result CoreError unit) :=
  match next with
  | None => Some (Ok tt)
  | Some id =>
      match fuel with
      | O => None
      | S fuel =>
          if bool_decide (id ∈ seen) then Some (Err denied)
          else match RunRepo.get (runs s) id with
               | None => Some (Err denied)
               | Some r =>
                   match then_ (plan (Run.plan_id r))
                           (each (fun step => task (RunStep.task_id step)) (RunRepo.list_steps (runs s) id)) with
                   | Err e => Some (Err e)
                   | Ok _ => run_up fuel ({[id]} ∪ seen) (Run.parent_run_id r)
                   end
               end
      end
  end.
Definition run (id : RunId) : Result CoreError unit :=
  default (Err (Storage "out of fuel")) (run_up (S (size (RunRepo.runs (runs s)))) ∅ (Some id)).

Definition new_task (t : NewTask) (project : option ProjectId) : Result CoreError unit :=
  then_ (require_project_scope auth project)
  (then_ (opt (fun id => match TaskRepo.get (tasks s) id with Some _ => task id | None => Ok tt end) (NewTask.id t))
  (opt (fun key => match TaskRepo.find_by_external_key (tasks s) (trim key) with
                   | Some existing => task (Task.id existing)
                   | None => Ok tt
                   end) (NewTask.external_key t))).

(** [pending.pop()]: the node, then its upstream nodes from the last. *)
Fixpoint inputs (node : SourceInput) : list Str :=
  match si_source_ref node with Some r => [r] | None => [] end
  ++ (fix below (l : list SourceInput) : list Str :=
        match l with [] => [] | n :: l => below l ++ inputs n end) (si_upstream node).
Definition new_plan (p : NewPlan) : Result CoreError unit :=
  then_ (require_project_scope auth (Some (NewPlan.project_id p)))
  match (SourceIntake.resolve_plan_source uuid_display env p s).1 with
  | Err _ => Err denied
  | Ok (resolved, _, events) =>
      then_ (opt (require_plan_scope s auth) (NewPlan.parent_plan_id resolved))
      (then_ (opt source_scope (NewPlan.source_ref resolved))
      (then_ (each (fun e => match e with
                             | Event.SourceUpserted node =>
                                 then_ (source_scope (SourceNode.source_ref node))
                                       (opt source_scope (SourceNode.upstream_ref node))
                             | _ => Ok tt
                             end) events)
      (then_ (opt source_scope (NewPlan.source_ref p))
      (opt (fun source => each source_scope (inputs source)) (NewPlan.source p)))))
  end.

Definition rule_scope (scope : RuleScope) : Result CoreError unit :=
  match scope with
  | ScopeTenant => Err denied
  | ScopeProject id => require_project_scope auth (Some id)
  | ScopePlan id => plan id
  | ScopeTask id => task id
  end.

Definition option_list {A} (o : option A) : list A := match o with Some x => [x] | None => [] end.

Definition command (cmd : Command) : Result CoreError unit :=
  match cmd with
  | CreateTask t => new_task t (NewTask.project_id t)
  | UpdateTask id patch => then_ (task id) (opt (require_project_scope auth) (TaskPatch.project_id patch))
  | DeleteTask id => task_scope id true
  | CompleteTask id _ | SetStatus id _ _ _ _ | SetPriority id _ | AdvancePipeline id _
  | ClosePipelineStage id _ _ _ => task id
  | BulkSetStatus ids _ => each task ids
  | MaterializePlan p ts plan_id =>
      then_ (new_plan p) (then_ (opt plan plan_id) (then_ (opt plan (NewPlan.parent_plan_id p))
      (each (fun t => new_task t (or_else (NewTask.project_id t) (Some (NewPlan.project_id p)))) ts)))
  | CreatePlan p external_ref =>
      match external_ref with
      | Some _ => Err denied
      | None => then_ (new_plan p) (opt plan (NewPlan.parent_plan_id p))
      end
  | UpdatePlan id patch => then_ (plan id) (opt (opt plan) (PlanPatch.parent_plan_id patch))
  | AmendPlanTask plan_id task_id patch =>
      then_ (plan plan_id) (then_ (task task_id) (opt (require_project_scope auth) (TaskPatch.project_id patch)))
  | ArchivePlan id | DeletePlan id => plan id
  | SetPlanGoal plan_id _ | SetPlanStatus plan_id _ _ _ => plan plan_id
  | AddPlanTask plan_id task_id _ depends_on =>
      then_ (plan plan_id) (then_ (task task_id) (each task (default [] depends_on)))
  | RemovePlanTask plan_id task_id => then_ (plan plan_id) (task task_id)
  | BulkAttachToPlan plan_id task_ids | ReorderPlan plan_id task_ids => then_ (plan plan_id) (each task task_ids)
  | AddComment c =>
      then_ (task (nc_task_id c))
      (each (fun id =>
         match CommentRepo.get (comments s) id with
         | Some x => task (Comment.task_id x)
         | None => if bool_decide (nc_id c = Some id) then Ok tt else Err denied
         end) (option_list (nc_id c) ++ option_list (nc_parent_id c)))
  | EditComment id _ | DeleteComment id => found (CommentRepo.get (comments s) id) (fun c => task (Comment.task_id c))
  | LinkTasks from to _ => then_ (task from) (task to)
  | StartRun plan_id _ parent => then_ (plan plan_id) (opt run parent)
  | RunStartStep run_id task_id | RunFinishStep run_id task_id _ => then_ (run run_id) (task task_id)
  | CompleteRun run_id | FailRun run_id _ | AbortRun run_id _ | AppendRunNote run_id _ => run run_id
  | AcquireClaim _ task_id _ _ | ReleaseClaim _ task_id | ReleaseFiles _ task_id _ => task task_id
  | RecordEvidence e =>
      then_ (rule_scope (Evidence.ne_scope e))
      (then_ (each (fun id => match EvidenceRepo.get (evidence s) id with
                              | Some existing => rule_scope (Evidence.scope existing)
                              | None => Ok tt
                              end) (option_list (Evidence.ne_id e) ++ option_list (Evidence.ne_supersedes e)))
      (then_ (opt (fun id => require_project_scope auth (Some id)) (Evidence.ne_project_id e))
      (then_ (opt plan (Evidence.ne_plan_id e))
      (then_ (opt task (Evidence.ne_task_id e))
      (then_ (opt run (Evidence.ne_run_id e))
      match Evidence.ne_artifact_id e, Evidence.ne_rule_id e with
      | None, None => Ok tt
      | _, _ => Err denied
      end)))))
  | UpdateProject id _ _ | DeleteProject id => require_project_scope auth (Some id)
  | UpdateProjectSettings id _ _ _ => require_project_scope auth (Some id)
  | _ => Err denied
  end.
End Scope.
End ProjectScope.

(** ** [POST /v1/commands] *)
Module CommandEndpoint.
  Import Handler Dispatch ProjectScope.

Definition guarded_command_reason (cmd : Command) : option string :=
  match cmd with
  | StartRun _ _ _ | RunStartStep _ _ | RunFinishStep _ _ _ | CompleteRun _ | FailRun _ _ | AbortRun _ _
  | AppendRunNote _ _ | SendRunSignal _ _ | RespondRunSignal _ _ | AcquireClaim _ _ _ _ | ReleaseClaim _ _
  | ArchivePlan _ | DeletePlan _ | SetPlanStatus _ Completed _ _ | SetPlanStatus _ Abandoned _ _ =>
      Some "command requires its guarded canonical endpoint"%string
  | _ => None
  end.

Definition capability_for_command (cmd : Command) : Capability :=
  match cmd with
  | CreateTask _ | UpdateTask _ _ | CompleteTask _ _ | DeleteTask _ | SetStatus _ _ _ _ _ | SetPriority _ _
  | AdvancePipeline _ _ | ClosePipelineStage _ _ _ _ | SplitTask _ _ | BulkSetStatus _ _ => TaskWrite
  | CreateProject _ _ | UpdateProjectSettings _ _ _ _ | UpdateProject _ _ _ | DeleteProject _
  | CreateRule _ | UpdateRule _ _ | DisableRule _ | DeleteRule _ | RecordEvidence _
  | RegisterArtifact _ | UpdateArtifact _ _ _ | CommitArtifactWrite _ _ _ _ | DeprecateArtifact _ _
  | AddArtifactRelation _ _ _ | RemoveArtifactRelation _ _ _ | AssignArtifactOwner _ _ | ChangeArtifactStatus _ _
  | ProposeRoleArtifact _ _ _ _ _ _ _ | SetRoleArtifactStatus _ _ => ProjectWrite
  | RecordAgentAction _ => AgentDispatch
  | AddComment _ | EditComment _ _ | DeleteComment _ => CommentWrite
  | CreatePlan _ _ | MaterializePlan _ _ _ | ExtendSource _ _ _ _ | UpdatePlan _ _ | AmendPlanTask _ _ _
  | ArchivePlan _ | DeletePlan _ | AddPlanTask _ _ _ _ | RemovePlanTask _ _ | ReorderPlan _ _ | SetPlanGoal _ _
  | SetPlanStatus _ _ _ _ | BulkAttachToPlan _ _ => PlanWrite
  | StartRun _ _ _ | RunStartStep _ _ | RunFinishStep _ _ _ | CompleteRun _ | FailRun _ _ | AbortRun _ _
  | AppendRunNote _ _ | SendRunSignal _ _ | RespondRunSignal _ _ | AcquireClaim _ _ _ _ | ReleaseClaim _ _
  | ReserveFiles _ | ReleaseFiles _ _ _ | CompleteWorkUnit _ _ _ _ | ReleaseWorkUnit _ | SetWorkUnitStatus _ _ _
  | RequestHandoff _ | AcceptHandoff _ _ | RejectHandoff _ _ _ => RunWrite
  | CreateWorkUnit _ => TaskWrite
  | StartAgentSession _ _ _ | EndAgentSession _ | UpdateAgentSessionPlan _ _ | AttachSessionArtifact _ _ _ _ =>
      AgentDispatch
  | LinkTasks _ _ _ | UnlinkTasks _ => TaskRelationWrite
  | CreateDocument _ | ReplaceDocumentContent _ _ | AppendDocumentContent _ _ | RenameDocument _ _
  | ArchiveDocument _ | SetDocumentStatus _ _ | LinkDocumentToTask _ _ => DocumentWrite
  end.

Section Endpoint.
Context (uuid_display : N -> Str) (uuid_parse : Str -> option N).

(** [guard], for this route: [seen] is the environment the boundary runs in. *)
Definition boundary (seen : Env) (auth : AuthContext) (client_command_id : option N) (cmd : Command) (s : St)
  : Result CoreError unit :=
  match TokenScope.projects (AuthContext.scope auth) with
  | All => Ok tt
  | _ => match client_command_id with
         | Some _ => Err denied
         | None => command uuid_display seen s auth cmd
         end
  end.

(** [dispatch_command]: [env] carries the actor of the request. *)
Definition dispatch_command (env : Env) (gate : option (LifecycleGate.LifecycleGate St)) (auth : AuthContext)
    (cmd : Command) : M (list LifecycleGate.MutationWarning * list EventEnvelope) :=
  match guarded_command_reason cmd with
  | Some reason => fail (Forbidden reason)
  | None =>
      _ ← lift (Revocation.require auth (capability_for_command cmd));
      ws ← (fun s => (MutationWarnings.mutation_warnings uuid_display s cmd, s));
      out ← handle_with_run_owner uuid_display uuid_parse env gate (Some (AuthContext.agent_id auth))
              (Capabilities.has (TokenScope.capabilities (AuthContext.scope auth)) Admin) cmd;
      mret (ws ++ out_warnings out, out_events out)
  end.
Definition post_commands (seen env : Env) (gate : option (LifecycleGate.LifecycleGate St)) (auth : AuthContext)
    (client_command_id : option N) (cmd : Command) : M (list LifecycleGate.MutationWarning * list EventEnvelope) :=
  fun s => match boundary seen auth client_command_id cmd s with
           | Err e => (Err e, s)
           | Ok _ => dispatch_command env gate auth cmd s
           end.
End Endpoint.
End CommandEndpoint.

(** ** What the boundary lets through *)
Module ScopeFacts.
  Import Handler Dispatch ProjectScope CommandEndpoint TaskRows Avoiding.

Lemma then_ok a b : then_ a b = Ok tt <-> a = Ok tt /\ b = Ok tt.
Proof. unfold then_. destruct a as [[]|e]; cbn; [tauto|]. by split; [|intros []]. Qed.
Lemma each_ok {A} (f : A -> Result CoreError unit) l : each f l = Ok tt <-> forall x, x ∈ l -> f x = Ok tt.
Proof.
  induction l as [|x l IH]; cbn [each].
  - split; [by intros _ x ?%elem_of_nil|done].
  - rewrite then_ok, IH. split.
    + intros [Hx Hl] y [->|Hy]%elem_of_cons; auto.
    + intros H. split; [apply H; left|intros y Hy; apply H; by right].
Qed.
Lemma opt_ok {A} (f : A -> Result CoreError unit) o : opt f o = Ok tt <-> forall x, o = Some x -> f x = Ok tt.
Proof. destruct o; cbn; [|done]. split; [by intros H y [= <-]|by intros H; apply H]. Qed.

Section Confined.
Context (disp : N -> Str) (seen : Env) (s : St) (auth : AuthContext) (k : TaskId).

(** A task outside the projects of the token. *)
Definition outside : Prop :=
  exists x, TaskRepo.get (tasks s) k = Some x /\ project_visible auth (Task.project_id x) = false.

Lemma task_inside id history : outside -> task_scope s auth id history = Ok tt -> id <> k.
Proof.
  intros (x & Hx & Hv) H ->. unfold task_scope, found, require_project_scope in H. by rewrite Hx, Hv in H.
Qed.
Lemma tasks_inside ids : outside -> each (task s auth) ids = Ok tt -> k ∉ ids.
Proof. intros Ho H Hin. rewrite each_ok in H. by eapply (task_inside k false); [done|apply H|]. Qed.
Lemma new_task_inside n p : outside -> new_task s auth n p = Ok tt -> clear (tasks s) k n.
Proof.
  intros Ho. unfold new_task. rewrite !then_ok, !opt_ok. intros (_ & Hid & Hkey). split.
  - intros E. specialize (Hid _ E). cbn in Hid. destruct Ho as (x & Hx & Hv). rewrite Hx in Hid.
    eapply task_inside; [by exists x|exact Hid|done].
  - intros key x E Hf. specialize (Hkey _ E). cbn in Hkey. rewrite Hf in Hkey. by eapply task_inside.
Qed.

Lemma command_avoids cmd : outside -> command disp seen s auth cmd = Ok tt -> avoids (tasks s) k cmd.
Proof.
  intros Ho. destruct cmd; cbn [command avoids]; try done; rewrite ?then_ok.
  all: try (intros H; by eapply task_inside).
  all: try (intros [H _]; by eapply task_inside).
  all: try (intros [_ H]; by eapply tasks_inside).
  all: try (intros (_ & H & _); by eapply task_inside).
  - intros H. by eapply new_task_inside in H as [? _].
  - intros H. by apply tasks_inside.
  - intros (_ & _ & _ & H). rewrite each_ok in H. apply Forall_forall. intros n Hn. by eapply new_task_inside, H.
Qed.
End Confined.
End ScopeFacts.

Section Property.
  Import Handler Dispatch ProjectScope CommandEndpoint TaskRows ScopeFacts.

(** C10: a token restricted to projects stays in them.  Whatever command is posted
    with it, and whatever is answered -- denied, refused, done or failed half-way --
    the row of a task outside its projects, or in none, stays as it was, status,
    position, project and all; and a command the boundary refuses changes nothing. *)
Theorem project_token_is_confined disp up seen env gate auth ccid cmd s k x :
  TaskTableSpec.keyed (tasks s) -> PipelineSpec.fresh_supply env s ->
  TaskRepo.get (tasks s) k = Some x -> project_visible auth (Task.project_id x) = false ->
  row (tasks (post_commands disp up seen env gate auth ccid cmd s).2) k = row (tasks s) k /\
  (forall e, boundary disp seen auth ccid cmd s = Err e -> post_commands disp up seen env gate auth ccid cmd s = (Err e, s)).
Proof.
  intros Hk Hf Hx Hv. unfold post_commands. split; [|by intros e ->].
  destruct (boundary disp seen auth ccid cmd s) as [[]|e] eqn:B; [|done]. unfold boundary in B.
  assert (Ha : Avoiding.avoids (tasks s) k cmd).
  { unfold project_visible in Hv. destruct (TokenScope.projects _) eqn:E; [done|].
    destruct ccid; [done|]. eapply command_avoids; [|exact B]. exists x. split; [done|].
    unfold project_visible. by rewrite E. }
  unfold dispatch_command. destruct (guarded_command_reason cmd); [done|]. unfold mbind, M_bind, lift.
  destruct (Revocation.require _ _); [|done]. destruct (MutationWarnings.mutation_warnings _ _ _); [|done].
  pose proof (RowTheorem.dispatch_row disp up env gate (Some (AuthContext.agent_id auth))
    (Capabilities.has (TokenScope.capabilities (AuthContext.scope auth)) Admin) cmd s k Hk ltac:(by exists x) Hf Ha) as Hr.
  by destruct (handle_with_run_owner _ _ _ _ _ _ _ s) as [[out|e] s'].
Qed.
End Property.

(** The walk up the parents of a run meets a run twice, or ends, before its fuel
    does. *)
Lemma run_walk_decides s auth id :
  is_Some (ProjectScope.run_up s auth (S (size (RunRepo.runs (Handler.runs s)))) ∅ (Some id)).
Proof.
  assert (H : forall fuel (seen : gset RunId) next, seen ⊆ dom (RunRepo.runs (Handler.runs s)) ->
    (size (RunRepo.runs (Handler.runs s)) < size seen + fuel)%nat ->
    is_Some (ProjectScope.run_up s auth fuel seen next)).
  { intros fuel. induction fuel as [|fuel IH]; intros seen [i|] Hsub Hsize; cbn [ProjectScope.run_up]; try done.
    - apply subseteq_size in Hsub. rewrite size_dom in Hsub. lia.
    - case_bool_decide as Hin; [done|]. destruct (RunRepo.get _ i) as [r|] eqn:G; [|done].
      destruct (ProjectScope.then_ _ _); [|done]. apply IH.
      + assert (i ∈ dom (RunRepo.runs (Handler.runs s))) by (apply elem_of_dom; by exists r). set_solver.
      + rewrite size_union, size_singleton by set_solver. lia. }
  apply H; [set_solver|]. rewrite size_empty. lia.
Qed.

(** ** Concrete runs *)
Module ScopeRun.
  Import Handler Dispatch.
(** A token for project 5. *)
Definition token : AuthContext :=
  AuthContext.mk (mkId 50) (mkId 51) None None 60
    (TokenScope.mk (Only [mkId 5]) (Capabilities.from_caps [TaskRead; TaskWrite])) Pat None None.
(** Plan 2 and its task belong to project 5, plan 2's parent to project 6. *)
Definition in_project (p : ProjectId) (r : TaskRow) : TaskRow := TaskRow.mk (TaskRow.task r <| Task.project_id := Some p |>) None None.
Definition mixed : St :=
  family <| plans := PlanRepo.mk
              {[ mkId 1 := demo_plan 1 None <| Plan.project_id := mkId 6 |>;
                 mkId 2 := demo_plan 2 (Some (mkId 1)) <| Plan.project_id := mkId 5 |> ]}
              (PlanRepo.plan_tasks family_plans) ∅ |>
         <| tasks := TaskRepo.mk
              {[ mkId 10 := in_project (mkId 6) (TaskRow.mk (TaskRow.task (demo_todo 10) <| Task.status := Done |>) None None);
                 mkId 20 := in_project (mkId 5) (demo_todo 20) ]} ∅ |>.
Definition post (cmd : Command) : Result CoreError (list LifecycleGate.MutationWarning * list EventEnvelope) * St :=
  CommandEndpoint.post_commands Fixtures.demo_display Fixtures.demo_parse Fixtures.demo_env Fixtures.demo_env None token None cmd mixed.
Definition closed_plans (r : Result CoreError (list LifecycleGate.MutationWarning * list EventEnvelope)) : list PlanId :=
  match r with
  | Ok (_, es) => omap (fun e => match Envelope.payload e with
                                 | Event.PlanStatusChanged p _ Completed => Some p | _ => None end) es
  | Err _ => []
  end.
End ScopeRun.

Lemma project_token_is_confined_witness :
  is_ok (ScopeRun.post (Dispatch.CompleteTask (mkId 20) None)).1 = true /\
  TaskRows.row (Handler.tasks (ScopeRun.post (Dispatch.CompleteTask (mkId 20) None)).2) (mkId 10)
  = TaskRows.row (Handler.tasks ScopeRun.mixed) (mkId 10).
Proof.
  split; [vm_compute; reflexivity|].
  destruct (project_token_is_confined Fixtures.demo_display Fixtures.demo_parse Fixtures.demo_env Fixtures.demo_env None
    ScopeRun.token None (Dispatch.CompleteTask (mkId 20) None) ScopeRun.mixed (mkId 10)
    (TaskRow.task (demo_todo 10) <| Task.status := Done |> <| Task.project_id := Some (mkId 6) |>)) as [H _].
  - apply Fixtures.keyed_rows_ok. refine (bool_decide_unpack _ _). vm_compute. exact I.
  - apply Fixtures.small_rows_ok. refine (bool_decide_unpack _ _). vm_compute. exact I.
  - reflexivity.
  - vm_compute. reflexivity.
  - exact H.
Defined.

(** The boundary looks at the plans of a task, not at the parents reconciliation
    closes with them: a plan of another project is completed. *)
Lemma completion_closes_foreign_parent :
  ScopeRun.closed_plans (ScopeRun.post (Dispatch.CompleteTask (mkId 20) None)).1 = [mkId 2; mkId 1] /\
  ProjectScope.plan ScopeRun.mixed ScopeRun.token (mkId 1) <> Ok tt.
Proof. split; [vm_compute; reflexivity|vm_compute; discriminate]. Qed.
