(* ===== verification/ReplicaRuns.v ===== *)
(** * Devices and a server on a bad wire

    Concrete runs of the replication theorems: a server another client has
    written to, a device that works on its replica, a flush whose reply is lost. *)

From S2P Require Import Prelude Shared TaskModel PlanModel RegistryModel Events EventStore TaskStore PlanStore RunStore ActivityStore WorkStore ProjectStore SnapshotStore Outbox Replica Delivery Mirror Convergence Auth AuthLayer Handler Dispatch ReplicaServer Fixtures.

Module ReplicaFixtures.
Import Fixtures.

(** Task 1: made by another client, then moved by the device and renamed by the
    other client. *)
Definition task : TaskId := mkId 1.
Definition created : Z * Event := (5%Z, Event.TaskCreated (NewTask.new (lit "write") <| NewTask.id := Some task |>)).
Definition moved : Z * Event := (7%Z, Event.TaskStatusChanged task Todo InProgress).
Definition renamed : Z * Event :=
  (8%Z, Event.TaskUpdated task (TaskPatch.empty <| TaskPatch.title := Some (lit "renamed") |>)).
Definition payload_of (i : EventId) : Z * Event :=
  if (as_uuid i =? 302)%N then moved else if (as_uuid i =? 303)%N then renamed else created.
Definition minted (i : EventId) : Actor * Z * Event := (ActorOps.user, (payload_of i).1, (payload_of i).2).
Definition event (i : N) : EventEnvelope :=
  Envelope.new (mkId i) (payload_of (mkId i)).1 ActorOps.user (payload_of (mkId i)).2.

Definition admin_context : AuthContext :=
  AuthContext.mk (mkId 50) (mkId 51) None None 60 TokenScope.admin Pat None None.
Definition net (wire : list Wire) : Net := mkNet demo_display demo_env (Ok admin_context) Handler.empty [] wire.
Definition push (i : N) (w : Net) : Net := (Net.push (event i) w).2.

Abbreviation sync := (Replica.catch_up demo_display demo_serde (mkId 0) 9 10).
Abbreviation command := (LocalExecutor.dispatch demo_display demo_serde (mkId 0) 7).
Abbreviation flush := (Flush.flush_pending (W := Net) 8 10).
Definition state {S A} (d : S) (r : option (A * S)) : S := match r with Some (_, s) => s | None => d end.

Definition s0 : Net * Device := (push 301 (net [Deliver; Deliver; Deliver; LoseReply]), Device.fresh (mkId 9)).
Definition s1 := state s0 (sync s0).
Definition d2 := state s1.2 (command [event 302] s1.2).
Definition s3 := state s1 (flush (s1.1, d2)).
Definition s4 := state s3 (flush s3).
Definition s5 : Net * Device := (push 303 s4.1, s4.2).
Definition s6 := state s5 (sync s5).
End ReplicaFixtures.
Import ReplicaFixtures.

(** ** The run *)
Module ReplicaRunFacts.
Import Fixtures Client ConvergenceSpec.

Lemma ran {S A} (r : option (Result CoreError A * S)) d (P : Result CoreError A -> bool) :
  match r with Some (o, _) => P o | None => false end = true -> exists o, r = Some (o, state d r) /\ P o = true.
Proof. destruct r as [[o s]|]; [|done]. intros Ho. by exists o. Qed.

Lemma some_pair {R A B} (o r : R) (s : A * B) w d : Some (o, s) = Some (r, (w, d)) -> o = r /\ s.1 = w /\ s.2 = d.
Proof. by intros [= -> ->]. Qed.

Lemma synced0 : exists o, sync s0 = Some (o, s1) /\ is_ok o = true.
Proof. apply (ran (sync s0) s0 is_ok). by vm_compute. Qed.
Lemma commanded : exists o, command [event 302] s1.2 = Some (o, d2) /\ is_ok o = true.
Proof. apply (ran (command [event 302] s1.2) s1.2 is_ok). by vm_compute. Qed.
Lemma lost_reply : exists o, flush (s1.1, d2) = Some (o, s3) /\ negb (is_ok o) = true.
Proof. apply (ran (flush (s1.1, d2)) s1 (fun o => negb (is_ok o))). by vm_compute. Qed.
Lemma flushed : exists o, flush s3 = Some (o, s4) /\ is_ok o = true.
Proof. apply (ran (flush s3) s3 is_ok). by vm_compute. Qed.
Lemma synced5 : exists o, sync s5 = Some (o, s6) /\ is_ok o = true.
Proof. apply (ran (sync s5) s5 is_ok). by vm_compute. Qed.

(** *** As a run of the replica *)
Lemma minted_whole i : ~ RowSpec.splits task (minted i).2.
Proof. unfold minted, payload_of. cbn. destruct (_ =? _)%N; [by intros []|]. destruct (_ =? _)%N; by intros []. Qed.
Lemma event_honest i : honest minted (event i).
Proof.
  split; [done|]. unfold SnapshotSpec.addressed, event, payload_of. cbn. destruct (_ =? _)%N; [done|].
  destruct (_ =? _)%N; [done|]. cbn. by eexists.
Qed.
Lemma push_later i w : NetFacts.net_sound minted w -> NetFacts.net_later minted w (push i w).
Proof. intros Hs. eapply (NetFacts.push_net minted (event i)); [done|apply event_honest|apply surjective_pairing]. Qed.
Lemma s0_sound : sound (minted := minted) s0.1.
Proof.
  apply push_later. split; [apply wf_empty_log|]. split; [constructor|constructor].
Qed.
Lemma drawn_302 : drawn_here (minted := minted) s1.1 [event 302].
Proof. intros e ->%list_elem_of_singleton. split; [apply event_honest|]. apply (bool_decide_unpack _). by vm_compute. Qed.
Lemma clean_start : first_sync_is_clean (W := Net) s0.2.
Proof. intros _. by left. Qed.
Lemma clean_later d : (0 < Device.server_seq d)%Z -> first_sync_is_clean (W := Net) d.
Proof. intros Hd E. lia. Qed.
Lemma run_s4 : rtc (run (minted := minted)) s0 s4.
Proof.
  destruct synced0 as (o1 & E1 & _), commanded as (o2 & E2 & _), lost_reply as (o3 & E3 & _), flushed as (o4 & E4 & _).
  eapply rtc_l; [rewrite (surjective_pairing s0); eapply run_sync; [apply clean_start|exact E1]|].
  eapply rtc_l; [rewrite (surjective_pairing s1); eapply run_command; [apply drawn_302|exact E2]|].
  eapply rtc_l; [eapply run_flush; exact E3|]. eapply rtc_l; [eapply run_flush; exact E4|apply rtc_refl].
Qed.
Lemma run_s5 : rtc (run (minted := minted)) s0 s5.
Proof.
  eapply rtc_r; [apply run_s4|]. rewrite (surjective_pairing s4). apply run_server, push_later.
  pose proof (ConvergenceFacts.runs_good task minted_whole _ _ run_s4) as [Hs _]; [|exact Hs].
  rewrite (surjective_pairing s0). apply ConvergenceFacts.fresh_good, s0_sound.
Qed.
End ReplicaRunFacts.
Import ReplicaRunFacts.

(** ** The properties at these runs *)

(** *** The same run with the answers of the server kept *)
#[local] Existing Instances logged_source logged_sink logged_answers logged_delivers.
Module LoggedRun.
Import Fixtures.
Abbreviation flush := (Flush.flush_pending (W := Logged Net) 8 10).
Definition l0 : Logged Net * Device := (mkLogged s0.1 [], s0.2).
Definition l1 := state l0 (sync l0).
Definition d2 := state l1.2 (command [event 302] l1.2).
Definition l3 := state l1 (flush (l1.1, d2)).
Definition l4 := state l3 (flush l3).
(** Another client pushes. *)
Definition renamed_by_other (l : Logged Net * Device) : Logged Net * Device :=
  (mkLogged (push 303 (inner l.1)) (replies l.1), l.2).
Definition l5 : Logged Net * Device := renamed_by_other l4.
Definition l6 := state l5 (sync l5).

Lemma logged_synced0 : exists o, sync l0 = Some (o, l1) /\ is_ok o = true.
Proof. apply (ran (sync l0) l0 is_ok). by vm_compute. Qed.
Lemma logged_commanded : exists o, command [event 302] l1.2 = Some (o, d2) /\ is_ok o = true.
Proof. apply (ran (command [event 302] l1.2) l1.2 is_ok). by vm_compute. Qed.
Lemma logged_lost_reply : exists o, flush (l1.1, d2) = Some (o, l3) /\ negb (is_ok o) = true.
Proof. apply (ran (flush (l1.1, d2)) l1 (fun o => negb (is_ok o))). by vm_compute. Qed.
Lemma logged_flushed : exists o, flush l3 = Some (o, l4) /\ is_ok o = true.
Proof. apply (ran (flush l3) l3 is_ok). by vm_compute. Qed.
Lemma logged_synced5 : exists o, sync l5 = Some (o, l6) /\ is_ok o = true.
Proof. apply (ran (sync l5) l5 is_ok). by vm_compute. Qed.

Lemma first_steps : rtc DeliverySpec.step l0 (l1.1, l1.2).
Proof.
  destruct logged_synced0 as (o & E & _). rewrite <- (surjective_pairing l1).
  eapply rtc_l; [eapply DeliverySpec.step_sync; exact E|apply rtc_refl].
Qed.
Lemma until_lost_reply : rtc DeliverySpec.step l0 (l3.1, l3.2).
Proof.
  destruct logged_commanded as (o2 & E2 & _), logged_lost_reply as (o3 & E3 & _). rewrite <- (surjective_pairing l3).
  etrans; [exact first_steps|]. eapply rtc_l; [eapply DeliverySpec.step_command; exact E2|].
  eapply rtc_l; [eapply DeliverySpec.step_flush; exact E3|apply rtc_refl].
Qed.
Lemma other_client l : DeliverySpec.step l (renamed_by_other l).
Proof.
  destruct l as [[w rs] d]. apply DeliverySpec.step_world; [|done]. intros i.
  apply (push_keeps (event 303) w (Net.push (event 303) w).1). exact (f_equal Some (surjective_pairing _)).
Qed.
Lemma queue_steps : rtc DeliverySpec.step (l1.1, d2) (l6.1, l6.2).
Proof.
  destruct logged_lost_reply as (o3 & E3 & _), logged_flushed as (o4 & E4 & _), logged_synced5 as (o6 & E6 & _). rewrite <- (surjective_pairing l6).
  eapply rtc_l; [eapply DeliverySpec.step_flush; exact E3|]. eapply rtc_l; [eapply DeliverySpec.step_flush; exact E4|].
  eapply rtc_l; [exact (other_client l4)|].
  eapply rtc_l; [eapply DeliverySpec.step_sync; exact E6|apply rtc_refl].
Qed.
End LoggedRun.

(** A command, a flush whose reply is lost, its retry and a sync: the entry is the
    only one of its event, and delivered, since the server accepted it once. *)
Lemma outbox_loses_nothing_witness :
  replies LoggedRun.l3.1 = [] /\ replies LoggedRun.l6.1 = [(mkId 302, Accepted)] /\
  exists row, row ∈ Device.outbox LoggedRun.l6.2 /\
    DeliverySpec.stamped (mkId 9) (event 302 <| Envelope.seq := 2%Z |>) row /\
    DeliverySpec.safe LoggedRun.l6.1 LoggedRun.l6.2 row /\
    forall row', row' ∈ Device.outbox LoggedRun.l6.2 ->
      Envelope.id (OutboxRow.envelope row') = mkId 302 -> row' = row.
Proof.
  split; [by vm_compute|]. split; [by vm_compute|]. destruct LoggedRun.logged_commanded as (o & E & Ho).
  destruct (outbox_loses_nothing Fixtures.demo_display demo_serde (mkId 0) 7 (mkId 9) [event 302]
    LoggedRun.l0.1 LoggedRun.l1.1 LoggedRun.l1.2 o LoggedRun.d2 LoggedRun.first_steps E)
    as [(err & -> & _)|[_ H]]; [done|].
  assert (EventStore.latest_seq (Device.log LoggedRun.l1.2) = 1%Z) as El by by vm_compute. rewrite El in H.
  assert (Device.device_id LoggedRun.l1.2 = mkId 9) as Ed by by vm_compute. rewrite Ed in H.
  apply (H LoggedRun.l6.1 LoggedRun.l6.2 LoggedRun.queue_steps). left.
Defined.

(** The retry settles the one entry of the queue. *)
Lemma flush_settles_queue_head_witness :
  exists stats, LoggedRun.flush LoggedRun.l3 = Some (Ok stats, LoggedRun.l4) /\ Flush.attempted stats = 1%nat /\
    (length (Outbox.all_pending LoggedRun.l4.2) + 1)%nat = length (Outbox.all_pending LoggedRun.l3.2) /\
    exists os, LoggedRun.l4.2 = DeliverySpec.settled 8 (DeliverySpec.sent LoggedRun.l3.2 10 ∅) os LoggedRun.l3.2.
Proof.
  destruct LoggedRun.logged_flushed as ([stats|e] & E & Ho); [|done]. exists stats. split; [exact E|].
  pose proof (flush_settles_queue_head 8 10 (mkId 9) LoggedRun.l0.1 LoggedRun.l3.1 LoggedRun.l3.2 (Ok stats)
    LoggedRun.l4.1 LoggedRun.l4.2 LoggedRun.until_lost_reply) as H.
  rewrite <- (surjective_pairing LoggedRun.l3), <- (surjective_pairing LoggedRun.l4) in H. specialize (H E).
  assert (Outbox.held_from LoggedRun.l3.2 ∅ (Outbox.unconfirmed_events LoggedRun.l3.2) = Ok ∅) as Eh by by vm_compute.
  rewrite Eh in H.
  assert (length (DeliverySpec.sent LoggedRun.l3.2 10 ∅) = 1%nat) as El by by vm_compute.
  destruct H as (_ & _ & os & w1 & _ & Hset & _ & Hlen & _ & Ha & _ & _ & Hp). rewrite Hlen, firstn_all in Hset.
  rewrite El in Ha, Hp. split; [exact Ha|]. split; [exact Hp|]. by exists os.
Defined.

(** The device's row after the sync is the one a replay of the server's log gives. *)
Definition replayed : ProjectionFold.Fold :=
  match ProjectionFold.apply_all (mkId 0) 0 ProjectionFold.empty
          (SnapshotSpec.prefix (Handler.log (server s6.1)) (Device.server_seq s6.2)) with
  | Ok f => f
  | Err _ => ProjectionFold.empty
  end.
Abbreviation served := (SnapshotSpec.prefix (Handler.log (server s6.1)) (Device.server_seq s6.2)).
Lemma replay_ok : ProjectionFold.apply_all (mkId 0) 0 ProjectionFold.empty served = Ok replayed.
Proof.
  unfold replayed. destruct (ProjectionFold.apply_all _ _ _ _) as [f|e] eqn:F; [done|]. exfalso. revert F. vm_compute. discriminate.
Qed.
Lemma all_served e : e ∈ EventStore.rows (Device.log s6.2) -> Envelope.id e ∈ map Envelope.id served.
Proof.
  assert (Forall (fun e => Envelope.id e ∈ map Envelope.id served) (EventStore.rows (Device.log s6.2))) as Hall
    by (apply (bool_decide_unpack _); by vm_compute).
  rewrite Forall_forall in Hall. apply Hall.
Qed.

(** ** A first sync over local work

    The device makes a task, the server writes a snapshot that has it, the device
    renames the task and only then syncs for the first time: [catch_up] takes the
    cursor 0 for an empty replica and restores the snapshot over the rename.  The
    rename reaches the server and comes back as an echo, which writes no row. *)
Module FirstSync.
Definition t0 : Net * Device := (net [], Device.fresh (mkId 9)).
Definition t1 := state t0 (flush (t0.1, state t0.2 (command [event 301] t0.2))).
Definition with_snapshot (w : Net) : Net :=
  match SnapshotRepo.write_if_due (mkId 0) 6 (lit "s") (snapshots w) (Handler.log (server w)) 1 with
  | Some (_, t) => w <| snapshots := t |>
  | None => w
  end.
Definition t2 : Net * Device := (with_snapshot t1.1, state t1.2 (command [event 303] t1.2)).
Definition t3 := state t2 (sync t2).
Definition t4 := state t3 (flush t3).
Definition t5 := state t4 (sync t4).
Definition title (t : TaskTable) : option Str := Task.title <$> TaskRepo.get t task.
End FirstSync.

Lemma first_sync_over_local_work_diverges :
  let d := FirstSync.t5.2 in let s := server FirstSync.t5.1 in
  Replica.verified d = true /\ Outbox.all_pending d = [] /\ Device.server_seq d = EventStore.latest_seq (Handler.log s) /\
  FirstSync.title (ProjectionFold.tasks (Device.tables FirstSync.t2.2)) = Some (lit "renamed") /\
  FirstSync.title (Handler.tasks s) = Some (lit "renamed") /\
  FirstSync.title (ProjectionFold.tasks (Device.tables d)) = Some (lit "write").
Proof. repeat split; by vm_compute. Qed.
