(* ===== verification/Runs.v ===== *)
(** * Runs of the small system

    The theorems about dispatched commands at concrete states: each run
    discharges the hypotheses by evaluation and applies the theorem. *)

From S2P Require Import Prelude Shared TaskModel PlanModel RegistryModel Events EventStore TaskStore RelationStore PlanStore RunStore ActivityStore ClaimStore LeaseStore DocumentStore ProjectStore Handler TaskCommands PlanCommands DocumentCommands RunCommands Reconcile Gate Dispatch HandlerFacts Projection TaskLifecycle TaskCompletion Invariants Outcome Fixtures.

Import Handler Dispatch Fixtures.

(** *** A managed task reaches the end of its pipeline *)
Definition managed : St :=
  demo_run [CreateTask (demo_new 1 "build"); CreateTask (demo_new 2 "ship");
            AdvancePipeline (mkId 1) (demo_stage 0 "implementer" 1)] empty.
Definition finish : Command :=
  ClosePipelineStage (mkId 1) 0 (lit "agent-1") (Some (demo_stage 1 "reviewer" 1)).

Lemma pipeline_status_derived_witness :
  TaskView.view (tasks managed) (mkId 1) = Some (InProgress, Some (demo_stage 0 "implementer" 1)) /\
  TaskView.view (tasks (demo_run [finish] managed)) (mkId 1)
    = Some (InReview, Some (demo_stage 1 "reviewer" 1)) /\
  PipelineSpec.pipeline_ok (tasks (demo_run [finish] managed)).
Proof.
  split; [vm_compute; reflexivity|]. split; [vm_compute; reflexivity|].
  refine (proj2 (TaskGuarantees.pipeline_status_derived demo_display demo_parse demo_env None None
    false finish managed (match (demo_handle finish managed).1 with Ok out => out | Err _ => mkOutcome [] [] end)
    _ _ _ _ _ _)).
  - apply keyed_rows_ok. decided.
  - apply small_rows_ok. decided.
  - exact I.
  - apply coherent_rows_ok. decided.
  - vm_compute. reflexivity.
Defined.

(** *** Blocked tasks *)
Definition chain : St :=
  demo_run [CreateTask (demo_new 1 "first"); CreateTask (demo_new 2 "second");
            CreateTask (demo_new 3 "third"); LinkTasks (mkId 1) (mkId 2) Blocks;
            LinkTasks (mkId 2) (mkId 3) Blocks] empty.

Example blocked_task_is_refused : is_ok (demo_handle (CompleteTask (mkId 2) None) chain).1 = false.
Proof. vm_compute. reflexivity. Qed.

(** The whole chain is completed at once. *)
Lemma done_needs_finished_blockers_witness :
  RelationEnforcement.is_done
    (tasks (demo_run [BulkSetStatus [mkId 1; mkId 2; mkId 3] Done] chain)) (mkId 1) = true.
Proof.
  assert (Hp : ~ CompletionSpec.patched_done (BulkSetStatus [mkId 1; mkId 2; mkId 3] Done) (mkId 2)) by by intros (? & ? & _).
  refine (match _ with or_introl Hd => Hd | or_intror Hq => False_ind _ (Hp Hq) end).
  refine (done_needs_finished_blockers demo_display demo_parse demo_env None None false
    (BulkSetStatus [mkId 1; mkId 2; mkId 3] Done) chain
    (match (demo_handle (BulkSetStatus [mkId 1; mkId 2; mkId 3] Done) chain).1 with
     | Ok out => out | Err _ => mkOutcome [] [] end)
    (demo_run [BulkSetStatus [mkId 1; mkId 2; mkId 3] Done] chain) (mkId 2)
    (default (from_new (mkId 0) 0 (NewTask.new [])) (TaskRepo.get (tasks chain) (mkId 2)))
    (mkId 1) _ _ _ _ _ _ _ _ _).
  - apply keyed_rows_ok. decided.
  - split; decided.
  - apply small_rows_ok. decided.
  - exact I.
  - vm_compute. reflexivity.
  - vm_compute. reflexivity.
  - vm_compute. discriminate.
  - vm_compute. reflexivity.
  - apply RelationFacts.elem_of_active. decided.
Defined.

Lemma relation_graph_invariant_witness :
  RelationSpec.acyclic (relations chain) /\
  is_ok (demo_handle (LinkTasks (mkId 3) (mkId 1) Blocks) chain).1 = false /\
  RelationSpec.acyclic (relations (demo_handle (LinkTasks (mkId 3) (mkId 1) Blocks) chain).2).
Proof.
  assert (H : RelationSpec.graph_ok (relations chain)).
  { split; [split; decided|]. apply upward_acyclic. decided. }
  split; [apply H|]. split; [vm_compute; reflexivity|].
  apply (relation_graph_invariant demo_display demo_parse demo_env None None false); apply H.
Defined.

(** *** A completion the gate refuses *)
Definition refusal : Result CoreError DispatchOutcome * St :=
  demo_gated (CompleteTask (mkId 1) None) chain.

Lemma failed_dispatch_effects_witness :
  RefusedSpec.refused demo_display demo_env chain refusal.2 \/
  exists persisted s1,
    EventStore.rows (log s1) = EventStore.rows (log chain) ++ persisted /\
    project_all demo_display demo_env persisted s1 = (Err (Conflict "rule_blocked: {message}{hint}"), refusal.2).
Proof.
  refine (failed_dispatch_effects demo_display demo_parse demo_env (Some closed_gate) None false
    (CompleteTask (mkId 1) None) chain _ _ _).
  vm_compute. reflexivity.
Defined.

(** The task stays open, and yet it blocks nothing any more. *)
Example refused_completion_frees_downstream :
  RelationEnforcement.is_done (tasks refusal.2) (mkId 1) = false /\
  edges refusal.2 = [(mkId 1, mkId 2, WasBlocking); (mkId 2, mkId 3, Blocks)] /\
  is_ok (demo_handle (CompleteTask (mkId 2) None) refusal.2).1 = true.
Proof. vm_compute. auto. Qed.

(** *** A run is completed once its step is backed by a handoff *)
Definition sprint_run : RunId := mkId 1010.
Definition sprint : St :=
  demo_run [CreateProject (lit "p") None;
            MaterializePlan (NewPlan.new (lit "plan") (mkId 1000) ActorOps.user) [demo_new 1 "build"] None;
            StartRun (mkId 1003) (mkId 77) None; RunStartStep sprint_run (mkId 1);
            RunFinishStep sprint_run (mkId 1) OutcomeDone] empty.
Definition delivered : St := demo_run [SetStatus (mkId 1) InReview false None None] sprint.
Definition run_of (s : St) : Run :=
  default (Run.mk (mkId 0) (mkId 0) (mkId 0) None 0 None RunFailed None None None None)
    (RunRepo.get (runs s) sprint_run).

Lemma delivered_feed : RunFacts.feed_ok (activity delivered).
Proof. split; decided. Qed.

Lemma complete_run_contract_witness :
  is_ok (demo_handle (CompleteRun sprint_run) sprint).1 = false /\
  is_ok (demo_handle (CompleteRun sprint_run) delivered).1 = true /\
  Run.status (run_of delivered) = RunActive /\
  Forall (RunFacts.step_met demo_serde (activity delivered)) (RunRepo.list_steps (runs delivered) sprint_run).
Proof.
  split; [vm_compute; reflexivity|]. split; [vm_compute; reflexivity|].
  pose proof (complete_run_contract demo_env sprint_run delivered delivered_feed) as H.
  assert (E : RunRepo.get (runs delivered) sprint_run = Some (run_of delivered)) by (vm_compute; reflexivity).
  rewrite E in H. destruct H as [[H _]|[_ [m H]]]; [exact H|].
  exfalso. apply (f_equal fst) in H. revert H. vm_compute. discriminate.
Defined.

(** *** Where the code departs from what it means to do *)

(** A status patch completes a blocked task. *)
Example patch_ignores_blockers :
  let s := demo_run [UpdateTask (mkId 2) (TaskPatch.empty <| TaskPatch.status := Some Done |>)] chain in
  RelationEnforcement.is_done (tasks s) (mkId 2) = true /\
  RelationEnforcement.is_done (tasks s) (mkId 1) = false.
Proof. vm_compute. auto. Qed.

(** A task that is completed, reopened and linked again cannot be completed. *)
Example relinked_task_is_stuck :
  let s := demo_run [CompleteTask (mkId 1) None; SetStatus (mkId 1) Todo false None None;
                     LinkTasks (mkId 1) (mkId 2) Blocks] chain in
  RelationEnforcement.is_done (tasks s) (mkId 1) = false /\
  (demo_handle (CompleteTask (mkId 1) None) s).1 = Err (Storage "UNIQUE constraint failed").
Proof. vm_compute. auto. Qed.

(** Creating a task under an id in use replaces the task. *)
Example create_replaces_task :
  (Task.title <$> TaskRepo.get (tasks (demo_run [CreateTask (demo_new 1 "other")] chain)) (mkId 1))
  = Some (lit "other").
Proof. vm_compute. reflexivity. Qed.

(** A split with a key in use records its batch and then fails to project it. *)
Example split_key_diverges :
  let keyed (i : N) k := demo_new i "part" <| NewTask.external_key := Some (lit k) |> in
  let s := demo_run [CreateTask (keyed 4%N "k")] chain in
  let r := demo_handle (SplitTask (mkId 1) [keyed 5%N "j"; keyed 6%N "k"]) s in
  is_ok r.1 = false /\
  (length (EventStore.rows (log s)) < length (EventStore.rows (log r.2)))%nat /\
  TaskRepo.get (tasks r.2) (mkId 6) = None.
Proof. vm_compute. auto with arith. Qed.

(** *** A reported task and the entry it leaves in the human log *)
Definition diary : St :=
  demo_run [CreateProject (lit "p") None; CreateTask (demo_new 2 "anchor");
            CreateDocument (Document.mkNew None (mkId 1000) HumanLog (lit "log") None None (Some (mkId 2)) None None)]
    empty.
Definition noted : Result CoreError DispatchOutcome * St :=
  demo_handle (CreateTask (demo_new 1 "build" <| NewTask.project_id := Some (mkId 1000) |>)) diary.

Lemma dispatch_records_outcome_witness :
  length (EventStore.rows (log noted.2)) = (length (EventStore.rows (log diary)) + 2)%nat /\
  exists out entries, noted.1 = Ok out /\ length (out_events out) = 1%nat /\
    EventStore.rows (log noted.2) = EventStore.rows (log diary) ++ out_events out ++ entries /\
    Forall (fun e => Envelope.actor e = ActorOps.user) (out_events out) /\
    Forall OutcomeSpec.log_entry entries.
Proof.
  split; [vm_compute; reflexivity|].
  destruct (dispatch_records_outcome demo_display demo_parse demo_env None None false
    (CreateTask (demo_new 1 "build" <| NewTask.project_id := Some (mkId 1000) |>)) diary
    (outcome noted) noted.2) as (entries & Hl & Ha & He).
  { apply (outcome_ok noted). vm_compute. reflexivity. }
  exists (outcome noted), entries.
  split; [vm_compute; reflexivity|]. split; [vm_compute; reflexivity|]. by split; [|split].
Defined.

(** *** A required rule: completing waits for the evidence *)
Definition owned_rule : Rule.NewRule :=
  Rule.mkNew None (lit "owner") (lit "an owner") ScopeTenant TrTaskBeforeComplete None OwnerRequired Required
    (lit "name an owner") false true.
Definition owner_evidence : Evidence.NewEvidence :=
  Evidence.mkNew None OwnerAssigned (ScopeTask (mkId 1)) None None (lit "kim") JNull None None (Some (mkId 1))
    None None None None.
Definition ruled : St := demo_run [CreateTask (demo_new 1 "build"); CreateRule owned_rule] empty.
Definition evidenced : St := demo_run [RecordEvidence owner_evidence] ruled.
Definition rule_handle (cmd : Command) (s : St) : Result CoreError DispatchOutcome * St :=
  handle_with_run_owner demo_display demo_parse demo_env (Some (rule_gate demo_display)) None false cmd s.

Lemma gate_guards_dispatch_witness :
  is_ok (rule_handle (CompleteTask (mkId 1) None) ruled).1 = false /\
  exists cmd' ws events s0,
    command_events demo_display demo_env None (CompleteTask (mkId 1) None) evidenced = (Ok (cmd', ws, events), s0) /\
    Forall (OutcomeSpec.passes (rule_gate demo_display) s0 ActorOps.user LifecycleGate.no_override)
      (LifecycleGate.derive_gate_checks events).
Proof.
  split; [vm_compute; reflexivity|].
  destruct (gate_guards_dispatch demo_display demo_parse demo_env (rule_gate demo_display) None false
    (CompleteTask (mkId 1) None) evidenced
    (outcome (rule_handle (CompleteTask (mkId 1) None) evidenced))
    (rule_handle (CompleteTask (mkId 1) None) evidenced).2) as [H|(c & ws & es & s0 & He & Hp & _)].
  - apply outcome_ok. vm_compute. reflexivity.
  - exfalso. apply (f_equal length) in H. revert H. vm_compute. discriminate.
  - exists c, ws, es, s0. exact (conj He Hp).
Defined.
